(* ===== verification/_CoqProject ===== *)
-Q . S2P
Prelude.v
Crates.v
Index.v
Fmt.v
Addr.v
Kani.v
Page.v
Frame.v
PageTable.v
Mapper.v
MappedPageTable.v
PageWalk.v
MapperSpec.v
MapperCreate.v
MapperProofs.v
CleanUp.v
CleanUpFull.v
SetFlags.v
MapperExamples.v
OffsetPageTable.v
Gdt.v
Debug.v
Tlb.v
Shootdown.v
RecursivePageTable.v
RecursiveProofs.v
RecursiveCleanUp.v
RecursiveTheorems.v
Idt.v
IdtTable.v
IdtHandlers.v
Cpu.v
Control.v
ModelSpecific.v
Instructions.v
Interrupts.v
TlbCoherence.v
Format.v
UnitTests.v
SyscallSegments.v
TypeInvariant.v
