(* ===== verification/Prelude.v ===== *)
(** * Verification of the [x86_64] crate

    The crate provides the data structures and instructions that an x86-64
    kernel needs.  This development models its memory management core, its
    descriptor tables and its register code as executable functions, and
    proves them correct for every input and every user-supplied environment.

    ** Parts and how they depend on each other

    - Prelude.v (this file): outcomes of Rust computations ([Ret], [Panic],
      [Fault] for undefined behaviour), [Result], the state-and-error monad
      [M] for [&mut] code with [?], [w]-bit unsigned integers as [Z] in
      [0, 2^w) with [wrap], [checked_*] and [arith], the compilation target
      (overflow checks on or off, 32- or 64-bit [usize]), iteration with fuel
      ([collect]), and the tactics and lemmas shared by all files.
    - Crates.v: the third-party crates [bit_field] and [bitflags] as classes of
      operations with laws that state their documented behaviour, reference
      instances that satisfy the laws, and the lemmas and tactics on bit fields
      ([fields_wf], [pack], [bits_read], [bits_write]) shared by the files that
      pack fields into words.
    - Index.v, Addr.v (src/addr.rs), Page.v and Frame.v
      (src/structures/paging/page.rs, frame.rs), PageTable.v
      (src/structures/paging/page_table.rs): addresses, pages, frames and their
      ranges, page table entries and tables.  Kani.v: the proof harnesses of
      addr.rs for the Kani model checker; UnitTests.v: the unit tests of the
      repository, run by the kernel.
    - Mapper.v (src/structures/paging/mapper/mod.rs, frame_alloc.rs): the
      traits as type classes with their provided methods.
    - MappedPageTable.v (mapper/mapped_page_table.rs): the page table walker and
      the implementations of [Mapper] for the three page sizes, of [Translate]
      and of [CleanUp].  Tables live in a memory [Mem], a finite map from
      pointers to tables; a [&mut PageTable] is a pointer, so that aliasing
      between tables is explicit.
    - PageWalk.v: the specification of a hierarchy.  [Valid] is the contract
      ("a valid page table hierarchy"): a tree of tables in memory, whose
      entries above level 1 are unused, huge or point to a table.  [view] maps
      a path of indices to the entry that decides its translation.
    - MapperSpec.v, MapperCreate.v: on a valid hierarchy, each operation runs as
      a pure function of the walk; MapperProofs.v: what the operations do to
      the translation of every address; CleanUp.v, CleanUpFull.v: the same for
      the deallocation of empty tables; SetFlags.v: the flags of parent
      entries; MapperExamples.v: a concrete memory and
      allocator where the hypotheses of these theorems hold.
    - OffsetPageTable.v (mapper/offset_page_table.rs): the mapper over a direct
      map of physical memory, from [map_to] to [translate_addr].
    - Gdt.v (src/structures/gdt.rs, tss.rs, src/registers/segmentation.rs,
      [PrivilegeLevel] of src/lib.rs): selectors, descriptors and the table.
    - Debug.v (src/registers/debug.rs): debug register flags, the packed DR7
      value and the accesses to the registers.
    - Tlb.v (src/instructions/tlb.rs): PCIDs and the broadcast TLB flush;
      Shootdown.v: the flush followed by [tlbsync] on several processors, as a
      labelled transition system.
    - RecursivePageTable.v (mapper/recursive_page_table.rs): the mapper that
      reaches the tables through a level 4 entry that points to its own table.
      Its pointers are virtual, computed from indices, and each access is
      translated by the processor on the hierarchy being edited (the class
      [MMU]).  RecursiveProofs.v, RecursiveCleanUp.v: each operation does what
      MappedPageTable.v does over identity-mapped memory on the hierarchy
      without the recursive entry; RecursiveTheorems.v: the operations as a
      labelled transition system, the simulation of every run, the
      constructor, and a concrete recursive hierarchy.
    - Idt.v (src/structures/idt.rs): gate entries and options, the table, the
      error codes, vectors and stack frames; IdtTable.v: the table as the array
      of 256 words that the processor reads; IdtHandlers.v:
      [set_general_handler!].
    - Cpu.v (src/registers/segmentation.rs, src/instructions/segmentation.rs,
      tables.rs, src/structures/mod.rs): the register file [Cpu], the segment
      and descriptor table registers, and [load] of both tables.
    - Control.v (src/registers/control.rs, xcontrol.rs, rflags.rs, mxcsr.rs,
      src/instructions/interrupts.rs, [flush_all] of tlb.rs): registers of
      flags, with their common contract as the class [FlagRegister], CR2, CR3
      and [without_interrupts].  The contract has the bits that the processor
      shows and stores: CR0.EXTENSION_TYPE and EFER.LONG_MODE_ACTIVE do not
      change, and RFLAGS is read by [pushfq] and written by [popfq].
    - ModelSpecific.v (src/registers/model_specific.rs): [Msr] and the registers
      with a type of their own.
    - Instructions.v (src/instructions/port.rs, random.rs,
      src/structures/port.rs): I/O ports and [RdRand].
    - Interrupts.v (src/instructions/interrupts.rs, mod.rs): the instruction
      sequences of the functions that enable interrupts, halt or call handlers,
      on a processor with pending interrupts and the shadow of [sti].
    - TlbCoherence.v: the composition of the mapper, its flush promises
      ([MapperFlush], [MapperFlushAll]) and a translation cache that holds
      frames and access rights, those of the parent entries included.
    - Fmt.v: what the code uses of [core::fmt], with every option of a format;
      Format.v: the implementations
      of the [fmt] traits in addr.rs, page.rs, frame.rs, page_table.rs, gdt.rs,
      idt.rs, tlb.rs, port.rs, segmentation.rs, model_specific.rs and
      recursive_page_table.rs.
    - SyscallSegments.v: the composition of Gdt.v and ModelSpecific.v that sets
      up the segments of [syscall] and [sysret].
    - TypeInvariant.v: the invariants of the address, page, frame, range, index,
      offset and PCID types as the class [Invariant], and the values a program
      can get from the safe functions, as an inductive predicate.

    ** Conventions

    A Rust function [f] of type [T] is [T_f], or [f] where that is unique; a
    generic method that has one body per page size is one definition per size
    ([map_to_4kib]).  A method that takes [&mut self] returns the new value.  A
    function that can panic returns an [outcome]; one that returns a [Result]
    and changes state is in [M], where an error keeps the state reached.  A
    value of a flags type is the integer [bits()] returns.  [usize] has
    [usize_bits] bits; the plain operators [+], [-], [*] are [arith], which
    panics or wraps as the target says.

    ** Environment

    Parameters of the model, because they are not part of the crate: the
    crates [bit_field] and [bitflags]; the user's [PageTableFrameMapping] (any
    function), frame allocator and deallocator (any functions on a state of
    the user's; [Supply] and [FreshFrames] state the documented contract of
    the allocator for the next few frames); the CPUID leaves; the contents of
    the registers; the translation of virtual pointers by the processor
    ([MMU], with the law that a walk through present entries gives the frame
    of the last one); the addresses of functions ([fn_addr]); the devices
    behind the I/O ports ([Devices]); [cpuid] and [rdrand]
    ([RandIntrinsics]); the translation cache of one processor
    ([TranslationCache], which may drop and reload mappings at any time); what
    a processor drops when it answers an [invlpgb] ([InvlpgbEffect]); the
    interrupt handlers, the times at which interrupts arrive, and whether the
    shadow of [sti] holds off non-maskable interrupts; the [Debug] output of
    the flags types of [bitflags] ([FlagsDebug]).

    ** What the theorems show

    - Addresses (Addr.v): the constructors accept exactly the canonical
      addresses; alignment is the nearest multiple; the [Step] functions,
      including the jump over the gap, are arithmetic on the 2^48 canonical
      addresses in order; indices and offset determine the address.  The
      harnesses of the repository hold for every input (Kani.v), and its unit
      tests pass (UnitTests.v).
    - Pages and frames (Page.v, Frame.v): constructors, round trips with the
      page table indices, arithmetic and when it panics, and that the range
      iterators terminate and yield exactly their pages; the cases where they
      panic or wrap are stated as theorems too.
    - Entries and tables (PageTable.v): what is stored is read back, up to the
      two flags that overlap the address field.
    - Mappers (MapperProofs.v, OffsetPageTable.v): [translate] computes the
      abstract walk; [map_to], [unmap], [update_flags] and [translate_page]
      always return on a valid hierarchy, keep it valid, change the translation
      of exactly the addresses of the page, and each error has a stated cause;
      [unmap] undoes [map_to]; changing the flags of a parent entry that
      points to a table changes no translation (SetFlags.v).  Three theorems
      describe inputs on which the code deviates from its documentation.
    - Clean-up (CleanUp.v, CleanUpFull.v): it terminates, changes no
      translation, frees only empty tables that are no longer linked, and
      [clean_up] leaves no empty table below level 4.
    - Recursive page table (RecursiveTheorems.v): every run of its operations,
      including errors and panics, has the results and the final memory of the
      same run of the mapped page table; [new] accepts exactly the active
      recursive tables; the entries of a huge parent are read as a table, which
      its documentation does not say.
    - Descriptors, debug registers, TLB (Gdt.v, Debug.v, Tlb.v): [append] and
      its capacity check, the encoding of TSS descriptors, independence of
      the fields of DR7 and preservation of its reserved bits, and that the
      broadcast flush covers exactly the pages of its range in batches that
      respect the processor's limit and the gap.
    - Translation caches (TlbCoherence.v, Shootdown.v): a cached mapping that
      grants more than the tables do is always covered by a flush promise that
      was not kept yet, of [unmap] or [update_flags] for its page or of
      [set_flags_p*_entry] for everything; reloading CR3 keeps that last promise
      except for global mappings; a broadcast flush followed by [tlbsync] leaves
      no selected translation on any processor, in every interleaving, and
      completes in every fair run.
    - Interrupts (Interrupts.v): [enable_and_hlt] never sleeps through a
      maskable interrupt, at whatever time it arrives, as long as no non-maskable
      one comes between, while a plain [hlt] can;
      the software interrupts reach their vectors.
    - Formatting (Format.v): addresses are printed faithfully in every base and
      with every option of a format, and debug formatting never panics.
    - Interrupt descriptor table (Idt.v, IdtTable.v, IdtHandlers.v): an entry is
      the gate descriptor of its fields and each setter changes its own field;
      an index or a range reaches exactly the gates of its vectors and is
      rejected where the type of the handler would be wrong;
      [set_general_handler!] makes the processor call the general handler with
      the vector and the error code for exactly the vectors of its range.
    - Registers (Control.v, ModelSpecific.v): a write of flags keeps the bits
      that are not declared and is read back, as far as the processor stores the
      flags; CR3, STAR and the other typed
      registers round-trip and [Star::write] accepts what the documentation
      says; [without_interrupts] runs its closure with interrupts off and
      restores the flag.  Two theorems state where a write does not do what is
      expected: the APIC base keeps the old address, and [flush_all] changes
      the PCID.
    - Across the parts (SyscallSegments.v, TypeInvariant.v): the predefined
      segments are accepted by STAR and select what was appended; every value
      that safe code obtains satisfies the invariant of its type.

    ** Fuel

    Loops over iterators and the flush loop take a fuel argument; the theorems
    hold for every fuel above the number of pages, so they include
    termination.  The recursion of [clean_up] descends the four levels and is
    run with fuel 4; running out would be [Fault], which is proved not to
    happen.

    ** Not modelled

    What the processor does with a register or an instruction beyond its cell,
    its record of operands or the state named above: faults on rejected values,
    changes of mode, write protection, the caches of upper level entries, and
    stale translations of the tables that the recursive mapper accesses ([MMU] translates by the current memory).
    Formatting: the derived [Debug] implementations that no hand-written one
    calls.  [InterruptStackFrame::as_mut], which returns a
    type of the [volatile] crate.  Tests that check sizes, derived traits or
    printing, or that execute instructions.  Concurrency: the mappers are used
    through [&mut]; only [invlpgb] reaches other processors.  The test kernel
    (testing/) boots the crate in an emulator and is not part of it. *)
From Stdlib Require Import ZArith Lia Bool List.
From stdpp Require Import base decidable option list gmap numbers.
#[local] Open Scope Z_scope.

(** ** Outcomes: a Rust computation returns, panics, or reaches undefined
    behaviour.  [Fault] is the last case: a raw pointer is dereferenced that
    does not point to an object of the modelled memory. *)
Inductive outcome (A : Type) : Type :=
  | Ret (a : A)
  | Panic
  | Fault.
Arguments Ret {A} a.
Arguments Panic {A}.
Arguments Fault {A}.

#[export] Instance outcome_ret : MRet outcome := fun _ a => Ret a.
#[export] Instance outcome_bind : MBind outcome := fun _ _ f o =>
  match o with Ret a => f a | Panic => Panic | Fault => Fault end.
#[export] Instance outcome_fmap : FMap outcome := fun _ _ f o =>
  match o with Ret a => Ret (f a) | Panic => Panic | Fault => Fault end.
#[export] Instance outcome_eq_dec `{EqDecision A} : EqDecision (outcome A).
Proof. solve_decision. Defined.

(** [core::result::Result]. *)
Inductive result (A E : Type) : Type :=
  | Ok (a : A)
  | Err (e : E).
Arguments Ok {A E} a.
Arguments Err {A E} e.

#[export] Instance result_eq_dec `{EqDecision A, EqDecision E} : EqDecision (result A E).
Proof. solve_decision. Defined.

(** [Option::unwrap], [Result::unwrap], [assert!]. *)
Definition unwrap {A} (o : option A) : outcome A :=
  match o with Some a => Ret a | None => Panic end.
Definition unwrap_ok {A E} (r : result A E) : outcome A :=
  match r with Ok a => Ret a | Err _ => Panic end.
Definition rust_assert (b : bool) : outcome unit := if b then Ret tt else Panic.

(** ** Stateful fallible code: [&mut] state threaded through a function that
    returns a [Result].  The state reached is kept when the function returns
    an error early (the [?] operator does not roll anything back). *)
Definition M (St E A : Type) : Type := St -> outcome (result A E * St).

#[export] Instance M_ret {St E} : MRet (M St E) := fun _ a s => Ret (Ok a, s).
#[export] Instance M_bind {St E} : MBind (M St E) := fun _ _ f m s =>
  match m s with
  | Ret (Ok a, s') => f a s'
  | Ret (Err e, s') => Ret (Err e, s')
  | Panic => Panic
  | Fault => Fault
  end.

Section monad_ops.
Context {St E : Type}.
Definition throw {A} (e : E) : M St E A := fun s => Ret (Err e, s).
Definition lift {A} (o : outcome A) : M St E A := fun s =>
  match o with Ret a => Ret (Ok a, s) | Panic => Panic | Fault => Fault end.
Definition get_state : M St E St := fun s => Ret (Ok s, s).
Definition put_state (s : St) : M St E unit := fun _ => Ret (Ok tt, s).
Definition of_result {A} (r : result A E) : M St E A := fun s => Ret (r, s).
(** [map_err] and the [From] conversion that [?] inserts. *)
Definition map_err {E' A} (f : E' -> E) (m : M St E' A) : M St E A := fun s =>
  match m s with
  | Ret (Ok a, s') => Ret (Ok a, s')
  | Ret (Err e, s') => Ret (Err (f e), s')
  | Panic => Panic
  | Fault => Fault
  end.
End monad_ops.

(** ** Machine integers: a [w]-bit unsigned integer is a [Z] in [0, 2^w). *)
Definition uN (w x : Z) : Prop := 0 <= x < 2 ^ w.
Abbreviation u64 := (uN 64).
Abbreviation u16 := (uN 16).

Definition U64_MAX : Z := 2 ^ 64 - 1.
Definition U16_MAX : Z := 2 ^ 16 - 1.

(** [as]-casts to an unsigned type and wrapping arithmetic. *)
Definition wrap (w x : Z) : Z := x mod 2 ^ w.
(** [x as i64] for a [u64], and the bitwise complement [!x]. *)
Definition to_i64 (x : Z) : Z := if x <? 2 ^ 63 then x else x - 2 ^ 64.
Definition bitnot (w x : Z) : Z := Z.lxor x (Z.ones w).

Definition checked (w x : Z) : option Z :=
  if (0 <=? x) && (x <? 2 ^ w) then Some x else None.
Definition checked_add (w x y : Z) : option Z := checked w (x + y).
Definition checked_sub (w x y : Z) : option Z := checked w (x - y).
Definition checked_mul (w x y : Z) : option Z := checked w (x * y).

(** [is_power_of_two]. *)
Definition is_power_of_two (x : Z) : bool := (0 <? x) && (x =? 2 ^ Z.log2 x).

(** The compilation target: whether the plain operators [+], [-], [*] check
    for overflow (debug profile) or wrap (release profile), and the width of
    [usize]. *)
Class Target := {
  overflow_checks : bool;
  usize_bits : Z;
}.
Class TargetOk (T : Target) : Prop :=
  target_usize : usize_bits = 32 \/ usize_bits = 64.

(** The result [x] of a plain operator on [w]-bit unsigned operands. *)
Definition arith `{Target} (w x : Z) : outcome Z :=
  if (0 <=? x) && (x <? 2 ^ w) then Ret x
  else if overflow_checks then Panic else Ret (wrap w x).

Definition usize_max `{Target} : Z := 2 ^ usize_bits - 1.
(** [usize::try_from(x).ok()] for a [u64]. *)
Definition usize_try_from `{Target} (x : Z) : option Z :=
  if x <=? usize_max then Some x else None.

(** ** Iterators: [for x in r] with [Iterator::next] as a state function.
    [None] means that the fuel did not suffice. *)
Fixpoint collect {R X : Type} (next : R -> outcome (option X * R)) (fuel : nat) (r : R)
    : outcome (option (list X)) :=
  match fuel with
  | O => Ret None
  | S fuel =>
      '(o, r') ← next r;
      match o with
      | None => Ret (Some [])
      | Some x => l ← collect next fuel r'; Ret (option_map (cons x) l)
      end
  end.

(** ** Generic lemmas on integers *)
Create HintDb x86 discriminated.
Create Rewrite HintDb x86_rw.

(** [lia] on goals with [mod], [/] and constant powers of two. *)
Ltac zify_pow := repeat match goal with
  | H : context [2 ^ ?n] |- _ =>
      let v := eval vm_compute in (2 ^ n) in
      lazymatch v with Zpos _ => change (2 ^ n) with v in H end
  | |- context [2 ^ ?n] =>
      let v := eval vm_compute in (2 ^ n) in
      lazymatch v with Zpos _ => change (2 ^ n) with v end
  end.
Ltac mlia := unfold uN, wrap, U64_MAX, U16_MAX in *; zify_pow;
  Z.to_euclidean_division_equations; lia.

(** Case analysis on the integer comparisons of the goal and the hypotheses,
    innermost first. *)
Ltac zcase_on c := lazymatch c with
  | context [if _ then _ else _] => fail
  | ?a <? ?b => destruct (Z.ltb_spec a b)
  | ?a <=? ?b => destruct (Z.leb_spec a b)
  | ?a =? ?b => destruct (Z.eqb_spec a b)
  end.
Ltac zcase := repeat match goal with
  | |- context [?a <? ?b] => zcase_on (a <? b)
  | |- context [?a <=? ?b] => zcase_on (a <=? b)
  | |- context [?a =? ?b] => zcase_on (a =? b)
  | _ : context [?a <? ?b] |- _ => zcase_on (a <? b)
  | _ : context [?a <=? ?b] |- _ => zcase_on (a <=? b)
  | _ : context [?a =? ?b] |- _ => zcase_on (a =? b)
  end.

Lemma wrap_small w x : uN w x -> wrap w x = x.
Proof. intros H. by apply Z.mod_small. Qed.

Lemma wrap_uN w x : 0 <= w -> uN w (wrap w x).
Proof. intros Hw. apply Z.mod_pos_bound. lia. Qed.

Lemma uN_mono w w' x : 0 <= w <= w' -> uN w x -> uN w' x.
Proof.
  intros Hw [H1 H2]. split; [done|].
  pose proof (Z.pow_le_mono_r 2 w w'). lia.
Qed.

Lemma bitnot_sub w x : 0 <= w -> uN w x -> bitnot w x = 2 ^ w - 1 - x.
Proof.
  intros Hw Hx. unfold bitnot.
  assert (Z.lxor x (Z.ones w) + x = Z.ones w) as E.
  { rewrite Z.add_nocarry_lxor.
    - by rewrite Z.lxor_comm, <- Z.lxor_assoc, Z.lxor_nilpotent, Z.lxor_0_l.
    - apply Z.bits_inj'. intros i Hi. rewrite Z.land_spec, Z.lxor_spec, Z.bits_0.
      destruct (decide (i < w)).
      + rewrite Z.ones_spec_low by lia. by destruct (Z.testbit x i).
      + rewrite <- (Z.mod_small x (2 ^ w)) by done.
        rewrite Z.mod_pow2_bits_high by lia. apply andb_false_r. }
  pose proof (Z.ones_equiv w). lia.
Qed.

Lemma land_ones_mod x k : 0 <= k -> Z.land x (2 ^ k - 1) = x mod 2 ^ k.
Proof. intros Hk. rewrite <- Z.land_ones by done. f_equal. rewrite Z.ones_equiv. lia. Qed.

(** Clearing the low bits: [x & !(2^k - 1)]. *)
Lemma land_clear_low w x k :
  0 <= k <= w -> uN w x -> Z.land x (bitnot w (2 ^ k - 1)) = x - x mod 2 ^ k.
Proof.
  intros Hk Hx.
  assert (Z.land x (bitnot w (2 ^ k - 1)) = Z.ldiff x (Z.ones k)) as ->.
  { apply Z.bits_inj'. intros i Hi. unfold bitnot.
    rewrite Z.ldiff_spec, Z.land_spec, Z.lxor_spec.
    replace (2 ^ k - 1) with (Z.ones k) by (rewrite Z.ones_equiv; lia).
    destruct (decide (i < w)).
    - by rewrite (Z.ones_spec_low w), xorb_true_r by lia.
    - rewrite <- (Z.mod_small x (2 ^ w)) by done.
      by rewrite Z.mod_pow2_bits_high by lia. }
  rewrite Z.ldiff_ones_r, Z.shiftr_div_pow2, Z.shiftl_mul_pow2 by lia.
  pose proof (Z.div_mod x (2 ^ k)). lia.
Qed.

(** Bitwise or of disjoint parts is addition. *)
Lemma lor_low_high x y k : 0 <= k -> 0 <= x < 2 ^ k -> Z.lor x (y * 2 ^ k) = x + y * 2 ^ k.
Proof.
  intros Hk Hx. symmetry. rewrite Z.add_nocarry_lxor, <- Z.lxor_lor; [done| |].
  all: apply Z.bits_inj'; intros i Hi; rewrite Z.land_spec, Z.bits_0;
    rewrite <- (Z.mod_small x (2 ^ k)) by done;
    destruct (decide (i < k));
    [ by rewrite Z.mul_pow2_bits_low, andb_false_r by lia
    | by rewrite Z.mod_pow2_bits_high by lia ].
Qed.

(** Testing one bit by masking: [x & (1 << i) == (1 << i)]. *)
Lemma land_pow2_testbit x i : 0 <= i -> (Z.land x (2 ^ i) =? 2 ^ i) = Z.testbit x i.
Proof.
  intros Hi.
  assert (Z.land x (2 ^ i) = if Z.testbit x i then 2 ^ i else 0) as ->.
  { apply Z.bits_inj'. intros j Hj. rewrite Z.land_spec, Z.pow2_bits_eqb by done.
    destruct (Z.eqb_spec i j) as [->|].
    - rewrite andb_true_r. destruct (Z.testbit x j) eqn:E; [|by rewrite Z.bits_0].
      by rewrite Z.pow2_bits_eqb, Z.eqb_refl by done.
    - rewrite andb_false_r. destruct (Z.testbit x i); [|by rewrite Z.bits_0].
      rewrite Z.pow2_bits_eqb by done. symmetry. by apply Z.eqb_neq. }
  pose proof (Z.pow_pos_nonneg 2 i). destruct (Z.testbit x i); [apply Z.eqb_refl|].
  apply Z.eqb_neq. lia.
Qed.

Lemma is_power_of_two_spec x : is_power_of_two x = true <-> exists k, 0 <= k /\ x = 2 ^ k.
Proof.
  unfold is_power_of_two. rewrite andb_true_iff, Z.ltb_lt, Z.eqb_eq. split.
  - intros [Hx E]. exists (Z.log2 x). split; [apply Z.log2_nonneg|done].
  - intros (k & Hk & ->). split; [by apply Z.pow_pos_nonneg|]. by rewrite Z.log2_pow2.
Qed.

Lemma is_power_of_two_pow2 k : 0 <= k -> is_power_of_two (2 ^ k) = true.
Proof. intros Hk. apply is_power_of_two_spec. eauto. Qed.

Lemma checked_Some w x y : checked w x = Some y <-> x = y /\ uN w x.
Proof.
  unfold checked, uN. destruct (Z.leb_spec 0 x), (Z.ltb_spec x (2 ^ w)); simpl;
    naive_solver lia.
Qed.

Lemma checked_in_range w x : uN w x -> checked w x = Some x.
Proof. intros H. by apply checked_Some. Qed.

Lemma checked_None w x : checked w x = None <-> x < 0 \/ 2 ^ w <= x.
Proof.
  unfold checked. destruct (Z.leb_spec 0 x), (Z.ltb_spec x (2 ^ w)); simpl;
    naive_solver lia.
Qed.

Lemma arith_in_range `{Target} w x : uN w x -> arith w x = Ret x.
Proof.
  intros [H1 H2]. unfold arith.
  by rewrite (proj2 (Z.leb_le 0 x)), (proj2 (Z.ltb_lt _ _)) by done.
Qed.

(** ** Inversion of outcome equations *)
Lemma bind_Ret {A B} (o : outcome A) (f : A -> outcome B) b :
  (x ← o; f x) = Ret b <-> exists a, o = Ret a /\ f a = Ret b.
Proof. destruct o; simpl; split; try naive_solver. Qed.

Lemma unwrap_Ret {A} (o : option A) a : unwrap o = Ret a <-> o = Some a.
Proof. destruct o; simpl; naive_solver. Qed.

Lemma rust_assert_Ret b u : rust_assert b = Ret u <-> b = true.
Proof. destruct b, u; naive_solver. Qed.

#[export] Hint Rewrite @bind_Ret @unwrap_Ret rust_assert_Ret : x86_rw.

(** An iterator that passes through the states [st 0 .. st n], yielding [f i]
    in state [i], is collected when it stops in state [n], and panics when it
    panics there.  Any fuel above [n] is enough. *)
Section collect.
Context {R X : Type} (next : R -> outcome (option X * R)).

Lemma collect_step fuel r x r' :
  next r = Ret (Some x, r') ->
  collect next (S fuel) r = (l ← collect next fuel r'; Ret (option_map (cons x) l)).
Proof. intros E. simpl. by rewrite E. Qed.

Lemma collect_states (st : nat -> R) (f : nat -> X) n fuel :
  (forall i, (i < n)%nat -> next (st i) = Ret (Some (f i), st (S i))) ->
  (exists r, next (st n) = Ret (None, r)) ->
  (n < fuel)%nat ->
  collect next fuel (st O) = Ret (Some (f <$> seq 0 n)).
Proof.
  revert st f fuel. induction n as [|n IH]; intros st f [|fuel] Hstep [r Hstop] Hf; try lia.
  - simpl. by rewrite Hstop.
  - rewrite (collect_step _ _ _ _ (Hstep O ltac:(lia))).
    rewrite (IH (fun i => st (S i)) (fun i => f (S i))) by (eauto with lia || lia).
    cbn -[seq]. rewrite <- cons_seq, <- fmap_S_seq. cbn [fmap list_fmap].
    by rewrite <- list_fmap_compose.
Qed.

Lemma collect_panics (st : nat -> R) (f : nat -> X) n fuel :
  (forall i, (i < n)%nat -> next (st i) = Ret (Some (f i), st (S i))) ->
  next (st n) = Panic ->
  (n < fuel)%nat ->
  collect next fuel (st O) = Panic.
Proof.
  revert st f fuel. induction n as [|n IH]; intros st f [|fuel] Hstep Hstop Hf; try lia.
  - simpl. by rewrite Hstop.
  - rewrite (collect_step _ _ _ _ (Hstep O ltac:(lia))).
    by rewrite (IH (fun i => st (S i)) (fun i => f (S i))) by (eauto with lia || lia).
Qed.

(** The same for states indexed by an integer interval. *)
Lemma collect_range (st : Z -> R) (f : Z -> X) a b fuel :
  (forall i, a <= i < b -> next (st i) = Ret (Some (f i), st (i + 1))) ->
  (exists r, next (st (Z.max a b)) = Ret (None, r)) ->
  (Z.to_nat (b - a) < fuel)%nat ->
  collect next fuel (st a) =
    Ret (Some ((fun i => f (a + Z.of_nat i)) <$> seq 0 (Z.to_nat (b - a)))).
Proof.
  intros Hstep [r Hstop] Hf.
  pose proof (collect_states (fun i => st (a + Z.of_nat i)) (fun i => f (a + Z.of_nat i))
    (Z.to_nat (b - a)) fuel) as E.
  cbn beta in E. rewrite Z.add_0_r in E. apply E; [| |done].
  - intros i Hi. rewrite Hstep by lia. do 3 f_equal. lia.
  - exists r. rewrite <- Hstop. do 2 f_equal. lia.
Qed.

Lemma collect_panics_range (st : Z -> R) (f : Z -> X) a b fuel :
  a <= b ->
  (forall i, a <= i < b -> next (st i) = Ret (Some (f i), st (i + 1))) ->
  next (st b) = Panic ->
  (Z.to_nat (b - a) < fuel)%nat ->
  collect next fuel (st a) = Panic.
Proof.
  intros Hab Hstep Hstop Hf.
  pose proof (collect_panics (fun i => st (a + Z.of_nat i)) (fun i => f (a + Z.of_nat i))
    (Z.to_nat (b - a)) fuel) as E.
  cbn beta in E. rewrite Z.add_0_r in E. apply E; [| |done].
  - intros i Hi. rewrite Hstep by lia. do 3 f_equal. lia.
  - rewrite <- Hstop. do 2 f_equal. lia.
Qed.
End collect.
