(* ===== verification/Crates.v ===== *)
(** * The third-party crates the code calls: [bit_field] and [bitflags]

    Neither crate is part of the repository, so both are parameters of the
    model: a class of operations, and a class of laws that state their
    documented behaviour.  The reference instances at the end show that the
    laws can hold and let examples compute. *)
From Stdlib Require Import ZArith Lia Bool.
From stdpp Require Import base decidable option list numbers.
From S2P Require Import Prelude.
#[local] Open Scope Z_scope.

(** ** [bit_field::BitField]
    [get_bits w x lo hi] is [x.get_bits(lo..hi)] on a [w]-bit integer; an
    open-ended range [lo..] is [lo..w] and [lo..=h] is [lo..h+1]. *)
Class BitField := {
  get_bit : Z -> Z -> Z -> outcome bool;
  set_bit : Z -> Z -> Z -> bool -> outcome Z;
  get_bits : Z -> Z -> Z -> Z -> outcome Z;
  set_bits : Z -> Z -> Z -> Z -> Z -> outcome Z;
}.

(** The bits [lo..hi] of [x], and [x] with these bits replaced by [v]. *)
Definition field (x lo hi : Z) : Z := x / 2 ^ lo mod 2 ^ (hi - lo).
Definition set_field (x lo hi v : Z) : Z := x mod 2 ^ lo + v * 2 ^ lo + x / 2 ^ hi * 2 ^ hi.

(** Documented behaviour: bit 0 is the least significant one; a range outside
    of the integer panics; [set_bits] panics when the value does not fit in
    the range and otherwise changes the bits of the range only. *)
Class BitFieldLaws (B : BitField) : Prop := {
  get_bit_law w x i : uN w x -> 0 <= i < w -> get_bit w x i = Ret (Z.testbit x i);
  set_bit_law w x i b : uN w x -> 0 <= i < w ->
    set_bit w x i b = Ret (set_field x i (i + 1) (Z.b2z b));
  get_bits_law w x lo hi : uN w x -> 0 <= lo < hi -> hi <= w ->
    get_bits w x lo hi = Ret (field x lo hi);
  set_bits_law w x lo hi v : uN w x -> 0 <= lo < hi -> hi <= w -> uN (hi - lo) v ->
    set_bits w x lo hi v = Ret (set_field x lo hi v);
  set_bits_panic w x lo hi v : uN w x -> uN w v -> 0 <= lo < hi -> hi <= w ->
    2 ^ (hi - lo) <= v -> set_bits w x lo hi v = Panic;
}.

(** ** [bitflags]
    A value of a flags type is represented by its [bits()]; [all] is the
    union of the flags the type declares. *)
Class Bitflags := {
  from_bits_truncate : Z -> Z -> Z;
  from_bits : Z -> Z -> option Z;
  contains : Z -> Z -> bool;
  intersects : Z -> Z -> bool;
  flags_is_empty : Z -> bool;
  flags_or : Z -> Z -> Z;
  flags_and : Z -> Z -> Z;
}.

Class BitflagsLaws (F : Bitflags) : Prop := {
  from_bits_truncate_law all b : from_bits_truncate all b = Z.land b all;
  from_bits_law all b :
    from_bits all b = if Z.land b all =? b then Some b else None;
  contains_law a b : contains a b = (Z.land a b =? b);
  intersects_law a b : intersects a b = negb (Z.land a b =? 0);
  flags_is_empty_law a : flags_is_empty a = (a =? 0);
  flags_or_law a b : flags_or a b = Z.lor a b;
  flags_and_law a b : flags_and a b = Z.land a b;
}.

Create Rewrite HintDb flags.
#[export] Hint Rewrite @from_bits_truncate_law @from_bits_law @contains_law
  @intersects_law @flags_is_empty_law @flags_or_law @flags_and_law using typeclasses eauto : flags.

(** ** Reference instances *)
#[export] Instance ref_bit_field : BitField := {
  get_bit w x i := if (0 <=? i) && (i <? w) then Ret (Z.testbit x i) else Panic;
  set_bit w x i b :=
    if (0 <=? i) && (i <? w) then Ret (set_field x i (i + 1) (Z.b2z b)) else Panic;
  get_bits w x lo hi :=
    if (0 <=? lo) && (lo <? hi) && (hi <=? w) then Ret (field x lo hi) else Panic;
  set_bits w x lo hi v :=
    if (0 <=? lo) && (lo <? hi) && (hi <=? w) && (0 <=? v) && (v <? 2 ^ (hi - lo))
    then Ret (set_field x lo hi v) else Panic;
}.

#[export] Instance ref_bit_field_laws : BitFieldLaws ref_bit_field.
Proof.
  split; unfold uN; intros; simpl;
    repeat match goal with |- context [?a <=? ?b] => destruct (Z.leb_spec a b); simpl; try lia
    | |- context [?a <? ?b] => destruct (Z.ltb_spec a b); simpl; try lia end; done.
Qed.

#[export] Instance ref_bitflags : Bitflags := {
  from_bits_truncate all b := Z.land b all;
  from_bits all b := if Z.land b all =? b then Some b else None;
  contains a b := Z.land a b =? b;
  intersects a b := negb (Z.land a b =? 0);
  flags_is_empty a := a =? 0;
  flags_or a b := Z.lor a b;
  flags_and a b := Z.land a b;
}.

#[export] Instance ref_bitflags_laws : BitflagsLaws ref_bitflags.
Proof. by split. Qed.

(** ** Laws of bit ranges *)
Section fields.
Implicit Types x v lo hi i : Z.

Lemma field_uN x lo hi : lo <= hi -> uN (hi - lo) (field x lo hi).
Proof. intros H. apply Z.mod_pos_bound, Z.pow_pos_nonneg; lia. Qed.

Lemma testbit_field x lo hi i :
  0 <= lo <= hi -> 0 <= i ->
  Z.testbit (field x lo hi) i = (i <? hi - lo) && Z.testbit x (i + lo).
Proof.
  intros H Hi. unfold field. destruct (Z.ltb_spec i (hi - lo)); simpl.
  - by rewrite Z.mod_pow2_bits_low, Z.div_pow2_bits by lia.
  - by rewrite Z.mod_pow2_bits_high by lia.
Qed.

Lemma set_field_low x lo hi v :
  0 <= lo <= hi -> uN (hi - lo) v -> uN hi (x mod 2 ^ lo + v * 2 ^ lo).
Proof.
  intros H [Hv1 Hv2]. unfold uN.
  pose proof (Z.mod_pos_bound x (2 ^ lo) ltac:(apply Z.pow_pos_nonneg; lia)).
  replace hi with ((hi - lo) + lo) by lia. rewrite Z.pow_add_r by lia.
  split; [nia|]. assert (v + 1 <= 2 ^ (hi - lo)) by lia. nia.
Qed.

Lemma testbit_set_field x lo hi v i :
  0 <= lo <= hi -> uN (hi - lo) v -> 0 <= i ->
  Z.testbit (set_field x lo hi v) i =
    if (lo <=? i) && (i <? hi) then Z.testbit v (i - lo) else Z.testbit x i.
Proof.
  intros H Hv Hi. unfold set_field.
  rewrite <- (lor_low_high _ (x / 2 ^ hi)) by (lia || by apply set_field_low).
  rewrite <- (lor_low_high _ v) by (lia || apply Z.mod_pos_bound, Z.pow_pos_nonneg; lia).
  rewrite !Z.lor_spec, !Z.mul_pow2_bits by lia.
  destruct (Z.leb_spec lo i), (Z.ltb_spec i hi); simpl.
  - rewrite Z.mod_pow2_bits_high, (Z.testbit_neg_r _ (i - hi)) by lia.
    by rewrite orb_false_r.
  - rewrite Z.mod_pow2_bits_high, Z.div_pow2_bits by lia.
    rewrite <- (Z.mod_small v (2 ^ (hi - lo))) by done.
    rewrite Z.mod_pow2_bits_high by lia. simpl. f_equal. lia.
  - rewrite Z.mod_pow2_bits_low, !(Z.testbit_neg_r _ (_ - _)) by lia.
    by rewrite !orb_false_r.
  - lia.
Qed.

Lemma field_set_field_same x lo hi v :
  0 <= lo <= hi -> uN (hi - lo) v -> field (set_field x lo hi v) lo hi = v.
Proof.
  intros H Hv. apply Z.bits_inj'. intros i Hi.
  rewrite testbit_field, testbit_set_field by (done || lia).
  rewrite <- (Z.mod_small v (2 ^ (hi - lo))) by done.
  destruct (Z.ltb_spec i (hi - lo)); simpl.
  - rewrite (proj2 (Z.leb_le _ _)), (proj2 (Z.ltb_lt _ _)) by lia. simpl. f_equal. lia.
  - by rewrite Z.mod_pow2_bits_high by lia.
Qed.

Lemma field_set_field_other x lo hi v lo' hi' :
  0 <= lo <= hi -> 0 <= lo' <= hi' -> uN (hi - lo) v ->
  hi <= lo' \/ hi' <= lo -> field (set_field x lo hi v) lo' hi' = field x lo' hi'.
Proof.
  intros H H' Hv Hd. apply Z.bits_inj'. intros i Hi.
  rewrite !testbit_field, testbit_set_field by (done || lia).
  destruct (Z.ltb_spec i (hi' - lo')); simpl; [|done].
  by destruct (Z.leb_spec lo (i + lo')), (Z.ltb_spec (i + lo') hi); simpl; try lia.
Qed.

Lemma uN_testbit w x :
  0 <= w -> 0 <= x -> uN w x <-> (forall i, w <= i -> Z.testbit x i = false).
Proof.
  intros Hw Hx. split.
  - intros H i Hi. rewrite <- (Z.mod_small x (2 ^ w)) by done.
    by apply Z.mod_pow2_bits_high.
  - intros H. assert (x = x mod 2 ^ w) as E.
    { apply Z.bits_inj'. intros i Hi. destruct (decide (i < w)).
      - by rewrite Z.mod_pow2_bits_low by lia.
      - rewrite Z.mod_pow2_bits_high by lia. apply H. lia. }
    rewrite E. apply Z.mod_pos_bound. lia.
Qed.

Lemma uN_testbit_high w x i : 0 <= w -> uN w x -> w <= i -> Z.testbit x i = false.
Proof. intros Hw Hx. apply uN_testbit; [done|by destruct Hx|done]. Qed.

Lemma lor_uN w x y : 0 <= w -> uN w x -> uN w y -> uN w (Z.lor x y).
Proof.
  intros Hw Hx Hy. apply uN_testbit; [done|apply Z.lor_nonneg; by destruct Hx, Hy|].
  intros i Hi. rewrite Z.lor_spec. by rewrite !(uN_testbit_high w) by done.
Qed.

Lemma land_uN w x y : 0 <= w -> uN w x -> 0 <= y -> uN w (Z.land x y).
Proof.
  intros Hw Hx Hy. apply uN_testbit; [done|apply Z.land_nonneg; auto|].
  intros i Hi. rewrite Z.land_spec. by rewrite (uN_testbit_high w) by done.
Qed.

Lemma set_field_uN w x lo hi v :
  0 <= lo <= hi -> hi <= w -> uN w x -> uN (hi - lo) v -> uN w (set_field x lo hi v).
Proof.
  intros H Hw Hx Hv. assert (0 <= set_field x lo hi v).
  { pose proof (set_field_low x lo hi v H Hv) as [? _]. unfold set_field.
    destruct Hx. pose proof (Z.div_pos x (2 ^ hi)). lia. }
  apply uN_testbit; [lia|done|]. intros i Hi.
  rewrite testbit_set_field by (done || lia).
  rewrite (proj2 (Z.ltb_ge i hi)), andb_false_r by lia.
  apply (proj1 (uN_testbit w x ltac:(lia) (proj1 Hx)) Hx i Hi).
Qed.
End fields.
#[export] Hint Resolve field_uN set_field_uN lor_uN land_uN : x86.

(** ** Single bits *)
Lemma b2z_uN b i : uN (i + 1 - i) (Z.b2z b).
Proof. replace (i + 1 - i) with 1 by lia. destruct b; split; vm_compute; congruence. Qed.
Lemma zero_uN w : 0 <= w -> uN w 0.
Proof. intros. split; [lia|]. apply Z.pow_pos_nonneg; lia. Qed.
Lemma set_bit_uN w x i b : 0 <= i < w -> uN w x -> uN w (set_field x i (i + 1) (Z.b2z b)).
Proof. intros Hi Hx. apply set_field_uN; [lia|lia|done|apply b2z_uN]. Qed.

(** Reading a bit or a field back through a chain of writes. *)
Lemma testbit_set_bit x i b j :
  0 <= i -> 0 <= j ->
  Z.testbit (set_field x i (i + 1) (Z.b2z b)) j = if j =? i then b else Z.testbit x j.
Proof.
  intros Hi Hj. rewrite testbit_set_field by (apply b2z_uN || lia).
  destruct (Z.eqb_spec j i) as [->|].
  - rewrite (proj2 (Z.leb_le i i)), (proj2 (Z.ltb_lt i (i + 1))) by lia. cbn [andb].
    rewrite Z.sub_diag. by destruct b.
  - destruct (Z.leb_spec i j), (Z.ltb_spec j (i + 1)); cbn [andb]; done || lia.
Qed.
Lemma field_set_bit_other x i b lo hi :
  0 <= i -> 0 <= lo <= hi -> i < lo \/ hi <= i ->
  field (set_field x i (i + 1) (Z.b2z b)) lo hi = field x lo hi.
Proof. intros. apply field_set_field_other; (apply b2z_uN || lia). Qed.
Lemma testbit_set_field_other x lo hi v j :
  0 <= lo <= hi -> uN (hi - lo) v -> 0 <= j -> j < lo \/ hi <= j ->
  Z.testbit (set_field x lo hi v) j = Z.testbit x j.
Proof.
  intros H Hv Hj Hd. rewrite testbit_set_field by done.
  by destruct (Z.leb_spec lo j), (Z.ltb_spec j hi); cbn [andb]; try lia.
Qed.
Lemma field_0 lo hi : field 0 lo hi = 0.
Proof. unfold field. by rewrite Zdiv_0_l, Zmod_0_l. Qed.

(** ** Masks over 64-bit values *)
Lemma testbit_land_bitnot x m i :
  u64 x -> u64 m -> 0 <= i ->
  Z.testbit (Z.land x (bitnot 64 m)) i = Z.testbit x i && negb (Z.testbit m i).
Proof.
  intros Hx Hm Hi. unfold bitnot. rewrite Z.land_spec, Z.lxor_spec.
  destruct (decide (i < 64)).
  - by rewrite Z.ones_spec_low, xorb_true_r by lia.
  - by rewrite (uN_testbit_high 64 x) by (done || lia).
Qed.

Lemma land_bitnot_0 x m :
  u64 x -> u64 m -> Z.land x (bitnot 64 m) = 0 <->
  (forall i, 0 <= i -> Z.testbit m i = false -> Z.testbit x i = false).
Proof.
  intros Hx Hm. split.
  - intros E i Hi Hb. assert (Z.testbit (Z.land x (bitnot 64 m)) i = false) as E'
      by (rewrite E; apply Z.bits_0).
    rewrite testbit_land_bitnot, Hb, andb_true_r in E' by done. done.
  - intros H. apply Z.bits_inj'. intros i Hi.
    rewrite testbit_land_bitnot, Z.bits_0 by done.
    destruct (Z.testbit m i) eqn:E; [apply andb_false_r|]. by rewrite H.
Qed.

(** ** Reading and writing words field by field
    [bits_write] runs the writes and reads of bits and bit ranges by the laws;
    [bits_read] reads a bit or a field through a chain of writes. *)
Ltac bits_uN := solve [ repeat first
  [ assumption | apply set_bit_uN; [lia|] | apply set_field_uN; [lia|lia| |]
  | apply zero_uN; lia | apply b2z_uN ] ].
Ltac bits_side := first [ assumption | lia | bits_uN ].
Ltac bits_read := repeat first
  [ rewrite testbit_set_bit by lia
  | rewrite field_set_field_same by bits_side
  | rewrite field_set_bit_other by lia
  | rewrite field_set_field_other by bits_side
  | rewrite testbit_set_field_other by bits_side ];
  rewrite ?field_0, ?Z.bits_0.
Ltac bits_write := cbn [mbind outcome_bind]; repeat (first [ rewrite set_bit_law by bits_side | rewrite set_bits_law by bits_side
  | rewrite get_bits_law by bits_side | rewrite get_bit_law by bits_side ]; cbn [mbind outcome_bind]).

(** ** Words made of adjacent fields
    [pack] concatenates fields of given widths, the first one at bit 0: the
    memory image of a [repr(C)] structure without padding. *)
Fixpoint pack (l : list (Z * Z)) : Z :=
  match l with
  | [] => 0
  | (w, x) :: l => x + 2 ^ w * pack l
  end.

Definition fields_wf (l : list (Z * Z)) : Prop := Forall (fun '(w, x) => 0 <= w /\ uN w x) l.

Lemma field_pack_low w x l lo hi :
  0 <= lo <= hi -> hi <= w -> uN w x -> field (pack ((w, x) :: l)) lo hi = field x lo hi.
Proof.
  intros H Hw Hx. apply Z.bits_inj'. intros i Hi. rewrite !testbit_field by lia.
  destruct (Z.ltb_spec i (hi - lo)); [|done]. cbn [pack andb].
  rewrite Z.mul_comm, <- lor_low_high, Z.lor_spec, Z.mul_pow2_bits_low by (done || lia).
  apply orb_false_r.
Qed.

Lemma field_pack_high w x l lo hi :
  0 <= w <= lo -> lo <= hi -> uN w x ->
  field (pack ((w, x) :: l)) lo hi = field (pack l) (lo - w) (hi - w).
Proof.
  intros H Hw Hx. apply Z.bits_inj'. intros i Hi. rewrite !testbit_field by lia.
  replace (hi - w - (lo - w)) with (hi - lo) by lia. f_equal. cbn [pack].
  rewrite Z.mul_comm, <- lor_low_high, Z.lor_spec, Z.mul_pow2_bits by (done || lia).
  rewrite (uN_testbit_high w) by (done || lia). cbn [orb]. f_equal. lia.
Qed.

Lemma testbit_field_0 x i : 0 <= i -> Z.testbit x i = Z.odd (field x i (i + 1)).
Proof.
  intros Hi. rewrite <- Z.bit0_odd, testbit_field by lia.
  by rewrite (proj2 (Z.ltb_lt 0 (i + 1 - i))) by lia.
Qed.

Lemma field_all w x : uN w x -> field x 0 w = x.
Proof. intros Hx. unfold field. rewrite Z.sub_0_r, Z.div_1_r. by apply Z.mod_small. Qed.

Lemma pack_uN l w : fields_wf l -> foldr (fun '(w, _) s => w + s) 0 l = w -> uN w (pack l).
Proof.
  unfold fields_wf. revert w. induction l as [|[v x] l IH]; intros w Hl <-; cbn [pack foldr]; [done|].
  apply (Forall_cons_1 _ (v, x)) in Hl as [[Hv Hx] Hl']. pose proof (IH _ Hl' eq_refl) as [IH1 IH2].
  assert (0 <= foldr (fun '(w, _) s => w + s) 0 l).
  { clear -Hl'. induction l as [|[v x] l IH]; cbn; [done|].
    apply (Forall_cons_1 _ (v, x)) in Hl' as [[? _] Hl']. specialize (IH Hl'). lia. }
  unfold uN in *. rewrite Z.pow_add_r by done. nia.
Qed.
