(* ===== verification/Index.v ===== *)
(** * Page table indices, page offsets and page table levels

    Models [PageTableIndex], [PageOffset] and [PageTableLevel] of
    src/structures/paging/page_table.rs, the small types that the address
    types of src/addr.rs depend on. *)
From Stdlib Require Import ZArith Lia Bool.
From stdpp Require Import base decidable option numbers.
From S2P Require Import Prelude.
#[local] Open Scope Z_scope.

(** ** [PageTableIndex] *)
Definition ENTRY_COUNT : Z := 512.

Record PageTableIndex : Type := mkPageTableIndex { pti : Z }.

#[export] Instance PageTableIndex_eq_dec : EqDecision PageTableIndex.
Proof. solve_decision. Defined.

(** Invariant of the type: "guaranteed to only ever contain 0..512". *)
Definition PageTableIndex_wf (i : PageTableIndex) : Prop := 0 <= pti i < ENTRY_COUNT.

Definition PageTableIndex_new (index : Z) : outcome PageTableIndex :=
  _ ← rust_assert (index <? ENTRY_COUNT);
  Ret (mkPageTableIndex index).

Definition PageTableIndex_new_truncate (index : Z) : PageTableIndex :=
  mkPageTableIndex (index mod ENTRY_COUNT).

Definition PageTableIndex_into_u64 (i : PageTableIndex) : Z := pti i.

(** The conversions to [u16], [u32], [u64] and [usize]. *)
Definition u16_from_PageTableIndex (i : PageTableIndex) : Z := pti i.
Definition u32_from_PageTableIndex (i : PageTableIndex) : Z := pti i.
Definition u64_from_PageTableIndex (i : PageTableIndex) : Z := PageTableIndex_into_u64 i.
Definition usize_from_PageTableIndex (i : PageTableIndex) : Z := pti i.

(** [Step for PageTableIndex]; [steps_between] is the standard library's
    [Step::steps_between] at [u16]. *)
Definition PageTableIndex_steps_between (start end_ : PageTableIndex) : Z * option Z :=
  if pti start <=? pti end_
  then (pti end_ - pti start, Some (pti end_ - pti start))
  else (0, None).

Definition PageTableIndex_forward_checked `{Target} (start : PageTableIndex) (count : Z)
    : outcome (option PageTableIndex) :=
  match checked_add usize_bits (pti start) count with
  | None => Ret None
  | Some idx =>
      if idx <? ENTRY_COUNT then Some <$> PageTableIndex_new (wrap 16 idx) else Ret None
  end.

Definition PageTableIndex_backward_checked `{Target} (start : PageTableIndex) (count : Z)
    : outcome (option PageTableIndex) :=
  match checked_sub usize_bits (pti start) count with
  | None => Ret None
  | Some idx => Some <$> PageTableIndex_new (wrap 16 idx)
  end.

(** ** [PageOffset] *)
Record PageOffset : Type := mkPageOffset { page_offset_val : Z }.

Definition PageOffset_wf (o : PageOffset) : Prop := 0 <= page_offset_val o < 4096.

Definition PageOffset_new (offset : Z) : outcome PageOffset :=
  _ ← rust_assert (offset <? 2 ^ 12);
  Ret (mkPageOffset offset).

Definition PageOffset_new_truncate (offset : Z) : PageOffset :=
  mkPageOffset (offset mod 2 ^ 12).

Definition u16_from_PageOffset (o : PageOffset) : Z := page_offset_val o.
Definition u32_from_PageOffset (o : PageOffset) : Z := page_offset_val o.
Definition u64_from_PageOffset (o : PageOffset) : Z := page_offset_val o.
Definition usize_from_PageOffset (o : PageOffset) : Z := page_offset_val o.

(** ** [PageTableLevel] *)
Inductive PageTableLevel : Type := One | Two | Three | Four.

#[export] Instance PageTableLevel_eq_dec : EqDecision PageTableLevel.
Proof. solve_decision. Defined.

(** The discriminant, [self as u8]. *)
Definition level_u8 (l : PageTableLevel) : Z :=
  match l with One => 1 | Two => 2 | Three => 3 | Four => 4 end.

Definition next_lower_level (l : PageTableLevel) : option PageTableLevel :=
  match l with
  | Four => Some Three
  | Three => Some Two
  | Two => Some One
  | One => None
  end.

Definition next_higher_level (l : PageTableLevel) : option PageTableLevel :=
  match l with
  | Four => None
  | Three => Some Four
  | Two => Some Three
  | One => Some Two
  end.

Definition table_address_space_alignment (l : PageTableLevel) : Z :=
  wrap 64 (Z.shiftl 1 (level_u8 l * 9 + 12)).

Definition entry_address_space_alignment (l : PageTableLevel) : Z :=
  wrap 64 (Z.shiftl 1 ((level_u8 l - 1) * 9 + 12)).

(** ** Lemmas *)
Lemma PageTableIndex_new_truncate_wf x : PageTableIndex_wf (PageTableIndex_new_truncate x).
Proof. apply Z.mod_pos_bound. done. Qed.

Lemma PageOffset_new_truncate_wf x : PageOffset_wf (PageOffset_new_truncate x).
Proof. apply Z.mod_pos_bound. done. Qed.

Lemma PageTableIndex_new_wf x : 0 <= x < 512 -> PageTableIndex_new x = Ret (mkPageTableIndex x).
Proof.
  intros H. unfold PageTableIndex_new, ENTRY_COUNT.
  by rewrite (proj2 (Z.ltb_lt x 512)) by lia.
Qed.

Lemma usize_bits_ge `{TargetOk} : 32 <= usize_bits.
Proof. destruct target_usize; lia. Qed.

#[export] Hint Resolve PageTableIndex_new_truncate_wf PageOffset_new_truncate_wf : x86.
