(* ===== verification/Fmt.v ===== *)
(** * What the code uses of [core::fmt]

    A formatting trait of a type is a function from a [Formatter] and a value
    to the text written, as an [outcome]: the implementations call methods
    that can panic.  A [Formatter] has every option of a format: the flags [+],
    [#] (which also selects the pretty form of [Debug]) and [0], the fill and the
    alignment, the width, the precision and [x?]/[X?].  Text is its UTF-8 bytes.
    The file also has the reader of printed numbers, with which the round trips
    are stated. *)
From Stdlib Require Import ZArith Lia Bool Ascii String.
From stdpp Require Import base decidable option list strings.
From S2P Require Import Prelude.
#[local] Open Scope Z_scope.

Inductive Alignment : Type := AlignLeft | AlignRight | AlignCenter.

Record Formatter : Type := mkFormatter {
  sign_plus : bool;
  alternate : bool;
  sign_aware_zero_pad : bool;
  fill : string; (* one character *)
  align : option Alignment;
  width : option Z;
  precision : option Z;
  debug_hex : option bool; (* [x?] is [Some false] and [X?] is [Some true] *)
}.

(** [{}] and [{:#x}]; [zero_padded w] is [{:#0w$x}]. *)
Definition plain : Formatter := mkFormatter false false false " " None None None None.
Definition sharp : Formatter := mkFormatter false true false " " None None None None.
Definition zero_padded (w : Z) : Formatter := mkFormatter false true true " " None (Some w) None None.

(** ** Text *)
Fixpoint repeat_char (n : nat) (c : ascii) (s : string) : string :=
  match n with O => s | S n => String c (repeat_char n c s) end.

Definition newline : ascii := "010"%char.

(** [PadAdapter]: four spaces in front of every line that has characters. *)
Fixpoint pad_lines (on_newline : bool) (s : string) : string :=
  match s with
  | EmptyString => EmptyString
  | String c s =>
      let rest := String c (pad_lines (Ascii.eqb c newline) s) in
      if on_newline then repeat_char 4 " "%char rest else rest
  end.

Fixpoint repeat_string (n : nat) (c : string) : string :=
  match n with O => EmptyString | S n => c +:+ repeat_string n c end.

(** [Formatter::padding]: [n] fill characters around [s], at the alignment or
    else at [default_align]. *)
Definition padding (f : Formatter) (default_align : Alignment) (n : nat) (s : string) : string :=
  let '(pre, post) :=
    match default default_align (align f) with
    | AlignLeft => (0%nat, n)
    | AlignRight => (n, 0%nat)
    | AlignCenter => ((n / 2)%nat, ((n + 1) / 2)%nat)
    end in
  repeat_string pre (fill f) +:+ s +:+ repeat_string post (fill f).

(** [Formatter::pad]: the precision cuts text off, which is aligned to the left
    by default.  The texts printed with it are ASCII. *)
Definition pad (f : Formatter) (s : string) : string :=
  let s := match precision f with Some p => String.substring 0 (Z.to_nat p) s | None => s end in
  match width f with
  | Some w => padding f AlignLeft (Z.to_nat w - String.length s) s
  | None => s
  end.

(** [Formatter::pad_integral] of a non-negative number: aligned to the right by
    default, or filled with zeros behind the sign and the prefix. *)
Definition pad_integral (f : Formatter) (prefix digits : string) : string :=
  let prefix := (if sign_plus f then "+" else EmptyString) +:+
                (if alternate f then prefix else EmptyString) in
  let len := (String.length prefix + String.length digits)%nat in
  match width f with
  | None => prefix +:+ digits
  | Some w =>
      if sign_aware_zero_pad f
      then prefix +:+ repeat_char (Z.to_nat w - len) "0"%char digits
      else padding f AlignRight (Z.to_nat w - len) (prefix +:+ digits)
  end.

(** ** Numbers *)
Definition digit (upper : bool) (d : Z) : ascii :=
  ascii_of_nat (Z.to_nat (if d <? 10 then 48 + d else if upper then 55 + d else 87 + d)).

(** The buffer of 128 digits, filled from its end. *)
Fixpoint radix_digits (fuel : nat) (upper : bool) (b x : Z) (buf : string) : string :=
  match fuel with
  | O => buf
  | S fuel =>
      let buf := String (digit upper (x mod b)) buf in
      if x / b =? 0 then buf else radix_digits fuel upper b (x / b) buf
  end.

Definition digits_of (upper : bool) (b x : Z) : string := radix_digits 128 upper b x EmptyString.

Definition u64_Display (f : Formatter) (x : Z) : string :=
  pad_integral f EmptyString (digits_of false 10 x).
Definition u64_Binary (f : Formatter) (x : Z) : string := pad_integral f "0b" (digits_of false 2 x).
Definition u64_Octal (f : Formatter) (x : Z) : string := pad_integral f "0o" (digits_of false 8 x).
Definition u64_LowerHex (f : Formatter) (x : Z) : string :=
  pad_integral f "0x" (digits_of false 16 x).
Definition u64_UpperHex (f : Formatter) (x : Z) : string :=
  pad_integral f "0x" (digits_of true 16 x).

Definition u64_Debug (f : Formatter) (x : Z) : string :=
  match debug_hex f with
  | Some false => u64_LowerHex f x
  | Some true => u64_UpperHex f x
  | None => u64_Display f x
  end.

(** [fmt::Pointer] of a raw pointer: [#] stands for the full width. *)
Definition pointer_formatter `{Target} (f : Formatter) : Formatter :=
  mkFormatter (sign_plus f) true (alternate f || sign_aware_zero_pad f) (fill f) (align f)
    (if alternate f then Some (default (usize_bits / 4 + 2) (width f)) else width f)
    (precision f) (debug_hex f).
Definition ptr_Pointer `{Target} (f : Formatter) (ptr : Z) : string :=
  u64_LowerHex (pointer_formatter f) ptr.

Definition bool_Debug (f : Formatter) (b : bool) : string := pad f (if b then "true" else "false").

(** ** The builders [debug_struct], [debug_tuple] and [debug_list] *)
Definition sep (first : bool) (a b : string) : string := if first then a else b.

Fixpoint struct_fields (f : Formatter) (first : bool) (fields : list (string * outcome string))
    : outcome string :=
  match fields with
  | [] => Ret EmptyString
  | (name, value) :: fields =>
      v ← value;
      rest ← struct_fields f false fields;
      Ret ((if alternate f
            then sep first (" {" +:+ String newline EmptyString) EmptyString +:+
                 pad_lines true (name +:+ ": " +:+ v +:+ "," +:+ String newline EmptyString)
            else sep first " { " ", " +:+ name +:+ ": " +:+ v) +:+ rest)
  end.

Definition debug_struct (f : Formatter) (name : string) (fields : list (string * outcome string))
    : outcome string :=
  s ← struct_fields f true fields;
  Ret (name +:+ s +:+
    match fields with [] => EmptyString | _ => if alternate f then "}" else " }" end).

Fixpoint tuple_fields (f : Formatter) (first : bool) (open : string)
    (fields : list (outcome string)) : outcome string :=
  match fields with
  | [] => Ret EmptyString
  | value :: fields =>
      v ← value;
      rest ← tuple_fields f false open fields;
      Ret ((if alternate f
            then sep first (open +:+ String newline EmptyString) EmptyString +:+
                 pad_lines true (v +:+ "," +:+ String newline EmptyString)
            else sep first open ", " +:+ v) +:+ rest)
  end.

(** Only named tuple structs occur. *)
Definition debug_tuple (f : Formatter) (name : string) (fields : list (outcome string))
    : outcome string :=
  s ← tuple_fields f true "(" fields;
  Ret (name +:+ s +:+ match fields with [] => EmptyString | _ => ")" end).

Definition debug_list (f : Formatter) (entries : list (outcome string)) : outcome string :=
  s ← tuple_fields f true EmptyString entries;
  Ret ("[" +:+ s +:+ "]").

Definition option_Debug {A} (f : Formatter) (inner : A -> outcome string) (o : option A)
    : outcome string :=
  match o with
  | None => Ret "None"
  | Some a => debug_tuple f "Some" [inner a]
  end.

(** ** Reading a printed number back *)
Definition digit_value (c : ascii) : option Z :=
  let n := Z.of_nat (nat_of_ascii c) in
  if (48 <=? n) && (n <? 58) then Some (n - 48)
  else if (65 <=? n) && (n <? 71) then Some (n - 55)
  else if (97 <=? n) && (n <? 103) then Some (n - 87)
  else None.

Fixpoint read_digits (b acc : Z) (s : string) : option Z :=
  match s with
  | EmptyString => Some acc
  | String c s => d ← digit_value c; read_digits b (acc * b + d) s
  end.

Definition radix_prefix (b : Z) : string := match b with 2 => "0b" | 8 => "0o" | _ => "0x" end.

(** The sign if there is one, the prefix of the base if there is one, and the
    digits, at least one. *)
Definition read_number (signed prefixed : bool) (b : Z) (s : string) : option Z :=
  s ← (if signed then match s with String "+" s => Some s | _ => None end else Some s);
  s ← (if prefixed then
         match s with
         | String c (String d s) =>
             if String.eqb (String c (String d EmptyString)) (radix_prefix b) then Some s else None
         | _ => None
         end
       else Some s);
  match s with EmptyString => None | _ => read_digits b 0 s end.

(** [s] is [body] filled up to the width of the format. *)
Definition filled (f : Formatter) (body s : string) : Prop :=
  let missing := (Z.to_nat (default 0%Z (width f)) - String.length body)%nat in
  exists l r, s = repeat_string l (fill f) +:+ body +:+ repeat_string r (fill f) /\
    (l + r = missing)%nat /\
    match align f with
    | Some AlignLeft => l = 0%nat
    | Some AlignCenter => (l <= r <= l + 1)%nat
    | _ => r = 0%nat
    end.

(** [s] is the number [x] in base [b], filled up to the width. *)
Definition prints_number (f : Formatter) (prefixed : bool) (b x : Z) (s : string) : Prop :=
  exists body, filled f body s /\ read_number (sign_plus f) prefixed b body = Some x.

(** ** Facts *)
Lemma app_assoc_s (a b c : string) : (a +:+ b) +:+ c = a +:+ (b +:+ c).
Proof. induction a as [|x a IH]; [done|]. change (String x ((a +:+ b) +:+ c) = String x (a +:+ (b +:+ c))). by rewrite IH. Qed.

Lemma append_inj_l (p a b : string) : p +:+ a = p +:+ b -> a = b.
Proof. induction p as [|c p IH]; [done|]. intros [= E]. auto. Qed.

Lemma length_append (a b : string) :
  String.length (a +:+ b) = (String.length a + String.length b)%nat.
Proof. induction a as [|c a IH]; [done|]. exact (f_equal S IH). Qed.

Lemma append_inj_r (p a b : string) : a +:+ p = b +:+ p -> a = b.
Proof.
  revert b. induction a as [|c a IH]; intros [|d b] E; [done| | |].
  - apply (f_equal String.length) in E. rewrite !length_append in E. simpl in E. lia.
  - apply (f_equal String.length) in E. rewrite !length_append in E. simpl in E. lia.
  - injection E as -> E. f_equal. auto.
Qed.

Lemma pad_lines_inj b (s t : string) : pad_lines b s = pad_lines b t -> s = t.
Proof.
  revert b t. induction s as [|c s IH]; intros b [|d t] E; cbn in E; [done| | |];
    destruct b; try discriminate; injection E as -> E; f_equal; eauto.
Qed.

Lemma digit_value_digit u d : 0 <= d < 16 -> digit_value (digit u d) = Some d.
Proof.
  intros H. assert (forall n, (n < 16)%nat -> digit_value (digit u (Z.of_nat n)) = Some (Z.of_nat n)) as E.
  { intros n Hn. do 16 (destruct n as [|n]; [by destruct u|]). lia. }
  rewrite <- (Z2Nat.id d) by lia. apply E. lia.
Qed.

Lemma read_radix_digits n u b x buf :
  2 <= b <= 16 -> 0 <= x < b ^ Z.of_nat (S n) ->
  read_digits b 0 (radix_digits (S n) u b x buf) = read_digits b x buf.
Proof.
  intros Hb. revert x buf. induction n as [|n IH]; intros x buf Hx.
  - cbn -[Z.div Z.modulo]. assert (x / b = 0) as -> by (apply Z.div_small; lia). cbn -[Z.modulo].
    rewrite digit_value_digit by (pose proof (Z.mod_pos_bound x b); lia). cbn -[Z.modulo].
    by rewrite Z.mod_small by lia.
  - change (radix_digits (S (S n)) u b x buf) with
      (let buf := String (digit u (x mod b)) buf in
       if x / b =? 0 then buf else radix_digits (S n) u b (x / b) buf). cbv zeta.
    pose proof (Z.mod_pos_bound x b ltac:(lia)). pose proof (Z.div_mod x b ltac:(lia)).
    destruct (Z.eqb_spec (x / b) 0) as [E|E].
    + cbn -[Z.modulo]. rewrite digit_value_digit by lia. cbn -[Z.modulo].
      f_equal. lia.
    + rewrite IH.
      * cbn -[Z.div Z.modulo]. rewrite digit_value_digit by lia. cbn -[Z.div Z.modulo].
        f_equal. lia.
      * split; [apply Z.div_pos; lia|]. apply Z.div_lt_upper_bound; [lia|].
        rewrite (Nat2Z.inj_succ (S n)), Z.pow_succ_r in Hx by lia. lia.
Qed.

Lemma read_digits_of u b x :
  2 <= b <= 16 -> u64 x -> read_digits b 0 (digits_of u b x) = Some x.
Proof.
  intros Hb Hx. unfold digits_of. rewrite read_radix_digits; [done..|].
  destruct Hx. split; [done|]. assert (2 ^ 64 <= b ^ Z.of_nat 128); [|lia].
  transitivity (2 ^ Z.of_nat 128); [done|]. apply Z.pow_le_mono_l. lia.
Qed.

Lemma read_zeros b n s : read_digits b 0 (repeat_char n "0"%char s) = read_digits b 0 s.
Proof. induction n as [|n IH]; [done|]. exact IH. Qed.

Lemma radix_digits_nonempty n u b x buf : radix_digits (S n) u b x buf <> EmptyString.
Proof.
  revert x buf. induction n as [|n IH]; intros x buf; cbn [radix_digits]; destruct (x / b =? 0); try done.
  apply IH.
Qed.

(** Digits behind any number of zeros, the sign and the prefix. *)
Lemma read_body (sg alt u : bool) b x c n :
  2 <= b <= 16 -> u64 x -> String "0"%char (String c EmptyString) = radix_prefix b ->
  read_number sg alt b
    (((if sg then "+" else EmptyString) +:+
      (if alt then String "0"%char (String c EmptyString) else EmptyString)) +:+
     repeat_char n "0"%char (digits_of u b x)) = Some x.
Proof.
  intros Hb Hx Hp. set (s := repeat_char n _ _).
  assert (match s with EmptyString => None | _ => read_digits b 0 s end = Some x) as E.
  { assert (read_digits b 0 s = Some x) as E by (unfold s; by rewrite read_zeros, read_digits_of).
    destruct s eqn:Es; [|done]. destruct n; [|done]. cbn [repeat_char] in s.
    by destruct (radix_digits_nonempty 127 u b x EmptyString). }
  clearbody s. unfold read_number. rewrite <- Hp.
  assert (forall d (p q : string), String d p +:+ q = String d (p +:+ q)) as Hc by done.
  assert (forall q : string, EmptyString +:+ q = q) as Hn by done.
  destruct sg, alt; repeat (rewrite Hc || rewrite Hn); cbn [mbind option_bind];
    rewrite ?String.eqb_refl; exact E.
Qed.

Lemma length_repeat_char n c s : String.length (repeat_char n c s) = (n + String.length s)%nat.
Proof. induction n as [|n IH]; [done|]. exact (f_equal S IH). Qed.

Lemma append_empty_r (s : string) : s +:+ EmptyString = s.
Proof. induction s as [|c s IH]; [done|]. exact (f_equal (String c) IH). Qed.

Lemma filled_none f body :
  (Z.to_nat (default 0%Z (width f)) <= String.length body)%nat -> filled f body body.
Proof.
  intros H. exists 0%nat, 0%nat. cbn [repeat_string]. rewrite append_empty_r.
  split; [done|]. split; [lia|]. destruct (align f) as [[]|]; lia.
Qed.

Lemma filled_padding f w body :
  width f = Some w ->
  filled f body (padding f AlignRight (Z.to_nat w - String.length body) body).
Proof.
  intros E. unfold filled, padding. rewrite E. cbn [default]. set (n := (_ - _)%nat).
  pose proof (Nat.div_mod_eq n 2). pose proof (Nat.div_mod_eq (n + 1) 2).
  pose proof (Nat.mod_upper_bound n 2). pose proof (Nat.mod_upper_bound (n + 1) 2).
  destruct (align f) as [[]|]; cbn [default]; eexists _, _; (split; [reflexivity|]); lia.
Qed.

Lemma zero_padded_body f u b x c w :
  2 <= b <= 16 -> u64 x -> String "0"%char (String c EmptyString) = radix_prefix b ->
  sign_aware_zero_pad f = true -> width f = Some w ->
  let s := pad_integral f (String "0"%char (String c EmptyString)) (digits_of u b x) in
  (Z.to_nat w <= String.length s)%nat /\ read_number (sign_plus f) (alternate f) b s = Some x.
Proof.
  intros Hb Hx Hp Hz Hw. unfold pad_integral. rewrite Hw, Hz. split; [|by apply read_body].
  rewrite length_append, length_repeat_char. lia.
Qed.

(** Every way to print a number can be read back. *)
Lemma pad_integral_prints f u b x c :
  2 <= b <= 16 -> u64 x -> String "0"%char (String c EmptyString) = radix_prefix b ->
  prints_number f (alternate f) b x
    (pad_integral f (String "0"%char (String c EmptyString)) (digits_of u b x)).
Proof.
  intros Hb Hx Hp. destruct (width f) as [w|] eqn:Ew; [destruct (sign_aware_zero_pad f) eqn:Ez|].
  - destruct (zero_padded_body f u b x c w Hb Hx Hp Ez Ew) as [Hl Hr].
    eexists. split; [|exact Hr]. apply filled_none. by rewrite Ew.
  - unfold pad_integral. rewrite Ew, Ez, <- length_append.
    eexists. split; [by apply filled_padding|]. by apply (read_body _ _ u b x c 0).
  - unfold pad_integral. rewrite Ew. eexists. split; [|by apply (read_body _ _ u b x c 0)].
    apply filled_none. rewrite Ew. cbn [default]. lia.
Qed.

Lemma ptr_Pointer_prints `{T : Target} f x : u64 x -> prints_number f true 16 x (ptr_Pointer f x).
Proof.
  intros Hx. unfold ptr_Pointer. destruct (alternate f) eqn:Ea.
  - destruct (zero_padded_body (pointer_formatter f) false 16 x "x"%char
      (default (usize_bits / 4 + 2) (width f))) as [Hl Hr]; [done|done|done|cbn; by rewrite Ea|cbn; by rewrite Ea|].
    eexists. split; [|exact Hr]. apply filled_none. revert Hl. fold (u64_LowerHex (pointer_formatter f) x).
    destruct (width f) as [w|]; cbn [default]; [done|lia].
  - destruct (pad_integral_prints (pointer_formatter f) false 16 x "x"%char) as (body & Hf & Hr); [done..|].
    exists body. split; [|exact Hr]. unfold filled in *. cbn [pointer_formatter width fill align] in Hf.
    by rewrite Ea in Hf.
Qed.

Lemma u64_LowerHex_inj f x y :
  width f = None -> u64 x -> u64 y -> u64_LowerHex f x = u64_LowerHex f y -> x = y.
Proof.
  intros Hw Hx Hy E. assert (forall z, u64 z -> read_number (sign_plus f) (alternate f) 16 (u64_LowerHex f z) = Some z) as R.
  { intros z Hz. unfold u64_LowerHex, pad_integral. rewrite Hw. by apply (read_body _ _ false 16 z "x"%char 0). }
  pose proof (R x Hx) as Ex. rewrite E, R in Ex by done. by injection Ex.
Qed.

(** A named tuple of one field determines the text of the field. *)
Lemma debug_tuple_inj f name (s t : string) :
  debug_tuple f name [Ret s] = debug_tuple f name [Ret t] -> s = t.
Proof.
  unfold debug_tuple. cbn [tuple_fields mbind outcome_bind sep].
  destruct (alternate f); intros [= E]; apply append_inj_l in E; rewrite !app_assoc_s in E;
    apply append_inj_l in E.
  - by apply append_inj_l, append_inj_r, pad_lines_inj, append_inj_r in E.
  - by apply append_inj_r in E.
Qed.
