(* ===== verification/Addr.v ===== *)
(** * Virtual and physical addresses (src/addr.rs)

    [VirtAddr] and [PhysAddr] are [u64] wrappers with an invariant: a virtual
    address is canonical (bits 48 to 63 are copies of bit 47) and a physical
    address has its top 12 bits clear.  This file holds their constructors,
    alignment, page table index extraction, arithmetic and the [Step]
    implementation that crosses the gap between the two canonical halves. *)
From Stdlib Require Import ZArith Lia Bool.
From stdpp Require Import base decidable option numbers.
From S2P Require Import Prelude Crates Index.
#[local] Open Scope Z_scope.

(** ** Data *)
Definition ADDRESS_SPACE_SIZE : Z := 0x1000000000000.

Record VirtAddr : Type := mkVirtAddr { va : Z }.
Record PhysAddr : Type := mkPhysAddr { pa : Z }.
Record VirtAddrNotValid : Type := mkVirtAddrNotValid { vanv : Z }.
Record PhysAddrNotValid : Type := mkPhysAddrNotValid { panv : Z }.

#[export] Instance VirtAddr_eq_dec : EqDecision VirtAddr.
Proof. solve_decision. Defined.
#[export] Instance PhysAddr_eq_dec : EqDecision PhysAddr.
Proof. solve_decision. Defined.

(** ** Free functions *)
Definition align_down (addr align : Z) : outcome Z :=
  _ ← rust_assert (is_power_of_two align);
  Ret (Z.land addr (bitnot 64 (align - 1))).

Definition align_up (addr align : Z) : outcome Z :=
  _ ← rust_assert (is_power_of_two align);
  let align_mask := align - 1 in
  if Z.land addr align_mask =? 0 then Ret addr
  else unwrap (checked_add 64 (Z.lor addr align_mask) 1).

(** ** [VirtAddr] *)
Definition VirtAddr_new_truncate (addr : Z) : VirtAddr :=
  mkVirtAddr (wrap 64 (Z.shiftr (to_i64 (wrap 64 (Z.shiftl addr 16))) 16)).

Definition VirtAddr_try_new (addr : Z) : result VirtAddr VirtAddrNotValid :=
  let v := VirtAddr_new_truncate addr in
  if va v =? addr then Ok v else Err (mkVirtAddrNotValid addr).

Definition VirtAddr_new (addr : Z) : outcome VirtAddr :=
  match VirtAddr_try_new addr with
  | Ok v => Ret v
  | Err _ => Panic
  end.

Definition VirtAddr_new_unsafe (addr : Z) : VirtAddr := mkVirtAddr addr.
Definition VirtAddr_zero : VirtAddr := mkVirtAddr 0.
Definition VirtAddr_as_u64 (a : VirtAddr) : Z := va a.
Definition VirtAddr_is_null (a : VirtAddr) : bool := va a =? 0.

(** A pointer is its 64-bit address. *)
Definition VirtAddr_from_ptr (ptr : Z) : outcome VirtAddr := VirtAddr_new ptr.
Definition VirtAddr_as_ptr (a : VirtAddr) : Z := VirtAddr_as_u64 a.
Definition VirtAddr_as_mut_ptr (a : VirtAddr) : Z := VirtAddr_as_u64 a.

Definition VirtAddr_align_up (a : VirtAddr) (align : Z) : outcome VirtAddr :=
  VirtAddr_new_truncate <$> align_up (va a) align.

Definition VirtAddr_align_down_u64 (a : VirtAddr) (align : Z) : outcome VirtAddr :=
  VirtAddr_new_truncate <$> align_down (va a) align.

Definition VirtAddr_align_down (a : VirtAddr) (align : Z) : outcome VirtAddr :=
  VirtAddr_align_down_u64 a align.

Definition VirtAddr_is_aligned_u64 (a : VirtAddr) (align : Z) : outcome bool :=
  d ← VirtAddr_align_down_u64 a align;
  Ret (VirtAddr_as_u64 d =? VirtAddr_as_u64 a).

Definition VirtAddr_is_aligned (a : VirtAddr) (align : Z) : outcome bool :=
  VirtAddr_is_aligned_u64 a align.

Definition VirtAddr_page_offset (a : VirtAddr) : PageOffset :=
  PageOffset_new_truncate (wrap 16 (va a)).

Definition VirtAddr_p1_index (a : VirtAddr) : PageTableIndex :=
  PageTableIndex_new_truncate (wrap 16 (Z.shiftr (va a) 12)).
Definition VirtAddr_p2_index (a : VirtAddr) : PageTableIndex :=
  PageTableIndex_new_truncate (wrap 16 (Z.shiftr (Z.shiftr (va a) 12) 9)).
Definition VirtAddr_p3_index (a : VirtAddr) : PageTableIndex :=
  PageTableIndex_new_truncate (wrap 16 (Z.shiftr (Z.shiftr (Z.shiftr (va a) 12) 9) 9)).
Definition VirtAddr_p4_index (a : VirtAddr) : PageTableIndex :=
  PageTableIndex_new_truncate
    (wrap 16 (Z.shiftr (Z.shiftr (Z.shiftr (Z.shiftr (va a) 12) 9) 9) 9)).
Definition VirtAddr_page_table_index (a : VirtAddr) (level : PageTableLevel) : PageTableIndex :=
  PageTableIndex_new_truncate
    (wrap 16 (Z.shiftr (Z.shiftr (va a) 12) ((level_u8 level - 1) * 9))).

(** Arithmetic operators. *)
Definition VirtAddr_add (a : VirtAddr) (rhs : Z) : outcome VirtAddr :=
  s ← unwrap (checked_add 64 (va a) rhs);
  VirtAddr_new s.

Definition VirtAddr_sub (a : VirtAddr) (rhs : Z) : outcome VirtAddr :=
  d ← unwrap (checked_sub 64 (va a) rhs);
  VirtAddr_new d.

(** [addr += rhs] and [addr -= rhs] return the address assigned. *)
Definition VirtAddr_add_assign (a : VirtAddr) (rhs : Z) : outcome VirtAddr := VirtAddr_add a rhs.
Definition VirtAddr_sub_assign (a : VirtAddr) (rhs : Z) : outcome VirtAddr := VirtAddr_sub a rhs.

Definition VirtAddr_sub_addr (a b : VirtAddr) : outcome Z :=
  unwrap (checked_sub 64 (VirtAddr_as_u64 a) (VirtAddr_as_u64 b)).

(** ** [Step for VirtAddr] *)
Definition VirtAddr_steps_between_u64 (start end_ : VirtAddr) : option Z :=
  steps ← checked_sub 64 (va end_) (va start);
  Some (Z.land steps 0xffffffffffff).

Definition VirtAddr_steps_between_impl `{Target} (start end_ : VirtAddr) : Z * option Z :=
  match VirtAddr_steps_between_u64 start end_ with
  | Some steps =>
      let steps := usize_try_from steps in
      (default usize_max steps, steps)
  | None => (0, None)
  end.

Section step.
Context `{BitField}.

(** The body of [forward_checked_u64] after its two [?] exits. *)
Definition VirtAddr_forward_checked_u64 (start : VirtAddr) (count : Z)
    : outcome (option VirtAddr) :=
  if ADDRESS_SPACE_SIZE <? count then Ret None else
  match checked_add 64 (va start) count with
  | None => Ret None
  | Some addr =>
      top ← get_bits 64 addr 47 64;
      if top =? 0x1 then
        (* jump the gap by sign extending the 47th bit *)
        addr ← set_bits 64 addr 47 64 0x1ffff;
        Ret (Some (VirtAddr_new_unsafe addr))
      else if top =? 0x2 then Ret None (* address overflow *)
      else Ret (Some (VirtAddr_new_unsafe addr))
  end.

Definition VirtAddr_backward_checked_u64 (start : VirtAddr) (count : Z)
    : outcome (option VirtAddr) :=
  if ADDRESS_SPACE_SIZE <? count then Ret None else
  match checked_sub 64 (va start) count with
  | None => Ret None
  | Some addr =>
      top ← get_bits 64 addr 47 64;
      if top =? 0x1fffe then
        (* jump the gap by sign extending the 47th bit *)
        addr ← set_bits 64 addr 47 64 0;
        Ret (Some (VirtAddr_new_unsafe addr))
      else if top =? 0x1fffd then Ret None (* address underflow *)
      else Ret (Some (VirtAddr_new_unsafe addr))
  end.

(** The [Step] methods take a [usize], which always fits in a [u64]. *)
Definition VirtAddr_forward_checked_impl (start : VirtAddr) (count : Z)
    : outcome (option VirtAddr) :=
  VirtAddr_forward_checked_u64 start count.

Definition VirtAddr_forward_checked (start : VirtAddr) (count : Z) : outcome (option VirtAddr) :=
  VirtAddr_forward_checked_impl start count.

Definition VirtAddr_backward_checked (start : VirtAddr) (count : Z) : outcome (option VirtAddr) :=
  VirtAddr_backward_checked_u64 start count.
End step.

(** ** [PhysAddr] *)
Definition PhysAddr_new_truncate (addr : Z) : PhysAddr := mkPhysAddr (addr mod Z.shiftl 1 52).

Definition PhysAddr_try_new (addr : Z) : result PhysAddr PhysAddrNotValid :=
  let p := PhysAddr_new_truncate addr in
  if pa p =? addr then Ok p else Err (mkPhysAddrNotValid addr).

Definition PhysAddr_new (addr : Z) : outcome PhysAddr :=
  match PhysAddr_try_new addr with
  | Ok p => Ret p
  | Err _ => Panic
  end.

Definition PhysAddr_new_unsafe (addr : Z) : PhysAddr := mkPhysAddr addr.
Definition PhysAddr_zero : PhysAddr := mkPhysAddr 0.
Definition PhysAddr_as_u64 (a : PhysAddr) : Z := pa a.
Definition PhysAddr_is_null (a : PhysAddr) : bool := pa a =? 0.

Definition PhysAddr_align_up (a : PhysAddr) (align : Z) : outcome PhysAddr :=
  u ← align_up (pa a) align;
  PhysAddr_new u.

Definition PhysAddr_align_down_u64 (a : PhysAddr) (align : Z) : outcome PhysAddr :=
  mkPhysAddr <$> align_down (pa a) align.

Definition PhysAddr_align_down (a : PhysAddr) (align : Z) : outcome PhysAddr :=
  PhysAddr_align_down_u64 a align.

Definition PhysAddr_is_aligned_u64 (a : PhysAddr) (align : Z) : outcome bool :=
  d ← PhysAddr_align_down_u64 a align;
  Ret (PhysAddr_as_u64 d =? PhysAddr_as_u64 a).

Definition PhysAddr_is_aligned (a : PhysAddr) (align : Z) : outcome bool :=
  PhysAddr_is_aligned_u64 a align.

Definition PhysAddr_add (a : PhysAddr) (rhs : Z) : outcome PhysAddr :=
  s ← unwrap (checked_add 64 (pa a) rhs);
  PhysAddr_new s.

Definition PhysAddr_sub (a : PhysAddr) (rhs : Z) : outcome PhysAddr :=
  d ← unwrap (checked_sub 64 (pa a) rhs);
  PhysAddr_new d.

Definition PhysAddr_add_assign (a : PhysAddr) (rhs : Z) : outcome PhysAddr := PhysAddr_add a rhs.
Definition PhysAddr_sub_assign (a : PhysAddr) (rhs : Z) : outcome PhysAddr := PhysAddr_sub a rhs.

Definition PhysAddr_sub_addr (a b : PhysAddr) : outcome Z :=
  unwrap (checked_sub 64 (PhysAddr_as_u64 a) (PhysAddr_as_u64 b)).

(** ** Specification: canonical addresses and their position

    Canonical addresses form two halves, [0, 2^47) and [2^64 - 2^47, 2^64).
    [position] numbers them consecutively by [0, 2^48), which is what the
    [Step] implementation counts. *)
Definition canonical (a : VirtAddr) : Prop :=
  0 <= va a < 2 ^ 47 \/ 2 ^ 64 - 2 ^ 47 <= va a < 2 ^ 64.
Definition phys_valid (a : PhysAddr) : Prop := 0 <= pa a < 2 ^ 52.

Definition position (a : VirtAddr) : Z :=
  if va a <? 2 ^ 47 then va a else va a - (2 ^ 64 - 2 ^ 48).
Definition of_position (p : Z) : VirtAddr :=
  mkVirtAddr (if p <? 2 ^ 47 then p else p + (2 ^ 64 - 2 ^ 48)).

Lemma canonical_u64 a : canonical a -> u64 (va a).
Proof. unfold canonical. mlia. Qed.

Lemma position_range a : canonical a -> 0 <= position a < 2 ^ 48.
Proof. unfold canonical, position. zcase; mlia. Qed.

Lemma of_position_canonical p : 0 <= p < 2 ^ 48 -> canonical (of_position p).
Proof. unfold canonical, of_position; simpl. zcase; mlia. Qed.

Lemma position_of_position p : 0 <= p < 2 ^ 48 -> position (of_position p) = p.
Proof. unfold position, of_position; simpl. zcase; mlia. Qed.

Lemma of_position_position a : canonical a -> of_position (position a) = a.
Proof. destruct a as [a]. unfold canonical, position, of_position; simpl. zcase; intros; f_equal; mlia. Qed.

Lemma position_inj a b : canonical a -> canonical b -> position a = position b -> a = b.
Proof.
  intros Ha Hb E. by rewrite <- (of_position_position a), <- (of_position_position b), E.
Qed.

Lemma VirtAddr_new_truncate_val x :
  u64 x -> VirtAddr_new_truncate x = of_position (x mod 2 ^ 48).
Proof.
  intros Hx. unfold VirtAddr_new_truncate, of_position, to_i64. f_equal.
  rewrite Z.shiftl_mul_pow2, Z.shiftr_div_pow2 by lia. zcase; mlia.
Qed.

Lemma VirtAddr_new_truncate_canonical x : u64 x -> canonical (VirtAddr_new_truncate x).
Proof.
  intros Hx. rewrite VirtAddr_new_truncate_val by done.
  apply of_position_canonical, Z.mod_pos_bound. done.
Qed.

Lemma VirtAddr_new_truncate_id a : canonical a -> VirtAddr_new_truncate (va a) = a.
Proof.
  intros Ha. rewrite VirtAddr_new_truncate_val by by apply canonical_u64.
  rewrite <- (of_position_position a) at 2 by done. f_equal.
  unfold canonical, position in *. zcase; mlia.
Qed.

Lemma VirtAddr_try_new_canonical a : canonical a -> VirtAddr_try_new (va a) = Ok a.
Proof.
  intros Ha. unfold VirtAddr_try_new. by rewrite VirtAddr_new_truncate_id, Z.eqb_refl.
Qed.

Lemma VirtAddr_try_new_not_canonical x :
  u64 x -> ~ canonical (mkVirtAddr x) -> VirtAddr_try_new x = Err (mkVirtAddrNotValid x).
Proof.
  intros Hx Hn. unfold VirtAddr_try_new. destruct (Z.eqb_spec (va (VirtAddr_new_truncate x)) x) as [E|]; [|done].
  destruct Hn. rewrite <- E at 1. destruct (VirtAddr_new_truncate x) eqn:E'.
  rewrite <- E'. by apply VirtAddr_new_truncate_canonical.
Qed.

Lemma VirtAddr_new_canonical a : canonical a -> VirtAddr_new (va a) = Ret a.
Proof. intros Ha. unfold VirtAddr_new. by rewrite VirtAddr_try_new_canonical. Qed.

Lemma VirtAddr_new_Ret x a : u64 x -> VirtAddr_new x = Ret a <-> x = va a /\ canonical a.
Proof.
  intros Hx. split.
  - unfold VirtAddr_new, VirtAddr_try_new. zcase; [|done]. intros [= <-].
    split; [done|]. by apply VirtAddr_new_truncate_canonical.
  - intros [-> Ha]. by apply VirtAddr_new_canonical.
Qed.

Lemma VirtAddr_new_Panic x : u64 x -> ~ canonical (mkVirtAddr x) -> VirtAddr_new x = Panic.
Proof. intros Hx Hn. unfold VirtAddr_new. by rewrite VirtAddr_try_new_not_canonical. Qed.

(** ** Alignment *)
Lemma align_down_pow2 x k :
  u64 x -> 0 <= k < 64 -> align_down x (2 ^ k) = Ret (x - x mod 2 ^ k).
Proof.
  intros Hx Hk. unfold align_down. rewrite is_power_of_two_pow2 by lia. simpl.
  by rewrite land_clear_low by (done || lia).
Qed.

Lemma align_down_not_pow2 x a : is_power_of_two a = false -> align_down x a = Panic.
Proof. intros H. unfold align_down. by rewrite H. Qed.

Lemma lor_mask x k : 0 <= k -> Z.lor x (2 ^ k - 1) = x - x mod 2 ^ k + (2 ^ k - 1).
Proof.
  intros Hk. assert (0 < 2 ^ k) by (by apply Z.pow_pos_nonneg).
  replace (2 ^ k - 1) with (Z.ones k) by (rewrite Z.ones_equiv; lia).
  transitivity (Z.lor (Z.ones k) (x / 2 ^ k * 2 ^ k)).
  - apply Z.bits_inj'. intros i Hi. rewrite !Z.lor_spec.
    destruct (decide (i < k)).
    + rewrite (Z.ones_spec_low k) by lia. by rewrite orb_true_r.
    + rewrite (Z.ones_spec_high k), Z.mul_pow2_bits, Z.div_pow2_bits by lia.
      rewrite orb_false_r. simpl. f_equal. lia.
  - rewrite lor_low_high by (rewrite ?Z.ones_equiv; lia).
    pose proof (Z.div_mod x (2 ^ k)). lia.
Qed.

Lemma align_up_pow2 x k :
  u64 x -> 0 <= k < 64 ->
  align_up x (2 ^ k) =
    if x mod 2 ^ k =? 0 then Ret x
    else if x - x mod 2 ^ k + 2 ^ k <? 2 ^ 64 then Ret (x - x mod 2 ^ k + 2 ^ k) else Panic.
Proof.
  intros Hx Hk. unfold align_up. rewrite is_power_of_two_pow2 by lia. simpl.
  rewrite land_ones_mod, lor_mask by lia. zcase; try done.
  all: assert (0 < 2 ^ k) by (apply Z.pow_pos_nonneg; lia);
    pose proof (Z.mod_pos_bound x (2 ^ k)).
  - unfold checked_add. rewrite (proj2 (checked_Some 64 _ (x - x mod 2 ^ k + 2 ^ k))); [done|].
    unfold uN in *. pose proof (Z.mod_le x (2 ^ k)). lia.
  - unfold checked_add. rewrite (proj2 (checked_None 64 _)) by lia. done.
Qed.

(** ** The [Step] implementation refines arithmetic on positions *)
Section step_facts.
Context `{BFL : BitFieldLaws}.

(** Bits 47 to 63 of a sum or difference, and the two gap jumps. *)
Lemma top_bits x : u64 x -> get_bits 64 x 47 64 = Ret (x / 2 ^ 47).
Proof. intros Hx. rewrite get_bits_law by (done || lia). unfold field. f_equal. mlia. Qed.

Lemma set_top_bits x v :
  u64 x -> uN 17 v -> set_bits 64 x 47 64 v = Ret (x mod 2 ^ 47 + v * 2 ^ 47).
Proof.
  intros Hx Hv. rewrite set_bits_law by (done || lia). unfold set_field. f_equal. mlia.
Qed.

Lemma forward_checked_u64_position a n :
  canonical a -> u64 n ->
  VirtAddr_forward_checked_u64 a n =
    Ret (if position a + n <? 2 ^ 48 then Some (of_position (position a + n)) else None).
Proof.
  intros Ha Hn. pose proof (position_range a Ha) as Hp.
  unfold VirtAddr_forward_checked_u64, ADDRESS_SPACE_SIZE.
  destruct (Z.ltb_spec 0x1000000000000 n) as [|Hle]; [zcase; [mlia|done]|].
  destruct (checked_add 64 (va a) n) as [s|] eqn:E.
  - apply checked_Some in E as [<- Hs]. rewrite top_bits by done. simpl.
    rewrite set_top_bits by done. simpl.
    unfold position, canonical, of_position, VirtAddr_new_unsafe in *.
    zcase; try done; try mlia; do 3 f_equal; mlia.
  - apply checked_None in E. unfold position, canonical in *. zcase; try done; mlia.
Qed.

Lemma backward_checked_u64_position a n :
  canonical a -> u64 n ->
  VirtAddr_backward_checked_u64 a n =
    Ret (if n <=? position a then Some (of_position (position a - n)) else None).
Proof.
  intros Ha Hn. pose proof (position_range a Ha) as Hp.
  unfold VirtAddr_backward_checked_u64, ADDRESS_SPACE_SIZE.
  destruct (Z.ltb_spec 0x1000000000000 n) as [|Hle]; [zcase; [mlia|done]|].
  destruct (checked_sub 64 (va a) n) as [s|] eqn:E.
  - apply checked_Some in E as [<- Hs]. rewrite top_bits by done. simpl.
    rewrite set_top_bits by done. simpl.
    unfold position, canonical, of_position, VirtAddr_new_unsafe in *.
    zcase; try done; try mlia; do 3 f_equal; mlia.
  - apply checked_None in E. unfold position, canonical in *. zcase; try done; mlia.
Qed.
End step_facts.

Lemma steps_between_u64_position a b :
  canonical a -> canonical b ->
  VirtAddr_steps_between_u64 a b =
    if position a <=? position b then Some (position b - position a) else None.
Proof.
  intros Ha Hb. unfold VirtAddr_steps_between_u64, checked_sub.
  destruct (checked 64 (va b - va a)) as [s|] eqn:E; simpl.
  - apply checked_Some in E as [<- Hs]. change 0xffffffffffff with (2 ^ 48 - 1).
    rewrite land_ones_mod by lia. unfold position, canonical in *.
    zcase; try mlia; f_equal; mlia.
  - apply checked_None in E. unfold position, canonical in *. zcase; try done; mlia.
Qed.

Lemma canonical_dec a : {canonical a} + {~ canonical a}.
Proof. apply (decide (0 <= va a < 2 ^ 47 \/ 2 ^ 64 - 2 ^ 47 <= va a < 2 ^ 64)). Defined.

Lemma PhysAddr_try_new_valid a : phys_valid a -> PhysAddr_try_new (pa a) = Ok a.
Proof.
  destruct a as [a]. unfold phys_valid, PhysAddr_try_new, PhysAddr_new_truncate; simpl. intros H.
  rewrite Z.mod_small by done. by rewrite Z.eqb_refl.
Qed.

Lemma PhysAddr_new_valid a : phys_valid a -> PhysAddr_new (pa a) = Ret a.
Proof. intros H. unfold PhysAddr_new. by rewrite PhysAddr_try_new_valid. Qed.

Lemma PhysAddr_new_truncate_valid x : 0 <= x -> phys_valid (PhysAddr_new_truncate x).
Proof. intros H. apply Z.mod_pos_bound. done. Qed.

Lemma PhysAddr_new_Ret x a : 0 <= x -> PhysAddr_new x = Ret a <-> x = pa a /\ phys_valid a.
Proof.
  intros Hx. split.
  - unfold PhysAddr_new, PhysAddr_try_new. zcase; [|done]. intros [= <-].
    split; [done|]. by apply PhysAddr_new_truncate_valid.
  - intros [-> Ha]. by apply PhysAddr_new_valid.
Qed.

Lemma phys_valid_u64 a : phys_valid a -> u64 (pa a).
Proof. unfold phys_valid. mlia. Qed.

#[export] Hint Resolve canonical_u64 phys_valid_u64 VirtAddr_new_truncate_canonical
  PhysAddr_new_truncate_valid position_range of_position_canonical : x86.

(** Multiples of [2^k] and the rounded value. *)
Lemma round_down_greatest x a : 0 < a -> (a | x - x mod a) /\ forall y, (a | y) -> y <= x -> y <= x - x mod a.
Proof.
  intros Ha. split.
  - exists (x / a). pose proof (Z.div_mod x a). lia.
  - intros y [q ->] Hy. pose proof (Z.div_mod x a ltac:(lia)) as E.
    pose proof (Z.div_le_lower_bound x a q Ha ltac:(lia)). nia.
Qed.

Lemma round_up_least x a :
  0 < a -> x mod a <> 0 -> (a | x - x mod a + a) /\ forall y, (a | y) -> x <= y -> x - x mod a + a <= y.
Proof.
  intros Ha Hx. split.
  - exists (x / a + 1). pose proof (Z.div_mod x a). lia.
  - intros y [q ->] Hy. pose proof (Z.div_mod x a ltac:(lia)) as E.
    pose proof (Z.mod_pos_bound x a Ha). assert (x / a < q) by nia. nia.
Qed.

Lemma pow2_lt_64 a k : u64 a -> 0 <= k -> a = 2 ^ k -> 0 <= k < 64.
Proof.
  intros Ha Hk ->. split; [done|]. destruct Ha as [_ Ha].
  by apply Z.pow_lt_mono_r_iff in Ha.
Qed.

Lemma VirtAddr_align_down_pow2 a k :
  canonical a -> 0 <= k <= 47 ->
  VirtAddr_align_down_u64 a (2 ^ k) = Ret (mkVirtAddr (va a - va a mod 2 ^ k)) /\
  canonical (mkVirtAddr (va a - va a mod 2 ^ k)).
Proof.
  intros Ha Hk. unfold VirtAddr_align_down_u64.
  rewrite align_down_pow2 by (lia || by apply canonical_u64). simpl.
  assert (canonical (mkVirtAddr (va a - va a mod 2 ^ k))) as Hc.
  { assert (0 < 2 ^ k) by (apply Z.pow_pos_nonneg; lia).
    pose proof (Z.mod_pos_bound (va a) (2 ^ k) ltac:(done)).
    pose proof (proj2 (round_down_greatest (va a) (2 ^ k) ltac:(done))) as G.
    unfold canonical in *; simpl. destruct Ha as [Ha|Ha].
    - left. specialize (G 0 (Z.divide_0_r _)). lia.
    - right. assert ((2 ^ k | 2 ^ 64 - 2 ^ 47)) as Hd.
      { exists (2 ^ (64 - k) - 2 ^ (47 - k)).
        rewrite Z.mul_sub_distr_r, <- !Z.pow_add_r by lia. do 2 f_equal; lia. }
      specialize (G _ Hd). lia. }
  split; [|done]. f_equal. by apply (VirtAddr_new_truncate_id (mkVirtAddr _)).
Qed.

Lemma PhysAddr_align_down_pow2 a k :
  phys_valid a -> 0 <= k < 64 ->
  PhysAddr_align_down_u64 a (2 ^ k) = Ret (mkPhysAddr (pa a - pa a mod 2 ^ k)) /\
  phys_valid (mkPhysAddr (pa a - pa a mod 2 ^ k)).
Proof.
  intros Ha Hk. unfold PhysAddr_align_down_u64.
  rewrite align_down_pow2 by (lia || by apply phys_valid_u64). split; [done|].
  unfold phys_valid in *; simpl.
  pose proof (Z.mod_pos_bound (pa a) (2 ^ k) ltac:(apply Z.pow_pos_nonneg; lia)).
  pose proof (Z.mod_le (pa a) (2 ^ k)). lia.
Qed.

(** The page table indices as arithmetic on the address. *)
Lemma VirtAddr_index_val a :
  canonical a ->
  pti (VirtAddr_p1_index a) = va a / 2 ^ 12 mod 512 /\
  pti (VirtAddr_p2_index a) = va a / 2 ^ 21 mod 512 /\
  pti (VirtAddr_p3_index a) = va a / 2 ^ 30 mod 512 /\
  pti (VirtAddr_p4_index a) = va a / 2 ^ 39 mod 512 /\
  page_offset_val (VirtAddr_page_offset a) = va a mod 2 ^ 12.
Proof.
  intros Ha. unfold VirtAddr_p1_index, VirtAddr_p2_index, VirtAddr_p3_index,
    VirtAddr_p4_index, VirtAddr_page_offset; simpl. unfold ENTRY_COUNT.
  rewrite !Z.shiftr_shiftr, !Z.shiftr_div_pow2 by lia. simpl.
  split_and!; mlia.
Qed.

Lemma VirtAddr_page_table_index_levels a :
  VirtAddr_page_table_index a One = VirtAddr_p1_index a /\
  VirtAddr_page_table_index a Two = VirtAddr_p2_index a /\
  VirtAddr_page_table_index a Three = VirtAddr_p3_index a /\
  VirtAddr_page_table_index a Four = VirtAddr_p4_index a.
Proof.
  unfold VirtAddr_page_table_index, VirtAddr_p1_index, VirtAddr_p2_index,
    VirtAddr_p3_index, VirtAddr_p4_index.
  rewrite !Z.shiftr_shiftr by (simpl; lia). done.
Qed.

(** ** Properties of addresses *)

(** C22. [VirtAddr::try_new] accepts exactly the canonical addresses, unchanged,
    and reports every other [u64]; [VirtAddr::new] panics exactly when it
    fails; [VirtAddr::new_truncate] always gives the canonical address with
    the same low 48 bits. *)
Theorem VirtAddr_constructors x :
  u64 x ->
  match VirtAddr_try_new x with
  | Ok a => canonical a /\ va a = x /\ VirtAddr_new x = Ret a
  | Err e => ~ canonical (mkVirtAddr x) /\ vanv e = x /\ VirtAddr_new x = Panic
  end /\
  canonical (VirtAddr_new_truncate x) /\ va (VirtAddr_new_truncate x) mod 2 ^ 48 = x mod 2 ^ 48.
Proof.
  intros Hx. split_and!.
  - destruct (canonical_dec (mkVirtAddr x)) as [Hc|Hn].
    + pose proof (VirtAddr_try_new_canonical _ Hc) as E; simpl in E; rewrite E. split_and!; [done..|].
      by apply (VirtAddr_new_canonical _ Hc).
    + rewrite VirtAddr_try_new_not_canonical by done. split_and!; [done..|].
      by apply VirtAddr_new_Panic.
  - by apply VirtAddr_new_truncate_canonical.
  - rewrite VirtAddr_new_truncate_val by done. unfold of_position; simpl. zcase; mlia.
Qed.

Lemma VirtAddr_constructors_witness :
  u64 0x800000000000 /\ VirtAddr_try_new 0x800000000000 = Err (mkVirtAddrNotValid 0x800000000000) /\
  canonical (VirtAddr_new_truncate 0x800000000000).
Proof.
  assert (u64 0x800000000000) as H by (unfold uN; lia).
  split; [exact H|]. split; [vm_compute; reflexivity|].
  exact (proj1 (proj2 (VirtAddr_constructors _ H))).
Defined.

(** [PhysAddr::try_new] accepts exactly the addresses below 2^52, unchanged,
    and reports every other [u64]; [PhysAddr::new] panics exactly when it fails;
    [PhysAddr::new_truncate] keeps the low 52 bits. *)
Theorem PhysAddr_constructors x :
  u64 x ->
  match PhysAddr_try_new x with
  | Ok a => phys_valid a /\ pa a = x /\ PhysAddr_new x = Ret a
  | Err e => ~ phys_valid (mkPhysAddr x) /\ panv e = x /\ PhysAddr_new x = Panic
  end /\
  phys_valid (PhysAddr_new_truncate x) /\ pa (PhysAddr_new_truncate x) = x mod 2 ^ 52.
Proof.
  intros Hx. split_and!; [|apply PhysAddr_new_truncate_valid; apply Hx|done].
  destruct (decide (x < 2 ^ 52)) as [Hc|Hn].
  - assert (phys_valid (mkPhysAddr x)) as Hv by (unfold phys_valid; simpl; unfold uN in *; lia).
    pose proof (PhysAddr_try_new_valid _ Hv) as E; simpl in E; rewrite E.
    split_and!; [done..|]. by apply (PhysAddr_new_valid _ Hv).
  - unfold PhysAddr_new, PhysAddr_try_new. zcase.
    + exfalso. apply Hn. pose proof (PhysAddr_new_truncate_valid x (proj1 Hx)) as [_ H]. lia.
    + split_and!; [unfold phys_valid; simpl; lia|done..].
Qed.

Lemma PhysAddr_constructors_witness :
  u64 0xfff0000000001000 /\ pa (PhysAddr_new_truncate 0xfff0000000001000) = 0x1000.
Proof.
  assert (u64 0xfff0000000001000) as H by (unfold uN; lia).
  split; [exact H|]. rewrite (proj2 (proj2 (PhysAddr_constructors _ H))).
  vm_compute; reflexivity.
Defined.

(** C21. Stepping over virtual addresses, gap included, is arithmetic on the
    positions 0 to 2^48 - 1 of the canonical addresses: [forward_checked] and
    [backward_checked] reach the address [n] positions away and return [None]
    exactly when there is none, and [steps_between] counts positions (capped
    at [usize::MAX] on a 32-bit target). *)
Theorem VirtAddr_step_refines `{BFL : BitFieldLaws} `{TargetOk} a b n :
  canonical a -> canonical b -> u64 n ->
  VirtAddr_forward_checked a n =
    Ret (if position a + n <? 2 ^ 48 then Some (of_position (position a + n)) else None) /\
  VirtAddr_backward_checked a n =
    Ret (if n <=? position a then Some (of_position (position a - n)) else None) /\
  VirtAddr_steps_between_impl a b =
    (if position b <? position a then (0, None)
     else if position b - position a <=? usize_max
          then (position b - position a, Some (position b - position a))
          else (usize_max, None)).
Proof.
  intros Ha Hb Hn. split_and!.
  - by apply forward_checked_u64_position.
  - by apply backward_checked_u64_position.
  - unfold VirtAddr_steps_between_impl. rewrite steps_between_u64_position by done.
    unfold usize_try_from. by zcase; try lia.
Qed.

Lemma VirtAddr_step_refines_witness :
  let T64 := {| overflow_checks := true; usize_bits := 64 |} in
  let lo := mkVirtAddr 0x7fffffffffff in
  let hi := mkVirtAddr 0xffff800000000000 in
  VirtAddr_forward_checked lo 1 = Ret (Some hi) /\
  VirtAddr_steps_between_impl (H := T64) lo hi = (1, Some 1).
Proof.
  intros T64 lo hi.
  assert (TargetOk T64) as HT by (right; reflexivity).
  assert (canonical lo) as Hlo by (left; simpl; lia).
  assert (canonical hi) as Hhi by (right; simpl; lia).
  destruct (VirtAddr_step_refines (BFL := ref_bit_field_laws) lo hi 1 Hlo Hhi ltac:(unfold uN; lia))
    as (F & _ & S).
  rewrite F, S. split; vm_compute; reflexivity.
Defined.

(** The three step functions agree with each other: from [a], [n] steps
    forward reach [b] exactly when [n] steps backward from [b] reach [a], and
    exactly when [steps_between a b] is [n]; and two forward walks compose. *)
Theorem VirtAddr_step_laws `{BFL : BitFieldLaws} a b n :
  canonical a -> canonical b -> u64 n ->
  (VirtAddr_forward_checked_u64 a n = Ret (Some b) <->
   VirtAddr_backward_checked_u64 b n = Ret (Some a)) /\
  (VirtAddr_forward_checked_u64 a n = Ret (Some b) <->
   VirtAddr_steps_between_u64 a b = Some n) /\
  (forall m c, u64 m -> VirtAddr_forward_checked_u64 a n = Ret (Some b) ->
   VirtAddr_forward_checked_u64 b m = Ret (Some c) ->
   VirtAddr_forward_checked_u64 a (n + m) = Ret (Some c)).
Proof.
  intros Ha Hb Hn.
  pose proof (position_range _ Ha) as Pa. pose proof (position_range _ Hb) as Pb.
  assert (VirtAddr_forward_checked_u64 a n = Ret (Some b) <-> position a + n = position b) as F.
  { rewrite forward_checked_u64_position by done. unfold uN in *. split.
    - zcase; [intros [= <-]|done]. by rewrite position_of_position by lia.
    - intros ->. rewrite of_position_position by done. zcase; [done|lia]. }
  split_and!.
  - rewrite F, backward_checked_u64_position by done. unfold uN in *. split.
    + intros E. zcase; [|lia]. do 2 f_equal. rewrite <- (of_position_position a) by done. f_equal. lia.
    + zcase; [intros [= <-]|done]. rewrite position_of_position by lia. lia.
  - rewrite F, steps_between_u64_position by done. unfold uN in *.
    zcase; split; intros E; simplify_eq; try lia. f_equal; lia.
  - intros m c Hm E1 E2. apply F in E1.
    rewrite forward_checked_u64_position in E2 by done.
    assert (u64 (n + m)) by (unfold uN in *; revert E2; zcase; [lia|done]).
    rewrite forward_checked_u64_position by done. by rewrite Z.add_assoc, E1.
Qed.

Lemma VirtAddr_step_laws_witness :
  let lo := mkVirtAddr 0x7ffffffffff0 in
  let hi := mkVirtAddr 0xffff800000000010 in
  VirtAddr_backward_checked_u64 hi 32 = Ret (Some lo) /\
  VirtAddr_steps_between_u64 lo hi = Some 32.
Proof.
  intros lo hi.
  destruct (VirtAddr_step_laws (BFL := ref_bit_field_laws) lo hi 32
    ltac:(left; simpl; lia) ltac:(right; simpl; lia) ltac:(unfold uN; lia)) as (B & S & _).
  split; [apply B|apply S]; vm_compute; reflexivity.
Defined.

(** [align_down] returns the greatest multiple of the alignment that is not
    above the address, and panics exactly when the alignment is not a power of
    two. *)
Theorem align_down_greatest x a :
  u64 x -> u64 a ->
  match align_down x a with
  | Ret r => is_power_of_two a = true /\ 0 <= r <= x /\ (a | r) /\
             forall y, (a | y) -> y <= x -> y <= r
  | Panic => is_power_of_two a = false
  | Fault => False
  end.
Proof.
  intros Hx Ha. destruct (is_power_of_two a) eqn:E.
  - apply is_power_of_two_spec in E as E'. destruct E' as (k & Hk & ->).
    rewrite align_down_pow2 by (done || by apply (pow2_lt_64 (2 ^ k))).
    assert (0 < 2 ^ k) as Hp by (by apply Z.pow_pos_nonneg).
    destruct (round_down_greatest x (2 ^ k) Hp) as [H1 H2].
    pose proof (Z.mod_pos_bound x (2 ^ k) Hp). destruct Hx.
    pose proof (Z.mod_le x (2 ^ k)). split_and!; [done|lia|lia|done|done].
  - by rewrite align_down_not_pow2.
Qed.

Lemma align_down_greatest_witness : u64 0x12345 /\ u64 0x1000 /\ align_down 0x12345 0x1000 = Ret 0x12000 /\ (0x1000 | 0x12000).
Proof.
  assert (u64 0x12345) as H1 by (unfold uN; lia). assert (u64 0x1000) as H2 by (unfold uN; lia).
  split_and!; [exact H1|exact H2|vm_compute; reflexivity|].
  exact (proj1 (proj2 (proj2 (align_down_greatest _ _ H1 H2)))).
Defined.

(** [align_up] returns the smallest multiple of the alignment that is not
    below the address; it panics exactly when the alignment is not a power of
    two or that multiple does not fit in 64 bits. *)
Theorem align_up_least x a :
  u64 x -> u64 a ->
  match align_up x a with
  | Ret r => is_power_of_two a = true /\ x <= r < 2 ^ 64 /\ (a | r) /\
             forall y, (a | y) -> x <= y -> r <= y
  | Panic => is_power_of_two a = false \/ forall y, (a | y) -> x <= y -> 2 ^ 64 <= y
  | Fault => False
  end.
Proof.
  intros Hx Ha. destruct (is_power_of_two a) eqn:E; cycle 1.
  { unfold align_up. rewrite E. by left. }
  apply is_power_of_two_spec in E as E'. destruct E' as (k & Hk & ->).
  assert (0 < 2 ^ k) as Hp by (by apply Z.pow_pos_nonneg).
  rewrite align_up_pow2 by (done || by apply (pow2_lt_64 (2 ^ k))).
  pose proof (Z.mod_pos_bound x (2 ^ k) Hp).
  destruct (Z.eqb_spec (x mod 2 ^ k) 0) as [E0|E0].
  - unfold uN in *. split_and!; [done|lia|lia| |done]. by apply Z.mod_divide; [lia|].
  - destruct (round_up_least x (2 ^ k) Hp E0) as [H1 H2].
    destruct (Z.ltb_spec (x - x mod 2 ^ k + 2 ^ k) (2 ^ 64)).
    + split_and!; [done|lia|lia|done|done].
    + right. intros y Hy Hle. specialize (H2 y Hy Hle). lia.
Qed.

Lemma align_up_least_witness :
  u64 0x12345 /\ u64 0x1000 /\ align_up 0x12345 0x1000 = Ret 0x13000 /\ (0x1000 | 0x13000).
Proof.
  assert (u64 0x12345) as H1 by (unfold uN; lia). assert (u64 0x1000) as H2 by (unfold uN; lia).
  split_and!; [exact H1|exact H2|vm_compute; reflexivity|].
  exact (proj1 (proj2 (proj2 (align_up_least _ _ H1 H2)))).
Defined.

(** A canonical address is determined by its four 9-bit page table indices
    and its 12-bit page offset, which are the base-512 digits of its low 48
    bits; [page_table_index] selects the same digit by level. *)
Theorem VirtAddr_index_decomposition a :
  canonical a ->
  let p4 := pti (VirtAddr_p4_index a) in let p3 := pti (VirtAddr_p3_index a) in
  let p2 := pti (VirtAddr_p2_index a) in let p1 := pti (VirtAddr_p1_index a) in
  let o := page_offset_val (VirtAddr_page_offset a) in
  (0 <= p4 < 512 /\ 0 <= p3 < 512 /\ 0 <= p2 < 512 /\ 0 <= p1 < 512 /\ 0 <= o < 4096) /\
  a = VirtAddr_new_truncate (p4 * 2 ^ 39 + p3 * 2 ^ 30 + p2 * 2 ^ 21 + p1 * 2 ^ 12 + o) /\
  (VirtAddr_page_table_index a Four = VirtAddr_p4_index a /\
   VirtAddr_page_table_index a Three = VirtAddr_p3_index a /\
   VirtAddr_page_table_index a Two = VirtAddr_p2_index a /\
   VirtAddr_page_table_index a One = VirtAddr_p1_index a).
Proof.
  intros Ha p4 p3 p2 p1 o. subst p4 p3 p2 p1 o.
  destruct (VirtAddr_index_val a Ha) as (-> & -> & -> & -> & ->).
  destruct (VirtAddr_page_table_index_levels a) as (L1 & L2 & L3 & L4).
  split_and!; try (apply Z.mod_pos_bound; done); try done.
  transitivity (VirtAddr_new_truncate (va a)); [by rewrite VirtAddr_new_truncate_id|].
  apply canonical_u64 in Ha.
  rewrite !VirtAddr_new_truncate_val by (unfold uN in *; mlia).
  f_equal. unfold uN in Ha. mlia.
Qed.

Lemma VirtAddr_index_decomposition_witness :
  let a := mkVirtAddr 0xffff800000201abc in
  canonical a /\ pti (VirtAddr_p4_index a) = 256 /\
  VirtAddr_page_table_index a Two = VirtAddr_p2_index a.
Proof.
  intros a. assert (canonical a) as H by (right; simpl; lia).
  split; [exact H|]. split; [vm_compute; reflexivity|].
  exact (proj1 (proj2 (proj2 (proj2 (proj2 (VirtAddr_index_decomposition a H)))))).
Defined.

(** [align_down] and [align_up] return the greatest multiple of the
    alignment that is not above the address and the least one that is not below
    it; both panic when the alignment is not a power of two, and align_up when
    the multiple does not fit in 64 bits, in every other case they return. *)
Theorem align_correct x a :
  u64 x -> u64 a ->
  match align_down x a with
  | Ret r => is_power_of_two a = true /\ 0 <= r <= x /\ (a | r) /\
             forall y, (a | y) -> y <= x -> y <= r
  | Panic => is_power_of_two a = false
  | Fault => False
  end /\
  match align_up x a with
  | Ret r => is_power_of_two a = true /\ x <= r < 2 ^ 64 /\ (a | r) /\
             forall y, (a | y) -> x <= y -> r <= y
  | Panic => is_power_of_two a = false \/ forall y, (a | y) -> x <= y -> 2 ^ 64 <= y
  | Fault => False
  end.
Proof. intros Hx Ha. split; [by apply align_down_greatest|by apply align_up_least]. Qed.

Lemma align_correct_witness :
  align_down 0x12345 0x1000 = Ret 0x12000 /\ (0x1000 | 0x12000) /\
  align_up 0x12345 0x1000 = Ret 0x13000 /\ (0x1000 | 0x13000).
Proof.
  destruct (align_correct 0x12345 0x1000 ltac:(unfold uN; lia) ltac:(unfold uN; lia))
    as [(_ & _ & H1 & _) (_ & _ & H2 & _)].
  split; [vm_compute; reflexivity|]. split; [exact H1|].
  split; [vm_compute; reflexivity|exact H2].
Defined.
