(* ===== verification/Kani.v ===== *)
(** * The Kani proof harnesses of src/src/addr.rs

    The module [proofs] of addr.rs states what its [Step] implementation must
    satisfy as six harnesses for the Kani model checker: functions of
    [kani::any()] inputs whose assertions must hold for every input.  Here a
    harness is a function of these inputs with the [outcome] of its body: an
    early [return] is [Ret tt], a failing assertion, a failing [expect] and
    an overflowing [+] are [Panic].  [all_harnesses_hold] is the statement
    Kani checks. *)
From Stdlib Require Import ZArith Lia Bool.
From stdpp Require Import base decidable option numbers.
From S2P Require Import Prelude Crates Addr.
#[local] Open Scope Z_scope.

Section harnesses.
Context `{BitField}.

(** [Step::forward] and [Step::backward], provided by [core] on top of the
    checked methods. *)
Definition Step_forward (start : VirtAddr) (count : Z) : outcome VirtAddr :=
  next ← VirtAddr_forward_checked start count;
  unwrap next.
Definition Step_backward (start : VirtAddr) (count : Z) : outcome VirtAddr :=
  next ← VirtAddr_backward_checked start count;
  unwrap next.

(** The address the first harness expects one step after [start_raw]; the
    outer [outcome] is the [unreachable!] of the non-canonical range. *)
Definition forward_one_expected `{Target} (start_raw : Z) : outcome (option Z) :=
  if (0x0000000000000000 <=? start_raw) && (start_raw <=? 0x00007ffffffffffe) then
    Some <$> arith 64 (start_raw + 1)
  else if start_raw =? 0x00007fffffffffff then Ret (Some 0xffff800000000000)
  else if (0x0000800000000000 <=? start_raw) && (start_raw <=? 0xffff7fffffffffff) then Panic
  else if (0xffff800000000000 <=? start_raw) && (start_raw <=? 0xfffffffffffffffe) then
    Some <$> arith 64 (start_raw + 1)
  else Ret None.

Definition forward_base_case `{Target} (start_raw : Z) : outcome unit :=
  match VirtAddr_try_new start_raw with
  | Err _ => Ret tt
  | Ok start =>
      same ← Step_forward start 0;
      rust_assert (bool_decide (start = same));;
      expected ← forward_one_expected start_raw;
      match expected with
      | Some expected =>
          rust_assert (match VirtAddr_try_new expected with Ok _ => true | Err _ => false end)
      | None => Ret tt
      end;;
      next ← VirtAddr_forward_checked start 1;
      rust_assert (bool_decide (VirtAddr_as_u64 <$> next = expected))
  end.

Definition forward_induction_step `{Target} (start_raw count1 count2 : Z) : outcome unit :=
  match VirtAddr_try_new start_raw with
  | Err _ => Ret tt
  | Ok start =>
      next1 ← VirtAddr_forward_checked start count1;
      match next1 with
      | None => Ret tt
      | Some next1 =>
          next2 ← VirtAddr_forward_checked next1 count2;
          match next2 with
          | None => Ret tt
          | Some next2 =>
              count_both ← arith usize_bits (count1 + count2);
              next_both ← Step_forward start count_both;
              rust_assert (bool_decide (next2 = next_both))
          end
      end
  end.

Definition forward_implies_backward (start_raw count : Z) : outcome unit :=
  match VirtAddr_try_new start_raw with
  | Err _ => Ret tt
  | Ok start =>
      end_ ← VirtAddr_forward_checked start count;
      match end_ with
      | None => Ret tt
      | Some end_ =>
          start2 ← Step_backward end_ count;
          rust_assert (bool_decide (start = start2))
      end
  end.

Definition backward_implies_forward (end_raw count : Z) : outcome unit :=
  match VirtAddr_try_new end_raw with
  | Err _ => Ret tt
  | Ok end_ =>
      start ← VirtAddr_backward_checked end_ count;
      match start with
      | None => Ret tt
      | Some start =>
          end2 ← Step_forward start count;
          rust_assert (bool_decide (end_ = end2))
      end
  end.

Definition forward_implies_steps_between `{Target} (start count : Z) : outcome unit :=
  match VirtAddr_try_new start with
  | Err _ => Ret tt
  | Ok start =>
      end_ ← VirtAddr_forward_checked start count;
      match end_ with
      | None => Ret tt
      | Some end_ =>
          rust_assert (bool_decide (VirtAddr_steps_between_impl start end_ = (count, Some count)))
      end
  end.

Definition steps_between_implies_forward `{Target} (start end_ : Z) : outcome unit :=
  match VirtAddr_try_new start, VirtAddr_try_new end_ with
  | Ok start, Ok end_ =>
      match snd (VirtAddr_steps_between_impl start end_) with
      | None => Ret tt
      | Some count =>
          reached ← Step_forward start count;
          rust_assert (bool_decide (reached = end_))
      end
  | _, _ => Ret tt
  end.

(** What a run of Kani establishes: every harness returns for every value of
    its inputs. *)
Definition all_harnesses_hold `{Target} : Prop :=
  forall (a b n m : Z), u64 a -> u64 b -> uN usize_bits n -> uN usize_bits m ->
  forward_base_case a = Ret tt /\
  forward_induction_step a n m = Ret tt /\
  forward_implies_backward a n = Ret tt /\
  backward_implies_forward a n = Ret tt /\
  forward_implies_steps_between a n = Ret tt /\
  steps_between_implies_forward a b = Ret tt.
End harnesses.

Section harness_facts.
Context `{BFL : BitFieldLaws} {T : Target} {TO : TargetOk T}.

Lemma try_new_cases x :
  u64 x ->
  (exists a, va a = x /\ canonical a /\ VirtAddr_try_new x = Ok a) \/
  (~ canonical (mkVirtAddr x) /\ VirtAddr_try_new x = Err (mkVirtAddrNotValid x)).
Proof.
  intros Hx. destruct (canonical_dec (mkVirtAddr x)) as [C|C].
  - left. exists (mkVirtAddr x). split_and!; [done..|].
    by apply (VirtAddr_try_new_canonical (mkVirtAddr x)).
  - right. split; [done|]. by apply VirtAddr_try_new_not_canonical.
Qed.

Lemma usize_fits_u64 n : uN usize_bits n -> u64 n.
Proof. destruct TO as [E|E]; rewrite E; unfold uN; lia. Qed.

Lemma Step_forward_position a n :
  canonical a -> u64 n -> position a + n < 2 ^ 48 ->
  Step_forward a n = Ret (of_position (position a + n)).
Proof.
  intros Ha Hn H. unfold Step_forward, VirtAddr_forward_checked, VirtAddr_forward_checked_impl.
  rewrite forward_checked_u64_position by done. by rewrite (proj2 (Z.ltb_lt _ _) H).
Qed.

Lemma Step_backward_position a n :
  canonical a -> u64 n -> n <= position a ->
  Step_backward a n = Ret (of_position (position a - n)).
Proof.
  intros Ha Hn H. unfold Step_backward, VirtAddr_backward_checked.
  rewrite backward_checked_u64_position by done. by rewrite (proj2 (Z.leb_le _ _) H).
Qed.

Lemma forward_one_expected_position a :
  canonical a ->
  forward_one_expected (va a) =
    Ret (if position a + 1 <? 2 ^ 48 then Some (va (of_position (position a + 1))) else None).
Proof.
  intros Ha. unfold forward_one_expected, position, of_position, canonical in *.
  zcase; cbn [andb fmap outcome_fmap]; try lia;
    rewrite ?arith_in_range by (unfold uN; lia); cbn [fmap outcome_fmap]; zcase; try done; try lia;
    simpl; do 2 f_equal; lia.
Qed.

(** The walk both induction harnesses make: a step that [forward_checked]
    takes ends at a canonical address whose position is known. *)
Lemma forward_checked_step a n :
  canonical a -> u64 n ->
  (exists b, VirtAddr_forward_checked a n = Ret (Some b) /\ canonical b /\
     position b = position a + n) \/
  (VirtAddr_forward_checked a n = Ret None /\ 2 ^ 48 <= position a + n).
Proof.
  intros Ha Hn. pose proof (position_range a Ha) as Hp.
  unfold VirtAddr_forward_checked, VirtAddr_forward_checked_impl.
  rewrite forward_checked_u64_position by done. destruct (Z.ltb_spec (position a + n) (2 ^ 48)).
  - left. exists (of_position (position a + n)). unfold uN in Hn.
    split_and!; [done|apply of_position_canonical|apply position_of_position]; lia.
  - by right.
Qed.

(** Each harness, for every input. *)
Lemma forward_base_case_holds a : u64 a -> forward_base_case a = Ret tt.
Proof.
  intros Ha. unfold forward_base_case.
  destruct (try_new_cases a Ha) as [(s & <- & Hs & ->)|[_ ->]]; [|done].
  pose proof (position_range s Hs) as Hp.
  rewrite Step_forward_position by (done || (unfold uN; lia)).
  cbn [mbind outcome_bind]. rewrite Z.add_0_r, of_position_position by done.
  rewrite bool_decide_eq_true_2 by done. cbn [rust_assert mbind outcome_bind].
  rewrite forward_one_expected_position by done.
  unfold VirtAddr_forward_checked, VirtAddr_forward_checked_impl.
  rewrite forward_checked_u64_position by (done || (unfold uN; lia)).
  cbn [mbind outcome_bind]. destruct (Z.ltb_spec (position s + 1) (2 ^ 48)).
  - rewrite VirtAddr_try_new_canonical by (apply of_position_canonical; lia).
    cbn [rust_assert mbind outcome_bind fmap option_fmap option_map].
    by rewrite bool_decide_eq_true_2.
  - cbn [mbind outcome_bind fmap option_fmap option_map]. by rewrite bool_decide_eq_true_2.
Qed.

(** The sum of the two counts, which the harness makes without a check. *)
Lemma Step_forward_sum a b n m :
  canonical a -> canonical b -> uN usize_bits n -> uN usize_bits m ->
  position b = position a + n + m ->
  (count_both ← arith usize_bits (n + m);
   next_both ← Step_forward a count_both;
   rust_assert (bool_decide (b = next_both))) =
    if n + m <? 2 ^ usize_bits then Ret tt else Panic.
Proof.
  intros Ha Hb Hn Hm Pb. pose proof (position_range a Ha). pose proof (position_range b Hb).
  assert (0 < usize_bits <= 64) as Hw by (destruct TO as [E|E]; rewrite E; lia).
  pose proof (Z.pow_le_mono_r 2 usize_bits 64 ltac:(lia) (proj2 Hw)) as Hpow.
  unfold uN in Hn, Hm. destruct (Z.ltb_spec (n + m) (2 ^ usize_bits)) as [Hlt|Hge].
  - rewrite arith_in_range by (unfold uN; lia). cbn [mbind outcome_bind].
    rewrite Step_forward_position by (done || (unfold uN; lia) || lia). cbn [mbind outcome_bind].
    rewrite bool_decide_eq_true_2; [done|].
    rewrite <- (of_position_position b) by done. f_equal. lia.
  - unfold arith. rewrite (proj2 (Z.ltb_ge _ _) Hge), andb_false_r.
    destruct overflow_checks; [done|]. cbn [mbind outcome_bind].
    assert (wrap usize_bits (n + m) = n + m - 2 ^ usize_bits) as ->.
    { unfold wrap. rewrite <- (Z.mod_small (n + m - 2 ^ usize_bits) (2 ^ usize_bits)) by lia.
      rewrite Zminus_mod, Z.mod_same, Z.sub_0_r, Z.mod_mod by lia. done. }
    rewrite Step_forward_position by (done || (unfold uN; lia) || lia). cbn [mbind outcome_bind].
    rewrite bool_decide_eq_false_2; [done|]. intros ->.
    rewrite position_of_position in Pb by lia. lia.
Qed.

(** The induction harness fails exactly on walks that succeed although the sum
    of the two counts overflows. *)
Lemma forward_induction_step_exact a n m :
  u64 a -> uN usize_bits n -> uN usize_bits m ->
  forward_induction_step a n m =
    if decide (canonical (mkVirtAddr a) /\ position (mkVirtAddr a) + n + m < 2 ^ 48 /\
               2 ^ usize_bits <= n + m) then Panic else Ret tt.
Proof.
  intros Ha Hn Hm. pose proof (usize_fits_u64 n Hn) as Hn'. pose proof (usize_fits_u64 m Hm) as Hm'.
  unfold forward_induction_step. unfold uN in Hn', Hm'.
  destruct (try_new_cases a Ha) as [(s & <- & Hs & ->)|[Hc ->]]; [|rewrite decide_False; naive_solver].
  destruct s as [s]. cbn [va] in *.
  destruct (forward_checked_step (mkVirtAddr s) n Hs Hn') as [(b & -> & Hb & Pb)|[-> Hp]];
    cbn [mbind outcome_bind]; [|by rewrite decide_False by lia].
  destruct (forward_checked_step b m Hb Hm') as [(c & -> & Hc & Pc)|[-> Hp]];
    cbn [mbind outcome_bind]; [|by rewrite decide_False by lia].
  pose proof (position_range c Hc). rewrite (Step_forward_sum (mkVirtAddr s) c n m) by (done || lia).
  destruct (Z.ltb_spec (n + m) (2 ^ usize_bits)); [by rewrite decide_False by lia|].
  rewrite decide_True; [done|]. split_and!; [done|lia|done].
Qed.

(** On a 64-bit target the sum the harness makes cannot overflow: a walk that
    succeeds has taken fewer than [2^48] steps. *)
Lemma forward_induction_step_holds_64 a n m :
  usize_bits = 64 -> u64 a -> uN usize_bits n -> uN usize_bits m ->
  forward_induction_step a n m = Ret tt.
Proof.
  intros E Ha Hn Hm. rewrite forward_induction_step_exact by done.
  rewrite decide_False; [done|]. intros (Hc & Hlt & Hge). rewrite E in Hge.
  pose proof (position_range _ Hc). lia.
Qed.

Lemma forward_implies_backward_holds a n :
  u64 a -> uN usize_bits n -> forward_implies_backward a n = Ret tt.
Proof.
  intros Ha Hn%usize_fits_u64. unfold forward_implies_backward.
  destruct (try_new_cases a Ha) as [(s & <- & Hs & ->)|[_ ->]]; [|done].
  destruct (forward_checked_step s n Hs Hn) as [(b & -> & Hb & Pb)|[-> _]]; [|done].
  pose proof (position_range s Hs). cbn [mbind outcome_bind].
  rewrite Step_backward_position by (done || lia). cbn [mbind outcome_bind].
  rewrite bool_decide_eq_true_2; [done|].
  rewrite <- (of_position_position s) at 1 by done. f_equal. lia.
Qed.

Lemma backward_implies_forward_holds a n :
  u64 a -> uN usize_bits n -> backward_implies_forward a n = Ret tt.
Proof.
  intros Ha Hn%usize_fits_u64. unfold backward_implies_forward.
  destruct (try_new_cases a Ha) as [(e & <- & He & ->)|[_ ->]]; [|done].
  pose proof (position_range e He). unfold VirtAddr_backward_checked.
  rewrite backward_checked_u64_position by done. cbn [mbind outcome_bind].
  destruct (Z.leb_spec n (position e)); [|done]. unfold uN in Hn.
  assert (position (of_position (position e - n)) = position e - n) as P
    by (apply position_of_position; lia).
  rewrite Step_forward_position
    by ((apply of_position_canonical; lia) || (unfold uN; lia) || (rewrite P; lia)).
  cbn [mbind outcome_bind]. rewrite P, bool_decide_eq_true_2; [done|].
  rewrite <- (of_position_position e) at 1 by done. f_equal. lia.
Qed.

Lemma forward_implies_steps_between_holds a n :
  u64 a -> uN usize_bits n -> forward_implies_steps_between a n = Ret tt.
Proof.
  intros Ha Hn. pose proof (usize_fits_u64 n Hn) as Hn'. unfold forward_implies_steps_between.
  destruct (try_new_cases a Ha) as [(s & <- & Hs & ->)|[_ ->]]; [|done].
  destruct (forward_checked_step s n Hs Hn') as [(b & -> & Hb & Pb)|[-> _]]; [|done].
  cbn [mbind outcome_bind]. unfold VirtAddr_steps_between_impl.
  rewrite steps_between_u64_position by done.
  unfold uN in Hn. rewrite (proj2 (Z.leb_le _ _)) by lia.
  replace (position b - position s) with n by lia.
  unfold usize_try_from, usize_max. rewrite (proj2 (Z.leb_le _ _)) by lia.
  by rewrite bool_decide_eq_true_2.
Qed.

Lemma steps_between_implies_forward_holds a b :
  u64 a -> u64 b -> steps_between_implies_forward a b = Ret tt.
Proof.
  intros Ha Hb. unfold steps_between_implies_forward.
  destruct (try_new_cases a Ha) as [(s & <- & Hs & ->)|[_ ->]]; [|done].
  destruct (try_new_cases b Hb) as [(e & <- & He & ->)|[_ ->]]; [|done].
  pose proof (position_range s Hs). pose proof (position_range e He).
  unfold VirtAddr_steps_between_impl. rewrite steps_between_u64_position by done.
  destruct (Z.leb_spec (position s) (position e)); [|done].
  unfold usize_try_from. destruct (Z.leb_spec (position e - position s) usize_max); [|done].
  cbn [snd]. rewrite Step_forward_position by (done || (unfold uN; lia)).
  cbn [mbind outcome_bind]. rewrite bool_decide_eq_true_2; [done|].
  rewrite <- (of_position_position e) at 2 by done. f_equal. lia.
Qed.
End harness_facts.

(** ** The property *)
Ltac harness := first
  [ by apply forward_base_case_holds | by apply forward_induction_step_holds_64
  | by apply forward_implies_backward_holds | by apply backward_implies_forward_holds
  | by apply forward_implies_steps_between_holds | by apply steps_between_implies_forward_holds ].

(** C19. The [Step] implementation of [VirtAddr] and the six harnesses that its
    authors state for the Kani model checker.  On a 64-bit target all six return
    for every [u64] address and every [usize] count, with or without overflow
    checks.  On any target five of them do.  The induction harness
    [forward_induction_step] panics exactly when its start is canonical, both
    walks succeed (they end below position 2^48) and its own sum of the two
    counts does not fit in a [usize]; for all other inputs it returns.  On a
    32-bit target there are such inputs. *)
Theorem step_harnesses_hold `{BFL : BitFieldLaws} {T : Target} {TO : TargetOk T} :
  (usize_bits = 64 -> all_harnesses_hold) /\
  (forall a b n m, u64 a -> u64 b -> uN usize_bits n -> uN usize_bits m ->
     forward_base_case a = Ret tt /\
     forward_induction_step a n m =
       (if decide (canonical (mkVirtAddr a) /\ position (mkVirtAddr a) + n + m < 2 ^ 48 /\
                   2 ^ usize_bits <= n + m) then Panic else Ret tt) /\
     forward_implies_backward a n = Ret tt /\
     backward_implies_forward a n = Ret tt /\
     forward_implies_steps_between a n = Ret tt /\
     steps_between_implies_forward a b = Ret tt) /\
  (usize_bits = 32 -> forward_induction_step 0 (2 ^ 32 - 1) 1 = Panic).
Proof.
  split_and!.
  - intros E a b n m Ha Hb Hn Hm. split_and!; harness.
  - intros a b n m Ha Hb Hn Hm. split_and!; try harness. by apply forward_induction_step_exact.
  - intros E. rewrite forward_induction_step_exact by (rewrite ?E; unfold uN; lia).
    rewrite decide_True; [done|]. rewrite E. split_and!; [left; simpl; lia|by vm_compute|lia].
Qed.

Lemma step_harnesses_hold_witness :
  let T64 := {| overflow_checks := true; usize_bits := 64 |} in
  let T32 := {| overflow_checks := true; usize_bits := 32 |} in
  forward_induction_step (H0 := T64) 0x7fffffffffff 0x1234 0x5678 = Ret tt /\
  forward_induction_step (H0 := T32) 0 0xffffffff 1 = Panic.
Proof.
  intros T64 T32. split.
  - refine (proj1 (proj2 (proj1 (step_harnesses_hold (BFL := ref_bit_field_laws) (T := T64)
      (TO := or_intror eq_refl)) eq_refl _ 0 _ _ _ _ _ _))); split; vm_compute; congruence.
  - exact (proj2 (proj2 (step_harnesses_hold (BFL := ref_bit_field_laws) (T := T32)
      (TO := or_introl eq_refl))) eq_refl).
Defined.
