(* ===== verification/Page.v ===== *)
(** * Virtual memory pages (src/structures/paging/page.rs)

    Pages of the three sizes, their arithmetic, their [Step] implementation
    and the exclusive and inclusive page ranges with their iterators. *)
From Stdlib Require Import ZArith Lia Bool.
From stdpp Require Import base decidable option list numbers.
From S2P Require Import Prelude Crates Index Addr.
#[local] Open Scope Z_scope.

(** ** Page sizes: the trait [PageSize] and its three implementations *)
Inductive PageSize : Type := Size4KiB | Size2MiB | Size1GiB.

#[export] Instance PageSize_eq_dec : EqDecision PageSize.
Proof. solve_decision. Defined.

Definition Size4KiB_SIZE : Z := 4096.
Definition Size2MiB_SIZE : Z := Size4KiB_SIZE * 512.
Definition Size1GiB_SIZE : Z := Size2MiB_SIZE * 512.

Definition SIZE (S : PageSize) : Z :=
  match S with
  | Size4KiB => Size4KiB_SIZE
  | Size2MiB => Size2MiB_SIZE
  | Size1GiB => Size1GiB_SIZE
  end.

(** The marker trait [NotGiantPageSize]. *)
Class NotGiantPageSize (S : PageSize) : Prop := not_giant : S = Size4KiB \/ S = Size2MiB.
#[export] Instance not_giant_4kib : NotGiantPageSize Size4KiB := or_introl eq_refl.
#[export] Instance not_giant_2mib : NotGiantPageSize Size2MiB := or_intror eq_refl.

(** ** [Page<S>] *)
Record Page (S : PageSize) : Type := mkPage { page_start : VirtAddr }.
Arguments mkPage {S} page_start.
Arguments page_start {S} p.

#[export] Instance Page_eq_dec {S} : EqDecision (Page S).
Proof. solve_decision. Defined.

Inductive AddressNotAligned : Type := mkAddressNotAligned.

#[export] Instance AddressNotAligned_eq_dec : EqDecision AddressNotAligned.
Proof. solve_decision. Defined.

Definition Page_containing_address {S} (address : VirtAddr) : outcome (Page S) :=
  mkPage <$> VirtAddr_align_down_u64 address (SIZE S).

Definition Page_from_start_address {S} (address : VirtAddr)
    : outcome (result (Page S) AddressNotAligned) :=
  aligned ← VirtAddr_is_aligned_u64 address (SIZE S);
  if negb aligned then Ret (Err mkAddressNotAligned)
  else Ok <$> Page_containing_address address.

Definition Page_from_start_address_unchecked {S} (start_address : VirtAddr) : Page S :=
  mkPage start_address.

Definition Page_start_address {S} (p : Page S) : VirtAddr := page_start p.
Definition Page_size {S} (p : Page S) : Z := SIZE S.

Definition Page_p4_index {S} (p : Page S) : PageTableIndex := VirtAddr_p4_index (Page_start_address p).
Definition Page_p3_index {S} (p : Page S) : PageTableIndex := VirtAddr_p3_index (Page_start_address p).
Definition Page_p2_index {S} `{NotGiantPageSize S} (p : Page S) : PageTableIndex :=
  VirtAddr_p2_index (Page_start_address p).
Definition Page_p1_index (p : Page Size4KiB) : PageTableIndex := VirtAddr_p1_index (page_start p).
Definition Page_page_table_index {S} (p : Page S) (level : PageTableLevel) : PageTableIndex :=
  VirtAddr_page_table_index (Page_start_address p) level.

(** Pages from their page table indices. *)
Definition or_shifted (addr : Z) (i : PageTableIndex) (n : Z) : Z :=
  Z.lor addr (wrap 64 (Z.shiftl (PageTableIndex_into_u64 i) n)).

Definition Page_from_page_table_indices_1gib (p4_index p3_index : PageTableIndex)
    : outcome (Page Size1GiB) :=
  let addr := 0 in
  let addr := or_shifted addr p4_index 39 in
  let addr := or_shifted addr p3_index 30 in
  Page_containing_address (VirtAddr_new_truncate addr).

Definition Page_from_page_table_indices_2mib (p4_index p3_index p2_index : PageTableIndex)
    : outcome (Page Size2MiB) :=
  let addr := 0 in
  let addr := or_shifted addr p4_index 39 in
  let addr := or_shifted addr p3_index 30 in
  let addr := or_shifted addr p2_index 21 in
  Page_containing_address (VirtAddr_new_truncate addr).

Definition Page_from_page_table_indices (p4_index p3_index p2_index p1_index : PageTableIndex)
    : outcome (Page Size4KiB) :=
  let addr := 0 in
  let addr := or_shifted addr p4_index 39 in
  let addr := or_shifted addr p3_index 30 in
  let addr := or_shifted addr p2_index 21 in
  let addr := or_shifted addr p1_index 12 in
  Page_containing_address (VirtAddr_new_truncate addr).

(** Arithmetic: the product [rhs * S::SIZE] is a plain operator. *)
Definition Page_add `{Target} {S} (p : Page S) (rhs : Z) : outcome (Page S) :=
  m ← arith 64 (rhs * SIZE S);
  a ← VirtAddr_add (Page_start_address p) m;
  Page_containing_address a.

Definition Page_sub `{Target} {S} (p : Page S) (rhs : Z) : outcome (Page S) :=
  m ← arith 64 (rhs * SIZE S);
  a ← VirtAddr_sub (Page_start_address p) m;
  Page_containing_address a.

(** [page += rhs] and [page -= rhs] return the page assigned. *)
Definition Page_add_assign `{Target} {S} (p : Page S) (rhs : Z) : outcome (Page S) := Page_add p rhs.
Definition Page_sub_assign `{Target} {S} (p : Page S) (rhs : Z) : outcome (Page S) := Page_sub p rhs.

Definition Page_sub_page {S} (p rhs : Page S) : outcome Z :=
  d ← VirtAddr_sub_addr (page_start p) (page_start rhs);
  Ret (d / SIZE S).

(** The derived orders compare start addresses. *)
Definition Page_ltb {S} (p q : Page S) : bool := va (page_start p) <? va (page_start q).
Definition Page_leb {S} (p q : Page S) : bool := va (page_start p) <=? va (page_start q).
Definition Page_max {S} (p q : Page S) : Page S := if Page_ltb q p then p else q.
Definition Page_min {S} (p q : Page S) : Page S := if Page_ltb q p then q else p.

(** ** [Step for Page] *)
Definition Page_steps_between_impl `{Target} {S} (start end_ : Page S) : Z * option Z :=
  match VirtAddr_steps_between_u64 (Page_start_address start) (Page_start_address end_) with
  | Some steps =>
      let steps := steps / SIZE S in
      let steps := usize_try_from steps in
      (default usize_max steps, steps)
  | None => (0, None)
  end.

Definition Page_forward_checked_impl `{BitField} {S} (start : Page S) (count : Z)
    : outcome (option (Page S)) :=
  match checked_mul 64 count (SIZE S) with
  | None => Ret None
  | Some count =>
      o ← VirtAddr_forward_checked_u64 (page_start start) count;
      Ret (option_map mkPage o)
  end.

Definition Page_backward_checked `{BitField} {S} (start : Page S) (count : Z)
    : outcome (option (Page S)) :=
  match checked_mul 64 count (SIZE S) with
  | None => Ret None
  | Some count =>
      o ← VirtAddr_backward_checked_u64 (page_start start) count;
      Ret (option_map mkPage o)
  end.

(** ** [PageRange] *)
Record PageRange (S : PageSize) : Type := mkPageRange { pr_start : Page S; pr_end : Page S }.
Arguments mkPageRange {S} pr_start pr_end.
Arguments pr_start {S} p.
Arguments pr_end {S} p.

Definition Page_range {S} (start end_ : Page S) : PageRange S := mkPageRange start end_.

Definition PageRange_is_empty {S} (r : PageRange S) : bool := Page_leb (pr_end r) (pr_start r).

Definition PageRange_len {S} (r : PageRange S) : outcome Z :=
  if negb (PageRange_is_empty r) then Page_sub_page (pr_end r) (pr_start r) else Ret 0.

Definition PageRange_size `{Target} {S} (r : PageRange S) : outcome Z :=
  n ← PageRange_len r;
  arith 64 (SIZE S * n).

Definition PageRange_next `{Target} {S} (r : PageRange S) : outcome (option (Page S) * PageRange S) :=
  if Page_ltb (pr_start r) (pr_end r) then
    let page := pr_start r in
    start ← Page_add_assign (pr_start r) 1;
    Ret (Some page, mkPageRange start (pr_end r))
  else Ret (None, r).

Definition PageRange_as_4kib_page_range (r : PageRange Size2MiB) : outcome (PageRange Size4KiB) :=
  start ← Page_containing_address (Page_start_address (pr_start r));
  end_ ← Page_containing_address (Page_start_address (pr_end r));
  Ret (mkPageRange start end_).

(** ** [PageRangeInclusive] *)
Record PageRangeInclusive (S : PageSize) : Type :=
  mkPageRangeInclusive { pri_start : Page S; pri_end : Page S }.
Arguments mkPageRangeInclusive {S} pri_start pri_end.
Arguments pri_start {S} p.
Arguments pri_end {S} p.

Definition Page_range_inclusive {S} (start end_ : Page S) : PageRangeInclusive S :=
  mkPageRangeInclusive start end_.

Definition PageRangeInclusive_is_empty {S} (r : PageRangeInclusive S) : bool :=
  Page_ltb (pri_end r) (pri_start r).

Definition PageRangeInclusive_len `{Target} {S} (r : PageRangeInclusive S) : outcome Z :=
  if negb (PageRangeInclusive_is_empty r) then
    d ← Page_sub_page (pri_end r) (pri_start r);
    arith 64 (d + 1)
  else Ret 0.

Definition PageRangeInclusive_size `{Target} {S} (r : PageRangeInclusive S) : outcome Z :=
  n ← PageRangeInclusive_len r;
  arith 64 (SIZE S * n).

Definition PageRangeInclusive_next `{Target} {S} (r : PageRangeInclusive S)
    : outcome (option (Page S) * PageRangeInclusive S) :=
  if Page_leb (pri_start r) (pri_end r) then
    let page := pri_start r in
    (* If the end of the inclusive range is the maximum page, incrementing start until it is
       greater than the end overflows: decrement the end instead. *)
    top ← VirtAddr_new U64_MAX;
    max_page_addr ← VirtAddr_sub top (SIZE S - 1);
    if va (Page_start_address (pri_start r)) <? va max_page_addr then
      start ← Page_add_assign (pri_start r) 1;
      Ret (Some page, mkPageRangeInclusive start (pri_end r))
    else
      end_ ← Page_sub_assign (pri_end r) 1;
      Ret (Some page, mkPageRangeInclusive (pri_start r) end_)
  else Ret (None, r).

(** ** Well-formed pages *)
Definition SIZE_log2 (S : PageSize) : Z :=
  match S with Size4KiB => 12 | Size2MiB => 21 | Size1GiB => 30 end.

(** The invariant of [Page<S>]: a canonical start address aligned to [S]. *)
Definition Page_wf {S} (p : Page S) : Prop :=
  canonical (page_start p) /\ va (page_start p) mod SIZE S = 0.

(** Pages numbered consecutively across the gap. *)
Definition page_position {S} (p : Page S) : Z := position (page_start p) / SIZE S.
Definition page_count (S : PageSize) : Z := 2 ^ 48 / SIZE S.
Definition page_at {S} (n : Z) : Page S := mkPage (of_position (n * SIZE S)).

Ltac page_consts := cbn [SIZE SIZE_log2] in *;
  change Size4KiB_SIZE with 4096 in *; change Size2MiB_SIZE with 2097152 in *;
  change Size1GiB_SIZE with 1073741824 in *.

Lemma SIZE_pow2 S : SIZE S = 2 ^ SIZE_log2 S.
Proof. by destruct S. Qed.

Lemma SIZE_log2_range S : 12 <= SIZE_log2 S <= 30.
Proof. by destruct S. Qed.

Lemma SIZE_pos S : 4096 <= SIZE S <= 1073741824.
Proof. destruct S; page_consts; lia. Qed.

Lemma page_count_mul S : page_count S * SIZE S = 2 ^ 48.
Proof. by destruct S. Qed.

Lemma page_ext {S} (p q : Page S) : va (page_start p) = va (page_start q) -> p = q.
Proof. destruct p as [[]], q as [[]]; simpl. by intros ->. Qed.

Lemma Page_containing_address_val {S} a :
  canonical a ->
  Page_containing_address a = Ret (mkPage (mkVirtAddr (va a - va a mod SIZE S)) : Page S) /\
  Page_wf (mkPage (mkVirtAddr (va a - va a mod SIZE S)) : Page S).
Proof.
  intros Ha. unfold Page_containing_address, Page_wf. rewrite SIZE_pow2.
  destruct (VirtAddr_align_down_pow2 a (SIZE_log2 S) Ha) as [-> Hc].
  { pose proof (SIZE_log2_range S). lia. }
  split_and!; [done|done|]. simpl. rewrite <- SIZE_pow2. pose proof (SIZE_pos S).
  replace (va a - va a mod SIZE S) with (va a / SIZE S * SIZE S)
    by (pose proof (Z.div_mod (va a) (SIZE S)); lia).
  apply Z.mod_mul. lia.
Qed.

Lemma Page_containing_address_wf {S} (p : Page S) :
  Page_wf p -> Page_containing_address (page_start p) = Ret p.
Proof.
  intros [Hc Hm]. destruct (Page_containing_address_val (S := S) _ Hc) as [-> _].
  f_equal. apply page_ext. simpl. lia.
Qed.

Lemma Page_is_aligned {S} a :
  canonical a -> VirtAddr_is_aligned_u64 a (SIZE S) = Ret (va a mod SIZE S =? 0).
Proof.
  intros Ha. unfold VirtAddr_is_aligned_u64. rewrite SIZE_pow2.
  destruct (VirtAddr_align_down_pow2 a (SIZE_log2 S) Ha) as [-> Hc].
  { pose proof (SIZE_log2_range S). lia. }
  unfold VirtAddr_as_u64. rewrite <- SIZE_pow2. simpl. f_equal. zcase; lia.
Qed.

Lemma Page_from_start_address_val {S} a :
  canonical a ->
  Page_from_start_address a =
    Ret (if va a mod SIZE S =? 0 then Ok (mkPage a : Page S) else Err mkAddressNotAligned).
Proof.
  intros Ha. unfold Page_from_start_address. rewrite Page_is_aligned by done. cbn [mbind outcome_bind].
  destruct (Z.eqb_spec (va a mod SIZE S) 0); [|done]. cbn [negb].
  rewrite (Page_containing_address_wf (mkPage a)) by done. done.
Qed.

Lemma page_position_val {S} (p : Page S) :
  Page_wf p -> position (page_start p) = page_position p * SIZE S /\ 0 <= page_position p < page_count S.
Proof.
  intros [Hc Hm]. pose proof (position_range _ Hc) as Hp.
  unfold page_position, page_count, position, canonical in *. destruct S; page_consts; zcase; mlia.
Qed.

Lemma page_at_wf {S} n : 0 <= n < page_count S -> Page_wf (page_at n : Page S).
Proof.
  intros Hn. unfold page_at, Page_wf. split.
  - apply of_position_canonical. pose proof (page_count_mul S). pose proof (SIZE_pos S). nia.
  - cbn [page_start]. unfold of_position, page_count in *; cbn [va].
    destruct S; page_consts; zcase; mlia.
Qed.

Lemma page_at_position {S} (p : Page S) : Page_wf p -> page_at (page_position p) = p.
Proof.
  intros Hp. destruct (page_position_val p Hp) as [E _]. destruct Hp as [Hc _].
  unfold page_at. rewrite <- E, of_position_position by done. by destruct p.
Qed.

#[export] Hint Resolve page_at_wf : x86.

(** ** Page table indices *)
Lemma or_shifted_val q i n :
  PageTableIndex_wf i -> 0 <= n <= 39 ->
  or_shifted (q * 2 ^ (n + 9)) i n = q * 2 ^ (n + 9) + pti i * 2 ^ n.
Proof.
  intros [H1 H2] Hn. unfold ENTRY_COUNT in H2. unfold or_shifted, PageTableIndex_into_u64.
  assert (0 <= pti i * 2 ^ n < 2 ^ (n + 9)) as Hb.
  { rewrite Z.pow_add_r by lia. pose proof (Z.pow_pos_nonneg 2 n). nia. }
  rewrite Z.shiftl_mul_pow2, wrap_small by (lia || unfold uN;
    pose proof (Z.pow_le_mono_r 2 (n + 9) 64); lia).
  rewrite Z.lor_comm, lor_low_high by lia. lia.
Qed.

Lemma or_shifted_0 i n :
  PageTableIndex_wf i -> 0 <= n <= 39 -> or_shifted 0 i n = pti i * 2 ^ n.
Proof. intros Hi Hn. pose proof (or_shifted_val 0 i n Hi Hn). by rewrite Z.mul_0_l in *. Qed.

Lemma index_ext i j : pti i = pti j -> i = j.
Proof. destruct i, j; simpl. by intros ->. Qed.

(** Chains of [addr |= index << n]. *)
Lemma or_shifted_2 a b :
  PageTableIndex_wf a -> PageTableIndex_wf b ->
  or_shifted (or_shifted 0 a 39) b 30 = (pti a * 512 + pti b) * 2 ^ 30.
Proof.
  intros Ha Hb. rewrite or_shifted_0 by (done || lia).
  change (pti a * 2 ^ 39) with (pti a * 2 ^ (30 + 9)). rewrite or_shifted_val by (done || lia).
  change (30 + 9) with 39. lia.
Qed.

Lemma or_shifted_3 a b c :
  PageTableIndex_wf a -> PageTableIndex_wf b -> PageTableIndex_wf c ->
  or_shifted (or_shifted (or_shifted 0 a 39) b 30) c 21 =
    ((pti a * 512 + pti b) * 512 + pti c) * 2 ^ 21.
Proof.
  intros Ha Hb Hc. rewrite or_shifted_2 by done.
  change (2 ^ 30) with (2 ^ (21 + 9)). rewrite or_shifted_val by (done || lia).
  change (21 + 9) with 30. lia.
Qed.

Lemma or_shifted_4 a b c d :
  PageTableIndex_wf a -> PageTableIndex_wf b -> PageTableIndex_wf c -> PageTableIndex_wf d ->
  or_shifted (or_shifted (or_shifted (or_shifted 0 a 39) b 30) c 21) d 12 =
    (((pti a * 512 + pti b) * 512 + pti c) * 512 + pti d) * 2 ^ 12.
Proof.
  intros Ha Hb Hc Hd. rewrite or_shifted_3 by done.
  change (2 ^ 21) with (2 ^ (12 + 9)). rewrite or_shifted_val by (done || lia).
  change (12 + 9) with 21. lia.
Qed.

(** The page numbered [n] contains its truncated start address only. *)
Lemma Page_containing_truncated {S} n :
  0 <= n < page_count S ->
  Page_containing_address (VirtAddr_new_truncate (n * SIZE S)) = Ret (page_at n : Page S).
Proof.
  intros Hn. rewrite VirtAddr_new_truncate_val.
  - replace (n * SIZE S mod 2 ^ 48) with (n * SIZE S).
    + apply (Page_containing_address_wf (page_at n)). by apply page_at_wf.
    + rewrite Z.mod_small; [done|]. pose proof (page_count_mul S). pose proof (SIZE_pos S). nia.
  - unfold uN. pose proof (page_count_mul S). pose proof (SIZE_pos S). nia.
Qed.

(** The indices of the page numbered [n] are the base-512 digits of [n]. *)
Lemma page_at_4kib_index n :
  0 <= n < 2 ^ 36 ->
  let p := page_at n : Page Size4KiB in
  pti (Page_p1_index p) = n mod 512 /\ pti (Page_p2_index p) = n / 512 mod 512 /\
  pti (Page_p3_index p) = n / 512 / 512 mod 512 /\ pti (Page_p4_index p) = n / 512 / 512 / 512.
Proof.
  intros Hn p. assert (Page_wf p) as [Hc _] by by apply page_at_wf.
  unfold Page_p1_index, Page_p2_index, Page_p3_index, Page_p4_index, Page_start_address.
  destruct (VirtAddr_index_val _ Hc) as (-> & -> & -> & -> & _).
  subst p. unfold page_at, of_position; cbn [page_start va]. page_consts.
  zcase; zify_pow; split_and!; Z.to_euclidean_division_equations; lia.
Qed.

Lemma page_at_2mib_index n :
  0 <= n < 2 ^ 27 ->
  let p := page_at n : Page Size2MiB in
  pti (Page_p2_index p) = n mod 512 /\ pti (Page_p3_index p) = n / 512 mod 512 /\
  pti (Page_p4_index p) = n / 512 / 512.
Proof.
  intros Hn p. assert (Page_wf p) as [Hc _] by by apply page_at_wf.
  unfold Page_p2_index, Page_p3_index, Page_p4_index, Page_start_address.
  destruct (VirtAddr_index_val _ Hc) as (_ & -> & -> & -> & _).
  subst p. unfold page_at, of_position; cbn [page_start va]. page_consts.
  zcase; zify_pow; split_and!; Z.to_euclidean_division_equations; lia.
Qed.

Lemma page_at_1gib_index n :
  0 <= n < 2 ^ 18 ->
  let p := page_at n : Page Size1GiB in
  pti (Page_p3_index p) = n mod 512 /\ pti (Page_p4_index p) = n / 512.
Proof.
  intros Hn p. assert (Page_wf p) as [Hc _] by by apply page_at_wf.
  unfold Page_p3_index, Page_p4_index, Page_start_address.
  destruct (VirtAddr_index_val _ Hc) as (_ & _ & -> & -> & _).
  subst p. unfold page_at, of_position; cbn [page_start va]. page_consts.
  zcase; zify_pow; split_and!; Z.to_euclidean_division_equations; lia.
Qed.

(** Digits combine to a page number. *)
Lemma digits_1gib a b :
  PageTableIndex_wf a -> PageTableIndex_wf b -> 0 <= pti a * 512 + pti b < page_count Size1GiB.
Proof. unfold PageTableIndex_wf, ENTRY_COUNT. change (page_count Size1GiB) with (2 ^ 18). lia. Qed.

Lemma digits_2mib a b c :
  PageTableIndex_wf a -> PageTableIndex_wf b -> PageTableIndex_wf c ->
  0 <= (pti a * 512 + pti b) * 512 + pti c < page_count Size2MiB.
Proof. unfold PageTableIndex_wf, ENTRY_COUNT. change (page_count Size2MiB) with (2 ^ 27). lia. Qed.

Lemma digits_4kib a b c d :
  PageTableIndex_wf a -> PageTableIndex_wf b -> PageTableIndex_wf c -> PageTableIndex_wf d ->
  0 <= ((pti a * 512 + pti b) * 512 + pti c) * 512 + pti d < page_count Size4KiB.
Proof. unfold PageTableIndex_wf, ENTRY_COUNT. change (page_count Size4KiB) with (2 ^ 36). lia. Qed.

Lemma VirtAddr_index_wf a :
  canonical a ->
  PageTableIndex_wf (VirtAddr_p4_index a) /\ PageTableIndex_wf (VirtAddr_p3_index a) /\
  PageTableIndex_wf (VirtAddr_p2_index a) /\ PageTableIndex_wf (VirtAddr_p1_index a).
Proof.
  intros Ha. unfold PageTableIndex_wf, ENTRY_COUNT.
  destruct (VirtAddr_index_val a Ha) as (-> & -> & -> & -> & _).
  split_and!; by apply Z.mod_pos_bound.
Qed.

Lemma page_indices_rebuild (p : Page Size4KiB) :
  Page_wf p ->
  Page_from_page_table_indices (Page_p4_index p) (Page_p3_index p) (Page_p2_index p)
    (Page_p1_index p) = Ret p.
Proof.
  intros Hp. destruct (VirtAddr_index_wf _ (proj1 Hp)) as (H4 & H3 & H2 & H1).
  unfold Page_from_page_table_indices. rewrite or_shifted_4 by done.
  change (2 ^ 12) with (SIZE Size4KiB).
  rewrite Page_containing_truncated by by apply digits_4kib.
  f_equal. rewrite <- (page_at_position p) at 5 by done. f_equal.
  destruct (page_position_val p Hp) as [_ Hr]. change (page_count Size4KiB) with (2 ^ 36) in Hr.
  destruct (page_at_4kib_index _ Hr) as (E1 & E2 & E3 & E4).
  rewrite page_at_position in E1, E2, E3, E4 by done. rewrite E1, E2, E3, E4.
  clear -Hr. Z.to_euclidean_division_equations; lia.
Qed.

(** ** Stepping and arithmetic on pages *)
Section page_steps.
Context `{BFL : BitFieldLaws}.

Lemma Page_forward_checked_position {S} (p : Page S) n :
  Page_wf p -> u64 n ->
  Page_forward_checked_impl p n =
    Ret (if page_position p + n <? page_count S then Some (page_at (page_position p + n)) else None).
Proof.
  intros Hp Hn. destruct (page_position_val p Hp) as [E Hr].
  pose proof (page_count_mul S) as HC. pose proof (SIZE_pos S) as HS. destruct Hp as [Hc _].
  unfold Page_forward_checked_impl, checked_mul.
  destruct (checked 64 (n * SIZE S)) as [m|] eqn:Em.
  - apply checked_Some in Em as [<- Hm].
    rewrite forward_checked_u64_position by done. rewrite E, <- Z.mul_add_distr_r.
    cbn [mbind outcome_bind]. rewrite <- HC.
    destruct (Z.ltb_spec (page_position p + n) (page_count S)),
      (Z.ltb_spec ((page_position p + n) * SIZE S) (page_count S * SIZE S)); done || nia.
  - apply checked_None in Em. destruct Hn. zcase; [nia|done].
Qed.

Lemma Page_backward_checked_position {S} (p : Page S) n :
  Page_wf p -> u64 n ->
  Page_backward_checked p n =
    Ret (if n <=? page_position p then Some (page_at (page_position p - n)) else None).
Proof.
  intros Hp Hn. destruct (page_position_val p Hp) as [E Hr].
  pose proof (page_count_mul S) as HC. pose proof (SIZE_pos S) as HS. destruct Hp as [Hc _].
  unfold Page_backward_checked, checked_mul.
  destruct (checked 64 (n * SIZE S)) as [m|] eqn:Em.
  - apply checked_Some in Em as [<- Hm].
    rewrite backward_checked_u64_position by done. rewrite E, <- Z.mul_sub_distr_r.
    cbn [mbind outcome_bind].
    destruct (Z.leb_spec n (page_position p)),
      (Z.leb_spec (n * SIZE S) (page_position p * SIZE S)); done || nia.
  - apply checked_None in Em. destruct Hn. zcase; [nia|done].
Qed.
End page_steps.

Lemma Page_steps_between_position `{Target} {S} (p q : Page S) :
  Page_wf p -> Page_wf q ->
  Page_steps_between_impl p q =
    (if page_position q <? page_position p then (0, None)
     else if page_position q - page_position p <=? usize_max
          then (page_position q - page_position p, Some (page_position q - page_position p))
          else (usize_max, None)).
Proof.
  intros Hp Hq. destruct (page_position_val p Hp) as [Ep _], (page_position_val q Hq) as [Eq _].
  pose proof (SIZE_pos S) as HS. destruct Hp as [Hp _], Hq as [Hq _].
  unfold Page_steps_between_impl. rewrite steps_between_u64_position by done.
  unfold Page_start_address. rewrite Ep, Eq, <- Z.mul_sub_distr_r.
  destruct (Z.leb_spec (page_position p * SIZE S) (page_position q * SIZE S)),
    (Z.ltb_spec (page_position q) (page_position p)); try nia; [|done].
  rewrite Z.div_mul by lia. unfold usize_try_from. by zcase.
Qed.

#[export] Instance canonical_decision a : Decision (canonical a) := canonical_dec a.

(** The page at a byte distance [d] from [p], when its address is canonical. *)
Definition page_shift {S} (p : Page S) (d : Z) : outcome (Page S) :=
  if decide (canonical (mkVirtAddr (va (page_start p) + d)))
  then Ret (mkPage (mkVirtAddr (va (page_start p) + d))) else Panic.

Lemma Page_wf_shift {S} (p : Page S) d :
  Page_wf p -> d mod SIZE S = 0 -> canonical (mkVirtAddr (va (page_start p) + d)) ->
  Page_wf (mkPage (mkVirtAddr (va (page_start p) + d)) : Page S).
Proof.
  intros [_ Hm] Hd Hc. split; [done|]. cbn [page_start va].
  pose proof (SIZE_pos S). rewrite Z.add_mod, Hm, Hd by lia. by rewrite Z.mod_0_l by lia.
Qed.

Lemma page_shift_wf {S} (p : Page S) d q :
  Page_wf p -> d mod SIZE S = 0 -> page_shift p d = Ret q ->
  Page_wf q /\ va (page_start q) = va (page_start p) + d.
Proof.
  intros Hp Hd. unfold page_shift. case_decide; [intros [= <-]|done].
  split; [by apply Page_wf_shift|done].
Qed.

Lemma Page_add_val `{Target} {S} (p : Page S) n :
  Page_wf p -> u64 (n * SIZE S) -> Page_add p n = page_shift p (n * SIZE S).
Proof.
  intros Hp Hn. unfold Page_add, page_shift, VirtAddr_add, Page_start_address.
  rewrite arith_in_range by done. cbn [mbind outcome_bind].
  pose proof (SIZE_pos S) as HS. pose proof (canonical_u64 _ (proj1 Hp)) as Hu.
  case_decide as Hc.
  - pose proof (canonical_u64 _ Hc) as Hu'. cbn [va] in Hu'. unfold checked_add.
    rewrite checked_in_range by done. cbn [unwrap mbind outcome_bind].
    pose proof (VirtAddr_new_canonical _ Hc) as E. cbn [va] in E. rewrite E. cbn [mbind outcome_bind].
    apply (Page_containing_address_wf (mkPage _)). apply Page_wf_shift; [done| |done].
    apply Z.mod_mul. lia.
  - destruct (checked_add 64 _ _) as [s|] eqn:E; [|done].
    apply checked_Some in E as [<- Hs]. cbn [unwrap mbind outcome_bind].
    by rewrite VirtAddr_new_Panic.
Qed.

Lemma Page_sub_val `{Target} {S} (p : Page S) n :
  Page_wf p -> u64 (n * SIZE S) -> Page_sub p n = page_shift p (- (n * SIZE S)).
Proof.
  intros Hp Hn. unfold Page_sub, page_shift, VirtAddr_sub, Page_start_address.
  rewrite arith_in_range by done. cbn [mbind outcome_bind].
  pose proof (SIZE_pos S) as HS. pose proof (canonical_u64 _ (proj1 Hp)) as Hu.
  unfold checked_sub. rewrite <- Z.add_opp_r.
  case_decide as Hc.
  - pose proof (canonical_u64 _ Hc) as Hu'. cbn [va] in Hu'.
    rewrite checked_in_range by done. cbn [unwrap mbind outcome_bind].
    pose proof (VirtAddr_new_canonical _ Hc) as E. cbn [va] in E. rewrite E. cbn [mbind outcome_bind].
    apply (Page_containing_address_wf (mkPage _)). apply Page_wf_shift; [done| |done].
    rewrite <- Z.mul_opp_l. apply Z.mod_mul. lia.
  - destruct (checked 64 _) as [s|] eqn:E; [|done].
    apply checked_Some in E as [<- Hs]. cbn [unwrap mbind outcome_bind].
    by rewrite VirtAddr_new_Panic.
Qed.

Lemma Page_sub_page_val {S} (p q : Page S) :
  Page_wf p -> Page_wf q -> va (page_start q) <= va (page_start p) ->
  Page_sub_page p q = Ret ((va (page_start p) - va (page_start q)) / SIZE S).
Proof.
  intros [Hp _] [Hq _] Hle. unfold Page_sub_page, VirtAddr_sub_addr, checked_sub, VirtAddr_as_u64.
  apply canonical_u64 in Hp, Hq. unfold uN in *.
  rewrite checked_in_range; [done|]. unfold uN. lia.
Qed.

(** ** Ranges inside one canonical half *)
Definition same_half {S} (p q : Page S) : Prop :=
  va (page_start p) < 2 ^ 47 <-> va (page_start q) < 2 ^ 47.

Lemma page_distance {S} (p q : Page S) :
  Page_wf p -> Page_wf q -> same_half p q ->
  va (page_start q) - va (page_start p) = (page_position q - page_position p) * SIZE S.
Proof.
  intros Hp Hq Hh. destruct (page_position_val p Hp) as [Ep _], (page_position_val q Hq) as [Eq _].
  rewrite Z.mul_sub_distr_r, <- Ep, <- Eq. unfold same_half, position in *. zcase; lia.
Qed.

Lemma page_at_half {S} (p : Page S) n :
  Page_wf p -> 0 <= n < page_count S ->
  same_half p (page_at n) <->
  (page_position p < page_count S / 2 <-> n < page_count S / 2).
Proof.
  intros Hp Hn. destruct (page_position_val p Hp) as [Ep Hr]. destruct Hp as [Hc _].
  unfold same_half, page_at, of_position, position, canonical, page_count in *. cbn [page_start va].
  destruct S; page_consts; zify_pow; zcase; Z.to_euclidean_division_equations; lia.
Qed.

(** [page + 1] is the next page except at the end of each half, where it panics. *)
Lemma Page_add_1 `{Target} {S} n :
  0 <= n < page_count S ->
  Page_add (page_at n : Page S) 1 =
    if (n + 1 =? page_count S / 2) || (n + 1 =? page_count S) then Panic else Ret (page_at (n + 1)).
Proof.
  intros Hn. rewrite Page_add_val; [|by apply page_at_wf|unfold uN; pose proof (SIZE_pos S); lia].
  unfold page_shift, canonical, page_at, of_position, page_count in *. cbn [page_start va].
  case_decide as Hc; destruct S; page_consts; zify_pow; zcase; cbn [orb]; try done;
    try (Z.to_euclidean_division_equations; lia); do 3 f_equal; lia.
Qed.

Lemma page_at_va {S} n :
  0 <= n < page_count S ->
  va (page_start (page_at n : Page S)) =
    n * SIZE S + (if n <? page_count S / 2 then 0 else 2 ^ 64 - 2 ^ 48).
Proof.
  intros Hn. unfold page_at, of_position, page_count in *. cbn [page_start va].
  destruct S; page_consts; zify_pow; zcase; Z.to_euclidean_division_equations; lia.
Qed.

Lemma page_at_ltb {S} a b :
  0 <= a < page_count S -> 0 <= b < page_count S ->
  Page_ltb (page_at a : Page S) (page_at b) = (a <? b).
Proof.
  intros Ha Hb. unfold Page_ltb. rewrite !page_at_va by done.
  pose proof (SIZE_pos S). zcase; try done; nia.
Qed.

Lemma page_at_leb {S} a b :
  0 <= a < page_count S -> 0 <= b < page_count S ->
  Page_leb (page_at a : Page S) (page_at b) = (a <=? b).
Proof.
  intros Ha Hb. unfold Page_leb. rewrite !page_at_va by done.
  pose proof (SIZE_pos S). zcase; try done; nia.
Qed.

(** [page - 1] is the previous page, except at the start of each half. *)
Lemma Page_sub_1 `{Target} {S} n :
  0 <= n < page_count S -> n <> 0 -> n <> page_count S / 2 ->
  Page_sub (page_at n : Page S) 1 = Ret (page_at (n - 1)).
Proof.
  intros Hn H0 Hh. rewrite Page_sub_val; [|by apply page_at_wf|unfold uN; pose proof (SIZE_pos S); lia].
  unfold page_shift, canonical, page_at, of_position, page_count in *. cbn [page_start va].
  case_decide as Hc; destruct S; page_consts; zify_pow; zcase; try done;
    try (Z.to_euclidean_division_equations; lia); do 3 f_equal; lia.
Qed.

Lemma page_count_half S : 1 < page_count S / 2 < page_count S - 1.
Proof. by destruct S. Qed.

(** The largest page start, computed by the inclusive iterator. *)
Lemma max_page_addr_val S :
  (top ← VirtAddr_new U64_MAX; VirtAddr_sub top (SIZE S - 1)) =
    Ret (page_start (page_at (page_count S - 1) : Page S)).
Proof. by destruct S. Qed.

Lemma PageRange_next_at `{Target} {S} i e :
  0 <= i < page_count S -> 0 <= e < page_count S ->
  PageRange_next (mkPageRange (page_at i : Page S) (page_at e)) =
    if i <? e then
      if i + 1 =? page_count S / 2 then Panic
      else Ret (Some (page_at i), mkPageRange (page_at (i + 1)) (page_at e))
    else Ret (None, mkPageRange (page_at i) (page_at e)).
Proof.
  intros Hi He. unfold PageRange_next, Page_add_assign. cbn [pr_start pr_end]. rewrite page_at_ltb by done.
  destruct (Z.ltb_spec i e); [|done]. rewrite Page_add_1 by done.
  rewrite (proj2 (Z.eqb_neq (i + 1) (page_count S))), orb_false_r by lia. by zcase.
Qed.

Lemma PageRangeInclusive_next_at `{Target} {S} i e :
  0 <= i < page_count S -> 0 <= e < page_count S ->
  PageRangeInclusive_next (mkPageRangeInclusive (page_at i : Page S) (page_at e)) =
    if i <=? e then
      if i + 1 =? page_count S / 2 then Panic
      else if i + 1 =? page_count S
      then Ret (Some (page_at i), mkPageRangeInclusive (page_at i) (page_at (e - 1)))
      else Ret (Some (page_at i), mkPageRangeInclusive (page_at (i + 1)) (page_at e))
    else Ret (None, mkPageRangeInclusive (page_at i) (page_at e)).
Proof.
  intros Hi He. unfold PageRangeInclusive_next, Page_add_assign, Page_sub_assign. cbn [pri_start pri_end].
  rewrite page_at_leb by done. destruct (Z.leb_spec i e); [|done].
  pose proof (max_page_addr_val S) as E. pose proof (page_count_half S) as Hh.
  destruct (VirtAddr_new U64_MAX) as [top| |]; cbn [mbind outcome_bind] in E |- *; try done.
  rewrite E. cbn [mbind outcome_bind].
  change (va (Page_start_address (page_at i : Page S)) <?
    va (page_start (page_at (page_count S - 1) : Page S))) with
    (Page_ltb (page_at i : Page S) (page_at (page_count S - 1))).
  rewrite page_at_ltb by lia. destruct (Z.ltb_spec i (page_count S - 1)).
  - rewrite Page_add_1, (proj2 (Z.eqb_neq (i + 1) (page_count S))), orb_false_r by lia. by zcase.
  - rewrite Page_sub_1 by lia. zcase; done || lia.
Qed.

Lemma page_position_at {S} n : 0 <= n < page_count S -> page_position (page_at n : Page S) = n.
Proof.
  intros Hn. unfold page_position, page_at. cbn [page_start].
  pose proof (page_count_mul S). pose proof (SIZE_pos S).
  rewrite position_of_position by nia. apply Z.div_mul. lia.
Qed.

Lemma page_wf_at {S} (p : Page S) : Page_wf p -> exists n, 0 <= n < page_count S /\ p = page_at n.
Proof.
  intros Hp. exists (page_position p). split; [by apply page_position_val|by rewrite page_at_position].
Qed.

Lemma Page_sub_page_at {S} a b :
  0 <= a < page_count S -> 0 <= b < page_count S -> a <= b ->
  (a < page_count S / 2 <-> b < page_count S / 2) ->
  Page_sub_page (page_at b : Page S) (page_at a) = Ret (Z.of_nat (Z.to_nat (b - a))).
Proof.
  intros Ha Hb Hab Hh. pose proof (SIZE_pos S). pose proof (page_at_va a Ha). pose proof (page_at_va b Hb).
  rewrite Page_sub_page_val; [|auto with x86..|zcase; nia]. f_equal.
  replace (va (page_start (page_at b : Page S)) - va (page_start (page_at a : Page S)))
    with ((b - a) * SIZE S) by (zcase; lia).
  rewrite Z.div_mul by lia. lia.
Qed.

Lemma PageRangeInclusive_len_at `{Target} {S} a b :
  0 <= a < page_count S -> 0 <= b < page_count S ->
  (a < page_count S / 2 -> b + 1 < page_count S / 2) ->
  PageRangeInclusive_len (Page_range_inclusive (page_at a : Page S) (page_at b)) =
    Ret (Z.of_nat (Z.to_nat (b + 1 - a))).
Proof.
  intros Ha Hb Hh. unfold PageRangeInclusive_len, PageRangeInclusive_is_empty, Page_range_inclusive.
  cbn [pri_start pri_end]. rewrite page_at_ltb by done.
  destruct (Z.ltb_spec b a); cbn [negb]; [f_equal; lia|].
  rewrite Page_sub_page_at by (done || lia). cbn [mbind outcome_bind].
  assert (page_count S <= 2 ^ 36) by by destruct S.
  rewrite arith_in_range; [f_equal; lia|]. unfold uN. lia.
Qed.

(** The states of the inclusive iterator: after the last page of the address
    space it is [start] that stays and [end] that is decremented. *)
Definition pri_state {S} (b i : Z) : PageRangeInclusive S :=
  if i =? page_count S then mkPageRangeInclusive (page_at (i - 1)) (page_at (b - 1))
  else mkPageRangeInclusive (page_at i) (page_at b).

Lemma pri_state_start {S} a b :
  0 <= a < page_count S -> Page_range_inclusive (page_at a : Page S) (page_at b) = pri_state b a.
Proof. intros Ha. unfold pri_state. by rewrite (proj2 (Z.eqb_neq _ _)) by lia. Qed.

Section pri_state.
Context `{Target} {S : PageSize} (b : Z) (Hb : 0 <= b < page_count S).

Lemma pri_state_step i :
  0 <= i <= b -> i + 1 <> page_count S / 2 ->
  PageRangeInclusive_next (pri_state b i : PageRangeInclusive S) =
    Ret (Some (page_at i), pri_state b (i + 1)).
Proof.
  intros Hi Hh. unfold pri_state. rewrite (proj2 (Z.eqb_neq i _)) by lia.
  rewrite PageRangeInclusive_next_at by lia.
  rewrite (proj2 (Z.leb_le i b)), (proj2 (Z.eqb_neq (i + 1) (page_count S / 2))) by lia.
  destruct (i + 1 =? page_count S); [|done]. do 3 f_equal. f_equal. lia.
Qed.

Lemma pri_state_panic :
  page_count S / 2 - 1 <= b ->
  PageRangeInclusive_next (pri_state b (page_count S / 2 - 1) : PageRangeInclusive S) = Panic.
Proof.
  intros Hle. pose proof (page_count_half S). unfold pri_state.
  rewrite (proj2 (Z.eqb_neq _ (page_count S))) by lia.
  rewrite PageRangeInclusive_next_at by lia.
  rewrite (proj2 (Z.leb_le _ b)), (proj2 (Z.eqb_eq _ (page_count S / 2))) by lia. done.
Qed.

Lemma pri_state_stop i :
  b < i < page_count S \/ i = b + 1 ->
  exists r, PageRangeInclusive_next (pri_state b i : PageRangeInclusive S) = Ret (None, r).
Proof.
  intros Hi. pose proof (page_count_half S). unfold pri_state.
  destruct (Z.eqb_spec i (page_count S)).
  - rewrite PageRangeInclusive_next_at, (proj2 (Z.leb_gt (i - 1) (b - 1))) by lia. eauto.
  - rewrite PageRangeInclusive_next_at, (proj2 (Z.leb_gt i b)) by lia. eauto.
Qed.
End pri_state.

(** ** Properties of pages *)

(** [containing_address] returns the one well-formed page whose [SIZE]
    bytes contain the address; [from_start_address] returns it exactly when
    the address is its start and [AddressNotAligned] otherwise. *)
Theorem Page_constructors {S} (a : VirtAddr) :
  canonical a ->
  (exists p : Page S, Page_containing_address a = Ret p /\ Page_wf p /\
     va (page_start p) <= va a < va (page_start p) + SIZE S /\
     (forall q : Page S, Page_wf q -> va (page_start q) <= va a < va (page_start q) + SIZE S -> q = p)) /\
  Page_from_start_address a =
    Ret (if va a mod SIZE S =? 0 then Ok (mkPage a : Page S) else Err mkAddressNotAligned).
Proof.
  intros Ha. split; [|by apply Page_from_start_address_val].
  destruct (Page_containing_address_val (S := S) a Ha) as [E Hwf].
  pose proof (SIZE_pos S). pose proof (Z.mod_pos_bound (va a) (SIZE S)).
  eexists. split_and!; [exact E|exact Hwf|simpl; lia|simpl; lia|].
  intros q [_ Hm] Hq. apply page_ext. simpl.
  apply Z.mod_divide in Hm as [k Hk]; [|lia].
  pose proof (Z.div_mod (va a) (SIZE S)). assert (k = va a / SIZE S) by nia. nia.
Qed.

Lemma Page_constructors_witness :
  let a := mkVirtAddr 0xffff800000201abc in
  canonical a /\ Page_from_start_address a = Ret (Err mkAddressNotAligned : result (Page Size4KiB) _).
Proof.
  intros a. assert (canonical a) as H by (right; simpl; lia).
  split; [exact H|]. etransitivity; [exact (proj2 (Page_constructors (S := Size4KiB) a H))|].
  vm_compute. reflexivity.
Defined.

(** A page is determined by its four indices, which can be any. *)
Lemma indices_page a b c d :
  PageTableIndex_wf a -> PageTableIndex_wf b -> PageTableIndex_wf c -> PageTableIndex_wf d ->
  exists p, Page_from_page_table_indices a b c d = Ret p /\ Page_wf p /\
    Page_p4_index p = a /\ Page_p3_index p = b /\ Page_p2_index p = c /\ Page_p1_index p = d.
Proof.
  intros Ha Hb Hc Hd. unfold Page_from_page_table_indices. rewrite (or_shifted_4 a b c d) by done.
  eexists. split; [by apply (Page_containing_truncated (S := Size4KiB)), digits_4kib|].
  split; [by apply page_at_wf, digits_4kib|].
  destruct (page_at_4kib_index _ (digits_4kib a b c d Ha Hb Hc Hd)) as (E1 & E2 & E3 & E4).
  unfold PageTableIndex_wf, ENTRY_COUNT in *.
  split_and!; apply index_ext; rewrite ?E1, ?E2, ?E3, ?E4; mlia.
Qed.

(** Building a page from table indices and reading the indices of a page
    are inverse to each other, for the three page sizes, whatever the indices:
    every combination gives a well-formed (in particular canonical) page. *)
Theorem from_page_table_indices_roundtrip a b c d :
  PageTableIndex_wf a -> PageTableIndex_wf b -> PageTableIndex_wf c -> PageTableIndex_wf d ->
  (exists p, Page_from_page_table_indices a b c d = Ret p /\ Page_wf p /\
     Page_p4_index p = a /\ Page_p3_index p = b /\ Page_p2_index p = c /\ Page_p1_index p = d) /\
  (exists p, Page_from_page_table_indices_2mib a b c = Ret p /\ Page_wf p /\
     Page_p4_index p = a /\ Page_p3_index p = b /\ Page_p2_index p = c) /\
  (exists p, Page_from_page_table_indices_1gib a b = Ret p /\ Page_wf p /\
     Page_p4_index p = a /\ Page_p3_index p = b) /\
  (forall p : Page Size4KiB, Page_wf p ->
     Page_from_page_table_indices (Page_p4_index p) (Page_p3_index p) (Page_p2_index p)
       (Page_p1_index p) = Ret p).
Proof.
  intros Ha Hb Hc Hd.
  split_and!; [by apply indices_page| | |];
    unfold Page_from_page_table_indices_2mib, Page_from_page_table_indices_1gib;
    rewrite ?(or_shifted_3 a b c), ?(or_shifted_2 a b) by done.
  - eexists. split; [by apply (Page_containing_truncated (S := Size2MiB)), digits_2mib|].
    split; [by apply page_at_wf, digits_2mib|].
    destruct (page_at_2mib_index _ (digits_2mib a b c Ha Hb Hc)) as (E2 & E3 & E4).
    unfold PageTableIndex_wf, ENTRY_COUNT in *.
    split_and!; apply index_ext; rewrite ?E2, ?E3, ?E4; mlia.
  - eexists. split; [by apply (Page_containing_truncated (S := Size1GiB)), digits_1gib|].
    split; [by apply page_at_wf, digits_1gib|].
    destruct (page_at_1gib_index _ (digits_1gib a b Ha Hb)) as (E3 & E4).
    unfold PageTableIndex_wf, ENTRY_COUNT in *.
    split_and!; apply index_ext; rewrite ?E3, ?E4; mlia.
  - intros p Hp. apply page_indices_rebuild, Hp.
Qed.

Lemma from_page_table_indices_roundtrip_witness :
  let i := mkPageTableIndex 256 in let j := mkPageTableIndex 511 in
  exists p, Page_from_page_table_indices_2mib i j i = Ret p /\ Page_p3_index p = j.
Proof.
  intros i j. assert (PageTableIndex_wf i) as Hi by (split; reflexivity || (simpl; lia)).
  assert (PageTableIndex_wf j) as Hj by (split; reflexivity || (simpl; lia)).
  destruct (from_page_table_indices_roundtrip i j i j Hi Hj Hi Hj) as (_ & (p & E & _ & _ & E3 & _) & _).
  exists p. split; [exact E|exact E3].
Defined.

(** Stepping over pages counts page numbers, gap included: the [n]-th next
    or previous page exists exactly when its number is in range, and
    [steps_between] is the difference of the numbers. *)
Theorem Page_step_refines `{BFL : BitFieldLaws} `{Target} {S} (p q : Page S) n :
  Page_wf p -> Page_wf q -> u64 n ->
  Page_forward_checked_impl p n =
    Ret (if page_position p + n <? page_count S then Some (page_at (page_position p + n)) else None) /\
  Page_backward_checked p n =
    Ret (if n <=? page_position p then Some (page_at (page_position p - n)) else None) /\
  Page_steps_between_impl p q =
    (if page_position q <? page_position p then (0, None)
     else if page_position q - page_position p <=? usize_max
          then (page_position q - page_position p, Some (page_position q - page_position p))
          else (usize_max, None)).
Proof.
  intros Hp Hq Hn. split_and!.
  - by apply Page_forward_checked_position.
  - by apply Page_backward_checked_position.
  - by apply Page_steps_between_position.
Qed.

Lemma Page_step_refines_witness :
  let T64 := {| overflow_checks := true; usize_bits := 64 |} in
  let lo : Page Size4KiB := mkPage (mkVirtAddr 0x7ffffffff000) in
  let hi : Page Size4KiB := mkPage (mkVirtAddr 0xffff800000000000) in
  Page_forward_checked_impl lo 1 = Ret (Some hi) /\
  Page_steps_between_impl (H := T64) lo hi = (1, Some 1).
Proof.
  intros T64 lo hi.
  assert (Page_wf lo) as Hlo by (split; [left; simpl; lia|reflexivity]).
  assert (Page_wf hi) as Hhi by (split; [right; simpl; lia|reflexivity]).
  destruct (Page_step_refines (BFL := ref_bit_field_laws) lo hi 1 Hlo Hhi ltac:(unfold uN; lia))
    as (F & _ & S).
  rewrite F, S. split; vm_compute; reflexivity.
Defined.

(** Page arithmetic with the plain operators: as long as [n * SIZE] fits in
    64 bits, [page + n] is the page [n * SIZE] bytes further and panics exactly
    when that address is not canonical (the gap is not jumped), [page - n] takes
    it back and the difference of the two pages is [n].  When the product does
    not fit, the overflow panics in the debug profile. *)
Theorem Page_arithmetic `{Target} {S} (p : Page S) n :
  Page_wf p -> u64 n ->
  (n * SIZE S < 2 ^ 64 ->
     (if decide (canonical (mkVirtAddr (va (page_start p) + n * SIZE S)))
      then let q : Page S := mkPage (mkVirtAddr (va (page_start p) + n * SIZE S)) in
           Page_add p n = Ret q /\ Page_wf q /\ Page_sub q n = Ret p /\ Page_sub_page q p = Ret n
      else Page_add p n = Panic)) /\
  (2 ^ 64 <= n * SIZE S -> overflow_checks = true -> Page_add p n = Panic /\ Page_sub p n = Panic).
Proof.
  intros Hp Hn. pose proof (SIZE_pos S) as HS. split.
  - intros Hm. assert (u64 (n * SIZE S)) as Hu by (unfold uN in *; lia).
    pose proof (Page_add_val p n Hp Hu) as E. unfold page_shift in E. case_decide as Hc; [|done].
    assert (Page_wf (mkPage (mkVirtAddr (va (page_start p) + n * SIZE S)) : Page S)) as Hq.
    { apply Page_wf_shift; [done|apply Z.mod_mul; lia|done]. }
    assert (va (page_start p) + n * SIZE S + - (n * SIZE S) = va (page_start p)) as E0 by lia.
    cbn zeta. split_and!; [done|done| |].
    + rewrite Page_sub_val by done. unfold page_shift. cbn [page_start va]. rewrite E0.
      destruct Hp as [Hp _]. destruct p as [[p]]. cbn [page_start va] in *. by rewrite decide_True.
    + rewrite Page_sub_page_val by (done || (cbn; unfold uN in *; lia)). cbn [page_start va]. f_equal.
      replace (va (page_start p) + n * SIZE S - va (page_start p)) with (n * SIZE S) by lia.
      apply Z.div_mul. lia.
  - intros Hm Ho. unfold Page_add, Page_sub, arith. rewrite Ho.
    rewrite (proj2 (Z.ltb_ge _ _)), andb_false_r by done. done.
Qed.

Lemma Page_arithmetic_witness :
  let T := {| overflow_checks := false; usize_bits := 64 |} in
  let p : Page Size4KiB := mkPage (mkVirtAddr 0x1000) in
  Page_add (H := T) p 3 = Ret (mkPage (mkVirtAddr 0x4000)).
Proof.
  intros T p. assert (Page_wf p) as Hp by (split; [left; simpl; lia|reflexivity]).
  pose proof (proj1 (Page_arithmetic (H := T) p 3 Hp ltac:(unfold uN; lia)) ltac:(reflexivity)) as E.
  rewrite decide_True in E by (left; split; vm_compute; done). exact (proj1 E).
Defined.

(** In the release profile the product [rhs * SIZE] wraps silently: adding
    [2^64 / SIZE] pages returns the page itself instead of panicking. *)
Theorem Page_add_wraps_in_release `{Target} {S} (p : Page S) :
  Page_wf p -> overflow_checks = false -> Page_add p (2 ^ 64 / SIZE S) = Ret p.
Proof.
  intros Hp Ho. pose proof (Page_containing_address_wf p Hp) as E. destruct Hp as [Hc _].
  pose proof (VirtAddr_new_canonical _ Hc) as EN. pose proof (canonical_u64 _ Hc) as Hu.
  unfold Page_add, arith. rewrite Ho.
  replace (2 ^ 64 / SIZE S * SIZE S) with (2 ^ 64) by by destruct S.
  change ((0 <=? 2 ^ 64) && (2 ^ 64 <? 2 ^ 64)) with false. change (wrap 64 (2 ^ 64)) with 0.
  cbn [mbind outcome_bind]. unfold VirtAddr_add, checked_add, Page_start_address. rewrite Z.add_0_r, checked_in_range by done.
  change (mbind (M := outcome) Page_containing_address
    (VirtAddr_new (va (page_start p))) = Ret p). by rewrite EN.
Qed.

Lemma Page_add_wraps_in_release_witness :
  let T := {| overflow_checks := false; usize_bits := 64 |} in
  let p : Page Size4KiB := mkPage (mkVirtAddr 0x1000) in
  Page_add (H := T) p (2 ^ 52) = Ret p.
Proof.
  intros T p. apply (Page_add_wraps_in_release (H := T) p).
  - split; [left; simpl; lia|reflexivity].
  - reflexivity.
Defined.

(** The pages numbered [a, a + 1, ..., a + n - 1]. *)
Definition pages_from {S} (a : Z) (n : nat) : list (Page S) :=
  (fun i => page_at (a + Z.of_nat i)) <$> seq 0 n.

(** Iterating over an exclusive page range yields exactly the pages from
    [start] to the one before [end], in order, and [len] is their number,
    unless the range crosses the gap between the canonical halves: then the
    iteration panics at the last page of the lower half.  Any fuel above the
    distance is enough: the loop terminates. *)
Theorem PageRange_iteration `{Target} {S} (s e : Page S) fuel :
  Page_wf s -> Page_wf e ->
  let n := Z.to_nat (page_position e - page_position s) in
  (n < fuel)%nat ->
  if (page_position s <? page_count S / 2) && (page_count S / 2 <=? page_position e)
  then collect PageRange_next fuel (Page_range s e) = Panic
  else collect PageRange_next fuel (Page_range s e) = Ret (Some (pages_from (page_position s) n)) /\
       PageRange_len (Page_range s e) = Ret (Z.of_nat n).
Proof.
  intros Hs He n Hf. subst n.
  destruct (page_wf_at s Hs) as (a & Ra & ->), (page_wf_at e He) as (b & Rb & ->).
  rewrite !page_position_at in * by done.
  pose proof (page_count_half S) as Hh.
  destruct (Z.ltb_spec a (page_count S / 2)), (Z.leb_spec (page_count S / 2) b); cbn [andb].
  1: { apply (collect_panics_range _ (fun i => mkPageRange (page_at i) (page_at b)) page_at a
         (page_count S / 2 - 1)); [lia| | |lia].
       - intros i Hi. rewrite PageRange_next_at by lia. zcase; done || lia.
       - rewrite PageRange_next_at by lia. zcase; done || lia. }
  all: split;
    [ apply (collect_range _ (fun i => mkPageRange (page_at i) (page_at b)) page_at a b);
      [ intros i Hi; rewrite PageRange_next_at by lia; zcase; done || lia
      | rewrite PageRange_next_at by lia; zcase; eauto; lia
      | done ]
    | unfold PageRange_len, PageRange_is_empty, Page_range; cbn [pr_start pr_end];
      rewrite page_at_leb by done; destruct (Z.leb_spec b a); cbn [negb];
      [ f_equal; lia | apply Page_sub_page_at; done || lia ] ].
Qed.

Lemma PageRange_iteration_witness :
  let T := {| overflow_checks := true; usize_bits := 64 |} in
  let s : Page Size4KiB := mkPage (mkVirtAddr 0x1000) in
  let e : Page Size4KiB := mkPage (mkVirtAddr 0x3000) in
  collect (PageRange_next (H := T)) 3 (Page_range s e) =
    Ret (Some [s; mkPage (mkVirtAddr 0x2000)]).
Proof.
  intros T s e.
  assert (Page_wf s) as Hs by (split; [left; simpl; lia|reflexivity]).
  assert (Page_wf e) as He by (split; [left; simpl; lia|reflexivity]).
  exact (proj1 (PageRange_iteration (H := T) s e 3 Hs He ltac:(vm_compute; lia))).
Defined.

(** C35. Iterating over an inclusive page range yields exactly the pages from
    [start] to [end], in order, also when [end] is the very last page of the
    address space, and [len] is their number; the iteration panics exactly
    when [start] is in the lower half and [end] is the last page of the lower
    half or lies in the upper half. *)
Theorem PageRangeInclusive_iteration `{Target} {S} (s e : Page S) fuel :
  Page_wf s -> Page_wf e ->
  let n := Z.to_nat (page_position e - page_position s + 1) in
  (n < fuel)%nat ->
  if (page_position s <? page_count S / 2) && (page_count S / 2 <=? page_position e + 1)
  then collect PageRangeInclusive_next fuel (Page_range_inclusive s e) = Panic
  else collect PageRangeInclusive_next fuel (Page_range_inclusive s e) =
         Ret (Some (pages_from (page_position s) n)) /\
       PageRangeInclusive_len (Page_range_inclusive s e) = Ret (Z.of_nat n).
Proof.
  intros Hs He n Hf. subst n.
  destruct (page_wf_at s Hs) as (a & Ra & ->), (page_wf_at e He) as (b & Rb & ->).
  rewrite !page_position_at in * by done. clear Hs He.
  pose proof (page_count_half S) as Hh.
  replace (b - a + 1) with (b + 1 - a) in * by lia.
  destruct ((a <? page_count S / 2) && (page_count S / 2 <=? b + 1)) eqn:Hc.
  - apply andb_true_iff in Hc as [Hc1%Z.ltb_lt Hc2%Z.leb_le].
    rewrite pri_state_start by done.
    apply (collect_panics_range _ (pri_state b) page_at a (page_count S / 2 - 1)); [lia| | |lia].
    + intros i Hi. apply pri_state_step; lia.
    + apply pri_state_panic; lia.
  - assert (a < page_count S / 2 -> b + 1 < page_count S / 2) as Hc'.
    { apply andb_false_iff in Hc as [Hc%Z.ltb_ge|Hc%Z.leb_gt]; lia. }
    split; [|by apply PageRangeInclusive_len_at].
    rewrite pri_state_start by done.
    apply (collect_range _ (pri_state b) page_at a (b + 1)); [| |done].
    + intros i Hi. apply pri_state_step; lia.
    + apply pri_state_stop; lia.
Qed.

Lemma PageRangeInclusive_iteration_witness :
  let T := {| overflow_checks := true; usize_bits := 64 |} in
  let s : Page Size1GiB := mkPage (mkVirtAddr 0x7fff80000000) in
  let e : Page Size1GiB := mkPage (mkVirtAddr 0x7fffc0000000) in
  collect (PageRangeInclusive_next (H := T)) 3 (Page_range_inclusive s e) = Panic.
Proof.
  intros T s e.
  assert (Page_wf s) as Hs by (split; [left; simpl; lia|reflexivity]).
  assert (Page_wf e) as He by (split; [left; simpl; lia|reflexivity]).
  exact (PageRangeInclusive_iteration (H := T) s e 3 Hs He ltac:(vm_compute; lia)).
Defined.
