(* ===== verification/Frame.v ===== *)
(** * Physical memory frames (src/structures/paging/frame.rs)

    Frames of the three sizes, their arithmetic, and the exclusive and
    inclusive frame ranges with their iterators. *)
From Stdlib Require Import ZArith Lia Bool.
From stdpp Require Import base decidable option list numbers.
From S2P Require Import Prelude Crates Index Addr Page.
#[local] Open Scope Z_scope.

(** ** [PhysFrame<S>] *)
Record PhysFrame (S : PageSize) : Type := mkPhysFrame { frame_start : PhysAddr }.
Arguments mkPhysFrame {S} frame_start.
Arguments frame_start {S} p.

#[export] Instance PhysFrame_eq_dec {S} : EqDecision (PhysFrame S).
Proof. solve_decision. Defined.

Definition PhysFrame_from_start_address_unchecked {S} (start_address : PhysAddr) : PhysFrame S :=
  mkPhysFrame start_address.

Definition PhysFrame_from_start_address {S} (address : PhysAddr)
    : outcome (result (PhysFrame S) AddressNotAligned) :=
  aligned ← PhysAddr_is_aligned_u64 address (SIZE S);
  if negb aligned then Ret (Err mkAddressNotAligned)
  else Ret (Ok (PhysFrame_from_start_address_unchecked address)).

Definition PhysFrame_containing_address {S} (address : PhysAddr) : outcome (PhysFrame S) :=
  mkPhysFrame <$> PhysAddr_align_down_u64 address (SIZE S).

Definition PhysFrame_start_address {S} (f : PhysFrame S) : PhysAddr := frame_start f.
Definition PhysFrame_size {S} (f : PhysFrame S) : Z := SIZE S.

(** Arithmetic: the product [rhs * S::SIZE] is a plain operator. *)
Definition PhysFrame_add `{Target} {S} (f : PhysFrame S) (rhs : Z) : outcome (PhysFrame S) :=
  m ← arith 64 (rhs * SIZE S);
  a ← PhysAddr_add (PhysFrame_start_address f) m;
  PhysFrame_containing_address a.

Definition PhysFrame_add_assign `{Target} {S} (f : PhysFrame S) (rhs : Z) : outcome (PhysFrame S) :=
  PhysFrame_add f rhs.

Definition PhysFrame_sub `{Target} {S} (f : PhysFrame S) (rhs : Z) : outcome (PhysFrame S) :=
  m ← arith 64 (rhs * SIZE S);
  a ← PhysAddr_sub (PhysFrame_start_address f) m;
  PhysFrame_containing_address a.

Definition PhysFrame_sub_assign `{Target} {S} (f : PhysFrame S) (rhs : Z) : outcome (PhysFrame S) :=
  PhysFrame_sub f rhs.

Definition PhysFrame_sub_frame {S} (f rhs : PhysFrame S) : outcome Z :=
  d ← PhysAddr_sub_addr (frame_start f) (frame_start rhs);
  Ret (d / SIZE S).

(** The derived orders compare start addresses. *)
Definition PhysFrame_ltb {S} (f g : PhysFrame S) : bool := pa (frame_start f) <? pa (frame_start g).
Definition PhysFrame_leb {S} (f g : PhysFrame S) : bool := pa (frame_start f) <=? pa (frame_start g).

(** ** [PhysFrameRange] *)
Record PhysFrameRange (S : PageSize) : Type :=
  mkPhysFrameRange { fr_start : PhysFrame S; fr_end : PhysFrame S }.
Arguments mkPhysFrameRange {S} fr_start fr_end.
Arguments fr_start {S} p.
Arguments fr_end {S} p.

Definition PhysFrame_range {S} (start end_ : PhysFrame S) : PhysFrameRange S :=
  mkPhysFrameRange start end_.

Definition PhysFrameRange_is_empty {S} (r : PhysFrameRange S) : bool :=
  PhysFrame_leb (fr_end r) (fr_start r).

Definition PhysFrameRange_len {S} (r : PhysFrameRange S) : outcome Z :=
  if negb (PhysFrameRange_is_empty r) then PhysFrame_sub_frame (fr_end r) (fr_start r) else Ret 0.

Definition PhysFrameRange_size `{Target} {S} (r : PhysFrameRange S) : outcome Z :=
  n ← PhysFrameRange_len r;
  arith 64 (SIZE S * n).

Definition PhysFrameRange_next `{Target} {S} (r : PhysFrameRange S)
    : outcome (option (PhysFrame S) * PhysFrameRange S) :=
  if PhysFrame_ltb (fr_start r) (fr_end r) then
    let frame := fr_start r in
    start ← PhysFrame_add_assign (fr_start r) 1;
    Ret (Some frame, mkPhysFrameRange start (fr_end r))
  else Ret (None, r).

(** ** [PhysFrameRangeInclusive] *)
Record PhysFrameRangeInclusive (S : PageSize) : Type :=
  mkPhysFrameRangeInclusive { fri_start : PhysFrame S; fri_end : PhysFrame S }.
Arguments mkPhysFrameRangeInclusive {S} fri_start fri_end.
Arguments fri_start {S} p.
Arguments fri_end {S} p.

Definition PhysFrame_range_inclusive {S} (start end_ : PhysFrame S) : PhysFrameRangeInclusive S :=
  mkPhysFrameRangeInclusive start end_.

Definition PhysFrameRangeInclusive_is_empty {S} (r : PhysFrameRangeInclusive S) : bool :=
  PhysFrame_ltb (fri_end r) (fri_start r).

Definition PhysFrameRangeInclusive_len `{Target} {S} (r : PhysFrameRangeInclusive S) : outcome Z :=
  if negb (PhysFrameRangeInclusive_is_empty r) then
    d ← PhysFrame_sub_frame (fri_end r) (fri_start r);
    arith 64 (d + 1)
  else Ret 0.

Definition PhysFrameRangeInclusive_size `{Target} {S} (r : PhysFrameRangeInclusive S) : outcome Z :=
  n ← PhysFrameRangeInclusive_len r;
  arith 64 (SIZE S * n).

Definition PhysFrameRangeInclusive_next `{Target} {S} (r : PhysFrameRangeInclusive S)
    : outcome (option (PhysFrame S) * PhysFrameRangeInclusive S) :=
  if PhysFrame_leb (fri_start r) (fri_end r) then
    let frame := fri_start r in
    start ← PhysFrame_add_assign (fri_start r) 1;
    Ret (Some frame, mkPhysFrameRangeInclusive start (fri_end r))
  else Ret (None, r).

(** ** Well-formed frames, numbered consecutively *)
Definition PhysFrame_wf {S} (f : PhysFrame S) : Prop :=
  phys_valid (frame_start f) /\ pa (frame_start f) mod SIZE S = 0.

Definition frame_count (S : PageSize) : Z := 2 ^ 52 / SIZE S.
Definition frame_at {S} (n : Z) : PhysFrame S := mkPhysFrame (mkPhysAddr (n * SIZE S)).
Definition frame_number {S} (f : PhysFrame S) : Z := pa (frame_start f) / SIZE S.

Lemma frame_count_mul S : frame_count S * SIZE S = 2 ^ 52.
Proof. by destruct S. Qed.

Lemma frame_ext {S} (f g : PhysFrame S) : pa (frame_start f) = pa (frame_start g) -> f = g.
Proof. destruct f as [[]], g as [[]]; simpl. by intros ->. Qed.

Lemma frame_at_wf {S} n : 0 <= n < frame_count S -> PhysFrame_wf (frame_at n : PhysFrame S).
Proof.
  intros Hn. pose proof (frame_count_mul S). pose proof (SIZE_pos S).
  split; unfold phys_valid; cbn [frame_start frame_at pa]; [nia|apply Z.mod_mul; lia].
Qed.
#[export] Hint Resolve frame_at_wf : x86.

Lemma frame_wf_at {S} (f : PhysFrame S) :
  PhysFrame_wf f -> 0 <= frame_number f < frame_count S /\ f = frame_at (frame_number f).
Proof.
  intros [Hv Hm]. pose proof (frame_count_mul S). pose proof (SIZE_pos S). unfold phys_valid in Hv.
  pose proof (Z.div_mod (pa (frame_start f)) (SIZE S)). unfold frame_number. split; [nia|].
  apply frame_ext. cbn [frame_at frame_start pa]. lia.
Qed.

Lemma frame_number_at {S} n : frame_number (frame_at n : PhysFrame S) = n.
Proof. pose proof (SIZE_pos S). apply Z.div_mul. lia. Qed.

Lemma PhysFrame_containing_address_val {S} a :
  phys_valid a ->
  PhysFrame_containing_address a = Ret (frame_at (pa a / SIZE S) : PhysFrame S) /\
  0 <= pa a / SIZE S < frame_count S.
Proof.
  intros Ha. pose proof (SIZE_pos S). pose proof (frame_count_mul S).
  pose proof (Z.div_mod (pa a) (SIZE S)). pose proof (Z.mod_pos_bound (pa a) (SIZE S)).
  unfold phys_valid in *. split; [|nia].
  unfold PhysFrame_containing_address. rewrite SIZE_pow2.
  destruct (PhysAddr_align_down_pow2 a (SIZE_log2 S) Ha) as [-> _].
  { pose proof (SIZE_log2_range S). lia. }
  cbn. f_equal. apply frame_ext. cbn [frame_at frame_start pa]. rewrite <- SIZE_pow2. lia.
Qed.

Lemma PhysFrame_containing_start {S} (f : PhysFrame S) :
  PhysFrame_wf f -> PhysFrame_containing_address (frame_start f) = Ret f.
Proof.
  intros Hf. destruct (PhysFrame_containing_address_val (S := S) _ (proj1 Hf)) as [-> _].
  f_equal. symmetry. by apply frame_wf_at.
Qed.

Lemma PhysFrame_is_aligned S a :
  phys_valid a -> PhysAddr_is_aligned_u64 a (SIZE S) = Ret (pa a mod SIZE S =? 0).
Proof.
  intros Ha. unfold PhysAddr_is_aligned_u64. rewrite SIZE_pow2.
  destruct (PhysAddr_align_down_pow2 a (SIZE_log2 S) Ha) as [-> _].
  { pose proof (SIZE_log2_range S). lia. }
  unfold PhysAddr_as_u64. rewrite <- SIZE_pow2. simpl. f_equal. zcase; lia.
Qed.

Lemma PhysFrame_from_start_address_val {S} a :
  phys_valid a ->
  PhysFrame_from_start_address a =
    Ret (if pa a mod SIZE S =? 0 then Ok (mkPhysFrame a : PhysFrame S) else Err mkAddressNotAligned).
Proof.
  intros Ha. unfold PhysFrame_from_start_address. rewrite PhysFrame_is_aligned by done.
  cbn [mbind outcome_bind]. by destruct (pa a mod SIZE S =? 0).
Qed.

(** [frame + n] and [frame - n] by frame numbers. *)
Lemma PhysFrame_add_at `{Target} {S} i n :
  0 <= i < frame_count S -> u64 (n * SIZE S) ->
  PhysFrame_add (frame_at i : PhysFrame S) n =
    if i + n <? frame_count S then Ret (frame_at (i + n)) else Panic.
Proof.
  intros Hi Hn. pose proof (SIZE_pos S). pose proof (frame_count_mul S).
  unfold PhysFrame_add. rewrite arith_in_range by done. cbn [mbind outcome_bind].
  unfold PhysAddr_add, PhysFrame_start_address, checked_add. cbn [frame_at frame_start pa].
  rewrite <- Z.mul_add_distr_r. unfold uN in Hn.
  destruct (Z.ltb_spec (i + n) (frame_count S)).
  - rewrite checked_in_range by (unfold uN; nia). cbn [unwrap mbind outcome_bind].
    destruct (frame_at_wf (S := S) (i + n)) as [Hv Hm]; [nia|].
    change ((i + n) * SIZE S) with (pa (frame_start (frame_at (i + n) : PhysFrame S))) at 1.
    rewrite PhysAddr_new_valid by done. cbn [mbind outcome_bind].
    by apply PhysFrame_containing_start.
  - destruct (checked 64 _) as [s|] eqn:E; [|done]. apply checked_Some in E as [<- Hs].
    cbn [unwrap mbind outcome_bind]. unfold PhysAddr_new, PhysAddr_try_new.
    destruct (Z.eqb_spec (pa (PhysAddr_new_truncate ((i + n) * SIZE S))) ((i + n) * SIZE S)) as [E|]; [|done].
    pose proof (PhysAddr_new_truncate_valid ((i + n) * SIZE S)). unfold phys_valid in *. nia.
Qed.

Lemma PhysFrame_sub_at `{Target} {S} i n :
  0 <= i < frame_count S -> u64 (n * SIZE S) ->
  PhysFrame_sub (frame_at i : PhysFrame S) n = if n <=? i then Ret (frame_at (i - n)) else Panic.
Proof.
  intros Hi Hn. pose proof (SIZE_pos S). pose proof (frame_count_mul S).
  unfold PhysFrame_sub. rewrite arith_in_range by done. cbn [mbind outcome_bind].
  unfold PhysAddr_sub, PhysFrame_start_address, checked_sub. cbn [frame_at frame_start pa].
  rewrite <- Z.mul_sub_distr_r. unfold uN in Hn.
  destruct (Z.leb_spec n i).
  - rewrite checked_in_range by (unfold uN; nia). cbn [unwrap mbind outcome_bind].
    destruct (frame_at_wf (S := S) (i - n)) as [Hv Hm]; [nia|].
    change ((i - n) * SIZE S) with (pa (frame_start (frame_at (i - n) : PhysFrame S))) at 1.
    rewrite PhysAddr_new_valid by done. cbn [mbind outcome_bind].
    by apply PhysFrame_containing_start.
  - by rewrite (proj2 (checked_None 64 _)) by nia.
Qed.

Lemma PhysFrame_sub_frame_at {S} a b :
  0 <= a -> a <= b -> b < frame_count S ->
  PhysFrame_sub_frame (frame_at b : PhysFrame S) (frame_at a) = Ret (b - a).
Proof.
  intros Ha Hab Hb. pose proof (SIZE_pos S). pose proof (frame_count_mul S).
  unfold PhysFrame_sub_frame, PhysAddr_sub_addr, checked_sub, PhysAddr_as_u64.
  cbn [frame_at frame_start pa]. rewrite <- Z.mul_sub_distr_r.
  rewrite checked_in_range by (unfold uN; nia). cbn [unwrap mbind outcome_bind].
  f_equal. apply Z.div_mul. lia.
Qed.

Lemma frame_at_ltb {S} a b : PhysFrame_ltb (frame_at a : PhysFrame S) (frame_at b) = (a <? b).
Proof. pose proof (SIZE_pos S). unfold PhysFrame_ltb. cbn [frame_at frame_start pa]. zcase; nia. Qed.

Lemma frame_at_leb {S} a b : PhysFrame_leb (frame_at a : PhysFrame S) (frame_at b) = (a <=? b).
Proof. pose proof (SIZE_pos S). unfold PhysFrame_leb. cbn [frame_at frame_start pa]. zcase; nia. Qed.

Lemma u64_SIZE S : u64 (1 * SIZE S).
Proof. pose proof (SIZE_pos S). unfold uN. lia. Qed.

Lemma PhysFrameRange_next_at `{Target} {S} i e :
  0 <= i < frame_count S -> 0 <= e < frame_count S ->
  PhysFrameRange_next (mkPhysFrameRange (frame_at i : PhysFrame S) (frame_at e)) =
    if i <? e then Ret (Some (frame_at i), mkPhysFrameRange (frame_at (i + 1)) (frame_at e))
    else Ret (None, mkPhysFrameRange (frame_at i) (frame_at e)).
Proof.
  intros Hi He. unfold PhysFrameRange_next, PhysFrame_add_assign. cbn [fr_start fr_end].
  rewrite frame_at_ltb. destruct (Z.ltb_spec i e); [|done].
  rewrite PhysFrame_add_at by (done || apply u64_SIZE).
  by rewrite (proj2 (Z.ltb_lt _ _)) by lia.
Qed.

Lemma PhysFrameRangeInclusive_next_at `{Target} {S} i e :
  0 <= i < frame_count S -> 0 <= e < frame_count S ->
  PhysFrameRangeInclusive_next (mkPhysFrameRangeInclusive (frame_at i : PhysFrame S) (frame_at e)) =
    if i <=? e then
      if i + 1 <? frame_count S
      then Ret (Some (frame_at i), mkPhysFrameRangeInclusive (frame_at (i + 1)) (frame_at e))
      else Panic
    else Ret (None, mkPhysFrameRangeInclusive (frame_at i) (frame_at e)).
Proof.
  intros Hi He. unfold PhysFrameRangeInclusive_next, PhysFrame_add_assign. cbn [fri_start fri_end].
  rewrite frame_at_leb. destruct (Z.leb_spec i e); [|done].
  rewrite PhysFrame_add_at by (done || apply u64_SIZE). by destruct (i + 1 <? frame_count S).
Qed.

(** ** Properties of frames *)

(** Frames are numbered by [frame_at]: [containing_address] selects the
    frame whose [SIZE] bytes hold the address, [from_start_address] accepts
    exactly the aligned addresses, [frame + n] and [frame - n] move by [n] and
    panic exactly when there is no such frame, and subtraction of frames is
    the inverse of addition. *)
Theorem PhysFrame_arithmetic `{Target} {S} (a : PhysAddr) (f : PhysFrame S) n :
  phys_valid a -> PhysFrame_wf f -> u64 (n * SIZE S) ->
  (exists g : PhysFrame S, PhysFrame_containing_address a = Ret g /\ PhysFrame_wf g /\
     pa (frame_start g) <= pa a < pa (frame_start g) + SIZE S) /\
  PhysFrame_from_start_address a =
    Ret (if pa a mod SIZE S =? 0 then Ok (mkPhysFrame a : PhysFrame S) else Err mkAddressNotAligned) /\
  PhysFrame_add f n =
    (if frame_number f + n <? frame_count S then Ret (frame_at (frame_number f + n)) else Panic) /\
  PhysFrame_sub f n = (if n <=? frame_number f then Ret (frame_at (frame_number f - n)) else Panic) /\
  (forall g, PhysFrame_add f n = Ret g ->
     PhysFrame_wf g /\ PhysFrame_sub g n = Ret f /\ PhysFrame_sub_frame g f = Ret n).
Proof.
  intros Ha Hf Hn. pose proof (SIZE_pos S) as HS.
  destruct (frame_wf_at f Hf) as [Hr ->]. rewrite frame_number_at. set (i := frame_number f) in *.
  assert (0 <= n) as Hn0 by (unfold uN in Hn; nia).
  split_and!.
  - destruct (PhysFrame_containing_address_val (S := S) a Ha) as [E Hr'].
    eexists. split_and!; [exact E|by apply frame_at_wf| |];
      cbn [frame_at frame_start pa];
      pose proof (Z.div_mod (pa a) (SIZE S)); pose proof (Z.mod_pos_bound (pa a) (SIZE S)); lia.
  - by apply PhysFrame_from_start_address_val.
  - by apply PhysFrame_add_at.
  - by apply PhysFrame_sub_at.
  - intros g. rewrite PhysFrame_add_at by done. destruct (Z.ltb_spec (i + n) (frame_count S)); [|done].
    intros [= <-]. split_and!.
    + apply frame_at_wf. lia.
    + rewrite PhysFrame_sub_at by (done || lia). rewrite (proj2 (Z.leb_le _ _)) by lia.
      by rewrite Z.add_simpl_r.
    + rewrite PhysFrame_sub_frame_at by lia. f_equal. lia.
Qed.

Lemma PhysFrame_arithmetic_witness :
  let T := {| overflow_checks := true; usize_bits := 64 |} in
  let f : PhysFrame Size2MiB := mkPhysFrame (mkPhysAddr 0xfffffffe00000) in
  PhysFrame_add (H := T) f 1 = Panic.
Proof.
  intros T f. assert (phys_valid (mkPhysAddr 0x1234)) as Ha by (unfold phys_valid; simpl; lia).
  assert (PhysFrame_wf f) as Hf by (split; [unfold phys_valid; simpl; lia|reflexivity]).
  destruct (PhysFrame_arithmetic (H := T) _ f 1 Ha Hf ltac:(apply u64_SIZE)) as (_ & _ & E & _).
  rewrite E. vm_compute. reflexivity.
Defined.

Definition frames_from {S} (a : Z) (n : nat) : list (PhysFrame S) :=
  (fun i => frame_at (a + Z.of_nat i)) <$> seq 0 n.

(** Iterating over a frame range yields exactly its frames in order and
    terminates, and [len] is their number.  The inclusive iterator panics
    after the last frame of the physical address space when that frame is the
    end of the range. *)
Theorem PhysFrameRange_iteration `{Target} {S} (s e : PhysFrame S) fuel :
  PhysFrame_wf s -> PhysFrame_wf e ->
  let n := frame_number e - frame_number s in
  (Z.to_nat n + 1 < fuel)%nat ->
  (collect PhysFrameRange_next fuel (PhysFrame_range s e) =
     Ret (Some (frames_from (frame_number s) (Z.to_nat n))) /\
   PhysFrameRange_len (PhysFrame_range s e) = Ret (Z.of_nat (Z.to_nat n))) /\
  collect PhysFrameRangeInclusive_next fuel (PhysFrame_range_inclusive s e) =
    (if frame_number e + 1 =? frame_count S then Panic
     else Ret (Some (frames_from (frame_number s) (Z.to_nat (n + 1))))) /\
  PhysFrameRangeInclusive_len (PhysFrame_range_inclusive s e) = Ret (Z.of_nat (Z.to_nat (n + 1))).
Proof.
  intros Hs He n Hf. subst n.
  destruct (frame_wf_at s Hs) as [Ra ->], (frame_wf_at e He) as [Rb ->].
  rewrite !frame_number_at in *. set (a := frame_number s) in *. set (b := frame_number e) in *.
  assert (frame_count S <= 2 ^ 40) by by destruct S.
  split_and!.
  - apply (collect_range _ (fun i => mkPhysFrameRange (frame_at i) (frame_at b)) frame_at a b); [| |lia].
    + intros i Hi. rewrite PhysFrameRange_next_at by lia. zcase; done || lia.
    + rewrite PhysFrameRange_next_at by lia. zcase; eauto; lia.
  - unfold PhysFrameRange_len, PhysFrameRange_is_empty, PhysFrame_range. cbn [fr_start fr_end].
    rewrite frame_at_leb. destruct (Z.leb_spec b a); cbn [negb]; [f_equal; lia|].
    rewrite PhysFrame_sub_frame_at by lia. f_equal. lia.
  - replace (b - a + 1) with (b + 1 - a) by lia.
    destruct (Z.eqb_spec (b + 1) (frame_count S)).
    + apply (collect_panics_range _ (fun i => mkPhysFrameRangeInclusive (frame_at i) (frame_at b))
        frame_at a b); [lia| | |lia].
      * intros i Hi. rewrite PhysFrameRangeInclusive_next_at by lia. zcase; done || lia.
      * rewrite PhysFrameRangeInclusive_next_at by lia. zcase; done || lia.
    + apply (collect_range _ (fun i => mkPhysFrameRangeInclusive (frame_at i) (frame_at b))
        frame_at a (b + 1)); [| |lia].
      * intros i Hi. rewrite PhysFrameRangeInclusive_next_at by lia. zcase; done || lia.
      * rewrite PhysFrameRangeInclusive_next_at by lia. zcase; eauto; lia.
  - unfold PhysFrameRangeInclusive_len, PhysFrameRangeInclusive_is_empty, PhysFrame_range_inclusive.
    cbn [fri_start fri_end]. rewrite frame_at_ltb.
    destruct (Z.ltb_spec b a); cbn [negb]; [f_equal; lia|].
    rewrite PhysFrame_sub_frame_at by lia. cbn [mbind outcome_bind].
    rewrite arith_in_range; [f_equal; lia|unfold uN; lia].
Qed.

Lemma PhysFrameRange_iteration_witness :
  let T := {| overflow_checks := true; usize_bits := 64 |} in
  let f : PhysFrame Size4KiB := mkPhysFrame (mkPhysAddr 0xffffffffff000) in
  collect (PhysFrameRangeInclusive_next (H := T)) 3 (PhysFrame_range_inclusive f f) = Panic.
Proof.
  intros T f. assert (PhysFrame_wf f) as Hf by (split; [unfold phys_valid; simpl; lia|reflexivity]).
  destruct (PhysFrameRange_iteration (H := T) f f 3 Hf Hf ltac:(vm_compute; lia)) as (_ & E & _).
  exact E.
Defined.
