(* ===== verification/PageTable.v ===== *)
(** * Page tables and their entries (src/structures/paging/page_table.rs)

    The 64-bit page table entry, its flags and its address field, and the
    512-entry page table.  Indices, offsets and levels are in Index.v. *)
From Stdlib Require Import ZArith Lia Bool.
From stdpp Require Import base decidable option list numbers.
From S2P Require Import Prelude Crates Index Addr Page Frame.
#[local] Open Scope Z_scope.

(** ** [PageTableFlags]: the declared flags, and the union of all of them *)
Definition PageTableFlags_PRESENT : Z := 1.
Definition PageTableFlags_WRITABLE : Z := Z.shiftl 1 1.
Definition PageTableFlags_USER_ACCESSIBLE : Z := Z.shiftl 1 2.
Definition PageTableFlags_WRITE_THROUGH : Z := Z.shiftl 1 3.
Definition PageTableFlags_NO_CACHE : Z := Z.shiftl 1 4.
Definition PageTableFlags_ACCESSED : Z := Z.shiftl 1 5.
Definition PageTableFlags_DIRTY : Z := Z.shiftl 1 6.
Definition PageTableFlags_HUGE_PAGE : Z := Z.shiftl 1 7.
Definition PageTableFlags_PAT_4KIB_PAGE : Z := Z.shiftl 1 7.
Definition PageTableFlags_GLOBAL : Z := Z.shiftl 1 8.
Definition PageTableFlags_BIT_9 : Z := Z.shiftl 1 9.
Definition PageTableFlags_BIT_10 : Z := Z.shiftl 1 10.
Definition PageTableFlags_BIT_11 : Z := Z.shiftl 1 11.
Definition PageTableFlags_PAT_HUGE_PAGE : Z := Z.shiftl 1 12.
Definition PageTableFlags_BIT_51 : Z := Z.shiftl 1 51.
Definition PageTableFlags_NO_EXECUTE : Z := Z.shiftl 1 63.

(** [BIT_52] to [BIT_62]. *)
Definition PageTableFlags_BIT (n : Z) : Z := Z.shiftl 1 n.

Definition PageTableFlags_declared : list Z :=
  [PageTableFlags_PRESENT; PageTableFlags_WRITABLE; PageTableFlags_USER_ACCESSIBLE;
   PageTableFlags_WRITE_THROUGH; PageTableFlags_NO_CACHE; PageTableFlags_ACCESSED;
   PageTableFlags_DIRTY; PageTableFlags_HUGE_PAGE; PageTableFlags_PAT_4KIB_PAGE;
   PageTableFlags_GLOBAL; PageTableFlags_BIT_9; PageTableFlags_BIT_10; PageTableFlags_BIT_11;
   PageTableFlags_PAT_HUGE_PAGE; PageTableFlags_BIT_51;
   PageTableFlags_BIT 52; PageTableFlags_BIT 53; PageTableFlags_BIT 54; PageTableFlags_BIT 55;
   PageTableFlags_BIT 56; PageTableFlags_BIT 57; PageTableFlags_BIT 58; PageTableFlags_BIT 59;
   PageTableFlags_BIT 60; PageTableFlags_BIT 61; PageTableFlags_BIT 62;
   PageTableFlags_NO_EXECUTE].

Definition PageTableFlags_all : Z := foldr Z.lor 0 PageTableFlags_declared.

(** ** [PageTableEntry] *)
Inductive FrameError : Type := FrameNotPresent | HugeFrame.

#[export] Instance FrameError_eq_dec : EqDecision FrameError.
Proof. solve_decision. Defined.

Record PageTableEntry : Type := mkPageTableEntry { entry : Z }.

#[export] Instance PageTableEntry_eq_dec : EqDecision PageTableEntry.
Proof. solve_decision. Defined.

Definition PageTableEntry_new : PageTableEntry := mkPageTableEntry 0.
Definition PageTableEntry_default : PageTableEntry := PageTableEntry_new.

Definition PageTableEntry_is_unused (e : PageTableEntry) : bool := entry e =? 0.
Definition PageTableEntry_set_unused (e : PageTableEntry) : PageTableEntry := mkPageTableEntry 0.

(** The address bits of an entry. *)
Definition ADDR_MASK : Z := 0x000ffffffffff000.

Definition PageTableEntry_addr (e : PageTableEntry) : outcome PhysAddr :=
  PhysAddr_new (Z.land (entry e) ADDR_MASK).

Definition PageTableEntry_set_addr (e : PageTableEntry) (addr : PhysAddr) (flags : Z)
    : outcome PageTableEntry :=
  aligned ← PhysAddr_is_aligned addr Size4KiB_SIZE;
  _ ← rust_assert aligned;
  Ret (mkPageTableEntry (Z.lor (PhysAddr_as_u64 addr) flags)).

Definition PageTableEntry_set_frame (e : PageTableEntry) (frame : PhysFrame Size4KiB) (flags : Z)
    : outcome PageTableEntry :=
  PageTableEntry_set_addr e (PhysFrame_start_address frame) flags.

Definition PageTableEntry_set_flags (e : PageTableEntry) (flags : Z) : outcome PageTableEntry :=
  a ← PageTableEntry_addr e;
  Ret (mkPageTableEntry (Z.lor (PhysAddr_as_u64 a) flags)).

Section flags.
Context `{Bitflags}.

Definition PageTableEntry_flags (e : PageTableEntry) : Z :=
  from_bits_truncate PageTableFlags_all (entry e).

Definition PageTableEntry_frame (e : PageTableEntry)
    : outcome (result (PhysFrame Size4KiB) FrameError) :=
  if contains (PageTableEntry_flags e) PageTableFlags_PRESENT then
    a ← PageTableEntry_addr e;
    Ok <$> PhysFrame_containing_address a
  else Ret (Err FrameNotPresent).
End flags.

(** ** [PageTable]: an array of 512 entries *)
Record PageTable : Type := mkPageTable { entries : list PageTableEntry }.

#[export] Instance PageTable_eq_dec : EqDecision PageTable.
Proof. solve_decision. Defined.

Definition PageTable_new : PageTable :=
  mkPageTable (replicate (Z.to_nat ENTRY_COUNT) PageTableEntry_new).
Definition PageTable_default : PageTable := PageTable_new.

Definition PageTable_iter (t : PageTable) : list PageTableEntry := entries t.

(** [for entry in self.iter_mut() { entry.set_unused() }]. *)
Definition PageTable_zero (t : PageTable) : PageTable :=
  mkPageTable (PageTableEntry_set_unused <$> entries t).

Definition PageTable_is_empty (t : PageTable) : bool :=
  forallb PageTableEntry_is_unused (PageTable_iter t).

(** Indexing by [usize] is bounds-checked; indexing by [PageTableIndex]
    converts the index first.  [index_mut] followed by a store is [insert]. *)
Definition PageTable_index_usize (t : PageTable) (index : Z) : outcome PageTableEntry :=
  if index <? 0 then Panic else unwrap (entries t !! Z.to_nat index).

Definition PageTable_index_mut_usize (t : PageTable) (index : Z) (e : PageTableEntry)
    : outcome PageTable :=
  _ ← PageTable_index_usize t index;
  Ret (mkPageTable (<[Z.to_nat index := e]> (entries t))).

Definition PageTable_index (t : PageTable) (index : PageTableIndex) : outcome PageTableEntry :=
  PageTable_index_usize t (pti index).

Definition PageTable_index_mut (t : PageTable) (index : PageTableIndex) (e : PageTableEntry)
    : outcome PageTable :=
  PageTable_index_mut_usize t (pti index) e.

(** ** Facts on entries *)
Definition entry_wf (e : PageTableEntry) : Prop := u64 (entry e).

Lemma entry_ext e e' : entry e = entry e' -> e = e'.
Proof. destruct e, e'; simpl. by intros ->. Qed.

(** Flags and address together cover the 64 bits of an entry; bits 12 and 51
    belong to both. *)
Lemma all_or_mask : Z.lor PageTableFlags_all ADDR_MASK = U64_MAX.
Proof. reflexivity. Qed.

Lemma all_and_mask :
  Z.land PageTableFlags_all ADDR_MASK = Z.lor PageTableFlags_PAT_HUGE_PAGE PageTableFlags_BIT_51.
Proof. reflexivity. Qed.

Lemma land_mask x : u64 x -> Z.land x ADDR_MASK = x mod 2 ^ 52 - x mod 2 ^ 12.
Proof.
  intros Hx. change ADDR_MASK with (Z.land (2 ^ 52 - 1) (bitnot 52 (2 ^ 12 - 1))).
  rewrite Z.land_assoc, land_ones_mod by lia.
  rewrite land_clear_low by (lia || apply Z.mod_pos_bound; lia).
  unfold uN in Hx. mlia.
Qed.

Lemma land_mask_valid x : u64 x -> phys_valid (mkPhysAddr (Z.land x ADDR_MASK)).
Proof. intros Hx. unfold phys_valid. cbn [pa]. rewrite land_mask by done. unfold uN in Hx. mlia. Qed.

Lemma PageTableEntry_addr_val e :
  entry_wf e ->
  PageTableEntry_addr e = Ret (mkPhysAddr (Z.land (entry e) ADDR_MASK)) /\
  phys_valid (mkPhysAddr (Z.land (entry e) ADDR_MASK)).
Proof.
  intros He. pose proof (land_mask_valid _ He) as Hv. split; [|done].
  exact (PhysAddr_new_valid _ Hv).
Qed.

(** An aligned valid address is left alone by the mask. *)
Lemma land_mask_aligned (a : PhysAddr) :
  phys_valid a -> pa a mod 4096 = 0 -> Z.land (pa a) ADDR_MASK = pa a.
Proof.
  intros Hv Hm. rewrite land_mask by (unfold uN, phys_valid in *; mlia).
  unfold phys_valid in Hv. mlia.
Qed.

Lemma lor_u64 x y : u64 x -> u64 y -> u64 (Z.lor x y).
Proof. by apply lor_uN. Qed.

Lemma PageTableEntry_set_addr_val e a f :
  phys_valid a ->
  PageTableEntry_set_addr e a f =
    if pa a mod 4096 =? 0 then Ret (mkPageTableEntry (Z.lor (pa a) f)) else Panic.
Proof.
  intros Ha. unfold PageTableEntry_set_addr, PhysAddr_is_aligned.
  change Size4KiB_SIZE with (SIZE Size4KiB). rewrite PhysFrame_is_aligned by done.
  change (SIZE Size4KiB) with 4096. cbn [mbind outcome_bind].
  by destruct (pa a mod 4096 =? 0).
Qed.

Lemma SIZE_mod_4096 S x : x mod SIZE S = 0 -> x mod 4096 = 0.
Proof. intros H. destruct S; page_consts; Z.to_euclidean_division_equations; lia. Qed.

Lemma set_addr_frame {S} e (f : PhysFrame S) fl :
  PhysFrame_wf f ->
  PageTableEntry_set_addr e (PhysFrame_start_address f) fl =
    Ret (mkPageTableEntry (Z.lor (pa (frame_start f)) fl)).
Proof.
  intros [Hv Hm]. unfold PhysFrame_start_address. rewrite PageTableEntry_set_addr_val by done.
  by rewrite (SIZE_mod_4096 _ _ Hm).
Qed.

Lemma set_flags_val e f :
  entry_wf e ->
  PageTableEntry_set_flags e f = Ret (mkPageTableEntry (Z.lor (Z.land (entry e) ADDR_MASK) f)).
Proof. intros He. unfold PageTableEntry_set_flags. by destruct (PageTableEntry_addr_val e He) as [-> _]. Qed.

Section flags_facts.
Context `{BL : BitflagsLaws}.

Lemma PageTableEntry_flags_val e : PageTableEntry_flags e = Z.land (entry e) PageTableFlags_all.
Proof. unfold PageTableEntry_flags. by autorewrite with flags. Qed.

(** Adding flags to an entry sets their bits and nothing else. *)
Lemma set_flags_add e f :
  entry_wf e ->
  PageTableEntry_set_flags e (flags_or (PageTableEntry_flags e) f) =
    Ret (mkPageTableEntry (Z.lor (entry e) f)).
Proof.
  intros He. rewrite set_flags_val, PageTableEntry_flags_val by done. autorewrite with flags.
  do 2 f_equal. rewrite Z.lor_assoc, <- Z.land_lor_distr_r, (Z.lor_comm ADDR_MASK), all_or_mask.
  change U64_MAX with (2 ^ 64 - 1). rewrite land_ones_mod by lia. by rewrite Z.mod_small by done.
Qed.

Lemma contains_PRESENT e :
  contains (PageTableEntry_flags e) PageTableFlags_PRESENT = Z.testbit (entry e) 0.
Proof.
  rewrite PageTableEntry_flags_val. autorewrite with flags.
  rewrite <- Z.land_assoc. change (Z.land PageTableFlags_all PageTableFlags_PRESENT) with (2 ^ 0).
  by rewrite land_pow2_testbit.
Qed.

Lemma contains_HUGE_PAGE e :
  contains (PageTableEntry_flags e) PageTableFlags_HUGE_PAGE = Z.testbit (entry e) 7.
Proof.
  rewrite PageTableEntry_flags_val. autorewrite with flags.
  rewrite <- Z.land_assoc. change (Z.land PageTableFlags_all PageTableFlags_HUGE_PAGE) with (2 ^ 7).
  by rewrite land_pow2_testbit.
Qed.

Lemma PageTableEntry_frame_val e :
  entry_wf e ->
  PageTableEntry_frame e =
    Ret (if Z.testbit (entry e) 0
         then Ok (mkPhysFrame (mkPhysAddr (Z.land (entry e) ADDR_MASK)))
         else Err FrameNotPresent).
Proof.
  intros He. unfold PageTableEntry_frame. rewrite contains_PRESENT.
  destruct (Z.testbit (entry e) 0); [|done].
  destruct (PageTableEntry_addr_val e He) as [-> Hv]. cbn [mbind outcome_bind].
  set (f := mkPhysFrame (mkPhysAddr (Z.land (entry e) ADDR_MASK)) : PhysFrame Size4KiB).
  assert (PhysFrame_wf f) as Hf.
  { split; [done|]. unfold f. cbn [frame_start pa]. rewrite land_mask by done.
    page_consts. unfold entry_wf, uN in He. mlia. }
  pose proof (PhysFrame_containing_start f Hf) as E. unfold f in E at 1. cbn [frame_start] in E.
  by rewrite E.
Qed.
End flags_facts.

(** ** Facts on tables *)
Definition table_wf (t : PageTable) : Prop :=
  length (entries t) = 512%nat /\ Forall entry_wf (entries t).

Lemma PageTable_index_wf t i :
  table_wf t -> PageTableIndex_wf i ->
  exists e, PageTable_index t i = Ret e /\ entry_wf e /\ entries t !! Z.to_nat (pti i) = Some e.
Proof.
  intros [Hl Hf] [Hi1 Hi2]. unfold ENTRY_COUNT in Hi2. unfold PageTable_index, PageTable_index_usize.
  destruct (lookup_lt_is_Some_2 (entries t) (Z.to_nat (pti i))) as [e E]; [lia|].
  exists e. rewrite E, (proj2 (Z.ltb_ge _ _)) by lia. split_and!; [done| |done].
  by eapply Forall_lookup_1.
Qed.

Lemma PageTable_index_mut_wf t i e :
  table_wf t -> PageTableIndex_wf i -> entry_wf e ->
  PageTable_index_mut t i e = Ret (mkPageTable (<[Z.to_nat (pti i) := e]> (entries t))) /\
  table_wf (mkPageTable (<[Z.to_nat (pti i) := e]> (entries t))).
Proof.
  intros Ht Hi He. destruct (PageTable_index_wf t i Ht Hi) as (e' & E & _ & _).
  unfold PageTable_index_mut, PageTable_index_mut_usize.
  unfold PageTable_index in E. rewrite E. split; [done|]. destruct Ht as [Hl Hf].
  split; cbn [entries]; [by rewrite length_insert|by apply Forall_insert].
Qed.

Lemma PageTable_index_insert t i e j :
  table_wf t -> PageTableIndex_wf i -> PageTableIndex_wf j ->
  PageTable_index (mkPageTable (<[Z.to_nat (pti i) := e]> (entries t))) j =
    if decide (i = j) then Ret e else PageTable_index t j.
Proof.
  intros [Hl Hf] [Hi1 Hi2] [Hj1 Hj2]. unfold ENTRY_COUNT in *.
  unfold PageTable_index, PageTable_index_usize. cbn [entries].
  rewrite (proj2 (Z.ltb_ge _ _)) by done. case_decide as Hd.
  - subst j. by rewrite list_lookup_insert_eq by lia.
  - rewrite list_lookup_insert_ne; [done|]. intros E. apply Hd, index_ext. lia.
Qed.

Lemma PageTable_new_wf : table_wf PageTable_new.
Proof.
  split; [by apply length_replicate|]. apply Forall_replicate. unfold entry_wf, uN. cbn. lia.
Qed.

Lemma PageTable_zero_val t : table_wf t -> PageTable_zero t = PageTable_new.
Proof.
  intros [Hl _]. unfold PageTable_zero, PageTable_new. f_equal.
  change (Z.to_nat ENTRY_COUNT) with 512%nat. rewrite <- Hl.
  apply list_eq. intros i. rewrite list_lookup_fmap.
  destruct (entries t !! i) eqn:E; cbn.
  - by rewrite lookup_replicate_2 by by eapply lookup_lt_Some.
  - symmetry. apply lookup_ge_None. rewrite length_replicate. by apply lookup_ge_None.
Qed.

Lemma PageTable_is_empty_true t :
  PageTable_is_empty t = true <-> Forall (fun e => entry e = 0) (entries t).
Proof.
  unfold PageTable_is_empty, PageTable_iter.
  induction (entries t) as [|e l IH]; simpl; [by split|].
  rewrite andb_true_iff, IH, Forall_cons_iff. unfold PageTableEntry_is_unused. by rewrite Z.eqb_eq.
Qed.

(** ** Properties of entries and tables *)
Definition flag_address_overlap : Z := Z.lor PageTableFlags_PAT_HUGE_PAGE PageTableFlags_BIT_51.

(** C34. [set_addr] rejects unaligned addresses by panicking and otherwise
    stores the address and the flags: [addr] and [flags] read them back, except
    for the bits 12 and 51, which are declared as flags ([PAT_HUGE_PAGE],
    [BIT_51]) and belong to the address field as well: these are seen by both. *)
Theorem PageTableEntry_set_addr_roundtrip `{BL : BitflagsLaws} e (a : PhysAddr) f :
  phys_valid a -> u64 f -> Z.land f PageTableFlags_all = f ->
  if pa a mod 4096 =? 0 then
    exists e', PageTableEntry_set_addr e a f = Ret e' /\ entry_wf e' /\
      PageTableEntry_addr e' = Ret (mkPhysAddr (Z.lor (pa a) (Z.land f flag_address_overlap))) /\
      PageTableEntry_flags e' = Z.lor f (Z.land (pa a) flag_address_overlap) /\
      (PageTableEntry_is_unused e' = true <-> pa a = 0 /\ f = 0)
  else PageTableEntry_set_addr e a f = Panic.
Proof.
  intros Ha Hf Hd. rewrite PageTableEntry_set_addr_val by done.
  destruct (Z.eqb_spec (pa a mod 4096) 0) as [Hm|]; [|done].
  assert (entry_wf (mkPageTableEntry (Z.lor (pa a) f))) as Hwf.
  { apply lor_u64; [|done]. unfold phys_valid, uN in *. lia. }
  eexists. split_and!; [done|done| | |].
  - destruct (PageTableEntry_addr_val _ Hwf) as [-> _]. cbn [entry]. do 2 f_equal.
    rewrite Z.land_lor_distr_l, land_mask_aligned by done. f_equal.
    rewrite <- Hd at 1. by rewrite <- Z.land_assoc, all_and_mask.
  - rewrite PageTableEntry_flags_val. cbn [entry]. rewrite Z.land_lor_distr_l, Hd, Z.lor_comm. f_equal.
    rewrite <- (land_mask_aligned a) at 1 by done.
    by rewrite <- Z.land_assoc, (Z.land_comm ADDR_MASK), all_and_mask.
  - unfold PageTableEntry_is_unused. cbn [entry]. rewrite Z.eqb_eq. apply Z.lor_eq_0_iff.
Qed.

Lemma PageTableEntry_set_addr_roundtrip_witness :
  let a := mkPhysAddr 0x3000 in
  phys_valid a /\
  exists e', PageTableEntry_set_addr PageTableEntry_new a PageTableFlags_PRESENT = Ret e' /\
    PageTableEntry_addr e' = Ret a /\
    PageTableEntry_flags e' = Z.lor PageTableFlags_PRESENT PageTableFlags_PAT_HUGE_PAGE.
Proof.
  intros a. assert (phys_valid a) as Ha by (unfold phys_valid; simpl; lia). split; [exact Ha|].
  destruct (PageTableEntry_set_addr_roundtrip (BL := ref_bitflags_laws) PageTableEntry_new a
    PageTableFlags_PRESENT Ha ltac:(split; vm_compute; done) ltac:(reflexivity))
    as (e' & E & _ & Ea & Ef & _).
  exists e'. split; [exact E|]. split; [exact Ea|exact Ef].
Defined.

(** [set_flags] replaces the flags and keeps the address; adding flags
    ([set_flags (flags () | f)]) keeps every other bit of the entry; [frame]
    succeeds exactly on present entries and returns the frame at [addr]. *)
Theorem PageTableEntry_set_flags_spec `{BL : BitflagsLaws} e f :
  entry_wf e -> u64 f -> Z.land f ADDR_MASK = 0 ->
  exists e' a, PageTableEntry_set_flags e f = Ret e' /\ entry_wf e' /\
    PageTableEntry_addr e = Ret a /\ PageTableEntry_addr e' = Ret a /\
    PageTableEntry_flags e' =
      Z.lor (Z.land f PageTableFlags_all) (Z.land (pa a) flag_address_overlap) /\
    PageTableEntry_set_flags e (flags_or (PageTableEntry_flags e) f) =
      Ret (mkPageTableEntry (Z.lor (entry e) f)) /\
    PageTableEntry_frame e =
      Ret (if Z.testbit (entry e) 0 then Ok (mkPhysFrame a) else Err FrameNotPresent).
Proof.
  intros He Hf Hm. destruct (PageTableEntry_addr_val e He) as [Ea Hv].
  rewrite set_flags_val, set_flags_add, PageTableEntry_frame_val by done.
  assert (entry_wf (mkPageTableEntry (Z.lor (Z.land (entry e) ADDR_MASK) f))) as Hwf.
  { apply lor_u64; [|done]. by apply land_uN. }
  eexists _, _. split_and!; [done|done|exact Ea| | |done|done].
  - destruct (PageTableEntry_addr_val _ Hwf) as [-> _]. cbn [entry]. do 2 f_equal.
    by rewrite Z.land_lor_distr_l, Hm, Z.lor_0_r, <- Z.land_assoc, Z.land_diag.
  - rewrite PageTableEntry_flags_val. cbn [entry pa]. rewrite Z.land_lor_distr_l, Z.lor_comm. f_equal.
    by rewrite <- !Z.land_assoc.
Qed.

Lemma PageTableEntry_set_flags_spec_witness :
  let e := mkPageTableEntry 0x8000000000005067 in
  exists e' a, PageTableEntry_set_flags e PageTableFlags_PRESENT = Ret e' /\
    PageTableEntry_addr e' = Ret a.
Proof.
  intros e. destruct (PageTableEntry_set_flags_spec (BL := ref_bitflags_laws) e PageTableFlags_PRESENT
    ltac:(split; vm_compute; done) ltac:(split; vm_compute; done) ltac:(reflexivity))
    as (e' & a & E & _ & _ & Ea & _).
  exists e', a. split; [exact E|exact Ea].
Defined.

(** A page table behaves as an array of 512 entries: every in-range index
    reads and writes one entry and leaves the others alone, an out-of-range
    [usize] index panics, [zero] and [new] give the table [is_empty] accepts,
    and [is_empty] means that every entry is zero. *)
Theorem PageTable_array t i e :
  table_wf t -> PageTableIndex_wf i -> entry_wf e ->
  (exists t', PageTable_index_mut t i e = Ret t' /\ table_wf t' /\
     forall j, PageTableIndex_wf j ->
       PageTable_index t' j = if decide (i = j) then Ret e else PageTable_index t j) /\
  (forall k, 512 <= k -> PageTable_index_usize t k = Panic) /\
  PageTable_zero t = PageTable_new /\
  PageTable_is_empty PageTable_new = true /\
  (PageTable_is_empty t = true <->
     forall j, PageTableIndex_wf j -> PageTable_index t j = Ret PageTableEntry_new).
Proof.
  intros Ht Hi He. destruct (PageTable_index_mut_wf t i e Ht Hi He) as [E Hwf]. split_and!.
  - eexists. split_and!; [exact E|exact Hwf|]. intros j Hj. by apply PageTable_index_insert.
  - intros k Hk. unfold PageTable_index_usize. rewrite (proj2 (Z.ltb_ge _ _)) by lia.
    rewrite lookup_ge_None_2; [done|]. rewrite (proj1 Ht). lia.
  - by apply PageTable_zero_val.
  - reflexivity.
  - rewrite PageTable_is_empty_true. split.
    + intros Hz j Hj. destruct (PageTable_index_wf t j Ht Hj) as (e' & -> & _ & El).
      f_equal. apply entry_ext. by eapply Forall_lookup_1 in Hz.
    + intros Hz. apply Forall_lookup_2. intros k e' Ek.
      pose proof (lookup_lt_Some _ _ _ Ek) as Hk. rewrite (proj1 Ht) in Hk.
      assert (PageTableIndex_wf (mkPageTableIndex (Z.of_nat k))) as Hj.
      { unfold PageTableIndex_wf, ENTRY_COUNT. cbn [pti]. lia. }
      specialize (Hz _ Hj). destruct (PageTable_index_wf t _ Ht Hj) as (e'' & E' & _ & El).
      cbn [pti] in El. rewrite Nat2Z.id, Ek in El. rewrite E' in Hz. by simplify_eq.
Qed.

Lemma PageTable_array_witness :
  PageTable_zero PageTable_new = PageTable_new /\
  PageTable_index_usize PageTable_new 512 = Panic.
Proof.
  assert (PageTableIndex_wf (mkPageTableIndex 3)) as Hi by (split; vm_compute; done).
  assert (entry_wf (mkPageTableEntry 7)) as He by (split; vm_compute; done).
  destruct (PageTable_array _ _ _ PageTable_new_wf Hi He) as (_ & P & Z & _).
  split; [exact Z|apply P; lia].
Defined.
