(* ===== verification/Mapper.v ===== *)
(** * The mapper interface (src/structures/paging/mapper/mod.rs and
      src/structures/paging/frame_alloc.rs)

    The traits [Translate], [Mapper], [CleanUp], [FrameAllocator] and
    [FrameDeallocator] as type classes, their result and error types, and the
    provided methods [translate_addr], [map_to] and [identity_map].  The
    memory that holds the page tables is a world [W] that the operations
    thread; see MappedPageTable.v for its instance. *)
From Stdlib Require Import ZArith Lia Bool.
From stdpp Require Import base decidable option list numbers.
From S2P Require Import Prelude Crates Index Addr Page Frame PageTable.
#[local] Open Scope Z_scope.

(** ** Frame allocation: the allocator state is threaded *)
Class FrameAllocator (A : Type) (S : PageSize) :=
  allocate_frame : A -> option (PhysFrame S) * A.
Class FrameDeallocator (D : Type) (S : PageSize) :=
  deallocate_frame : PhysFrame S -> D -> D.

(** ** Results and errors *)
Inductive MappedFrame : Type :=
  | MappedSize4KiB (frame : PhysFrame Size4KiB)
  | MappedSize2MiB (frame : PhysFrame Size2MiB)
  | MappedSize1GiB (frame : PhysFrame Size1GiB).

Definition MappedFrame_start_address (f : MappedFrame) : PhysAddr :=
  match f with
  | MappedSize4KiB frame => frame_start frame
  | MappedSize2MiB frame => frame_start frame
  | MappedSize1GiB frame => frame_start frame
  end.

Definition MappedFrame_size (f : MappedFrame) : Z :=
  match f with
  | MappedSize4KiB _ => SIZE Size4KiB
  | MappedSize2MiB _ => SIZE Size2MiB
  | MappedSize1GiB _ => SIZE Size1GiB
  end.

Inductive TranslateResult : Type :=
  | Mapped (frame : MappedFrame) (offset : Z) (flags : Z)
  | NotMapped
  | InvalidFrameAddress (a : PhysAddr).

Inductive MapToError (S : PageSize) : Type :=
  | MapFrameAllocationFailed
  | MapParentEntryHugePage
  | MapPageAlreadyMapped (frame : PhysFrame S).
Arguments MapFrameAllocationFailed {S}.
Arguments MapParentEntryHugePage {S}.
Arguments MapPageAlreadyMapped {S} frame.

Inductive UnmapError : Type :=
  | UnmapParentEntryHugePage
  | UnmapPageNotMapped
  | UnmapInvalidFrameAddress (a : PhysAddr).

Inductive FlagUpdateError : Type := FlagPageNotMapped | FlagParentEntryHugePage.

Inductive TranslateError : Type :=
  | TranslatePageNotMapped
  | TranslateParentEntryHugePage
  | TranslateInvalidFrameAddress (a : PhysAddr).

(** The promises to flush; they carry the page or nothing. *)
Record MapperFlush (S : PageSize) : Type := mkMapperFlush { flush_page : Page S }.
Arguments mkMapperFlush {S} flush_page.
Arguments flush_page {S} m.

Definition MapperFlush_new {S} (page : Page S) : MapperFlush S := mkMapperFlush page.
Definition MapperFlush_ignore {S} (_ : MapperFlush S) : unit := tt.
Definition MapperFlush_page {S} (m : MapperFlush S) : Page S := flush_page m.

Inductive MapperFlushAll : Type := mkMapperFlushAll.
Definition MapperFlushAll_new : MapperFlushAll := mkMapperFlushAll.
Definition MapperFlushAll_ignore (_ : MapperFlushAll) : unit := tt.

(** ** The traits *)
Class Translate (W T : Type) :=
  translate : T -> W -> VirtAddr -> outcome TranslateResult.

Definition translate_addr {W T} `{Translate W T} (self : T) (w : W) (addr : VirtAddr)
    : outcome (option PhysAddr) :=
  r ← translate self w addr;
  match r with
  | NotMapped | InvalidFrameAddress _ => Ret None
  | Mapped frame offset _ => Some <$> PhysAddr_add (MappedFrame_start_address frame) offset
  end.

Class Mapper (W T : Type) (S : PageSize) := {
  map_to_with_table_flags {A} `{FrameAllocator A Size4KiB} :
    T -> Page S -> PhysFrame S -> Z -> Z -> M (W * A) (MapToError S) (MapperFlush S);
  unmap : T -> Page S -> M W UnmapError (PhysFrame S * MapperFlush S);
  update_flags : T -> Page S -> Z -> M W FlagUpdateError (MapperFlush S);
  set_flags_p4_entry : T -> Page S -> Z -> M W FlagUpdateError MapperFlushAll;
  set_flags_p3_entry : T -> Page S -> Z -> M W FlagUpdateError MapperFlushAll;
  set_flags_p2_entry : T -> Page S -> Z -> M W FlagUpdateError MapperFlushAll;
  translate_page : T -> Page S -> M W TranslateError (PhysFrame S);
}.

Class CleanUp (W T : Type) := {
  clean_up {D} `{FrameDeallocator D Size4KiB} : T -> W * D -> outcome (W * D);
  clean_up_addr_range {D} `{FrameDeallocator D Size4KiB} :
    T -> PageRangeInclusive Size4KiB -> W * D -> outcome (W * D);
}.

Section provided.
Context {W T : Type} {S : PageSize} `{Mapper W T S} `{Bitflags}.
Context {A : Type} `{FrameAllocator A Size4KiB}.

(** Only three flags are passed on to the parent entries. *)
Definition map_to (self : T) (page : Page S) (frame : PhysFrame S) (flags : Z)
    : M (W * A) (MapToError S) (MapperFlush S) :=
  let parent_table_flags :=
    flags_and flags
      (flags_or (flags_or PageTableFlags_PRESENT PageTableFlags_WRITABLE)
         PageTableFlags_USER_ACCESSIBLE) in
  map_to_with_table_flags self page frame flags parent_table_flags.

Definition identity_map (self : T) (frame : PhysFrame S) (flags : Z)
    : M (W * A) (MapToError S) (MapperFlush S) :=
  page ← lift (a ← VirtAddr_new (PhysAddr_as_u64 (PhysFrame_start_address frame));
               Page_containing_address a);
  map_to self page frame flags.
End provided.
