(* ===== verification/MappedPageTable.v ===== *)
(** * The mapped page table (src/structures/paging/mapper/mapped_page_table.rs)

    The page table walker and the implementations of [Mapper] for the three
    page sizes, [Translate] and [CleanUp].  Page tables live in a memory [Mem]
    that maps pointers to tables; a reference to a table is its pointer and a
    reference to an entry is a table pointer with an index, so that aliasing
    is explicit.  Dereferencing a pointer outside of the memory is [Fault]. *)
From Stdlib Require Import ZArith Lia Bool.
From stdpp Require Import base decidable option list gmap numbers.
From S2P Require Import Prelude Crates Index Addr Page Frame PageTable Mapper.
#[local] Open Scope Z_scope.

(** ** Memory *)
Abbreviation Mem := (gmap Z PageTable).

Definition deref (m : Mem) (p : Z) : outcome PageTable :=
  match m !! p with Some t => Ret t | None => Fault end.

Definition read_entry (m : Mem) (p : Z) (i : PageTableIndex) : outcome PageTableEntry :=
  t ← deref m p;
  PageTable_index t i.

Definition write_entry (m : Mem) (p : Z) (i : PageTableIndex) (e : PageTableEntry) : outcome Mem :=
  t ← deref m p;
  t' ← PageTable_index_mut t i e;
  Ret (<[p := t']> m).

(** ** Errors of the walker and their conversions ([From]) *)
Inductive PageTableWalkError : Type := WalkNotMapped | WalkMappedToHugePage.
Inductive PageTableCreateError : Type := CreateMappedToHugePage | CreateFrameAllocationFailed.

#[export] Instance PageTableWalkError_eq_dec : EqDecision PageTableWalkError.
Proof. solve_decision. Defined.

Definition MapToError_from {S} (err : PageTableCreateError) : MapToError S :=
  match err with
  | CreateMappedToHugePage => MapParentEntryHugePage
  | CreateFrameAllocationFailed => MapFrameAllocationFailed
  end.

(** [HugeFrame] is [unreachable!()]. *)
Definition PageTableWalkError_from (err : FrameError) : outcome PageTableWalkError :=
  match err with
  | HugeFrame => Panic
  | FrameNotPresent => Ret WalkNotMapped
  end.

Definition UnmapError_from (err : PageTableWalkError) : UnmapError :=
  match err with
  | WalkMappedToHugePage => UnmapParentEntryHugePage
  | WalkNotMapped => UnmapPageNotMapped
  end.

Definition FlagUpdateError_from (err : PageTableWalkError) : FlagUpdateError :=
  match err with
  | WalkMappedToHugePage => FlagParentEntryHugePage
  | WalkNotMapped => FlagPageNotMapped
  end.

Definition TranslateError_from (err : PageTableWalkError) : TranslateError :=
  match err with
  | WalkMappedToHugePage => TranslateParentEntryHugePage
  | WalkNotMapped => TranslatePageNotMapped
  end.

(** ** The walker and the mapper *)

(** [PageTableFrameMapping] is implemented by the user of the crate. *)
Class PageTableFrameMapping (P : Type) :=
  frame_to_pointer : P -> PhysFrame Size4KiB -> outcome Z.

Record PageTableWalker (P : Type) : Type := mkPageTableWalker { page_table_frame_mapping : P }.
Arguments mkPageTableWalker {P} page_table_frame_mapping.
Arguments page_table_frame_mapping {P} p.

Record MappedPageTable (P : Type) : Type := mkMappedPageTable {
  page_table_walker : PageTableWalker P;
  level_4_table : Z;
}.
Arguments mkMappedPageTable {P} page_table_walker level_4_table.
Arguments page_table_walker {P} m.
Arguments level_4_table {P} m.

Definition PageTableWalker_new {P} (page_table_frame_mapping : P) : PageTableWalker P :=
  mkPageTableWalker page_table_frame_mapping.

Definition MappedPageTable_new {P} (level_4_table : Z) (page_table_frame_mapping : P)
    : MappedPageTable P :=
  mkMappedPageTable (PageTableWalker_new page_table_frame_mapping) level_4_table.

(** A reference to a table is its address. *)
Definition MappedPageTable_level_4_table {P} (self : MappedPageTable P) : Z := level_4_table self.
Definition MappedPageTable_level_4_table_mut {P} (self : MappedPageTable P) : Z :=
  level_4_table self.
Definition MappedPageTable_page_table_frame_mapping {P} (self : MappedPageTable P) : P :=
  page_table_frame_mapping (page_table_walker self).

(** Operations on the memory alone, run in a state with an allocator. *)
Definition on_mem {A E X} (m : M Mem E X) : M (Mem * A) E X := fun s =>
  match m (fst s) with
  | Ret (r, w) => Ret (r, (w, snd s))
  | Panic => Panic
  | Fault => Fault
  end.

Section mapped_page_table.
Context {P : Type} `{PageTableFrameMapping P} `{Bitflags}.

(** [p\[i\]] and [p\[i\] = e] in the monad. *)
Definition get_entry {E} (p : Z) (i : PageTableIndex) : M Mem E PageTableEntry :=
  m ← get_state; lift (read_entry m p i).
Definition put_entry {E} (p : Z) (i : PageTableIndex) (e : PageTableEntry) : M Mem E unit :=
  m ← get_state; m' ← lift (write_entry m p i e); put_state m'.

(** [next_table]: the huge page check comes before the present check. *)
Definition next_table (w : PageTableWalker P) (e : PageTableEntry)
    : M Mem PageTableWalkError Z :=
  if contains (PageTableEntry_flags e) PageTableFlags_HUGE_PAGE then throw WalkMappedToHugePage
  else
    r ← lift (PageTableEntry_frame e);
    match r with
    | Err err => err' ← lift (PageTableWalkError_from err); throw err'
    | Ok frame =>
        page_table_ptr ← lift (frame_to_pointer (page_table_frame_mapping w) frame);
        m ← get_state;
        _ ← lift (deref m page_table_ptr);
        mret page_table_ptr
    end.

(** [next_table_mut] has the same body; the entry is at [p\[i\]]. *)
Definition next_table_mut (w : PageTableWalker P) (p : Z) (i : PageTableIndex)
    : M Mem PageTableWalkError Z :=
  e ← get_entry p i;
  if contains (PageTableEntry_flags e) PageTableFlags_HUGE_PAGE then throw WalkMappedToHugePage
  else
    r ← lift (PageTableEntry_frame e);
    match r with
    | Err err => err' ← lift (PageTableWalkError_from err); throw err'
    | Ok frame =>
        page_table_ptr ← lift (frame_to_pointer (page_table_frame_mapping w) frame);
        m ← get_state;
        _ ← lift (deref m page_table_ptr);
        mret page_table_ptr
    end.

Section create.
Context {A : Type} `{FrameAllocator A Size4KiB}.

(** [match self.next_table_mut(entry)] as a value. *)
Definition try_next_table_mut (w : PageTableWalker P) (p : Z) (i : PageTableIndex)
    : M (Mem * A) PageTableCreateError (result Z PageTableWalkError) := fun s =>
  match next_table_mut w p i (fst s) with
  | Ret (r, m) => Ret (Ok r, (m, snd s))
  | Panic => Panic
  | Fault => Fault
  end.

(** [create_next_table]; the entry is at [p\[i\]]. *)
Definition create_next_table (w : PageTableWalker P) (p : Z) (i : PageTableIndex)
    (insert_flags : Z) : M (Mem * A) PageTableCreateError Z :=
  e ← on_mem (get_entry p i);
  created ←
    (if PageTableEntry_is_unused e then
       s ← get_state;
       match allocate_frame (snd s) with
       | (Some frame, a) =>
           _ ← put_state (fst s, a);
           e' ← lift (PageTableEntry_set_frame e frame insert_flags);
           _ ← on_mem (put_entry p i e');
           mret true
       | (None, a) =>
           _ ← put_state (fst s, a);
           throw CreateFrameAllocationFailed
       end
     else
       _ ← (if negb (flags_is_empty insert_flags)
               && negb (contains (PageTableEntry_flags e) insert_flags) then
              e' ← lift (PageTableEntry_set_flags e (flags_or (PageTableEntry_flags e) insert_flags));
              on_mem (put_entry p i e')
            else mret tt);
       mret false);
  r ← try_next_table_mut w p i;
  match r with
  | Err WalkMappedToHugePage => throw CreateMappedToHugePage
  | Err WalkNotMapped => lift Panic
  | Ok page_table =>
      _ ← (if created : bool then
             s ← get_state;
             t ← lift (deref (fst s) page_table);
             put_state (<[page_table := PageTable_zero t]> (fst s), snd s)
           else mret tt);
      mret page_table
  end.

Definition map_to_1gib (self : MappedPageTable P) (page : Page Size1GiB)
    (frame : PhysFrame Size1GiB) (flags parent_table_flags : Z)
    : M (Mem * A) (MapToError Size1GiB) (MapperFlush Size1GiB) :=
  let w := page_table_walker self in
  let p4 := level_4_table self in
  p3 ← map_err MapToError_from (create_next_table w p4 (Page_p4_index page) parent_table_flags);
  e ← on_mem (get_entry p3 (Page_p3_index page));
  if negb (PageTableEntry_is_unused e) then throw (MapPageAlreadyMapped frame)
  else
    e' ← lift (PageTableEntry_set_addr e (PhysFrame_start_address frame)
                 (flags_or flags PageTableFlags_HUGE_PAGE));
    _ ← on_mem (put_entry p3 (Page_p3_index page) e');
    mret (MapperFlush_new page).

Definition map_to_2mib (self : MappedPageTable P) (page : Page Size2MiB)
    (frame : PhysFrame Size2MiB) (flags parent_table_flags : Z)
    : M (Mem * A) (MapToError Size2MiB) (MapperFlush Size2MiB) :=
  let w := page_table_walker self in
  let p4 := level_4_table self in
  p3 ← map_err MapToError_from (create_next_table w p4 (Page_p4_index page) parent_table_flags);
  p2 ← map_err MapToError_from (create_next_table w p3 (Page_p3_index page) parent_table_flags);
  e ← on_mem (get_entry p2 (Page_p2_index page));
  if negb (PageTableEntry_is_unused e) then throw (MapPageAlreadyMapped frame)
  else
    e' ← lift (PageTableEntry_set_addr e (PhysFrame_start_address frame)
                 (flags_or flags PageTableFlags_HUGE_PAGE));
    _ ← on_mem (put_entry p2 (Page_p2_index page) e');
    mret (MapperFlush_new page).

Definition map_to_4kib (self : MappedPageTable P) (page : Page Size4KiB)
    (frame : PhysFrame Size4KiB) (flags parent_table_flags : Z)
    : M (Mem * A) (MapToError Size4KiB) (MapperFlush Size4KiB) :=
  let w := page_table_walker self in
  let p4 := level_4_table self in
  p3 ← map_err MapToError_from (create_next_table w p4 (Page_p4_index page) parent_table_flags);
  p2 ← map_err MapToError_from (create_next_table w p3 (Page_p3_index page) parent_table_flags);
  p1 ← map_err MapToError_from (create_next_table w p2 (Page_p2_index page) parent_table_flags);
  e ← on_mem (get_entry p1 (Page_p1_index page));
  if negb (PageTableEntry_is_unused e) then throw (MapPageAlreadyMapped frame)
  else
    e' ← lift (PageTableEntry_set_frame e frame flags);
    _ ← on_mem (put_entry p1 (Page_p1_index page) e');
    mret (MapperFlush_new page).
End create.

(** *** [unmap] *)
Definition unmap_1gib (self : MappedPageTable P) (page : Page Size1GiB)
    : M Mem UnmapError (PhysFrame Size1GiB * MapperFlush Size1GiB) :=
  let w := page_table_walker self in
  let p4 := level_4_table self in
  p3 ← map_err UnmapError_from (next_table_mut w p4 (Page_p4_index page));
  p3_entry ← get_entry p3 (Page_p3_index page);
  let flags := PageTableEntry_flags p3_entry in
  if negb (contains flags PageTableFlags_PRESENT) then throw UnmapPageNotMapped
  else if negb (contains flags PageTableFlags_HUGE_PAGE) then throw UnmapParentEntryHugePage
  else
    a ← lift (PageTableEntry_addr p3_entry);
    r ← lift (PhysFrame_from_start_address a);
    match r with
    | Err mkAddressNotAligned => throw (UnmapInvalidFrameAddress a)
    | Ok frame =>
        _ ← put_entry p3 (Page_p3_index page) (PageTableEntry_set_unused p3_entry);
        mret (frame, MapperFlush_new page)
    end.

Definition unmap_2mib (self : MappedPageTable P) (page : Page Size2MiB)
    : M Mem UnmapError (PhysFrame Size2MiB * MapperFlush Size2MiB) :=
  let w := page_table_walker self in
  let p4 := level_4_table self in
  p3 ← map_err UnmapError_from (next_table_mut w p4 (Page_p4_index page));
  p2 ← map_err UnmapError_from (next_table_mut w p3 (Page_p3_index page));
  p2_entry ← get_entry p2 (Page_p2_index page);
  let flags := PageTableEntry_flags p2_entry in
  if negb (contains flags PageTableFlags_PRESENT) then throw UnmapPageNotMapped
  else if negb (contains flags PageTableFlags_HUGE_PAGE) then throw UnmapParentEntryHugePage
  else
    a ← lift (PageTableEntry_addr p2_entry);
    r ← lift (PhysFrame_from_start_address a);
    match r with
    | Err mkAddressNotAligned => throw (UnmapInvalidFrameAddress a)
    | Ok frame =>
        _ ← put_entry p2 (Page_p2_index page) (PageTableEntry_set_unused p2_entry);
        mret (frame, MapperFlush_new page)
    end.

Definition unmap_4kib (self : MappedPageTable P) (page : Page Size4KiB)
    : M Mem UnmapError (PhysFrame Size4KiB * MapperFlush Size4KiB) :=
  let w := page_table_walker self in
  let p4 := level_4_table self in
  p3 ← map_err UnmapError_from (next_table_mut w p4 (Page_p4_index page));
  p2 ← map_err UnmapError_from (next_table_mut w p3 (Page_p3_index page));
  p1 ← map_err UnmapError_from (next_table_mut w p2 (Page_p2_index page));
  p1_entry ← get_entry p1 (Page_p1_index page);
  r ← lift (PageTableEntry_frame p1_entry);
  match r with
  | Err FrameNotPresent => throw UnmapPageNotMapped
  | Err HugeFrame => lift Panic (* unreachable!() *)
  | Ok frame =>
      _ ← put_entry p1 (Page_p1_index page) (PageTableEntry_set_unused p1_entry);
      mret (frame, MapperFlush_new page)
  end.

(** *** [update_flags] *)
Definition update_flags_1gib (self : MappedPageTable P) (page : Page Size1GiB) (flags : Z)
    : M Mem FlagUpdateError (MapperFlush Size1GiB) :=
  let w := page_table_walker self in
  let p4 := level_4_table self in
  p3 ← map_err FlagUpdateError_from (next_table_mut w p4 (Page_p4_index page));
  e ← get_entry p3 (Page_p3_index page);
  if PageTableEntry_is_unused e then throw FlagPageNotMapped
  else
    e' ← lift (PageTableEntry_set_flags e (flags_or flags PageTableFlags_HUGE_PAGE));
    _ ← put_entry p3 (Page_p3_index page) e';
    mret (MapperFlush_new page).

Definition update_flags_2mib (self : MappedPageTable P) (page : Page Size2MiB) (flags : Z)
    : M Mem FlagUpdateError (MapperFlush Size2MiB) :=
  let w := page_table_walker self in
  let p4 := level_4_table self in
  p3 ← map_err FlagUpdateError_from (next_table_mut w p4 (Page_p4_index page));
  p2 ← map_err FlagUpdateError_from (next_table_mut w p3 (Page_p3_index page));
  e ← get_entry p2 (Page_p2_index page);
  if PageTableEntry_is_unused e then throw FlagPageNotMapped
  else
    e' ← lift (PageTableEntry_set_flags e (flags_or flags PageTableFlags_HUGE_PAGE));
    _ ← put_entry p2 (Page_p2_index page) e';
    mret (MapperFlush_new page).

Definition update_flags_4kib (self : MappedPageTable P) (page : Page Size4KiB) (flags : Z)
    : M Mem FlagUpdateError (MapperFlush Size4KiB) :=
  let w := page_table_walker self in
  let p4 := level_4_table self in
  p3 ← map_err FlagUpdateError_from (next_table_mut w p4 (Page_p4_index page));
  p2 ← map_err FlagUpdateError_from (next_table_mut w p3 (Page_p3_index page));
  p1 ← map_err FlagUpdateError_from (next_table_mut w p2 (Page_p2_index page));
  e ← get_entry p1 (Page_p1_index page);
  if PageTableEntry_is_unused e then throw FlagPageNotMapped
  else
    e' ← lift (PageTableEntry_set_flags e flags);
    _ ← put_entry p1 (Page_p1_index page) e';
    mret (MapperFlush_new page).

(** *** Flags of the parent entries: [set_flags_p4_entry] has the same body
    for the three sizes, [set_flags_p3_entry] for 2MiB and 4KiB pages. *)
Definition set_flags_p4_entry_1gib {S} (self : MappedPageTable P) (page : Page S) (flags : Z)
    : M Mem FlagUpdateError MapperFlushAll :=
  let p4 := level_4_table self in
  p4_entry ← get_entry p4 (Page_p4_index page);
  if PageTableEntry_is_unused p4_entry then throw FlagPageNotMapped
  else
    e' ← lift (PageTableEntry_set_flags p4_entry flags);
    _ ← put_entry p4 (Page_p4_index page) e';
    mret MapperFlushAll_new.

Definition set_flags_p4_entry_2mib (self : MappedPageTable P) (page : Page Size2MiB) (flags : Z)
    : M Mem FlagUpdateError MapperFlushAll := set_flags_p4_entry_1gib self page flags.

Definition set_flags_p4_entry_4kib (self : MappedPageTable P) (page : Page Size4KiB) (flags : Z)
    : M Mem FlagUpdateError MapperFlushAll := set_flags_p4_entry_1gib self page flags.

Definition set_flags_p3_entry_1gib (self : MappedPageTable P) (page : Page Size1GiB) (flags : Z)
    : M Mem FlagUpdateError MapperFlushAll := throw FlagParentEntryHugePage.

Definition set_flags_p3_entry_2mib {S} (self : MappedPageTable P) (page : Page S) (flags : Z)
    : M Mem FlagUpdateError MapperFlushAll :=
  let w := page_table_walker self in
  let p4 := level_4_table self in
  p3 ← map_err FlagUpdateError_from (next_table_mut w p4 (Page_p4_index page));
  p3_entry ← get_entry p3 (Page_p3_index page);
  if PageTableEntry_is_unused p3_entry then throw FlagPageNotMapped
  else
    e' ← lift (PageTableEntry_set_flags p3_entry flags);
    _ ← put_entry p3 (Page_p3_index page) e';
    mret MapperFlushAll_new.

Definition set_flags_p3_entry_4kib (self : MappedPageTable P) (page : Page Size4KiB) (flags : Z)
    : M Mem FlagUpdateError MapperFlushAll := set_flags_p3_entry_2mib self page flags.

Definition set_flags_p2_entry_1gib (self : MappedPageTable P) (page : Page Size1GiB) (flags : Z)
    : M Mem FlagUpdateError MapperFlushAll := throw FlagParentEntryHugePage.

Definition set_flags_p2_entry_2mib (self : MappedPageTable P) (page : Page Size2MiB) (flags : Z)
    : M Mem FlagUpdateError MapperFlushAll := throw FlagParentEntryHugePage.

Definition set_flags_p2_entry_4kib (self : MappedPageTable P) (page : Page Size4KiB) (flags : Z)
    : M Mem FlagUpdateError MapperFlushAll :=
  let w := page_table_walker self in
  let p4 := level_4_table self in
  p3 ← map_err FlagUpdateError_from (next_table_mut w p4 (Page_p4_index page));
  p2 ← map_err FlagUpdateError_from (next_table_mut w p3 (Page_p3_index page));
  p2_entry ← get_entry p2 (Page_p2_index page);
  if PageTableEntry_is_unused p2_entry then throw FlagPageNotMapped
  else
    e' ← lift (PageTableEntry_set_flags p2_entry flags);
    _ ← put_entry p2 (Page_p2_index page) e';
    mret MapperFlushAll_new.

(** *** [translate_page] *)
Definition translate_page_1gib (self : MappedPageTable P) (page : Page Size1GiB)
    : M Mem TranslateError (PhysFrame Size1GiB) :=
  let w := page_table_walker self in
  let p4 := level_4_table self in
  p4_entry ← get_entry p4 (Page_p4_index page);
  p3 ← map_err TranslateError_from (next_table w p4_entry);
  p3_entry ← get_entry p3 (Page_p3_index page);
  if PageTableEntry_is_unused p3_entry then throw TranslatePageNotMapped
  else
    a ← lift (PageTableEntry_addr p3_entry);
    r ← lift (PhysFrame_from_start_address a);
    match r with
    | Err mkAddressNotAligned => throw (TranslateInvalidFrameAddress a)
    | Ok frame => mret frame
    end.

Definition translate_page_2mib (self : MappedPageTable P) (page : Page Size2MiB)
    : M Mem TranslateError (PhysFrame Size2MiB) :=
  let w := page_table_walker self in
  let p4 := level_4_table self in
  p4_entry ← get_entry p4 (Page_p4_index page);
  p3 ← map_err TranslateError_from (next_table w p4_entry);
  p3_entry ← get_entry p3 (Page_p3_index page);
  p2 ← map_err TranslateError_from (next_table w p3_entry);
  p2_entry ← get_entry p2 (Page_p2_index page);
  if PageTableEntry_is_unused p2_entry then throw TranslatePageNotMapped
  else
    a ← lift (PageTableEntry_addr p2_entry);
    r ← lift (PhysFrame_from_start_address a);
    match r with
    | Err mkAddressNotAligned => throw (TranslateInvalidFrameAddress a)
    | Ok frame => mret frame
    end.

Definition translate_page_4kib (self : MappedPageTable P) (page : Page Size4KiB)
    : M Mem TranslateError (PhysFrame Size4KiB) :=
  let w := page_table_walker self in
  let p4 := level_4_table self in
  p4_entry ← get_entry p4 (Page_p4_index page);
  p3 ← map_err TranslateError_from (next_table w p4_entry);
  p3_entry ← get_entry p3 (Page_p3_index page);
  p2 ← map_err TranslateError_from (next_table w p3_entry);
  p2_entry ← get_entry p2 (Page_p2_index page);
  p1 ← map_err TranslateError_from (next_table w p2_entry);
  p1_entry ← get_entry p1 (Page_p1_index page);
  if PageTableEntry_is_unused p1_entry then throw TranslatePageNotMapped
  else
    a ← lift (PageTableEntry_addr p1_entry);
    r ← lift (PhysFrame_from_start_address a);
    match r with
    | Err mkAddressNotAligned => throw (TranslateInvalidFrameAddress a)
    | Ok frame => mret frame
    end.

(** *** [Translate] *)

(** [match next_table(entry)] as a value. *)
Definition try_next_table (w : PageTableWalker P) (m : Mem) (e : PageTableEntry)
    : outcome (result Z PageTableWalkError) := fst <$> next_table w e m.

Definition MappedPageTable_translate (self : MappedPageTable P) (m : Mem) (addr : VirtAddr)
    : outcome TranslateResult :=
  let w := page_table_walker self in
  p4_entry ← read_entry m (level_4_table self) (VirtAddr_p4_index addr);
  r ← try_next_table w m p4_entry;
  match r with
  | Err WalkNotMapped => Ret NotMapped
  | Err WalkMappedToHugePage => Panic
  | Ok p3 =>
    entry ← read_entry m p3 (VirtAddr_p3_index addr);
    r ← try_next_table w m entry;
    match r with
    | Err WalkNotMapped => Ret NotMapped
    | Err WalkMappedToHugePage =>
        a ← PageTableEntry_addr entry;
        frame ← PhysFrame_containing_address a;
        let offset := Z.land (VirtAddr_as_u64 addr) 0x3fffffff in
        let flags := PageTableEntry_flags entry in
        Ret (Mapped (MappedSize1GiB frame) offset flags)
    | Ok p2 =>
      entry ← read_entry m p2 (VirtAddr_p2_index addr);
      r ← try_next_table w m entry;
      match r with
      | Err WalkNotMapped => Ret NotMapped
      | Err WalkMappedToHugePage =>
          a ← PageTableEntry_addr entry;
          frame ← PhysFrame_containing_address a;
          let offset := Z.land (VirtAddr_as_u64 addr) 0x1fffff in
          let flags := PageTableEntry_flags entry in
          Ret (Mapped (MappedSize2MiB frame) offset flags)
      | Ok p1 =>
        p1_entry ← read_entry m p1 (VirtAddr_p1_index addr);
        if PageTableEntry_is_unused p1_entry then Ret NotMapped
        else
          a ← PageTableEntry_addr p1_entry;
          r ← PhysFrame_from_start_address a;
          match r with
          | Err mkAddressNotAligned => Ret (InvalidFrameAddress a)
          | Ok frame =>
              let offset := page_offset_val (VirtAddr_page_offset addr) in
              let flags := PageTableEntry_flags p1_entry in
              Ret (Mapped (MappedSize4KiB frame) offset flags)
          end
      end
    end
  end.
End mapped_page_table.

(** ** [CleanUp] *)
Section clean_up.
Context `{Target} `{BitField} {P : Type} `{PageTableFrameMapping P} `{Bitflags}.
Context {D : Type} `{FrameDeallocator D Size4KiB}.

(** One iteration of the loop, for the entry [p\[i\]]; [recurse] is the
    recursive call of [clean_up] at the next lower level. *)
Definition clean_up_entry
    (recurse : Z -> PageRangeInclusive Size4KiB -> Mem * D -> outcome (bool * (Mem * D)))
    (w : PageTableWalker P) (p : Z) (table_addr : VirtAddr) (offset_per_entry : Z)
    (range : PageRangeInclusive Size4KiB) (i : nat) (s : Mem * D) : outcome (Mem * D) :=
  let idx := mkPageTableIndex (Z.of_nat i) in
  '(r, m) ← next_table_mut w p idx (fst s);
  match r with
  | Err _ => Ret (m, snd s)
  | Ok page_table =>
      off ← arith usize_bits (wrap usize_bits offset_per_entry * Z.of_nat i);
      o ← VirtAddr_forward_checked_impl table_addr off;
      start ← unwrap o;
      d ← arith 64 (offset_per_entry - 1);
      end_ ← VirtAddr_add start d;
      start ← Page_containing_address start;
      let start := Page_max start (pri_start range) in
      end_ ← Page_containing_address end_;
      let end_ := Page_min end_ (pri_end range) in
      '(empty, s) ← recurse page_table (Page_range_inclusive start end_) (m, snd s);
      if empty : bool then
        e ← read_entry (fst s) p idx;
        r ← PageTableEntry_frame e;
        frame ← unwrap_ok r;
        m ← write_entry (fst s) p idx (PageTableEntry_set_unused e);
        Ret (m, deallocate_frame frame (snd s))
      else Ret s
  end.

Fixpoint clean_up_entries (body : nat -> Mem * D -> outcome (Mem * D)) (is_ : list nat)
    (s : Mem * D) : outcome (Mem * D) :=
  match is_ with
  | [] => Ret s
  | i :: is_ => s ← body i s; clean_up_entries body is_ s
  end.

(** The inner function [clean_up].  The recursion descends one level per
    call, so a fuel of 4 is enough for the level 4 table; running out of
    fuel counts as [Fault]. *)
Fixpoint clean_up_table (fuel : nat) (w : PageTableWalker P) (p : Z) (level : PageTableLevel)
    (range : PageRangeInclusive Size4KiB) (s : Mem * D) : outcome (bool * (Mem * D)) :=
  match fuel with
  | O => Fault
  | S fuel =>
      if PageRangeInclusive_is_empty range then Ret (false, s) else
      table_addr ← VirtAddr_align_down (Page_start_address (pri_start range))
                     (table_address_space_alignment level);
      let start := Z.to_nat (pti (Page_page_table_index (pri_start range) level)) in
      let end_ := Z.to_nat (pti (Page_page_table_index (pri_end range) level)) in
      s ← match next_lower_level level with
          | Some next_level =>
              let offset_per_entry := entry_address_space_alignment level in
              clean_up_entries
                (clean_up_entry (fun p' r s => clean_up_table fuel w p' next_level r s)
                   w p table_addr offset_per_entry range)
                (seq start (end_ + 1 - start)) s
          | None => Ret s
          end;
      t ← deref (fst s) p;
      Ret (PageTable_is_empty t, s)
  end.

Definition MappedPageTable_clean_up_addr_range (self : MappedPageTable P)
    (range : PageRangeInclusive Size4KiB) (s : Mem * D) : outcome (Mem * D) :=
  '(_, s) ← clean_up_table 4 (page_table_walker self) (level_4_table self) Four range s;
  Ret s.

Definition MappedPageTable_clean_up (self : MappedPageTable P) (s : Mem * D) : outcome (Mem * D) :=
  a ← VirtAddr_new 0;
  start ← Page_from_start_address a;
  start ← unwrap_ok start;
  a ← VirtAddr_new 0xfffffffffffff000;
  end_ ← Page_from_start_address a;
  end_ ← unwrap_ok end_;
  MappedPageTable_clean_up_addr_range self (mkPageRangeInclusive start end_) s.
End clean_up.

(** ** The trait implementations *)
Section instances.
Context `{Target} `{BitField} {P : Type} `{PageTableFrameMapping P} `{Bitflags}.

#[export] Instance MappedPageTable_Mapper_1gib : Mapper Mem (MappedPageTable P) Size1GiB := {
  map_to_with_table_flags A _ := map_to_1gib;
  unmap := unmap_1gib;
  update_flags := update_flags_1gib;
  set_flags_p4_entry := set_flags_p4_entry_1gib;
  set_flags_p3_entry := set_flags_p3_entry_1gib;
  set_flags_p2_entry := set_flags_p2_entry_1gib;
  translate_page := translate_page_1gib;
}.

#[export] Instance MappedPageTable_Mapper_2mib : Mapper Mem (MappedPageTable P) Size2MiB := {
  map_to_with_table_flags A _ := map_to_2mib;
  unmap := unmap_2mib;
  update_flags := update_flags_2mib;
  set_flags_p4_entry := set_flags_p4_entry_2mib;
  set_flags_p3_entry := set_flags_p3_entry_2mib;
  set_flags_p2_entry := set_flags_p2_entry_2mib;
  translate_page := translate_page_2mib;
}.

#[export] Instance MappedPageTable_Mapper_4kib : Mapper Mem (MappedPageTable P) Size4KiB := {
  map_to_with_table_flags A _ := map_to_4kib;
  unmap := unmap_4kib;
  update_flags := update_flags_4kib;
  set_flags_p4_entry := set_flags_p4_entry_4kib;
  set_flags_p3_entry := set_flags_p3_entry_4kib;
  set_flags_p2_entry := set_flags_p2_entry_4kib;
  translate_page := translate_page_4kib;
}.

#[export] Instance MappedPageTable_Translate : Translate Mem (MappedPageTable P) :=
  MappedPageTable_translate.

#[export] Instance MappedPageTable_CleanUp : CleanUp Mem (MappedPageTable P) := {
  clean_up D _ := MappedPageTable_clean_up;
  clean_up_addr_range D _ := MappedPageTable_clean_up_addr_range;
}.

(** The implementation for any page size. *)
#[export] Instance MappedPageTable_Mapper S : Mapper Mem (MappedPageTable P) S :=
  match S with
  | Size4KiB => MappedPageTable_Mapper_4kib
  | Size2MiB => MappedPageTable_Mapper_2mib
  | Size1GiB => MappedPageTable_Mapper_1gib
  end.
End instances.
