(* ===== verification/PageWalk.v ===== *)
(** * Abstract view of a page table hierarchy

    The specification that the operations of MappedPageTable.v are proved
    against.  A hierarchy is a tree of tables; a path is the list of indices
    of an address from the level 4 table down; [view] maps a full path to the
    entry that decides its translation and the depth of that entry, or to
    [None] where nothing is mapped.  [Valid] is the contract of the mapper
    ("a valid page table hierarchy"), and the lemmas say how the elementary
    updates act on the view. *)
From Stdlib Require Import ZArith Lia Bool.
From stdpp Require Import base decidable option list gmap numbers.
From S2P Require Import Prelude Crates Index Addr Page Frame PageTable Mapper MappedPageTable.
#[local] Open Scope Z_scope.

Definition is_huge (e : PageTableEntry) : bool := Z.testbit (entry e) 7.
Definition is_present (e : PageTableEntry) : bool := Z.testbit (entry e) 0.
Definition entry_frame (e : PageTableEntry) : PhysFrame Size4KiB :=
  mkPhysFrame (mkPhysAddr (Z.land (entry e) ADDR_MASK)).

(** The entry at index [i] of the table at [p], and its update. *)
Definition get (m : Mem) (p : Z) (i : nat) : option PageTableEntry :=
  t ← m !! p; entries t !! i.

Definition upd (m : Mem) (p : Z) (i : nat) (e : PageTableEntry) : Mem :=
  match m !! p with
  | Some t => <[p := mkPageTable (<[i := e]> (entries t))]> m
  | None => m
  end.

Definition has_table (m : Mem) (p : Z) : Prop := exists t, m !! p = Some t /\ table_wf t.

Lemma get_Some m p i e : has_table m p -> get m p i = Some e -> (i < 512)%nat /\ entry_wf e.
Proof.
  intros (t & Et & Hl & Hf). unfold get. rewrite Et. cbn. intros E. split.
  - rewrite <- Hl. by eapply lookup_lt_Some.
  - by eapply Forall_lookup_1.
Qed.

Lemma get_is_Some m p i : has_table m p -> (i < 512)%nat -> exists e, get m p i = Some e /\ entry_wf e.
Proof.
  intros Ht Hi. pose proof Ht as (t & Et & Hl & Hf).
  destruct (lookup_lt_is_Some_2 (entries t) i) as [e E]; [lia|].
  assert (get m p i = Some e) as G by (unfold get; by rewrite Et).
  exists e. split; [done|]. by eapply get_Some.
Qed.

Lemma get_upd m p i e p' j :
  has_table m p -> (i < 512)%nat ->
  get (upd m p i e) p' j = if decide (p' = p /\ j = i) then Some e else get m p' j.
Proof.
  intros (t & Et & Hl & _) Hi. unfold upd, get. rewrite Et.
  destruct (decide (p' = p)) as [->|Hp].
  - rewrite lookup_insert_eq, Et. cbn. case_decide as Hd.
    + destruct Hd as [_ ->]. apply list_lookup_insert_eq. lia.
    + apply list_lookup_insert_ne. naive_solver.
  - rewrite lookup_insert_ne by done. case_decide; [naive_solver|done].
Qed.

Lemma has_table_upd m p i e q :
  has_table m p -> entry_wf e -> has_table m q -> has_table (upd m p i e) q.
Proof.
  intros (t & Et & Hl & Hf) He (u & Eu & Hu). unfold upd, has_table. rewrite Et.
  destruct (decide (q = p)) as [->|].
  - rewrite lookup_insert_eq. eexists. split; [done|]. split; cbn [entries].
    + by rewrite length_insert.
    + by apply Forall_insert.
  - rewrite lookup_insert_ne by done. eauto.
Qed.

(** Whole-table replacement. *)
Lemma get_insert_table m p t p' j :
  get (<[p := t]> m) p' j = if decide (p' = p) then entries t !! j else get m p' j.
Proof.
  unfold get. case_decide; [subst; by rewrite lookup_insert_eq|by rewrite lookup_insert_ne].
Qed.

Lemma get_PageTable_new j e : entries PageTable_new !! j = Some e -> e = PageTableEntry_new.
Proof. intros E. by apply lookup_replicate_1 in E as [-> _]. Qed.

Section walk.
Context {P : Type} `{PageTableFrameMapping P} (w : PageTableWalker P).

(** The table an entry points to. *)
Definition child (e : PageTableEntry) : option Z :=
  if is_huge e then None
  else if is_present e then
    match frame_to_pointer (page_table_frame_mapping w) (entry_frame e) with
    | Ret q => Some q
    | _ => None
    end
  else None.

Fixpoint table_at (m : Mem) (p : Z) (path : list nat) : option Z :=
  match path with
  | [] => Some p
  | i :: rest => e ← get m p i; q ← child e; table_at m q rest
  end.

(** The entry at which the walk along a path stops, with its depth. *)
Fixpoint leaf (m : Mem) (p : Z) (d : nat) (path : list nat) : option (nat * PageTableEntry) :=
  match path with
  | [] => None
  | i :: rest =>
      e ← get m p i;
      match rest, child e with
      | _ :: _, Some q => leaf m q (S d) rest
      | _, _ => Some (d, e)
      end
  end.

(** The entries that a walk along a path reads, from the level 4 table down. *)
Fixpoint trail (m : Mem) (p : Z) (path : list nat) : list PageTableEntry :=
  match path with
  | [] => []
  | i :: rest =>
      match get m p i with
      | Some e => e :: match child e with Some q => trail m q rest | None => [] end
      | None => []
      end
  end.

(** Unused entries are no mapping, at whatever depth. *)
Definition mk_view (d : nat) (e : PageTableEntry) : option (nat * PageTableEntry) :=
  if decide (entry e = 0) then None else Some (d, e).

Definition view (m : Mem) (p4 : Z) (path : list nat) : option (nat * PageTableEntry) :=
  '(d, e) ← leaf m p4 0 path; mk_view d e.

Record Valid (m : Mem) (p4 : Z) : Prop := {
  valid_table path q :
    (length path <= 3)%nat -> table_at m p4 path = Some q -> has_table m q;
  (** Entries above level 1 are unused, huge (not in level 4), or point to a table. *)
  valid_entry path q i e :
    (length path < 3)%nat -> table_at m p4 path = Some q -> get m q i = Some e ->
    entry e = 0 \/ (is_huge e = true /\ path <> []) \/ is_Some (child e);
  (** No table is used twice. *)
  valid_tree path path' q :
    (length path <= 3)%nat -> (length path' <= 3)%nat ->
    table_at m p4 path = Some q -> table_at m p4 path' = Some q -> path = path';
}.

Definition reachable (m : Mem) (p4 : Z) (q : Z) : Prop :=
  exists path, (length path <= 3)%nat /\ table_at m p4 path = Some q.

Lemma child_zero e : entry e = 0 -> child e = None.
Proof. intros E. unfold child, is_huge, is_present. by rewrite E. Qed.

Lemma child_pointer e q :
  child e = Some q -> frame_to_pointer (page_table_frame_mapping w) (entry_frame e) = Ret q.
Proof.
  unfold child. destruct (is_huge e), (is_present e); try done.
  by destruct (frame_to_pointer _ _); intros [= ->].
Qed.

Lemma table_at_app m p a b :
  table_at m p (a ++ b) = (q ← table_at m p a; table_at m q b).
Proof.
  revert p. induction a as [|i a IH]; intros p; [done|]. simpl.
  destruct (get m p i) as [e|]; [|done]. simpl. by destruct (child e); simpl.
Qed.

Lemma table_at_snoc m p a i q :
  table_at m p a = Some q -> table_at m p (a ++ [i]) = (e ← get m q i; child e).
Proof.
  intros E. rewrite table_at_app, E. simpl. destruct (get m q i) as [e|]; [|done].
  simpl. by destruct (child e).
Qed.

Lemma leaf_app m p d a b q :
  table_at m p a = Some q -> b <> [] -> leaf m p d (a ++ b) = leaf m q (d + length a) b.
Proof.
  intros E Hb. revert p d E. induction a as [|i a IH]; intros p d E; simpl in *.
  - simplify_eq. by rewrite Nat.add_0_r.
  - destruct (get m p i) as [e|]; [|done]. simpl in *.
    destruct (child e) as [r|]; [|done]. simpl in *.
    specialize (IH r (S d) E). replace (d + S (length a))%nat with (S d + length a)%nat by lia.
    rewrite <- IH. destruct (a ++ b) eqn:Eab; [by apply app_eq_nil in Eab as [_ ?]|done].
Qed.

(** Two memories that agree on the entries along a path agree on the walk. *)
Lemma walk_agree m m' p path :
  (forall pre j rest r, path = pre ++ j :: rest -> table_at m p pre = Some r ->
     get m' r j = get m r j) ->
  table_at m' p path = table_at m p path /\ forall d, leaf m' p d path = leaf m p d path.
Proof.
  revert p. induction path as [|i path IH]; intros p Hag; [done|].
  assert (get m' p i = get m p i) as E by (by apply (Hag [] i path)).
  simpl. rewrite E. destruct (get m p i) as [e|] eqn:Ee; [|done]. simpl.
  destruct (child e) as [q|] eqn:Ec; simpl.
  - destruct (IH q) as [I1 I2].
    { intros pre j rest r -> Hr. apply (Hag (i :: pre) j rest); [done|].
      simpl. by rewrite Ee; simpl; rewrite Ec. }
    split; [done|]. intros d. destruct path; [done|]. apply I2.
  - split; [done|]. intros d. by destruct path.
Qed.

Lemma trail_agree m m' p path :
  (forall pre j rest r, path = pre ++ j :: rest -> table_at m p pre = Some r ->
     get m' r j = get m r j) ->
  trail m' p path = trail m p path.
Proof.
  revert p. induction path as [|i path IH]; intros p Hag; [done|].
  assert (get m' p i = get m p i) as E by (by apply (Hag [] i path)).
  simpl. rewrite E. destruct (get m p i) as [e|] eqn:Ee; [|done].
  destruct (child e) as [q|] eqn:Ec; [|done]. f_equal. apply IH.
  intros pre j rest r -> Hr. apply (Hag (i :: pre) j rest); [done|].
  simpl. by rewrite Ee; simpl; rewrite Ec.
Qed.

Lemma trail_app m p a b q :
  table_at m p a = Some q -> trail m p (a ++ b) = trail m p a ++ trail m q b.
Proof.
  revert p. induction a as [|i a IH]; intros p E; simpl in *; [by simplify_eq|].
  destruct (get m p i) as [e|]; [|done]. simpl in *. destruct (child e) as [r|]; [|done].
  simpl in *. by rewrite (IH r E).
Qed.

Lemma prefix_split {X} (pre pre' : list X) i j rest :
  pre' = pre -> j = i -> pre ++ [i] `prefix_of` pre' ++ j :: rest.
Proof. intros -> ->. exists rest. by rewrite <- app_assoc. Qed.

Lemma not_prefix_self {X} (pre : list X) i : ~ pre ++ [i] `prefix_of` pre.
Proof. intros [k E%(f_equal length)]. rewrite !length_app in E. simpl in E. lia. Qed.

Lemma table_at_through m p4 pre q i e rest :
  table_at m p4 pre = Some q -> get m q i = Some e ->
  table_at m p4 (pre ++ i :: rest) = (r ← child e; table_at m r rest).
Proof. intros Eq Ei. rewrite table_at_app, Eq. simpl. by rewrite Ei. Qed.

Lemma leaf_through m p4 d pre q i e rest :
  table_at m p4 pre = Some q -> get m q i = Some e ->
  leaf m p4 d (pre ++ i :: rest) =
    match rest, child e with
    | _ :: _, Some r => leaf m r (S (d + length pre)) rest
    | _, _ => Some ((d + length pre)%nat, e)
    end.
Proof. intros Eq Ei. rewrite (leaf_app _ _ _ _ _ q) by done. simpl. by rewrite Ei. Qed.

(** Memory that is not part of the hierarchy does not matter. *)
Lemma walk_insert_unreachable m p4 q t path :
  ~ reachable m p4 q -> (length path <= 4)%nat ->
  table_at (<[q := t]> m) p4 path = table_at m p4 path.
Proof.
  intros Hq Hl. apply walk_agree. intros pre j rest r -> Hr.
  rewrite get_insert_table, decide_False; [done|]. intros ->. apply Hq. exists pre.
  rewrite length_app in Hl. simpl in Hl. split; [lia|done].
Qed.

Lemma Valid_insert_unreachable m p4 q t :
  Valid m p4 -> ~ reachable m p4 q -> Valid (<[q := t]> m) p4.
Proof.
  intros HV Hq. assert (forall path r, (length path <= 3)%nat ->
    table_at (<[q := t]> m) p4 path = Some r -> table_at m p4 path = Some r /\ r <> q) as Hsame.
  { intros path r Hl. rewrite walk_insert_unreachable by (done || lia). intros Hr.
    split; [done|]. intros ->. apply Hq. by exists path. }
  split.
  - intros path r Hl Hr. destruct (Hsame path r Hl Hr) as [Hr' Hne].
    destruct (valid_table _ _ HV path r Hl Hr') as (u & Eu & Hu). exists u. by rewrite lookup_insert_ne.
  - intros path r i e Hl Hr Hg. destruct (Hsame path r ltac:(lia) Hr) as [Hr' Hne].
    rewrite get_insert_table, decide_False in Hg by done. by apply (valid_entry _ _ HV path r i e).
  - intros path path' r Hl Hl' Hr Hr'. apply (valid_tree _ _ HV path path' r); try done; by apply Hsame.
Qed.

(** ** Updates of one entry of the hierarchy *)
Section update.
Context (m m' : Mem) (p4 : Z) (HV : Valid m p4).
Context (pre : list nat) (q : Z) (i : nat) (e' : PageTableEntry).
Context (Hpre : (length pre <= 3)%nat) (Hq : table_at m p4 pre = Some q).
Context (Hnew : get m' q i = Some e').
Context (Hold : forall r j, reachable m p4 r -> ~ (r = q /\ j = i) -> get m' r j = get m r j).

Lemma agree_other path :
  (length path <= 4)%nat -> ~ pre ++ [i] `prefix_of` path ->
  forall pre' j rest r, path = pre' ++ j :: rest -> table_at m p4 pre' = Some r ->
    get m' r j = get m r j.
Proof.
  intros Hl Hn pre' j rest r -> Hr.
  assert (length pre' <= 3)%nat as Hl' by (rewrite length_app in Hl; simpl in Hl; lia).
  apply Hold; [by exists pre'|]. intros [-> ->]. apply Hn, prefix_split; [|done].
  by apply (valid_tree _ _ HV pre' pre q).
Qed.

Lemma walk_other path :
  (length path <= 4)%nat -> ~ pre ++ [i] `prefix_of` path ->
  table_at m' p4 path = table_at m p4 path /\ forall d, leaf m' p4 d path = leaf m p4 d path.
Proof. intros Hl Hn. apply walk_agree. by apply agree_other. Qed.

Lemma trail_other path :
  (length path <= 4)%nat -> ~ pre ++ [i] `prefix_of` path -> trail m' p4 path = trail m p4 path.
Proof. intros Hl Hn. apply trail_agree. by apply agree_other. Qed.

(** Below the table that the old entry points to nothing changes. *)
Lemma agree_below e r0 rest :
  get m q i = Some e -> child e = Some r0 -> (length (pre ++ i :: rest) <= 4)%nat ->
  forall pre' j rest' r, rest = pre' ++ j :: rest' -> table_at m r0 pre' = Some r ->
    get m' r j = get m r j.
Proof.
  intros Hg Hr0 Hp pre' j rest' r -> Hr. rewrite length_app in Hp. simpl in Hp.
  rewrite length_app in Hp. simpl in Hp.
  assert (table_at m p4 (pre ++ i :: pre') = Some r) as Hr'.
  { rewrite (table_at_through _ _ _ q _ e) by done. by rewrite Hr0. }
  apply Hold.
  - eexists. split; [|exact Hr']. rewrite length_app. simpl. lia.
  - intros [-> _].
    assert (pre = pre ++ i :: pre') as E2%(f_equal length).
    { apply (valid_tree _ _ HV _ _ q); [lia| |done|done]. rewrite length_app. simpl. lia. }
    rewrite length_app in E2. simpl in E2. lia.
Qed.

Lemma table_at_pre : table_at m' p4 pre = Some q.
Proof. rewrite <- Hq. apply walk_other; [lia|apply not_prefix_self]. Qed.

(** Cases for a path: it avoids the updated entry or passes through it. *)
Lemma path_cases path :
  (length path <= 4)%nat ->
  (~ pre ++ [i] `prefix_of` path /\ table_at m' p4 path = table_at m p4 path /\
     leaf m' p4 0 path = leaf m p4 0 path) \/
  (exists rest, path = pre ++ i :: rest /\
     table_at m' p4 path = (r ← child e'; table_at m' r rest) /\
     leaf m' p4 0 path =
       match rest, child e' with
       | _ :: _, Some r => leaf m' r (S (length pre)) rest
       | _, _ => Some (length pre, e')
       end).
Proof.
  intros Hl. destruct (decide (pre ++ [i] `prefix_of` path)) as [[rest ->]|Hn].
  - right. exists rest. rewrite <- app_assoc. simpl. split; [done|]. split.
    + apply table_at_through with q; [apply table_at_pre|done].
    + rewrite (leaf_through _ _ _ _ q _ e') by (done || apply table_at_pre). done.
  - left. destruct (walk_other path Hl Hn). auto.
Qed.
End update.

Lemma view_leaf m p4 path d e : leaf m p4 0 path = Some (d, e) -> view m p4 path = mk_view d e.
Proof. unfold view. by intros ->. Qed.

Lemma view_eq m m' p4 path : leaf m' p4 0 path = leaf m p4 0 path -> view m' p4 path = view m p4 path.
Proof. unfold view. by intros ->. Qed.

Lemma mk_view_zero d e : entry e = 0 -> mk_view d e = None.
Proof. intros E. unfold mk_view. by rewrite decide_True. Qed.

(** Storing a final entry (unused, huge, or any entry of a level 1 table)
    maps the addresses below it to the entry and nothing else. *)
Definition final_entry (pre : list nat) (e : PageTableEntry) : Prop :=
  length pre = 3%nat \/ entry e = 0 \/ (is_huge e = true /\ pre <> []).

Lemma final_child pre e : final_entry pre e -> length pre = 3%nat \/ child e = None.
Proof.
  intros [?|[?|[E _]]]; [by left|right; by apply child_zero|right]. unfold child. by rewrite E.
Qed.

Lemma store_final m p4 pre q i e' :
  Valid m p4 -> (length pre <= 3)%nat -> table_at m p4 pre = Some q -> (i < 512)%nat ->
  entry_wf e' -> final_entry pre e' ->
  Valid (upd m q i e') p4 /\
  (forall path r, (length path <= 3)%nat -> table_at (upd m q i e') p4 path = Some r ->
     table_at m p4 path = Some r) /\
  forall path, length path = 4%nat ->
    view (upd m q i e') p4 path =
      if decide (pre ++ [i] `prefix_of` path) then mk_view (length pre) e' else view m p4 path.
Proof.
  intros HV Hl Hq Hi He Hf. pose proof (valid_table _ _ HV _ _ Hl Hq) as Ht.
  pose proof (final_child _ _ Hf) as Hc.
  assert (get (upd m q i e') q i = Some e') as Hnew by (by rewrite get_upd, decide_True).
  assert (forall r j, reachable m p4 r -> ~ (r = q /\ j = i) ->
    get (upd m q i e') r j = get m r j) as Hold by (intros; by rewrite get_upd, decide_False).
  pose proof (path_cases m (upd m q i e') p4 HV pre q i e' Hl Hq Hnew Hold) as HC.
  assert (forall path r, (length path <= 3)%nat -> table_at (upd m q i e') p4 path = Some r ->
    table_at m p4 path = Some r) as Hsame.
  { intros path r Hp Hr. destruct (HC path) as [(_ & E & _)|(rest & -> & E & _)]; [lia|congruence|].
    rewrite E in Hr. destruct Hc as [Hc|Hc]; [|by rewrite Hc in Hr].
    rewrite length_app in Hp. simpl in Hp. lia. }
  split_and!.
  - split.
    + intros path r Hp Hr. apply has_table_upd; [done|done|].
      eapply valid_table; [done|exact Hp|by apply Hsame].
    + intros path r j e Hp Hr Hg. assert (table_at m p4 path = Some r) as Hr' by (apply Hsame; [lia|done]).
      rewrite get_upd in Hg by done. case_decide as Hd; [|by eapply valid_entry].
      destruct Hd as [-> ->]. simplify_eq.
      assert (path = pre) as -> by (apply (valid_tree _ _ HV path pre q); [lia|done|done|done]).
      destruct Hf as [?|[?|?]]; [lia|by left|by right; left].
    + intros path path' r Hp Hp' Hr Hr'. apply (valid_tree _ _ HV path path' r); auto.
  - done.
  - intros path Hp. destruct (HC path) as [(Hn & _ & E)|(rest & -> & _ & E)]; [lia| |].
    + rewrite decide_False by done. by apply view_eq.
    + rewrite decide_True by (by apply prefix_split).
      apply view_leaf. rewrite E. destruct rest as [|j rest]; [done|].
      destruct Hc as [Hc|Hc]; [|by rewrite Hc].
      rewrite length_app in Hp. simpl in Hp. lia.
Qed.

(** Changing the flags of an entry that keeps pointing to the same table
    changes no translation. *)
Lemma table_at_same_child m q i e e' :
  has_table m q -> (i < 512)%nat -> get m q i = Some e -> child e' = child e ->
  forall path p, table_at (upd m q i e') p path = table_at m p path.
Proof.
  intros Ht Hi Hg Hc. induction path as [|j path IH]; intros p; [done|]. simpl.
  rewrite get_upd by done. case_decide as Hd.
  - destruct Hd as [-> ->]. rewrite Hg. simpl. rewrite Hc. by destruct (child e); simpl.
  - destruct (get m p j) as [x|]; [|done]. simpl. by destruct (child x); simpl.
Qed.

Lemma store_same_child m p4 pre q i e e' :
  Valid m p4 -> (length pre < 3)%nat -> table_at m p4 pre = Some q -> get m q i = Some e ->
  entry_wf e' -> is_Some (child e) -> child e' = child e ->
  Valid (upd m q i e') p4 /\
  (forall path, table_at (upd m q i e') p4 path = table_at m p4 path) /\
  forall path, length path = 4%nat -> view (upd m q i e') p4 path = view m p4 path.
Proof.
  intros HV Hl Hq Hg He [r0 Hr0] Hc.
  pose proof (valid_table _ _ HV pre q ltac:(lia) Hq) as Ht.
  destruct (get_Some _ _ _ _ Ht Hg) as [Hi _].
  pose proof (table_at_same_child m q i e e' Ht Hi Hg Hc) as Hsame.
  assert (get (upd m q i e') q i = Some e') as Hnew by (by rewrite get_upd, decide_True).
  assert (forall r j, reachable m p4 r -> ~ (r = q /\ j = i) ->
    get (upd m q i e') r j = get m r j) as Hold by (intros; by rewrite get_upd, decide_False).
  split_and!; [|done|].
  - split.
    + intros path r Hp Hr. rewrite Hsame in Hr. apply has_table_upd; [done|done|].
      by apply (valid_table _ _ HV path).
    + intros path r j x Hp Hr Hx. rewrite Hsame in Hr. rewrite get_upd in Hx by done.
      case_decide; [|by eapply valid_entry]. simplify_eq. right; right. rewrite Hc. eauto.
    + intros path path' r Hp Hp'. rewrite !Hsame. by apply (valid_tree _ _ HV).
  - intros path Hp. apply view_eq.
    destruct (path_cases m (upd m q i e') p4 HV pre q i e' ltac:(lia) Hq Hnew Hold path ltac:(lia))
      as [(_ & _ & E)|(rest & -> & _ & E)]; [done|].
    rewrite E, (leaf_through _ _ _ _ q _ e) by done. rewrite Hc, Hr0.
    rewrite length_app in Hp. simpl in Hp. destruct rest as [|j rest]; [simpl in Hp; lia|].
    apply walk_agree.
    apply (agree_below m _ p4 HV pre q i ltac:(lia) Hq Hold e); [done|done|rewrite length_app; simpl in *; lia].
Qed.

(** ... and the entries on every path are the same but for the changed one. *)
Lemma trail_same_child m p4 pre q i e e' path :
  Valid m p4 -> (length pre < 3)%nat -> table_at m p4 pre = Some q -> get m q i = Some e ->
  is_Some (child e) -> child e' = child e -> (length path <= 4)%nat ->
  trail (upd m q i e') p4 path = trail m p4 path \/
  exists t t', trail m p4 path = t ++ e :: t' /\ trail (upd m q i e') p4 path = t ++ e' :: t'.
Proof.
  intros HV Hl Hq Hg [r0 Hr0] Hc Hp.
  pose proof (valid_table _ _ HV pre q ltac:(lia) Hq) as Ht. destruct (get_Some _ _ _ _ Ht Hg) as [Hi _].
  assert (get (upd m q i e') q i = Some e') as Hnew by (by rewrite get_upd, decide_True).
  assert (forall r j, reachable m p4 r -> ~ (r = q /\ j = i) ->
    get (upd m q i e') r j = get m r j) as Hold by (intros; by rewrite get_upd, decide_False).
  destruct (decide (pre ++ [i] `prefix_of` path)) as [[rest ->]|Hn].
  2: { left. apply (trail_other m _ p4 HV pre q i); done || lia. }
  right. rewrite <- app_assoc in *. cbn [app] in *. exists (trail m p4 pre), (trail m r0 rest).
  assert (table_at (upd m q i e') p4 pre = Some q) as Hq'
    by (apply (table_at_pre m _ p4 HV pre q i); [lia|done|done]).
  split.
  - rewrite (trail_app m p4 pre _ q Hq). simpl. by rewrite Hg, Hr0.
  - rewrite (trail_app _ p4 pre _ q Hq'). simpl. rewrite Hnew, Hc, Hr0.
    rewrite (trail_other m _ p4 HV pre q i) by (done || lia || apply not_prefix_self). do 2 f_equal.
    apply trail_agree. by apply (agree_below m _ p4 HV pre q i ltac:(lia) Hq Hold e).
Qed.

(** Hanging a fresh zeroed table into an unused entry changes no
    translation. *)
Section new_table.
Context (m : Mem) (p4 : Z) (pre : list nat) (q : Z) (i : nat) (e e' : PageTableEntry) (qn : Z).
Context (HV : Valid m p4) (Hl : (length pre < 3)%nat) (Hq : table_at m p4 pre = Some q).
Context (Hg : get m q i = Some e) (He0 : entry e = 0) (He : entry_wf e').
Context (Hc : child e' = Some qn) (Hfresh : ~ reachable m p4 qn).
#[local] Abbreviation m' := (<[qn := PageTable_new]> (upd m q i e')).

Lemma new_table_slot : q <> qn /\ get m' q i = Some e'.
Proof.
  pose proof (valid_table _ _ HV pre q ltac:(lia) Hq) as Ht. destruct (get_Some _ _ _ _ Ht Hg) as [Hi _].
  assert (q <> qn) as Hqn by (intros ->; apply Hfresh; exists pre; split; [lia|done]).
  split; [done|]. by rewrite get_insert_table, decide_False, get_upd, decide_True.
Qed.

Lemma new_table_old r j : reachable m p4 r -> ~ (r = q /\ j = i) -> get m' r j = get m r j.
Proof.
  pose proof (valid_table _ _ HV pre q ltac:(lia) Hq) as Ht. destruct (get_Some _ _ _ _ Ht Hg) as [Hi _].
  intros Hr Hd. rewrite get_insert_table, decide_False by (by intros ->).
  by rewrite get_upd, decide_False.
Qed.

Lemma new_table_zero j x : get m' qn j = Some x -> entry x = 0.
Proof. rewrite get_insert_table, decide_True by done. by intros ->%get_PageTable_new. Qed.

Lemma new_table_has r : has_table m r \/ r = qn -> has_table m' r.
Proof.
  pose proof (valid_table _ _ HV pre q ltac:(lia) Hq) as Ht.
  intros Hr. destruct (decide (r = qn)) as [->|].
  { exists PageTable_new. split; [by apply lookup_insert_eq|apply PageTable_new_wf]. }
  destruct Hr as [Hr|]; [|done].
  destruct (has_table_upd m q i e' r Ht He Hr) as (t & Et & Hw). exists t.
  split; [|done]. by rewrite lookup_insert_ne.
Qed.

(** The tables are the old ones and the new one. *)
Lemma new_table_cases path r :
  (length path <= 3)%nat -> table_at m' p4 path = Some r ->
  (table_at m p4 path = Some r /\ r <> qn) \/ (path = pre ++ [i] /\ r = qn).
Proof.
  intros Hp Hr.
  destruct (path_cases m m' p4 HV pre q i e' ltac:(lia) Hq (proj2 new_table_slot) new_table_old path)
    as [(_ & E & _)|(rest & -> & E & _)]; [lia| |].
  - left. rewrite E in Hr. split; [done|]. intros ->. apply Hfresh. by exists path.
  - right. rewrite E, Hc in Hr. simpl in Hr. destruct rest as [|j rest]; simpl in Hr; [by simplify_eq|].
    destruct (get m' qn j) as [x|] eqn:Ex; [|done]. simpl in Hr.
    by rewrite (child_zero x) in Hr by by eapply new_table_zero.
Qed.

Lemma new_table_valid : Valid m' p4.
Proof.
  split.
  - intros path r Hp Hr. apply new_table_has.
    destruct (new_table_cases path r Hp Hr) as [[Hr' _]|[_ ->]]; [left|by right].
    by apply (valid_table _ _ HV path).
  - intros path r j x Hp Hr Hx. destruct (new_table_cases path r ltac:(lia) Hr) as [[Hr' Hne]|[-> ->]].
    + destruct (decide (r = q /\ j = i)) as [[-> ->]|Hd].
      * rewrite (proj2 new_table_slot) in Hx. simplify_eq. right; right. eauto.
      * rewrite new_table_old in Hx; [by eapply valid_entry| |done]. exists path. split; [lia|done].
    + left. by eapply new_table_zero.
  - intros path path' r Hp Hp' Hr Hr'.
    destruct (new_table_cases path r Hp Hr) as [[E Hne]|[-> ->]],
      (new_table_cases path' _ Hp' Hr') as [[E' Hne']|[-> E']]; try done.
    by apply (valid_tree _ _ HV path path' r).
Qed.

Lemma new_table_view path : length path = 4%nat -> view m' p4 path = view m p4 path.
Proof.
  intros Hp.
  destruct (path_cases m m' p4 HV pre q i e' ltac:(lia) Hq (proj2 new_table_slot) new_table_old path)
    as [(_ & _ & E)|(rest & -> & _ & E)]; [lia|by apply view_eq|].
  rewrite length_app in Hp. simpl in Hp. destruct rest as [|j rest]; [simpl in Hp; lia|].
  rewrite Hc in E. unfold view. rewrite E, (leaf_through m p4 0 pre q i e) by done.
  rewrite (child_zero e) by done. simpl. rewrite mk_view_zero by done.
  destruct (get m' qn j) as [x|] eqn:Ex; [|done]. simpl.
  pose proof (new_table_zero _ _ Ex) as Hx. rewrite (child_zero x) by done.
  destruct rest; simpl; by rewrite mk_view_zero.
Qed.

(** A path that is mapped does not pass through the new table. *)
Lemma new_table_trail path :
  length path = 4%nat -> is_Some (view m p4 path) -> trail m' p4 path = trail m p4 path.
Proof.
  intros Hp Hv. apply (trail_other m m' p4 HV pre q i); [lia|done|by apply new_table_old|lia|].
  intros [rest ->]. rewrite <- app_assoc in *. cbn [app] in *.
  unfold view in Hv. rewrite (leaf_through m p4 0 pre q i e), (child_zero e) in Hv by done.
  destruct rest; simpl in Hv; rewrite mk_view_zero in Hv by done; by destruct Hv.
Qed.
End new_table.

Lemma store_new_table m p4 pre q i e e' qn :
  Valid m p4 -> (length pre < 3)%nat -> table_at m p4 pre = Some q -> get m q i = Some e ->
  entry e = 0 -> entry_wf e' -> child e' = Some qn -> ~ reachable m p4 qn ->
  let m' := <[qn := PageTable_new]> (upd m q i e') in
  Valid m' p4 /\
  table_at m' p4 (pre ++ [i]) = Some qn /\
  (forall r, reachable m' p4 r -> reachable m p4 r \/ r = qn) /\
  forall path, length path = 4%nat -> view m' p4 path = view m p4 path.
Proof.
  intros HV Hl Hq Hg He0 He Hc Hfresh m'.
  pose proof (new_table_slot m p4 pre q i e e' qn HV Hl Hq Hg Hfresh) as [_ Hnew].
  split_and!.
  - by apply (new_table_valid m p4 pre q i e e' qn).
  - unfold m'. rewrite (table_at_through _ p4 pre q i e' []); [by rewrite Hc| |done].
    apply (table_at_pre m _ p4 HV pre q i); [lia|done|].
    intros r j. by apply (new_table_old m p4 pre q i e e' qn).
  - intros r (path & Hp & Hr).
    destruct (new_table_cases m p4 pre q i e e' qn HV Hl Hq Hg Hc Hfresh path r Hp Hr)
      as [[E _]|[_ ->]]; [|by right].
    left. by exists path.
  - intros path. by apply (new_table_view m p4 pre q i e e' qn).
Qed.

Lemma leaf_depth m p d path d' e : leaf m p d path = Some (d', e) -> (d <= d')%nat.
Proof.
  revert p d. induction path as [|i path IH]; intros p d; simpl; [done|].
  destruct (get m p i) as [x|]; [|done]. simpl.
  destruct path as [|j path], (child x) as [q|]; try (intros [= <- <-]; lia).
  intros E%IH. lia.
Qed.

(** A zeroed level 4 table is a valid hierarchy of one table. *)
Lemma table_at_new m p4 path q :
  m !! p4 = Some PageTable_new -> table_at m p4 path = Some q -> path = [] /\ q = p4.
Proof.
  intros Em. destruct path as [|i path]; simpl; [naive_solver|]. unfold get. rewrite Em.
  cbn [mbind option_bind]. destruct (entries PageTable_new !! i) as [e|] eqn:Ei; [|done].
  apply get_PageTable_new in Ei as ->. cbn [mbind option_bind]. by rewrite child_zero.
Qed.

Lemma Valid_new m p4 : m !! p4 = Some PageTable_new -> Valid m p4.
Proof.
  intros Em. split.
  - intros path q _ [-> ->]%table_at_new; [|done]. exists PageTable_new. split; [done|apply PageTable_new_wf].
  - intros path q i e _ [-> ->]%table_at_new; [|done]. unfold get. rewrite Em. simpl.
    intros Ei%get_PageTable_new. left. by rewrite Ei.
  - intros path path' q _ _ [-> _]%table_at_new [-> _]%table_at_new; done.
Qed.

Lemma reachable_new m p4 q : m !! p4 = Some PageTable_new -> reachable m p4 q -> q = p4.
Proof. intros Em (path & _ & Hq). by apply table_at_new in Hq as [_ ->]. Qed.
End walk.
