(* ===== verification/MapperSpec.v ===== *)
(** * The mapped page table runs as its specification

    Symbolic execution of the operations of MappedPageTable.v on a valid
    hierarchy: the walker returns the table the path leads to, and each
    operation is a pure function of the entry it finds, followed by at most
    one store.  MapperProofs.v turns this into statements on translations. *)
From Stdlib Require Import ZArith Lia Bool.
From stdpp Require Import base decidable option list gmap numbers.
From S2P Require Import Prelude Crates Index Addr Page Frame PageTable Mapper.
From S2P Require Import MappedPageTable PageWalk.
#[local] Open Scope Z_scope.

(** ** Indices of addresses and pages *)
Definition ix (i : PageTableIndex) : nat := Z.to_nat (pti i).

Lemma ix_lt i : PageTableIndex_wf i -> (ix i < 512)%nat.
Proof. unfold PageTableIndex_wf, ENTRY_COUNT, ix. lia. Qed.

Definition addr_indices (a : VirtAddr) : list PageTableIndex :=
  [VirtAddr_p4_index a; VirtAddr_p3_index a; VirtAddr_p2_index a; VirtAddr_p1_index a].
Definition addr_path (a : VirtAddr) : list nat := ix <$> addr_indices a.

Lemma addr_path_length a : length (addr_path a) = 4%nat.
Proof. done. Qed.

(** The indices of the parent entries of a page, and its own index. *)
Definition page_parents {S} (page : Page S) : list PageTableIndex :=
  match S with
  | Size4KiB => [Page_p4_index page; Page_p3_index page; VirtAddr_p2_index (page_start page)]
  | Size2MiB => [Page_p4_index page; Page_p3_index page]
  | Size1GiB => [Page_p4_index page]
  end.
Definition page_last {S} (page : Page S) : PageTableIndex :=
  match S with
  | Size4KiB => VirtAddr_p1_index (page_start page)
  | Size2MiB => VirtAddr_p2_index (page_start page)
  | Size1GiB => VirtAddr_p3_index (page_start page)
  end.
Definition page_pre {S} (page : Page S) : list nat := ix <$> page_parents page.
Definition page_path {S} (page : Page S) : list nat := page_pre page ++ [ix (page_last page)].

Lemma page_pre_length {S} (page : Page S) : (1 <= length (page_pre page) <= 3)%nat.
Proof. unfold page_pre. rewrite length_fmap. destruct S; simpl; lia. Qed.

Lemma page_parents_cons {S} (page : Page S) : exists is_, page_parents page = Page_p4_index page :: is_.
Proof. destruct S; eexists; reflexivity. Qed.

Lemma page_parents_wf {S} (page : Page S) :
  Page_wf page -> Forall PageTableIndex_wf (page_parents page) /\ PageTableIndex_wf (page_last page).
Proof.
  intros [Hc _]. destruct (VirtAddr_index_wf _ Hc) as (H4 & H3 & H2 & H1).
  destruct S; simpl; split; repeat constructor; try done; by apply H4 || apply H3 || apply H2 || apply H1.
Qed.

Section run.
Context {P : Type} `{PageTableFrameMapping P} `{BL : BitflagsLaws} (w : PageTableWalker P).

(** ** Memory accesses *)
Lemma read_entry_get m p i e :
  PageTableIndex_wf i -> get m p (ix i) = Some e -> read_entry m p i = Ret e.
Proof.
  intros [Hi _]. unfold read_entry, deref, get, ix, PageTable_index, PageTable_index_usize.
  destruct (m !! p) as [t|]; [|done]. simpl. intros E.
  by rewrite (proj2 (Z.ltb_ge _ _)), E by lia.
Qed.

Lemma write_entry_upd m p i e :
  PageTableIndex_wf i -> has_table m p -> write_entry m p i e = Ret (upd m p (ix i) e).
Proof.
  intros Hi (t & Et & Ht). unfold write_entry, deref, upd. rewrite Et. simpl.
  destruct (PageTable_index_wf t i Ht Hi) as (e' & E & _).
  unfold PageTable_index_mut, PageTable_index_mut_usize. unfold PageTable_index in E. by rewrite E.
Qed.

Lemma get_entry_run {E} m p i e :
  PageTableIndex_wf i -> get m p (ix i) = Some e -> get_entry (E := E) p i m = Ret (Ok e, m).
Proof.
  intros Hi Hg. unfold get_entry, get_state, lift, mbind, M_bind. by rewrite (read_entry_get m p i e).
Qed.

Lemma put_entry_run {E} m p i e :
  PageTableIndex_wf i -> has_table m p ->
  put_entry (E := E) p i e m = Ret (Ok tt, upd m p (ix i) e).
Proof.
  intros Hi Ht. unfold put_entry, get_state, put_state, lift, mbind, M_bind.
  by rewrite write_entry_upd.
Qed.

(** ** One step of the walker *)
Definition step_result (e : PageTableEntry) : result Z PageTableWalkError :=
  match child w e with
  | Some q => Ok q
  | None => Err (if is_huge e then WalkMappedToHugePage else WalkNotMapped)
  end.

(** An entry the walker can look at without faulting or panicking. *)
Definition walkable (m : Mem) (e : PageTableEntry) : Prop :=
  entry_wf e /\ (is_huge e = true \/ is_present e = false \/ is_Some (child w e)) /\
  forall q, child w e = Some q -> has_table m q.

Lemma next_table_run m e :
  walkable m e -> next_table w e m = Ret (step_result e, m).
Proof.
  intros (He & Hc & Ht). unfold next_table, step_result. rewrite contains_HUGE_PAGE.
  fold (is_huge e). destruct (is_huge e) eqn:Eh.
  { unfold child. by rewrite Eh. }
  destruct Hc as [Hc|Hc]; [done|].
  unfold lift, get_state, mbind, M_bind. rewrite PageTableEntry_frame_val by done.
  fold (is_present e). fold (entry_frame e).
  destruct (is_present e) eqn:Ep; [|by unfold child; rewrite Eh, Ep].
  destruct Hc as [Hc|[q Hc]]; [done|]. rewrite Hc. destruct (Ht q Hc) as (t & Et & _).
  unfold child in Hc. rewrite Eh, Ep in Hc.
  destruct (frame_to_pointer _ _); simplify_eq. unfold deref. by rewrite Et.
Qed.

Lemma next_table_mut_run m p i e :
  PageTableIndex_wf i -> get m p (ix i) = Some e -> walkable m e ->
  next_table_mut w p i m = Ret (step_result e, m).
Proof.
  intros Hi Hg Hw. rewrite <- (next_table_run m e Hw). unfold next_table_mut.
  unfold mbind at 1, M_bind at 1. by rewrite (get_entry_run m p i e Hi Hg).
Qed.

Lemma valid_walkable m p4 pre q i e :
  Valid w m p4 -> (length pre < 3)%nat -> table_at w m p4 pre = Some q -> get m q i = Some e ->
  walkable m e.
Proof.
  intros HV Hl Hq Hg. pose proof (valid_table _ _ _ HV pre q ltac:(lia) Hq) as Ht.
  destruct (get_Some _ _ _ _ Ht Hg) as [_ He]. split; [done|]. split.
  - destruct (valid_entry _ _ _ HV pre q i e Hl Hq Hg) as [E|[[E _]|E]]; [|by left|by right; right].
    right; left. unfold is_present. by rewrite E.
  - intros r Hr. apply (valid_table _ _ _ HV (pre ++ [i])); [rewrite length_app; simpl; lia|].
    rewrite (table_at_snoc _ _ _ _ _ q) by done. by rewrite Hg.
Qed.

(** ** Walks *)
Fixpoint resolve (m : Mem) (p : Z) (path : list nat) : result Z PageTableWalkError :=
  match path with
  | [] => Ok p
  | i :: rest =>
      match get m p i with
      | None => Err WalkNotMapped
      | Some e =>
          match step_result e with
          | Ok q => resolve m q rest
          | Err x => Err x
          end
      end
  end.

Lemma resolve_Ok m p path q : resolve m p path = Ok q <-> table_at w m p path = Some q.
Proof.
  revert p. induction path as [|i path IH]; intros p; simpl; [naive_solver|].
  destruct (get m p i) as [e|]; simpl; [|naive_solver]. unfold step_result.
  destruct (child w e); simpl; [apply IH|naive_solver].
Qed.

Lemma resolve_app m p a b :
  resolve m p (a ++ b) =
    match resolve m p a with Ok q => resolve m q b | Err x => Err x end.
Proof.
  revert p. induction a as [|i a IH]; intros p; [done|]. simpl.
  destruct (get m p i) as [e|]; [|done]. by destruct (step_result e).
Qed.

(** The walk fails with [MappedToHugePage] exactly at a huge entry on the path. *)
Lemma resolve_Err m p path x :
  resolve m p path = Err x ->
  exists a i b q, path = a ++ i :: b /\ table_at w m p a = Some q /\
    match get m q i with
    | None => x = WalkNotMapped
    | Some e => child w e = None /\ x = (if is_huge e then WalkMappedToHugePage else WalkNotMapped)
    end.
Proof.
  revert p. induction path as [|i path IH]; intros p; simpl; [done|].
  destruct (get m p i) as [e|] eqn:Eg.
  - unfold step_result. destruct (child w e) as [r|] eqn:Ec.
    + intros (a & j & b & q & -> & Hq & Hm)%IH. exists (i :: a), j, b, q.
      split; [done|]. split; [|done]. simpl. rewrite Eg. simpl. by rewrite Ec.
    + intros [= <-]. exists [], i, path, p. split; [done|]. split; [done|]. by rewrite Eg.
  - intros [= <-]. exists [], i, path, p. split; [done|]. split; [done|]. by rewrite Eg.
Qed.

(** The code's chains of [next_table_mut] and [next_table] calls, with the
    error conversion [f] that [?] inserts, before a continuation [k]. *)
Fixpoint chain_mut {E X} (f : PageTableWalkError -> E) (p : Z) (is_ : list PageTableIndex)
    (k : Z -> M Mem E X) : M Mem E X :=
  match is_ with
  | [] => k p
  | i :: is_ => q ← map_err f (next_table_mut w p i); chain_mut f q is_ k
  end.

Fixpoint chain {E X} (f : PageTableWalkError -> E) (p : Z) (is_ : list PageTableIndex)
    (k : Z -> M Mem E X) : M Mem E X :=
  match is_ with
  | [] => k p
  | i :: is_ => e ← get_entry p i; q ← map_err f (next_table w e); chain f q is_ k
  end.

Lemma chain_run {E X} m p4 pre p is_ (f : PageTableWalkError -> E) (k : Z -> M Mem E X) :
  Valid w m p4 -> table_at w m p4 pre = Some p -> (length pre + length is_ <= 3)%nat ->
  Forall PageTableIndex_wf is_ ->
  let r := match resolve m p (ix <$> is_) with
           | Ok q => k q m
           | Err x => Ret (Err (f x), m)
           end in
  chain_mut f p is_ k m = r /\ chain f p is_ k m = r.
Proof.
  intros HV. revert pre p. induction is_ as [|i is_ IH]; intros pre p Hp Hl Hf; [done|].
  apply Forall_cons_iff in Hf as [Hi Hf]. simpl in Hl.
  pose proof (valid_table _ _ _ HV pre p ltac:(lia) Hp) as Ht.
  destruct (get_is_Some m p (ix i) Ht (ix_lt i Hi)) as (e & Hg & _).
  assert (walkable m e) as Hw by (apply (valid_walkable m p4 pre p (ix i)); done || lia).
  simpl. rewrite Hg. unfold mbind, M_bind, map_err.
  rewrite (get_entry_run m p i e), (next_table_mut_run m p i e), next_table_run by done.
  destruct (step_result e) as [q|x] eqn:Es; [|done].
  apply (IH (pre ++ [ix i])); [|rewrite length_app; simpl; lia|done].
  rewrite (table_at_snoc _ _ _ _ _ p) by done. rewrite Hg. simpl. unfold step_result in Es.
  destruct (child w e); by simplify_eq.
Qed.

(** The table found by a successful walk of the parents of a page. *)
Lemma resolve_table {S} m p4 (page : Page S) q :
  Valid w m p4 -> Page_wf page -> resolve m p4 (page_pre page) = Ok q ->
  table_at w m p4 (page_pre page) = Some q /\ has_table m q /\
  exists e, get m q (ix (page_last page)) = Some e /\ entry_wf e.
Proof.
  intros HV Hp Hq%resolve_Ok. pose proof (page_pre_length page) as Hl.
  pose proof (valid_table _ _ _ HV (page_pre page) q ltac:(lia) Hq) as Ht.
  split; [done|]. split; [done|]. apply get_is_Some; [done|]. by apply ix_lt, page_parents_wf.
Qed.

Lemma page_chain_run {S E X} m p4 (page : Page S) (f : PageTableWalkError -> E) (k : Z -> M Mem E X) :
  Valid w m p4 -> Page_wf page ->
  let r := match resolve m p4 (page_pre page) with
           | Ok q => k q m
           | Err x => Ret (Err (f x), m)
           end in
  chain_mut f p4 (page_parents page) k m = r /\ chain f p4 (page_parents page) k m = r.
Proof.
  intros HV Hp. apply (chain_run m p4 []); [done|done| |by apply page_parents_wf].
  pose proof (page_pre_length page) as Hl. unfold page_pre in Hl. rewrite length_fmap in Hl. simpl. lia.
Qed.
End run.

(** ** The operations as functions of the entry they find *)
Section operations.
Context {P : Type} `{PageTableFrameMapping P} `{BL : BitflagsLaws} (self : MappedPageTable P).
#[local] Abbreviation w := (page_table_walker self).
#[local] Abbreviation p4 := (level_4_table self).

Definition entry_addr (e : PageTableEntry) : PhysAddr := mkPhysAddr (Z.land (entry e) ADDR_MASK).

Definition unmap_entry (S : PageSize) (e : PageTableEntry) : result (PhysFrame S) UnmapError :=
  if negb (is_present e) then Err UnmapPageNotMapped
  else if negb (is_huge e) && negb (bool_decide (S = Size4KiB)) then Err UnmapParentEntryHugePage
  else if pa (entry_addr e) mod SIZE S =? 0 then Ok (mkPhysFrame (entry_addr e))
  else Err (UnmapInvalidFrameAddress (entry_addr e)).

Definition translate_entry (S : PageSize) (e : PageTableEntry) : result (PhysFrame S) TranslateError :=
  if entry e =? 0 then Err TranslatePageNotMapped
  else if pa (entry_addr e) mod SIZE S =? 0 then Ok (mkPhysFrame (entry_addr e))
  else Err (TranslateInvalidFrameAddress (entry_addr e)).

(** The flags stored in the entry of a page of size [S]. *)
Definition page_flags (S : PageSize) (flags : Z) : Z :=
  match S with Size4KiB => flags | _ => Z.lor flags PageTableFlags_HUGE_PAGE end.

Lemma entry_addr_mod e : entry_wf e -> pa (entry_addr e) mod 4096 = 0.
Proof. intros He. unfold entry_addr. cbn [pa]. rewrite land_mask by done. unfold entry_wf, uN in He. mlia. Qed.

(** The entry of a page in the table its parents lead to. *)
Definition page_entry {S} (m : Mem) (page : Page S) (q : Z) : PageTableEntry :=
  default PageTableEntry_new (get m q (ix (page_last page))).

(** What the code does once the walk has reached the table [q]. *)
Definition unmap_tail {S} (page : Page S) (q : Z)
    : M Mem UnmapError (PhysFrame S * MapperFlush S) :=
  e ← get_entry q (page_last page);
  let flags := PageTableEntry_flags e in
  if negb (contains flags PageTableFlags_PRESENT) then throw UnmapPageNotMapped
  else if negb (contains flags PageTableFlags_HUGE_PAGE) then throw UnmapParentEntryHugePage
  else
    a ← lift (PageTableEntry_addr e);
    r ← lift (PhysFrame_from_start_address a);
    match r with
    | Err mkAddressNotAligned => throw (UnmapInvalidFrameAddress a)
    | Ok frame =>
        _ ← put_entry q (page_last page) (PageTableEntry_set_unused e);
        mret (frame, MapperFlush_new page)
    end.

Definition unmap_tail_4kib (page : Page Size4KiB) (q : Z)
    : M Mem UnmapError (PhysFrame Size4KiB * MapperFlush Size4KiB) :=
  e ← get_entry q (page_last page);
  r ← lift (PageTableEntry_frame e);
  match r with
  | Err FrameNotPresent => throw UnmapPageNotMapped
  | Err HugeFrame => lift Panic
  | Ok frame =>
      _ ← put_entry q (page_last page) (PageTableEntry_set_unused e);
      mret (frame, MapperFlush_new page)
  end.

Lemma unmap_chain {S} (page : Page S) :
  unmap self page =
    chain_mut w UnmapError_from p4 (page_parents page)
      (match S return Page S -> Z -> M Mem UnmapError (PhysFrame S * MapperFlush S) with
       | Size4KiB => unmap_tail_4kib
       | _ => unmap_tail
       end page).
Proof. by destruct S. Qed.

(** Runs of the tails on a well-formed table. *)
Section tails.
Context {S : PageSize} (page : Page S) (m : Mem) (q : Z).
Context (Hp : Page_wf page) (Ht : has_table m q).
#[local] Abbreviation e := (page_entry m page q).
#[local] Abbreviation i := (page_last page).

Lemma page_entry_get : get m q (ix i) = Some e /\ entry_wf e /\ PageTableIndex_wf i.
Proof.
  pose proof (proj2 (page_parents_wf page Hp)) as Hi.
  destruct (get_is_Some m q (ix i) Ht (ix_lt _ Hi)) as (x & Hx & Hwf).
  unfold page_entry. by rewrite Hx.
Qed.

Lemma page_entry_run {E} : get_entry (E := E) q i m = Ret (Ok e, m).
Proof. destruct page_entry_get as (Hg & _ & Hi). by apply get_entry_run. Qed.

Lemma page_put_run {E} e' : put_entry (E := E) q i e' m = Ret (Ok tt, upd m q (ix i) e').
Proof. destruct page_entry_get as (_ & _ & Hi). by apply put_entry_run. Qed.

Lemma from_start_run :
  PageTableEntry_addr e = Ret (entry_addr e) /\
  forall S', PhysFrame_from_start_address (S := S') (entry_addr e) =
    Ret (if pa (entry_addr e) mod SIZE S' =? 0 then Ok (mkPhysFrame (entry_addr e))
         else Err mkAddressNotAligned).
Proof.
  destruct page_entry_get as (_ & He & _). destruct (PageTableEntry_addr_val _ He) as [E Hv].
  split; [done|]. intros S'. by rewrite PhysFrame_from_start_address_val.
Qed.
End tails.

(** Outcome of an operation that stores [new] in the entry of the page. *)
Definition stores {S E X} (m : Mem) (page : Page S) (q : Z) (r : result (X * PageTableEntry) E)
    : outcome (result X E * Mem) :=
  match r with
  | Ok (x, new) => Ret (Ok x, upd m q (ix (page_last page)) new)
  | Err x => Ret (Err x, m)
  end.

Lemma unmap_run {S} (page : Page S) m :
  Valid w m p4 -> Page_wf page ->
  unmap self page m =
    match resolve w m p4 (page_pre page) with
    | Err x => Ret (Err (UnmapError_from x), m)
    | Ok q => stores m page q
        match unmap_entry S (page_entry m page q) with
        | Ok f => Ok ((f, mkMapperFlush page), PageTableEntry_new)
        | Err x => Err x
        end
    end.
Proof.
  intros HV Hp. rewrite unmap_chain.
  rewrite (proj1 (page_chain_run w m p4 page UnmapError_from _ HV Hp)).
  destruct (resolve w m p4 (page_pre page)) as [q|x] eqn:Eq; [|done].
  destruct (resolve_table w m p4 page q HV Hp Eq) as (_ & Ht & _).
  destruct (page_entry_get page m q Hp Ht) as (_ & He & _).
  destruct (from_start_run page m q Hp Ht) as [Ea Ef].
  destruct S; unfold unmap_tail_4kib, unmap_tail, mbind, M_bind, lift, unmap_entry;
    rewrite page_entry_run by done.
  - rewrite PageTableEntry_frame_val by done. fold (is_present (page_entry m page q)).
    destruct (is_present (page_entry m page q)); [|done].
    rewrite page_put_run by done. cbn [negb].
    rewrite bool_decide_true, andb_false_r by done.
    change (SIZE Size4KiB) with 4096. by rewrite entry_addr_mod, Z.eqb_refl.
  - rewrite contains_PRESENT, contains_HUGE_PAGE.
    fold (is_present (page_entry m page q)). fold (is_huge (page_entry m page q)).
    destruct (is_present _), (is_huge _); try done. cbn [negb andb].
    rewrite Ea, Ef. destruct (_ mod _ =? 0); [|done]. by rewrite page_put_run.
  - rewrite contains_PRESENT, contains_HUGE_PAGE.
    fold (is_present (page_entry m page q)). fold (is_huge (page_entry m page q)).
    destruct (is_present _), (is_huge _); try done. cbn [negb andb].
    rewrite Ea, Ef. destruct (_ mod _ =? 0); [|done]. by rewrite page_put_run.
Qed.

Definition update_flags_tail {S} (page : Page S) (flags : Z) (q : Z)
    : M Mem FlagUpdateError (MapperFlush S) :=
  e ← get_entry q (page_last page);
  if PageTableEntry_is_unused e then throw FlagPageNotMapped
  else
    e' ← lift (PageTableEntry_set_flags e
      match S with Size4KiB => flags | _ => flags_or flags PageTableFlags_HUGE_PAGE end);
    _ ← put_entry q (page_last page) e';
    mret (MapperFlush_new page).

Lemma update_flags_chain {S} (page : Page S) flags :
  update_flags self page flags =
    chain_mut w FlagUpdateError_from p4 (page_parents page) (update_flags_tail page flags).
Proof. by destruct S. Qed.

Lemma update_flags_run {S} (page : Page S) flags m :
  Valid w m p4 -> Page_wf page ->
  update_flags self page flags m =
    match resolve w m p4 (page_pre page) with
    | Err x => Ret (Err (FlagUpdateError_from x), m)
    | Ok q => stores m page q
        (if entry (page_entry m page q) =? 0 then Err FlagPageNotMapped
         else Ok (mkMapperFlush page,
                mkPageTableEntry (Z.lor (pa (entry_addr (page_entry m page q))) (page_flags S flags))))
    end.
Proof.
  intros HV Hp. rewrite update_flags_chain.
  rewrite (proj1 (page_chain_run w m p4 page FlagUpdateError_from _ HV Hp)).
  destruct (resolve w m p4 (page_pre page)) as [q|x] eqn:Eq; [|done].
  destruct (resolve_table w m p4 page q HV Hp Eq) as (_ & Ht & _).
  destruct (page_entry_get page m q Hp Ht) as (_ & He & _).
  unfold update_flags_tail, mbind, M_bind, lift. rewrite page_entry_run by done.
  unfold PageTableEntry_is_unused. destruct (entry (page_entry m page q) =? 0); [done|].
  rewrite set_flags_val by done. rewrite page_put_run by done. cbn [stores].
  do 3 f_equal. destruct S; cbn [page_flags]; by autorewrite with flags.
Qed.

Definition translate_page_tail {S} (page : Page S) (q : Z) : M Mem TranslateError (PhysFrame S) :=
  e ← get_entry q (page_last page);
  if PageTableEntry_is_unused e then throw TranslatePageNotMapped
  else
    a ← lift (PageTableEntry_addr e);
    r ← lift (PhysFrame_from_start_address a);
    match r with
    | Err mkAddressNotAligned => throw (TranslateInvalidFrameAddress a)
    | Ok frame => mret frame
    end.

Lemma translate_page_chain {S} (page : Page S) :
  translate_page self page =
    chain w TranslateError_from p4 (page_parents page) (translate_page_tail page).
Proof. by destruct S. Qed.

Lemma translate_page_run {S} (page : Page S) m :
  Valid w m p4 -> Page_wf page ->
  translate_page self page m =
    Ret (match resolve w m p4 (page_pre page) with
         | Err x => Err (TranslateError_from x)
         | Ok q => translate_entry S (page_entry m page q)
         end, m).
Proof.
  intros HV Hp. rewrite translate_page_chain.
  rewrite (proj2 (page_chain_run w m p4 page TranslateError_from _ HV Hp)).
  destruct (resolve w m p4 (page_pre page)) as [q|x] eqn:Eq; [|done].
  destruct (resolve_table w m p4 page q HV Hp Eq) as (_ & Ht & _).
  destruct (from_start_run page m q Hp Ht) as [Ea Ef].
  unfold translate_page_tail, mbind, M_bind, lift, translate_entry. rewrite page_entry_run by done.
  unfold PageTableEntry_is_unused. destruct (entry (page_entry m page q) =? 0); [done|].
  rewrite Ea, Ef. by destruct (_ mod _ =? 0).
Qed.

(** ** [translate] is a function of the view *)
Definition translate_view (a : VirtAddr) (v : option (nat * PageTableEntry)) : TranslateResult :=
  match v with
  | None => NotMapped
  | Some (0%nat, _) => NotMapped
  | Some (1%nat, e) =>
      if is_huge e then
        Mapped (MappedSize1GiB (frame_at (pa (entry_addr e) / SIZE Size1GiB)))
          (va a mod SIZE Size1GiB) (Z.land (entry e) PageTableFlags_all)
      else NotMapped
  | Some (2%nat, e) =>
      if is_huge e then
        Mapped (MappedSize2MiB (frame_at (pa (entry_addr e) / SIZE Size2MiB)))
          (va a mod SIZE Size2MiB) (Z.land (entry e) PageTableFlags_all)
      else NotMapped
  | Some (_, e) =>
      Mapped (MappedSize4KiB (mkPhysFrame (entry_addr e)))
        (va a mod SIZE Size4KiB) (Z.land (entry e) PageTableFlags_all)
  end.

Lemma try_next_table_run m e :
  walkable w m e -> try_next_table w m e = Ret (step_result w e).
Proof. intros Hw. unfold try_next_table. by rewrite next_table_run. Qed.

(** One level of the walk: the table, its entry, and the step. *)
Lemma walk_level m pre q i :
  Valid w m p4 -> (length pre <= 3)%nat -> table_at w m p4 pre = Some q -> PageTableIndex_wf i ->
  exists e, get m q (ix i) = Some e /\ entry_wf e /\ read_entry m q i = Ret e /\
    ((length pre < 3)%nat -> try_next_table w m e = Ret (step_result w e)) /\
    (forall r, (length pre < 3)%nat -> child w e = Some r ->
       table_at w m p4 (pre ++ [ix i]) = Some r).
Proof.
  intros HV Hl Hq Hi. pose proof (valid_table _ _ _ HV pre q Hl Hq) as Ht.
  destruct (get_is_Some m q (ix i) Ht (ix_lt i Hi)) as (e & Hg & He).
  exists e. split_and!; [done|done|by apply read_entry_get| |].
  - intros Hl'. apply try_next_table_run. by apply (valid_walkable w m p4 pre q (ix i)).
  - intros r _ Hr. rewrite (table_at_snoc _ _ _ _ _ q) by done. by rewrite Hg.
Qed.

Lemma containing_entry_addr S e :
  entry_wf e ->
  PageTableEntry_addr e = Ret (entry_addr e) /\
  PhysFrame_containing_address (entry_addr e) =
    Ret (frame_at (pa (entry_addr e) / SIZE S) : PhysFrame S).
Proof.
  intros He. destruct (PageTableEntry_addr_val e He) as [E Hv]. split; [done|].
  by apply PhysFrame_containing_address_val.
Qed.

Lemma is_huge_nonzero e : is_huge e = true -> entry e <> 0.
Proof. unfold is_huge. intros Hh E. by rewrite E in Hh. Qed.

Lemma mk_view_nonzero d e : entry e <> 0 -> mk_view d e = Some (d, e).
Proof. intros Hn. unfold mk_view. by rewrite decide_False. Qed.

(** A walk that stops above level 1 stops at an unused or a huge entry. *)
Lemma step_stops m pre q i e :
  Valid w m p4 -> (length pre < 3)%nat -> table_at w m p4 pre = Some q -> get m q i = Some e ->
  child w e = None ->
  (entry e = 0 /\ step_result w e = Err WalkNotMapped) \/
  (is_huge e = true /\ pre <> [] /\ step_result w e = Err WalkMappedToHugePage).
Proof.
  intros HV Hl Hq Hg Hc. unfold step_result. rewrite Hc.
  destruct (valid_entry _ _ _ HV pre q i e Hl Hq Hg) as [E|[[E Hp]|[r E]]].
  - left. unfold is_huge. by rewrite E.
  - right. by rewrite E.
  - congruence.
Qed.

Lemma step_continues e r : child w e = Some r -> step_result w e = Ok r.
Proof. unfold step_result. by intros ->. Qed.

Lemma offset_1gib a : Z.land (VirtAddr_as_u64 a) 0x3fffffff = va a mod SIZE Size1GiB.
Proof. exact (land_ones_mod (va a) 30 ltac:(lia)). Qed.

Lemma offset_2mib a : Z.land (VirtAddr_as_u64 a) 0x1fffff = va a mod SIZE Size2MiB.
Proof. exact (land_ones_mod (va a) 21 ltac:(lia)). Qed.

Lemma offset_4kib a :
  canonical a -> page_offset_val (VirtAddr_page_offset a) = va a mod SIZE Size4KiB.
Proof. intros Ha. by destruct (VirtAddr_index_val a Ha) as (_ & _ & _ & _ & ->). Qed.

Lemma translate_run m a :
  Valid w m p4 -> canonical a ->
  translate self m a = Ret (translate_view a (view w m p4 (addr_path a))).
Proof.
  intros HV Ha. destruct (VirtAddr_index_wf a Ha) as (H4 & H3 & H2 & H1).
  unfold translate, MappedPageTable_Translate, MappedPageTable_translate, view, addr_path, addr_indices.
  cbn [fmap list_fmap leaf].
  set (x4 := ix (VirtAddr_p4_index a)). set (x3 := ix (VirtAddr_p3_index a)).
  set (x2 := ix (VirtAddr_p2_index a)). set (x1 := ix (VirtAddr_p1_index a)).
  destruct (walk_level m [] p4 _ HV ltac:(simpl; lia) eq_refl H4) as (e4 & G4 & W4 & R4 & T4 & C4).
  fold x4 in G4. rewrite R4, G4. cbn [mbind outcome_bind option_bind]. rewrite T4 by (simpl; lia). clear T4.
  destruct (child w e4) as [p3|] eqn:E4; cycle 1.
  { destruct (step_stops m [] p4 _ e4 HV ltac:(simpl; lia) eq_refl G4 E4) as [[Z4 ->]|(_ & [] & _)];
      [|done]. cbn. by rewrite mk_view_zero. }
  rewrite (step_continues _ _ E4). cbn [mbind outcome_bind option_bind].
  specialize (C4 p3 ltac:(simpl; lia) eq_refl). cbn [app] in C4. fold x4 in C4.
  destruct (walk_level m [x4] p3 _ HV ltac:(simpl; lia) C4 H3) as (e3 & G3 & W3 & R3 & T3 & C3).
  fold x3 in G3. rewrite R3, G3. cbn [mbind outcome_bind option_bind]. rewrite T3 by (simpl; lia). clear T3.
  destruct (child w e3) as [p2|] eqn:E3; cycle 1.
  { destruct (step_stops m [x4] p3 _ e3 HV ltac:(simpl; lia) C4 G3 E3) as [[Z3 ->]|(Hh & _ & ->)]; cbn.
    - by rewrite mk_view_zero.
    - destruct (containing_entry_addr Size1GiB e3 W3) as [-> Ec]. cbn. rewrite Ec.
      rewrite mk_view_nonzero by by apply is_huge_nonzero. cbn [translate_view].
      by rewrite Hh, offset_1gib, PageTableEntry_flags_val. }
  rewrite (step_continues _ _ E3). cbn [mbind outcome_bind option_bind].
  specialize (C3 p2 ltac:(simpl; lia) eq_refl). cbn [app] in C3. fold x3 in C3.
  destruct (walk_level m [x4; x3] p2 _ HV ltac:(simpl; lia) C3 H2) as (e2 & G2 & W2 & R2 & T2 & C2).
  fold x2 in G2. rewrite R2, G2. cbn [mbind outcome_bind option_bind]. rewrite T2 by (simpl; lia). clear T2.
  destruct (child w e2) as [p1|] eqn:E2; cycle 1.
  { destruct (step_stops m [x4; x3] p2 _ e2 HV ltac:(simpl; lia) C3 G2 E2) as [[Z2 ->]|(Hh & _ & ->)]; cbn.
    - by rewrite mk_view_zero.
    - destruct (containing_entry_addr Size2MiB e2 W2) as [-> Ec]. cbn. rewrite Ec.
      rewrite mk_view_nonzero by by apply is_huge_nonzero. cbn [translate_view].
      by rewrite Hh, offset_2mib, PageTableEntry_flags_val. }
  rewrite (step_continues _ _ E2). cbn [mbind outcome_bind option_bind].
  specialize (C2 p1 ltac:(simpl; lia) eq_refl). cbn [app] in C2. fold x2 in C2.
  destruct (walk_level m [x4; x3; x2] p1 _ HV ltac:(simpl; lia) C2 H1) as (e1 & G1 & W1 & R1 & _ & _).
  fold x1 in G1. rewrite R1, G1. cbn [mbind outcome_bind option_bind].
  unfold PageTableEntry_is_unused. destruct (Z.eqb_spec (entry e1) 0) as [Z1|N1].
  { by rewrite mk_view_zero. }
  rewrite mk_view_nonzero by done. cbn [translate_view].
  destruct (PageTableEntry_addr_val e1 W1) as [-> Hv]. cbn [mbind outcome_bind].
  rewrite PhysFrame_from_start_address_val by done. change (SIZE Size4KiB) with 4096 at 1.
  fold (entry_addr e1). rewrite entry_addr_mod, Z.eqb_refl by done. cbn [mbind outcome_bind].
  by rewrite PageTableEntry_flags_val, offset_4kib.
Qed.
End operations.
