(* ===== verification/MapperCreate.v ===== *)
(** * Creating page tables on the way to a page

    Symbolic execution of [create_next_table] and of the chains of such calls
    in [map_to_1gib], [map_to_2mib] and [map_to_4kib]: the tables that are
    missing are allocated, zeroed and linked, and no translation changes. *)
From Stdlib Require Import ZArith Lia Bool.
From stdpp Require Import base decidable option list gmap numbers.
From S2P Require Import Prelude Crates Index Addr Page Frame PageTable Mapper.
From S2P Require Import MappedPageTable PageWalk MapperSpec.
#[local] Open Scope Z_scope.

(** Flags for parent entries: present, not huge, no address bits. *)
Record parent_flags_ok (pf : Z) : Prop := {
  pf_u64 : u64 pf;
  pf_present : Z.testbit pf 0 = true;
  pf_not_huge : Z.testbit pf 7 = false;
  pf_no_addr : Z.land pf ADDR_MASK = 0;
}.

Lemma pf_declared pf : parent_flags_ok pf -> Z.land pf PageTableFlags_all = pf.
Proof.
  intros [Hu _ _ Hm]. rewrite <- (Z.lor_0_r (Z.land pf _)), <- Hm, <- Z.land_lor_distr_r, all_or_mask.
  change U64_MAX with (2 ^ 64 - 1). rewrite land_ones_mod by lia. by apply Z.mod_small.
Qed.

Lemma pf_nonzero pf : parent_flags_ok pf -> pf <> 0.
Proof. intros [_ Hp _ _] ->. done. Qed.

Lemma lor_absorb x y : Z.land x y = y -> Z.lor x y = x.
Proof.
  intros <-. apply Z.bits_inj'. intros i Hi. rewrite Z.lor_spec, Z.land_spec.
  by destruct (Z.testbit x i).
Qed.

Lemma upd_same m p i e : get m p i = Some e -> upd m p i e = m.
Proof.
  unfold get, upd. destruct (m !! p) as [t|] eqn:E; [|done]. simpl. intros Hi.
  rewrite list_insert_id by done. apply insert_id. rewrite E. by destruct t.
Qed.

(** Evaluation of monadic code down to the next opaque call. *)
Ltac mrun := cbn [fst snd lift throw get_state put_state mret M_ret mbind M_bind on_mem map_err].

Section create.
Context {P : Type} `{PageTableFrameMapping P} `{BL : BitflagsLaws} (w : PageTableWalker P).
Context {A : Type} `{FrameAllocator A Size4KiB} (pf : Z) (Hpf : parent_flags_ok pf).

Definition with_flags (e : PageTableEntry) : PageTableEntry := mkPageTableEntry (Z.lor (entry e) pf).
Definition new_parent (f : PhysFrame Size4KiB) : PageTableEntry :=
  mkPageTableEntry (Z.lor (pa (frame_start f)) pf).

Lemma with_flags_wf e : entry_wf e -> entry_wf (with_flags e).
Proof. intros He. apply lor_u64; [done|apply Hpf]. Qed.

Lemma with_flags_huge e : is_huge (with_flags e) = is_huge e.
Proof. unfold is_huge, with_flags. cbn [entry]. by rewrite Z.lor_spec, (pf_not_huge _ Hpf), orb_false_r. Qed.

Lemma with_flags_child e : is_Some (child w e) -> child w (with_flags e) = child w e.
Proof.
  intros [q Hq]. unfold child in *. rewrite with_flags_huge.
  destruct (is_huge e); [done|]. unfold is_present in *. cbn [with_flags entry].
  rewrite Z.lor_spec, (pf_present _ Hpf), orb_true_r.
  destruct (Z.testbit (entry e) 0); [|done]. unfold entry_frame, with_flags. cbn [entry].
  by rewrite Z.land_lor_distr_l, (pf_no_addr _ Hpf), Z.lor_0_r.
Qed.

(** The entry contains all the flags exactly when adding them is a no-op. *)
Lemma contains_with_flags e :
  contains (PageTableEntry_flags e) pf = true -> with_flags e = e.
Proof.
  rewrite PageTableEntry_flags_val. autorewrite with flags. rewrite Z.eqb_eq. intros E.
  apply entry_ext. unfold with_flags. cbn [entry]. rewrite <- Z.land_assoc in E.
  rewrite (Z.land_comm PageTableFlags_all), pf_declared in E by done.
  by apply lor_absorb.
Qed.

Lemma frame_low_bits (f : PhysFrame Size4KiB) i :
  PhysFrame_wf f -> 0 <= i < 12 -> Z.testbit (pa (frame_start f)) i = false.
Proof.
  intros [Hv Hm] Hi. change (SIZE Size4KiB) with (2 ^ 12) in Hm.
  rewrite <- (Z.mod_pow2_bits_low _ 12) by lia. rewrite Hm. apply Z.bits_0.
Qed.

Lemma new_parent_child f qn :
  PhysFrame_wf f -> frame_to_pointer (page_table_frame_mapping w) f = Ret qn ->
  entry_wf (new_parent f) /\ child w (new_parent f) = Some qn.
Proof.
  intros Hf Hq. pose proof Hf as [Hv Hm]. split.
  { apply lor_u64; [by apply phys_valid_u64|apply Hpf]. }
  unfold child, is_huge, is_present, new_parent. cbn [entry].
  rewrite !Z.lor_spec, !frame_low_bits by (done || lia).
  rewrite (pf_not_huge _ Hpf), (pf_present _ Hpf). cbn [orb].
  replace (entry_frame _) with f; [by rewrite Hq|].
  apply frame_ext. cbn [entry_frame frame_start pa entry].
  rewrite Z.land_lor_distr_l, (pf_no_addr _ Hpf), Z.lor_0_r. by rewrite land_mask_aligned.
Qed.

(** ** The three ways through [create_next_table] *)
Section run.
Context (m : Mem) (a : A) (p : Z) (i : PageTableIndex) (e : PageTableEntry).
Context (Ht : has_table m p) (Hi : PageTableIndex_wf i) (Hg : get m p (ix i) = Some e).

Lemma create_alloc_failed a' :
  entry e = 0 -> allocate_frame a = (None, a') ->
  create_next_table w p i pf (m, a) = Ret (Err CreateFrameAllocationFailed, (m, a')).
Proof.
  intros Hz Ha. unfold create_next_table, mbind, M_bind, on_mem. cbn [fst snd].
  rewrite (get_entry_run m p i e) by done. unfold PageTableEntry_is_unused.
  rewrite Hz. change (0 =? 0) with true. mrun. by rewrite Ha.
Qed.

Lemma create_fresh f a' qn :
  entry e = 0 -> allocate_frame a = (Some f, a') -> PhysFrame_wf f ->
  frame_to_pointer (page_table_frame_mapping w) f = Ret qn -> has_table m qn -> qn <> p ->
  create_next_table w p i pf (m, a) =
    Ret (Ok qn, (<[qn := PageTable_new]> (upd m p (ix i) (new_parent f)), a')).
Proof.
  intros Hz Ha Hf Hq Htn Hne. destruct (new_parent_child f qn Hf Hq) as [Hwf Hc].
  assert (has_table (upd m p (ix i) (new_parent f)) qn) as Htn' by by apply has_table_upd.
  assert (get (upd m p (ix i) (new_parent f)) p (ix i) = Some (new_parent f)) as Hg'.
  { by rewrite get_upd, decide_True by (done || by apply ix_lt). }
  unfold create_next_table, mbind, M_bind, on_mem, try_next_table_mut. cbn [fst snd].
  rewrite (get_entry_run m p i e) by done. unfold PageTableEntry_is_unused.
  rewrite Hz. change (0 =? 0) with true. mrun. rewrite Ha. mrun.
  unfold PageTableEntry_set_frame. rewrite set_addr_frame by done. fold (new_parent f). mrun.
  rewrite put_entry_run by done. mrun.
  rewrite (next_table_mut_run w _ p i (new_parent f)); [|done|done|].
  - unfold step_result. rewrite Hc. destruct Htn' as (t & Et & Hw).
    unfold deref. mrun. rewrite Et. mrun.
    by rewrite PageTable_zero_val.
  - split; [done|]. split; [right; right; eauto|]. intros r. rewrite Hc. by intros [= <-].
Qed.

(** The flags are added before the walk goes on. *)
Lemma create_existing :
  entry e <> 0 -> walkable w m e -> (is_huge e = true \/ is_Some (child w e)) ->
  create_next_table w p i pf (m, a) =
    Ret (match child w e with Some q => Ok q | None => Err CreateMappedToHugePage end,
         (upd m p (ix i) (with_flags e), a)).
Proof.
  intros Hz (He & _ & Hchild) Hc. pose proof (with_flags_wf e He) as Hwf.
  assert (get (upd m p (ix i) (with_flags e)) p (ix i) = Some (with_flags e)) as Hg'.
  { by rewrite get_upd, decide_True by (done || by apply ix_lt). }
  assert (step_result w (with_flags e) =
    match child w e with Some q => Ok q | None => Err WalkMappedToHugePage end) as Hs.
  { unfold step_result. destruct Hc as [Hh|Hs].
    - unfold child. by rewrite with_flags_huge, Hh.
    - rewrite with_flags_child by done. destruct Hs as [q ->]. done. }
  assert (walkable w (upd m p (ix i) (with_flags e)) (with_flags e)) as Hw.
  { split; [done|]. split.
    - rewrite with_flags_huge. destruct Hc as [Hh|Hc]; [by left|].
      right; right. by rewrite with_flags_child.
    - intros q Hq. apply has_table_upd; [done|done|]. apply Hchild.
      destruct Hc as [Hh|Hs']; [|by rewrite <- with_flags_child].
      unfold child in Hq. by rewrite with_flags_huge, Hh in Hq. }
  unfold create_next_table, mbind, M_bind, on_mem, try_next_table_mut. cbn [fst snd].
  rewrite (get_entry_run m p i e) by done. unfold PageTableEntry_is_unused.
  rewrite (proj2 (Z.eqb_neq _ _)) by done. autorewrite with flags.
  rewrite (proj2 (Z.eqb_neq _ _)) by by apply pf_nonzero. cbn [negb andb].
  rewrite <- contains_law.
  destruct (contains (PageTableEntry_flags e) pf) eqn:Ec; cbn [negb].
  - rewrite (contains_with_flags e Ec), upd_same in * by done. mrun.
    rewrite (next_table_mut_run w m p i e) by done. rewrite Hs. by destruct (child w e).
  - rewrite <- flags_or_law. unfold lift. rewrite set_flags_add by done. fold (with_flags e). mrun.
    rewrite put_entry_run by done. mrun.
    rewrite (next_table_mut_run w _ p i (with_flags e)) by done. rewrite Hs.
    by destruct (child w e).
Qed.
End run.

(** ** The allocator's contract: "returns only unique unused frames".
    [Supply used m n a]: the next [n] frames that the allocator in state [a]
    hands out are well-formed, accessible, and neither [used] nor handed out
    twice. *)
Fixpoint Supply (used : Z -> Prop) (m : Mem) (n : nat) (a : A) : Prop :=
  match n with
  | O => True
  | S n =>
      match allocate_frame a with
      | (None, _) => True
      | (Some f, a') =>
          PhysFrame_wf f /\
          exists q, frame_to_pointer (page_table_frame_mapping w) f = Ret q /\ has_table m q /\
            ~ used q /\ Supply (fun r => used r \/ r = q) m n a'
      end
  end.

Lemma Supply_mono (used used' : Z -> Prop) m m' n a :
  (forall q, used' q -> used q) -> (forall q, has_table m q -> has_table m' q) ->
  Supply used m n a -> Supply used' m' n a.
Proof.
  intros Hu Hm. revert used used' Hu a. induction n as [|n IH]; intros used used' Hu a; [done|].
  simpl. destruct (allocate_frame a) as [[f|] a']; [|done].
  intros (Hf & q & Hq & Ht & Hn & HS). split; [done|]. exists q. split_and!; [done|auto|auto|].
  eapply IH; [|exact HS]. naive_solver.
Qed.

Lemma Supply_le used m n n' a : (n' <= n)%nat -> Supply used m n a -> Supply used m n' a.
Proof.
  revert used n' a. induction n as [|n IH]; intros used [|n'] a Hle; simpl; try done || lia.
  destruct (allocate_frame a) as [[f|] a']; [|done].
  intros (Hf & q & Hq & Ht & Hn & HS). split; [done|]. exists q. split_and!; try done.
  apply IH; [lia|done].
Qed.

(** No address translates differently. *)
Definition same_view (m m' : Mem) (p4 : Z) : Prop :=
  forall path, length path = 4%nat -> view w m' p4 path = view w m p4 path.

(** The entries on the way to every mapping are the same up to added flags. *)
Definition grown (e e' : PageTableEntry) : Prop := e' = e \/ e' = with_flags e.

Definition widened (m m' : Mem) (p4 : Z) : Prop :=
  same_view m m' p4 /\
  forall path, length path = 4%nat -> is_Some (view w m p4 path) ->
    Forall2 grown (trail w m p4 path) (trail w m' p4 path).

Lemma with_flags_idem e : with_flags (with_flags e) = with_flags e.
Proof. unfold with_flags. cbn [entry]. by rewrite <- Z.lor_assoc, Z.lor_diag. Qed.

#[local] Instance grown_refl : Reflexive grown.
Proof. intros e. by left. Qed.

#[local] Instance grown_trans : Transitive grown.
Proof.
  intros e1 e2 e3 [->| ->] [->| ->]; [by left|by right|by right|right; apply with_flags_idem].
Qed.

Lemma widened_refl m p4 : widened m m p4.
Proof. by split. Qed.

Lemma widened_trans m1 m2 m3 p4 : widened m1 m2 p4 -> widened m2 m3 p4 -> widened m1 m3 p4.
Proof.
  intros [S12 T12] [S23 T23]. split.
  - intros path Hl. by rewrite S23, S12.
  - intros path Hl Hv. etrans; [by apply T12|]. apply T23; [done|]. by rewrite S12.
Qed.

(** The huge entry [e] at [pre ++ [j]] got the flags; nothing else changed. *)
Definition huge_touched (m m' : Mem) (p4 : Z) (path : list nat) : Prop :=
  exists pre j rest e, path = pre ++ j :: rest /\ pre <> [] /\ is_huge e = true /\
    forall x, length x = 4%nat ->
      view w m p4 x = (if decide (pre ++ [j] `prefix_of` x) then Some (length pre, e) else view w m p4 x) /\
      view w m' p4 x = (if decide (pre ++ [j] `prefix_of` x) then Some (length pre, with_flags e)
                        else view w m p4 x).

Lemma touch_huge m p4 pre p j e :
  Valid w m p4 -> table_at w m p4 pre = Some p -> (length pre < 3)%nat -> (j < 512)%nat ->
  get m p j = Some e -> entry_wf e -> is_huge e = true -> pre <> [] ->
  Valid w (upd m p j (with_flags e)) p4 /\
  forall rest, huge_touched m (upd m p j (with_flags e)) p4 (pre ++ j :: rest).
Proof.
  intros HV Hp Hl Hj Hg He Hh Hne. pose proof (with_flags_wf e He) as Hwf.
  assert (child w e = None) as Hc by (unfold child; by rewrite Hh).
  destruct (store_final w m p4 pre p j (with_flags e)) as (HV' & _ & Hv); try done || lia.
  { right; right. by rewrite with_flags_huge. }
  split; [done|]. intros rest. exists pre, j, rest, e. split_and!; [done|done|done|].
  intros x Hx. rewrite Hv by done. rewrite mk_view_nonzero.
  2: { apply is_huge_nonzero. by rewrite with_flags_huge. }
  split; [|done]. case_decide as Hd; [|done]. destruct Hd as [k ->]. rewrite <- app_assoc. cbn [app].
  assert (leaf w m p4 0 (pre ++ j :: k) = Some (length pre, e)) as El.
  { rewrite (leaf_through w m p4 0 pre p j e k), Hc by done. by destruct k. }
  rewrite (view_leaf _ _ _ _ _ _ El). by apply mk_view_nonzero, is_huge_nonzero.
Qed.

(** One step: success, allocation failure, or a huge page in the way. *)
Lemma create_step m a p4 pre p i n :
  Valid w m p4 -> table_at w m p4 pre = Some p -> (length pre < 3)%nat -> PageTableIndex_wf i ->
  Supply (reachable w m p4) m (S n) a ->
  exists r m' a', create_next_table w p i pf (m, a) = Ret (r, (m', a')) /\
    Valid w m' p4 /\
    match r with
    | Ok q => table_at w m' p4 (pre ++ [ix i]) = Some q /\ widened m m' p4 /\
              Supply (reachable w m' p4) m' n a'
    | Err CreateFrameAllocationFailed => m' = m /\ allocate_frame a = (None, a')
    | Err CreateMappedToHugePage => forall rest, huge_touched m m' p4 (pre ++ ix i :: rest)
    end.
Proof.
  intros HV Hp Hl Hi HS. pose proof (valid_table _ _ _ HV pre p ltac:(lia) Hp) as Ht.
  pose proof (ix_lt i Hi) as Hix.
  destruct (get_is_Some m p (ix i) Ht Hix) as (e & Hg & He).
  destruct (decide (entry e = 0)) as [Hz|Hz].
  - destruct (allocate_frame a) as [[f|] a'] eqn:Ea; cycle 1.
    { eexists _, m, a'. split; [by apply (create_alloc_failed m a p i e)|]. done. }
    pose proof HS as HS'. simpl in HS'. rewrite Ea in HS'.
    destruct HS' as (Hf & q & Hq & Htn & Hn & HS').
    assert (q <> p) as Hne by (intros ->; apply Hn; exists pre; split; [lia|done]).
    destruct (new_parent_child f q Hf Hq) as [Hwf Hc].
    destruct (store_new_table w m p4 pre p (ix i) e (new_parent f) q) as (HV' & Hta & Hre & Hv); try done.
    eexists _, _, a'. split; [by apply (create_fresh m a p i e)|]. split; [done|].
    split_and!; [done| |].
    { split; [done|]. intros path Hpl Hpv.
      by rewrite (new_table_trail w m p4 pre p (ix i) e (new_parent f) q) by done. }
    eapply Supply_mono; [| |exact HS'].
    + intros r Hr. by apply Hre in Hr.
    + intros r Hr. destruct (decide (r = q)) as [->|Hrq].
      * exists PageTable_new. split; [by apply lookup_insert_eq|apply PageTable_new_wf].
      * destruct (has_table_upd m p (ix i) (new_parent f) r Ht Hwf Hr) as (t & Et & Hw).
        exists t. split; [by rewrite lookup_insert_ne|done].
  - assert (walkable w m e) as Hw by (apply (valid_walkable w m p4 pre p (ix i)); done || lia).
    pose proof (with_flags_wf e He) as Hwf.
    destruct (valid_entry _ _ _ HV pre p (ix i) e Hl Hp Hg) as [?|[[Hh Hne]|Hc]]; [done| |].
    + assert (child w e = None) as Hc by (unfold child; by rewrite Hh).
      destruct (touch_huge m p4 pre p (ix i) e HV Hp Hl Hix Hg He Hh Hne) as [HV' Hht].
      eexists _, _, a. split; [apply (create_existing m a p i e); try done; by left|].
      by rewrite Hc.
    + destruct (store_same_child w m p4 pre p (ix i) e (with_flags e)) as (HV' & Hta & Hv);
        try done; [by apply with_flags_child|].
      eexists _, _, a. split; [apply (create_existing m a p i e); try done; by right|].
      assert (widened m (upd m p (ix i) (with_flags e)) p4) as Hwd.
      { split; [done|]. intros path Hpl _.
        destruct (trail_same_child w m p4 pre p (ix i) e (with_flags e) path)
          as [->|(t & t' & -> & ->)]; [done|done|done|done|done|by apply with_flags_child|lia|done|].
        apply Forall2_app; [done|]. constructor; [by right|done]. }
      destruct Hc as [q Hc]. rewrite Hc. split; [done|]. split_and!; [|done|].
      * rewrite Hta, (table_at_snoc _ _ _ _ _ p) by done. by rewrite Hg.
      * apply (Supply_le _ _ (S n)); [lia|]. eapply Supply_mono; [| |exact HS].
        -- intros r (path & Hpl & Hr). rewrite Hta in Hr. by exists path.
        -- intros r Hr. by apply has_table_upd.
Qed.

(** ** Chains of [create_next_table] *)
Fixpoint chain_create {E X} (f : PageTableCreateError -> E) (p : Z) (is_ : list PageTableIndex)
    (k : Z -> M (Mem * A) E X) : M (Mem * A) E X :=
  match is_ with
  | [] => k p
  | i :: is_ => q ← map_err f (create_next_table w p i pf); chain_create f q is_ k
  end.

Lemma chain_create_panics {E X} (f : PageTableCreateError -> E) p i is_ (k : Z -> M (Mem * A) E X) s :
  create_next_table w p i pf s = Panic -> chain_create f p (i :: is_) k s = Panic.
Proof. intros Hc. cbn [chain_create]. unfold mbind, M_bind, map_err. by rewrite Hc. Qed.

Lemma same_view_trans m1 m2 m3 p4 : same_view m1 m2 p4 -> same_view m2 m3 p4 -> same_view m1 m3 p4.
Proof. intros H12 H23 path Hl. by rewrite H23, H12. Qed.

Lemma huge_touched_pre m1 m2 m3 p4 path :
  same_view m1 m2 p4 -> huge_touched m2 m3 p4 path -> huge_touched m1 m3 p4 path.
Proof.
  intros Hs (pre & j & rest & e & -> & Hn & Hh & Hv). exists pre, j, rest, e. split_and!; [done|done|done|].
  intros x Hx. rewrite <- (Hs x Hx). by apply Hv.
Qed.

Lemma chain_create_run {E X} (f : PageTableCreateError -> E) (k : Z -> M (Mem * A) E X)
    m a p4 pre p is_ :
  Valid w m p4 -> table_at w m p4 pre = Some p -> (length pre + length is_ <= 3)%nat ->
  Forall PageTableIndex_wf is_ -> Supply (reachable w m p4) m (length is_) a ->
  exists m' a', Valid w m' p4 /\
    ((exists q, table_at w m' p4 (pre ++ (ix <$> is_)) = Some q /\ widened m m' p4 /\
        chain_create f p is_ k (m, a) = k q (m', a')) \/
     (chain_create f p is_ k (m, a) = Ret (Err (f CreateFrameAllocationFailed), (m', a')) /\
        widened m m' p4 /\ exists a0, allocate_frame a0 = (None, a')) \/
     (chain_create f p is_ k (m, a) = Ret (Err (f CreateMappedToHugePage), (m', a')) /\
        huge_touched m m' p4 (pre ++ (ix <$> is_)))).
Proof.
  revert m a pre p. induction is_ as [|i is_ IH]; intros m a pre p HV Hp Hl Hf HS.
  { exists m, a. split; [done|]. left. exists p. rewrite app_nil_r.
    split_and!; [done|apply widened_refl|done]. }
  apply Forall_cons_iff in Hf as [Hi Hf]. cbn [length] in Hl, HS.
  destruct (create_step m a p4 pre p i (length is_)) as (r & m1 & a1 & Er & HV1 & Hr); try done || lia.
  simpl. unfold mbind, M_bind, map_err. rewrite Er.
  destruct r as [q|[]].
  - destruct Hr as (Hq & Hs & HS1).
    destruct (IH m1 a1 (pre ++ [ix i]) q) as (m2 & a2 & HV2 & Hc); try done.
    { rewrite length_app. simpl. lia. }
    exists m2, a2. split; [done|]. rewrite <- app_assoc in Hc. cbn [app] in Hc.
    destruct Hc as [(r & ? & ? & ?)|[(? & ? & ?)|(? & ?)]].
    + left. exists r. split_and!; [done|by eapply widened_trans|done].
    + right; left. split_and!; [done|by eapply widened_trans|done].
    + right; right. split_and!; [done|by eapply huge_touched_pre; [apply Hs|]].
  - exists m1, a1. split; [done|]. right; right. split; [done|apply Hr].
  - destruct Hr as [-> Ha]. exists m, a1. split; [done|]. right; left. split_and!; [done|done|eauto].
Qed.
End create.

(** Without [PRESENT] in the flags the new entry is not present. *)
Lemma create_panics {P A} `{PageTableFrameMapping P} `{BL : BitflagsLaws}
    `{FrameAllocator A Size4KiB} (w : PageTableWalker P) m (a : A) p i e pf f a' :
  has_table m p -> PageTableIndex_wf i -> get m p (ix i) = Some e -> entry e = 0 ->
  allocate_frame a = (Some f, a') -> PhysFrame_wf f ->
  u64 pf -> Z.testbit pf 0 = false -> Z.testbit pf 7 = false ->
  create_next_table w p i pf (m, a) = Panic.
Proof.
  intros Ht Hi Hg Hz Ha Hf Hu Hb0 Hb7. pose proof Hf as [Hv _].
  set (e' := mkPageTableEntry (Z.lor (pa (frame_start f)) pf)).
  assert (entry_wf e') as Hwf by (apply lor_u64; [by apply phys_valid_u64|done]).
  assert (is_huge e' = false /\ is_present e' = false) as [Hh Hpr].
  { unfold is_huge, is_present, e'. cbn [entry].
    rewrite !Z.lor_spec, !frame_low_bits, Hb0, Hb7 by (done || lia). done. }
  assert (child w e' = None) as Hc by (unfold child; by rewrite Hh, Hpr).
  unfold create_next_table, mbind, M_bind, on_mem, try_next_table_mut. cbn [fst snd].
  rewrite (get_entry_run m p i e) by done. unfold PageTableEntry_is_unused.
  rewrite Hz. change (0 =? 0) with true. mrun. rewrite Ha. mrun.
  unfold PageTableEntry_set_frame. rewrite set_addr_frame by done. fold e'. mrun.
  rewrite put_entry_run by done. mrun.
  rewrite (next_table_mut_run w _ p i e'); [|done| |].
  - unfold step_result. by rewrite Hc, Hh.
  - by rewrite get_upd, decide_True by (done || by apply ix_lt).
  - split; [done|]. split; [by right; left|]. intros r. by rewrite Hc.
Qed.

(** ** [map_to] *)
Section map_to.
Context {P : Type} `{PageTableFrameMapping P} `{BL : BitflagsLaws} (self : MappedPageTable P).
Context {A : Type} `{FrameAllocator A Size4KiB} (pf : Z) (Hpf : parent_flags_ok pf).
#[local] Abbreviation w := (page_table_walker self).
#[local] Abbreviation p4 := (level_4_table self).

Definition map_to_tail {S} (page : Page S) (frame : PhysFrame S) (flags : Z) (q : Z)
    : M (Mem * A) (MapToError S) (MapperFlush S) :=
  e ← on_mem (get_entry q (page_last page));
  if negb (PageTableEntry_is_unused e) then throw (MapPageAlreadyMapped frame)
  else
    e' ← lift (PageTableEntry_set_addr e (PhysFrame_start_address frame)
           match S with Size4KiB => flags | _ => flags_or flags PageTableFlags_HUGE_PAGE end);
    _ ← on_mem (put_entry q (page_last page) e');
    mret (MapperFlush_new page).

Lemma map_to_chain {S} (page : Page S) frame flags :
  map_to_with_table_flags (A := A) self page frame flags pf =
    chain_create w pf MapToError_from p4 (page_parents page) (map_to_tail page frame flags).
Proof. by destruct S. Qed.

(** The entry stored for a page. *)
Definition page_new_entry {S} (frame : PhysFrame S) (flags : Z) : PageTableEntry :=
  mkPageTableEntry (Z.lor (pa (frame_start frame)) (page_flags S flags)).

Lemma map_to_tail_run {S} (page : Page S) frame flags q m a :
  Page_wf page -> PhysFrame_wf frame -> has_table m q ->
  map_to_tail page frame flags q (m, a) =
    if entry (page_entry m page q) =? 0
    then Ret (Ok (mkMapperFlush page),
              (upd m q (ix (page_last page)) (page_new_entry frame flags), a))
    else Ret (Err (MapPageAlreadyMapped frame), (m, a)).
Proof.
  intros Hp Hf Ht. unfold map_to_tail, mbind, M_bind, on_mem. cbn [fst snd].
  rewrite page_entry_run by done. unfold PageTableEntry_is_unused.
  destruct (entry (page_entry m page q) =? 0); [|done]. cbn [negb].
  rewrite set_addr_frame by done. mrun. rewrite page_put_run by done. mrun.
  unfold page_new_entry. destruct S; cbn [page_flags]; by autorewrite with flags.
Qed.
End map_to.
