(* ===== verification/MapperProofs.v ===== *)
(** * Correctness of the mapped page table

    What the operations of MappedPageTable.v do to the translation of every
    address, for a valid hierarchy and the three page sizes at once. *)
From Stdlib Require Import ZArith Lia Bool.
From stdpp Require Import base decidable option list gmap numbers.
From S2P Require Import Prelude Crates Index Addr Page Frame PageTable Mapper.
From S2P Require Import MappedPageTable PageWalk MapperSpec MapperCreate.
#[local] Open Scope Z_scope.

(** ** Addresses of a page and paths *)
Definition in_page {S} (page : Page S) (a : VirtAddr) : Prop :=
  va (page_start page) <= va a < va (page_start page) + SIZE S.

#[export] Instance in_page_dec {S} (page : Page S) a : Decision (in_page page a).
Proof. unfold in_page. apply _. Defined.

Lemma ix_inj i j : PageTableIndex_wf i -> PageTableIndex_wf j -> ix i = ix j <-> pti i = pti j.
Proof. unfold PageTableIndex_wf, ix. lia. Qed.

(** Equal indices down to bit [k] mean equal addresses down to bit [k]. *)
Lemma canonical_top_eq a b k :
  canonical a -> canonical b -> k = 12 \/ k = 21 \/ k = 30 ->
  (va a / 2 ^ k = va b / 2 ^ k <-> va a mod 2 ^ 48 / 2 ^ k = va b mod 2 ^ 48 / 2 ^ k).
Proof.
  unfold canonical. intros Ha Hb [-> | [-> | ->]]; zify_pow; Z.to_euclidean_division_equations; lia.
Qed.

Lemma digits_eq x y :
  (x mod 2 ^ 48 / 2 ^ 30 = y mod 2 ^ 48 / 2 ^ 30 <->
     x / 2 ^ 39 mod 512 = y / 2 ^ 39 mod 512 /\ x / 2 ^ 30 mod 512 = y / 2 ^ 30 mod 512) /\
  (x mod 2 ^ 48 / 2 ^ 21 = y mod 2 ^ 48 / 2 ^ 21 <->
     x mod 2 ^ 48 / 2 ^ 30 = y mod 2 ^ 48 / 2 ^ 30 /\ x / 2 ^ 21 mod 512 = y / 2 ^ 21 mod 512) /\
  (x mod 2 ^ 48 / 2 ^ 12 = y mod 2 ^ 48 / 2 ^ 12 <->
     x mod 2 ^ 48 / 2 ^ 21 = y mod 2 ^ 48 / 2 ^ 21 /\ x / 2 ^ 12 mod 512 = y / 2 ^ 12 mod 512).
Proof. zify_pow. split_and!; Z.to_euclidean_division_equations; lia. Qed.

Lemma in_page_div {S} (page : Page S) a :
  Page_wf page -> in_page page a <-> va a / SIZE S = va (page_start page) / SIZE S.
Proof.
  intros [_ Hm]. unfold in_page. pose proof (SIZE_pos S).
  pose proof (Z.div_mod (va a) (SIZE S)). pose proof (Z.mod_pos_bound (va a) (SIZE S)).
  pose proof (Z.div_mod (va (page_start page)) (SIZE S)). split; intros; nia.
Qed.

Lemma prefix_snoc_2 {X} (x y a b c d : X) :
  [x; y] `prefix_of` [a; b; c; d] <-> x = a /\ y = b.
Proof. split.
  - intros [k E]. by simplify_eq/=.
  - intros [-> ->]. by exists [c; d].
Qed.

Lemma prefix_snoc_3 {X} (x y z a b c d : X) :
  [x; y; z] `prefix_of` [a; b; c; d] <-> x = a /\ y = b /\ z = c.
Proof. split.
  - intros [k E]. by simplify_eq/=.
  - intros (-> & -> & ->). by exists [d].
Qed.

Lemma prefix_snoc_4 {X} (x y z t a b c d : X) :
  [x; y; z; t] `prefix_of` [a; b; c; d] <-> x = a /\ y = b /\ z = c /\ t = d.
Proof. split.
  - intros [k E]. destruct k; by simplify_eq/=.
  - intros (-> & -> & -> & ->). by exists [].
Qed.

(** An address lies in a page exactly when its path runs through the page. *)
Lemma in_page_path {S} (page : Page S) a :
  Page_wf page -> canonical a -> in_page page a <-> page_path page `prefix_of` addr_path a.
Proof.
  intros Hp Ha. rewrite in_page_div by done. pose proof Hp as [Hc _].
  destruct (VirtAddr_index_wf a Ha) as (A4 & A3 & A2 & A1).
  destruct (VirtAddr_index_wf _ Hc) as (B4 & B3 & B2 & B1).
  destruct (VirtAddr_index_val a Ha) as (E1 & E2 & E3 & E4 & _).
  destruct (VirtAddr_index_val _ Hc) as (F1 & F2 & F3 & F4 & _).
  destruct (digits_eq (va a) (va (page_start page))) as (D30 & D21 & D12).
  destruct S; cbn [page_path page_pre page_parents page_last fmap list_fmap app addr_path addr_indices];
    unfold Page_p4_index, Page_p3_index, Page_start_address.
  - rewrite prefix_snoc_4, !ix_inj, E1, E2, E3, E4, F1, F2, F3, F4 by done.
    change (SIZE Size4KiB) with (2 ^ 12). rewrite canonical_top_eq by auto.
    rewrite D12, D21, D30. naive_solver.
  - rewrite prefix_snoc_3, !ix_inj, E2, E3, E4, F2, F3, F4 by done.
    change (SIZE Size2MiB) with (2 ^ 21). rewrite canonical_top_eq by auto.
    rewrite D21, D30. naive_solver.
  - rewrite prefix_snoc_2, !ix_inj, E3, E4, F3, F4 by done.
    change (SIZE Size1GiB) with (2 ^ 30). rewrite canonical_top_eq by auto.
    rewrite D30. naive_solver.
Qed.

Section mapper.
Context {P : Type} `{PageTableFrameMapping P} `{BL : BitflagsLaws} (self : MappedPageTable P).
#[local] Abbreviation w := (page_table_walker self).
#[local] Abbreviation p4 := (level_4_table self).

(** The mapper's memory holds a valid hierarchy below its level 4 table. *)
Definition mapper_valid (m : Mem) : Prop := Valid w m p4.

(** Every canonical address translates as before. *)
Definition same_translation (m m' : Mem) : Prop :=
  forall a, canonical a -> translate self m' a = translate self m a.

(** Outside of the page every address translates as before. *)
Definition same_outside {S} (page : Page S) (m m' : Mem) : Prop :=
  forall a, canonical a -> ~ in_page page a -> translate self m' a = translate self m a.

Definition mapped_frame {S} : PhysFrame S -> MappedFrame :=
  match S with
  | Size4KiB => MappedSize4KiB
  | Size2MiB => MappedSize2MiB
  | Size1GiB => MappedSize1GiB
  end.

Lemma same_view_translation m m' :
  mapper_valid m -> mapper_valid m' -> same_view w m m' p4 -> same_translation m m'.
Proof. intros HV HV' Hs a Ha. rewrite !translate_run by done. by rewrite Hs. Qed.

Lemma page_path_pre {S} (page : Page S) :
  page_path page = page_pre page ++ [ix (page_last page)].
Proof. done. Qed.

(** Storing a final entry in the slot of a page. *)
Lemma store_page {S} m (page : Page S) q e' :
  mapper_valid m -> Page_wf page -> table_at w m p4 (page_pre page) = Some q ->
  entry_wf e' -> final_entry (page_pre page) e' ->
  let m' := upd m q (ix (page_last page)) e' in
  mapper_valid m' /\ same_outside page m m' /\
  forall a, canonical a -> in_page page a ->
    translate self m' a = Ret (translate_view a (mk_view (length (page_pre page)) e')).
Proof.
  intros HV Hp Hq He Hf m'. pose proof (page_pre_length page).
  destruct (store_final w m p4 (page_pre page) q (ix (page_last page)) e') as (HV' & _ & Hv);
    try done || lia. { by apply ix_lt, page_parents_wf. }
  split_and!; [done| |]; intros a Ha Hin; rewrite !translate_run, Hv by done.
  - by rewrite decide_False by (by rewrite <- page_path_pre, <- in_page_path).
  - by rewrite decide_True by (by rewrite <- page_path_pre, <- in_page_path).
Qed.

(** The translation of the addresses of a page whose entry is final. *)
Lemma translate_in_page {S} m (page : Page S) q a :
  mapper_valid m -> Page_wf page -> table_at w m p4 (page_pre page) = Some q ->
  final_entry (page_pre page) (page_entry m page q) -> canonical a -> in_page page a ->
  translate self m a = Ret (translate_view a (mk_view (length (page_pre page)) (page_entry m page q))).
Proof.
  intros HV Hp Hq Hf Ha Hin. pose proof (page_pre_length page) as Hl.
  assert (has_table m q) as Ht by (apply (valid_table _ _ _ HV (page_pre page)); [lia|done]).
  destruct (page_entry_get page m q Hp Ht) as (Hg & He & _).
  destruct (store_page m page q (page_entry m page q) HV Hp Hq He Hf) as (_ & _ & E).
  rewrite upd_same in E by done. by apply E.
Qed.

(** Entries that map a page of size [S] are final. *)
Lemma final_page {S} (page : Page S) e : S = Size4KiB \/ is_huge e = true -> final_entry (page_pre page) e.
Proof.
  intros [->|Hh]; [by left|right; right; split; [done|]].
  pose proof (page_pre_length page) as Hl. intros E. rewrite E in Hl. simpl in Hl. lia.
Qed.

Lemma final_unused {S} (page : Page S) e : entry e = 0 -> final_entry (page_pre page) e.
Proof. intros E. by right; left. Qed.

(** Reading the translation of a mapped entry. *)
Lemma translate_view_page {S} (page : Page S) a e :
  entry e <> 0 -> S = Size4KiB \/ is_huge e = true ->
  entry_wf e -> pa (entry_addr e) mod SIZE S = 0 ->
  translate_view a (mk_view (length (page_pre page)) e) =
    Mapped (mapped_frame (mkPhysFrame (entry_addr e) : PhysFrame S)) (va a mod SIZE S)
      (Z.land (entry e) PageTableFlags_all).
Proof.
  intros Hn Hs He Hm. rewrite mk_view_nonzero by done.
  assert (PhysFrame_wf (mkPhysFrame (entry_addr e) : PhysFrame S)) as Hf.
  { split; [|done]. by apply PageTableEntry_addr_val. }
  destruct (frame_wf_at _ Hf) as [_ Ef]. unfold frame_number in Ef. cbn [frame_start] in Ef.
  destruct S; [done| |]; (destruct Hs as [?|Hs]; [done|]);
    cbn [page_pre page_parents fmap list_fmap length translate_view mapped_frame];
    rewrite Hs; by rewrite <- Ef.
Qed.

(** Flags outside of the address field are exactly the declared ones. *)
Lemma no_addr_declared f : u64 f -> Z.land f ADDR_MASK = 0 -> Z.land f PageTableFlags_all = f.
Proof.
  intros Hu Hm. rewrite <- (Z.lor_0_r (Z.land f _)), <- Hm, <- Z.land_lor_distr_r, all_or_mask.
  change U64_MAX with (2 ^ 64 - 1). rewrite land_ones_mod by lia. by apply Z.mod_small.
Qed.

Lemma page_flags_ok S f :
  u64 f -> Z.land f ADDR_MASK = 0 ->
  u64 (page_flags S f) /\ Z.land (page_flags S f) ADDR_MASK = 0.
Proof.
  intros Hu Hm. destruct S; [done| |]; cbn [page_flags];
    (split; [apply lor_u64; [done|split; vm_compute; done]|]);
    by rewrite Z.land_lor_distr_l, Hm.
Qed.

(** The entry that [map_to] stores: well-formed, with the frame as address. *)
Lemma page_new_entry_spec {S} (frame : PhysFrame S) f :
  PhysFrame_wf frame -> u64 f -> Z.land f ADDR_MASK = 0 -> f <> 0 ->
  let e := page_new_entry frame f in
  entry_wf e /\ entry_addr e = frame_start frame /\ entry e <> 0 /\
  (S = Size4KiB \/ is_huge e = true) /\
  Z.land (entry e) PageTableFlags_all =
    Z.lor (page_flags S f) (Z.land (pa (frame_start frame)) flag_address_overlap).
Proof.
  intros [Hv Hm] Hu Ha Hn e. destruct (page_flags_ok S f Hu Ha) as [Hu' Ha'].
  pose proof (land_mask_aligned _ Hv (SIZE_mod_4096 _ _ Hm)) as Hmask.
  split_and!.
  - apply lor_u64; [by apply phys_valid_u64|done].
  - unfold entry_addr, e, page_new_entry. cbn [entry].
    rewrite Z.land_lor_distr_l, Ha', Z.lor_0_r, Hmask. by destruct (frame_start frame).
  - unfold e, page_new_entry. cbn [entry]. rewrite Z.lor_eq_0_iff. intros [_ E].
    destruct S; cbn [page_flags] in E; [done| |]; rewrite Z.lor_eq_0_iff in E; naive_solver.
  - destruct S; [by left| |]; right; unfold is_huge, e, page_new_entry; cbn [entry page_flags];
      rewrite !Z.lor_spec; change (Z.testbit PageTableFlags_HUGE_PAGE 7) with true;
      by rewrite !orb_true_r.
  - unfold e, page_new_entry. cbn [entry]. rewrite Z.land_lor_distr_l, (no_addr_declared _ Hu' Ha').
    rewrite Z.lor_comm. f_equal. rewrite <- Hmask at 1.
    by rewrite <- Z.land_assoc, (Z.land_comm ADDR_MASK), all_and_mask.
Qed.

(** Adding parent flags to a huge entry changes the reported flags only. *)
Lemma with_flags_reported pf e :
  parent_flags_ok pf ->
  entry_addr (with_flags pf e) = entry_addr e /\
  Z.land (entry (with_flags pf e)) PageTableFlags_all =
    Z.lor (Z.land (entry e) PageTableFlags_all) pf.
Proof.
  intros Hpf. unfold entry_addr, with_flags. cbn [entry]. split.
  - by rewrite Z.land_lor_distr_l, (pf_no_addr _ Hpf), Z.lor_0_r.
  - by rewrite Z.land_lor_distr_l, (pf_declared pf Hpf).
Qed.

Definition page_depth (S : PageSize) : nat :=
  match S with Size4KiB => 3 | Size2MiB => 2 | Size1GiB => 1 end.

Lemma page_depth_pre {S} (page : Page S) : length (page_pre page) = page_depth S.
Proof. by destruct S. Qed.

Lemma translate_view_huge S a e :
  S <> Size4KiB -> is_huge e = true ->
  translate_view a (Some (page_depth S, e)) =
    Mapped (mapped_frame (frame_at (pa (entry_addr e) / SIZE S) : PhysFrame S)) (va a mod SIZE S)
      (Z.land (entry e) PageTableFlags_all).
Proof. intros HS Hh. destruct S; [done| |]; cbn [translate_view page_depth mapped_frame]; by rewrite Hh. Qed.

Lemma page_pre_prefix {S} (page : Page S) pre j rest x :
  page_pre page = pre ++ j :: rest -> page_path page `prefix_of` x -> pre ++ [j] `prefix_of` x.
Proof.
  intros E [k ->]. rewrite page_path_pre, E. exists (rest ++ [ix (page_last page)] ++ k).
  by rewrite <- !app_assoc.
Qed.

(** A parent entry of a page maps more than a page of its size. *)
Lemma page_pre_depth {S} (page : Page S) pre j rest :
  page_pre page = pre ++ j :: rest -> pre <> [] ->
  (length pre = 1%nat \/ length pre = 2%nat) /\
  SIZE S < (if decide (length pre = 1%nat) then SIZE Size1GiB else SIZE Size2MiB).
Proof.
  intros E Hn. pose proof (f_equal length E) as El. rewrite length_app in El. simpl in El.
  destruct pre as [|x [|y [|z pre]]]; [done| | |];
    destruct S; cbn [page_pre page_parents fmap list_fmap length] in El; simpl in El; try lia;
    (split; [simpl; lia|simpl; by vm_compute]).
Qed.

(** The larger page that a parent entry of a page maps. *)
Lemma enclosing_page {S} (page : Page S) T pre j rest :
  Page_wf page -> page_pre page = pre ++ j :: rest -> length pre = page_depth T ->
  exists big : Page T, Page_wf big /\ page_path big = pre ++ [j].
Proof.
  intros Hp E Hl. pose proof Hp as [Hc Hm]. pose proof (SIZE_pos S). pose proof (SIZE_pos T).
  destruct (Page_containing_address_val (S := T) _ Hc) as [_ Hb].
  set (big := mkPage _ : Page T) in Hb. exists big. split; [done|].
  assert (in_page page (page_start page)) as Hip by (unfold in_page; lia).
  assert (in_page big (page_start page)) as Hib.
  { unfold in_page, big. cbn [page_start va].
    pose proof (Z.mod_pos_bound (va (page_start page)) (SIZE T)). lia. }
  apply (in_page_path page _ Hp Hc), (page_pre_prefix page pre j rest _ E) in Hip.
  apply (in_page_path big _ Hb Hc) in Hib.
  assert (length (page_path big) = length (pre ++ [j])) as El.
  { unfold page_path. rewrite !length_app, page_depth_pre. simpl. lia. }
  destruct (prefix_weak_total _ _ _ Hib Hip) as [Hx|Hx]; [|symmetry];
    apply prefix_length_eq; [done|lia|done|lia].
Qed.

Lemma page_pre_larger {S} (page : Page S) pre j rest :
  page_pre page = pre ++ j :: rest -> pre <> [] ->
  exists T, length pre = page_depth T /\ T <> Size4KiB /\ SIZE S < SIZE T.
Proof.
  intros E Hn. destruct (page_pre_depth page pre j rest E Hn) as [[Hd|Hd] Hsz];
    rewrite Hd in Hsz |- *; [by exists Size1GiB|by exists Size2MiB].
Qed.

(** C9. On a valid hierarchy [translate] never panics or faults and returns
    what the abstract walk says: the entry at which the walk along the
    address' indices stops decides, a huge entry at level 3 or 2 maps 1GiB or
    2MiB, any used level 1 entry maps 4KiB, with the offset taken from the
    low bits of the address. *)
Theorem translate_refines m a :
  mapper_valid m -> canonical a ->
  translate self m a = Ret (translate_view a (view w m p4 (addr_path a))).
Proof. apply translate_run. Qed.

(** After a store in the slot of a page the walk finds the stored entry. *)
Lemma store_page_lookup {S} m (page : Page S) q e' :
  mapper_valid m -> Page_wf page -> table_at w m p4 (page_pre page) = Some q ->
  let m' := upd m q (ix (page_last page)) e' in
  resolve w m' p4 (page_pre page) = Ok q /\ table_at w m' p4 (page_pre page) = Some q /\
  page_entry m' page q = e'.
Proof.
  intros HV Hp Hq m'. pose proof (page_pre_length page) as Hl.
  pose proof (valid_table _ _ _ HV (page_pre page) q ltac:(lia) Hq) as Ht.
  pose proof (ix_lt _ (proj2 (page_parents_wf page Hp))) as Hi.
  assert (table_at w m' p4 (page_pre page) = Some q) as Hq'.
  { apply (table_at_pre w m m' p4 HV (page_pre page) q (ix (page_last page))); [lia|done|].
    intros r j _ Hd. unfold m'. by rewrite get_upd, decide_False. }
  split_and!; [by apply resolve_Ok|done|]. unfold page_entry, m'.
  by rewrite get_upd, decide_True.
Qed.

(** A page whose entry is unmapped successfully. *)
Lemma unmap_entry_Ok S e f :
  entry_wf e -> unmap_entry S e = Ok f ->
  f = mkPhysFrame (entry_addr e) /\ entry e <> 0 /\ (S = Size4KiB \/ is_huge e = true) /\
  pa (entry_addr e) mod SIZE S = 0 /\ PhysFrame_wf f.
Proof.
  intros He. unfold unmap_entry, is_present. destruct (Z.testbit (entry e) 0) eqn:Ep; [|done]. cbn [negb].
  destruct (negb (is_huge e) && _) eqn:Eh; [done|].
  destruct (Z.eqb_spec (pa (entry_addr e) mod SIZE S) 0) as [Em|]; [|done].
  intros [= <-]. split_and!; [done| | |done|].
  - intros E. by rewrite E in Ep.
  - destruct (is_huge e); [by right|]. left. case_bool_decide; done.
  - split; [|done]. by apply PageTableEntry_addr_val.
Qed.

Lemma unmap_new_entry {S} (frame : PhysFrame S) flags :
  PhysFrame_wf frame -> u64 flags -> Z.land flags ADDR_MASK = 0 -> Z.testbit flags 0 = true ->
  unmap_entry S (page_new_entry frame flags) = Ok frame.
Proof.
  intros Hf Hu Ha Hb. assert (flags <> 0) as Hn by (intros ->; done).
  destruct (page_new_entry_spec frame flags Hf Hu Ha Hn) as (He & Ea & Hnz & Hh & _).
  unfold unmap_entry. rewrite Ea. destruct Hf as [_ Hm]. rewrite Hm, Z.eqb_refl.
  assert (is_present (page_new_entry frame flags) = true) as ->.
  { unfold is_present, page_new_entry. cbn [entry]. rewrite Z.lor_spec.
    destruct S; cbn [page_flags]; rewrite ?Z.lor_spec, Hb; by rewrite ?orb_true_r. }
  destruct Hh as [->|Hh]; [rewrite bool_decide_true, andb_false_r by done|rewrite Hh];
    cbn [negb andb]; by destruct frame.
Qed.

(** The translation of a mapped entry, whatever the alignment of its address. *)
Lemma translate_view_final {S} (page : Page S) a e :
  entry_wf e -> entry e <> 0 -> S = Size4KiB \/ is_huge e = true ->
  translate_view a (mk_view (length (page_pre page)) e) =
    Mapped (mapped_frame (frame_at (pa (entry_addr e) / SIZE S) : PhysFrame S)) (va a mod SIZE S)
      (Z.land (entry e) PageTableFlags_all).
Proof.
  intros He Hn Hs. rewrite mk_view_nonzero by done.
  destruct S; cbn [page_pre page_parents fmap list_fmap length translate_view mapped_frame].
  - do 2 f_equal. assert (PhysFrame_wf (mkPhysFrame (entry_addr e) : PhysFrame Size4KiB)) as Hf.
    { split; [by apply PageTableEntry_addr_val|by apply entry_addr_mod]. }
    exact (proj2 (frame_wf_at _ Hf)).
  - destruct Hs as [?|Hs]; [done|]. by rewrite Hs.
  - destruct Hs as [?|Hs]; [done|]. by rewrite Hs.
Qed.

(** ** Why an operation fails, in terms of the translation *)
Definition page_unmapped {S} (m : Mem) (page : Page S) : Prop :=
  forall x, canonical x -> in_page page x -> translate self m x = Ret NotMapped.
(** The page lies inside a huge page. *)
Definition in_larger_page {S} (m : Mem) (page : Page S) : Prop :=
  forall x, canonical x -> in_page page x ->
    exists f o fl, translate self m x = Ret (Mapped f o fl) /\ SIZE S < MappedFrame_size f.
(** The range of the (huge) page is managed by a table of the next level. *)
Definition split_page {S} (m : Mem) (page : Page S) : Prop :=
  S <> Size4KiB /\ is_Some (table_at w m p4 (page_path page)).
(** Every address of the page is mapped to the frame (of the page's size) that
    contains the physical address [a], with flags [fl]. *)
Definition mapped_at {S} (m : Mem) (page : Page S) (a : PhysAddr) (fl : Z) : Prop :=
  forall x, canonical x -> in_page page x ->
    translate self m x =
      Ret (Mapped (mapped_frame (frame_at (pa a / SIZE S) : PhysFrame S)) (va x mod SIZE S) fl).

Lemma page_pre_lt {S} (page : Page S) a i b :
  Page_wf page -> page_pre page = a ++ i :: b -> (i < 512)%nat.
Proof.
  intros Hp E. destruct (page_parents_wf page Hp) as [Hf _].
  assert (i ∈ page_pre page) as Hi by (rewrite E; apply elem_of_app; right; apply elem_of_cons; by left).
  unfold page_pre in Hi. apply list_elem_of_fmap in Hi as (j & -> & Hj).
  apply ix_lt. rewrite Forall_forall in Hf. by apply Hf, list_elem_of_In.
Qed.

(** The walk over the parents of the page fails. *)
Lemma resolve_fails {S} m (page : Page S) x :
  mapper_valid m -> Page_wf page -> resolve w m p4 (page_pre page) = Err x ->
  match x with
  | WalkNotMapped => page_unmapped m page
  | WalkMappedToHugePage => in_larger_page m page
  end.
Proof.
  intros HV Hp (a & i & b & q & Epre & Hq & Hm)%resolve_Err.
  pose proof (page_pre_length page) as Hl. rewrite Epre, length_app in Hl. simpl in Hl.
  pose proof (valid_table _ _ _ HV a q ltac:(lia) Hq) as Ht.
  destruct (get_is_Some m q i Ht (page_pre_lt page a i b Hp Epre)) as (e & Hg & He).
  rewrite Hg in Hm. destruct Hm as [Hc Hx].
  assert (forall y, canonical y -> in_page page y ->
    view w m p4 (addr_path y) = mk_view (length a) e) as Hv.
  { intros y Hy [k Ek]%in_page_path; [|done|done]. apply view_leaf.
    rewrite Ek, page_path_pre, Epre, <- !app_assoc. cbn [app].
    rewrite (leaf_through w m p4 0 a q i e _ Hq Hg), Hc. by destruct (b ++ _). }
  destruct (valid_entry _ _ _ HV a q i e ltac:(lia) Hq Hg) as [Hz|[[Hh Hne]|[r Hr]]]; [| |congruence].
  - assert (is_huge e = false) as Eh by (unfold is_huge; by rewrite Hz).
    rewrite Eh in Hx. subst x. intros y Hy Hiy. rewrite translate_run, Hv by done.
    by rewrite mk_view_zero.
  - rewrite Hh in Hx. subst x. intros y Hy Hiy. rewrite translate_run, Hv by done.
    destruct (page_pre_depth page a i b Epre Hne) as [Hd Hsz].
    rewrite mk_view_nonzero by (intros Hz; unfold is_huge in Hh; by rewrite Hz in Hh).
    destruct Hd as [Hd|Hd]; rewrite Hd in Hsz |- *; cbn [translate_view]; rewrite Hh;
      do 3 eexists; (split; [done|done]).
Qed.

(** The walk succeeds and the page's own entry decides. *)
Lemma page_entry_cases {S} m (page : Page S) q :
  mapper_valid m -> Page_wf page -> table_at w m p4 (page_pre page) = Some q ->
  let e := page_entry m page q in
  (entry e = 0 /\ page_unmapped m page) \/
  (entry e <> 0 /\ (S = Size4KiB \/ is_huge e = true) /\
     mapped_at m page (entry_addr e) (Z.land (entry e) PageTableFlags_all)) \/
  (entry e <> 0 /\ is_present e = true /\ is_huge e = false /\ split_page m page).
Proof.
  intros HV Hp Hq e. pose proof (page_pre_length page) as Hl.
  pose proof (valid_table _ _ _ HV (page_pre page) q ltac:(lia) Hq) as Ht.
  destruct (page_entry_get page m q Hp Ht) as (Hg & He & _). fold e in Hg, He.
  destruct (decide (entry e = 0)) as [Hz|Hnz].
  { left. split; [done|]. intros x Hx Hix.
    rewrite (translate_in_page m page q x) by (done || by apply final_unused).
    by rewrite mk_view_zero. }
  right. destruct (decide (S = Size4KiB \/ is_huge e = true)) as [Hf|Hf].
  - left. split_and!; [done|done|]. intros x Hx Hix.
    rewrite (translate_in_page m page q x) by (done || by apply final_page).
    by rewrite translate_view_final.
  - right. assert (S <> Size4KiB /\ is_huge e = false) as [HS Hh].
    { split; [naive_solver|]. destruct (is_huge e); naive_solver. }
    assert (length (page_pre page) < 3)%nat as Hl3.
    { unfold page_pre. rewrite length_fmap. destruct S; [done| |]; simpl; lia. }
    destruct (valid_entry _ _ _ HV (page_pre page) q _ e Hl3 Hq Hg) as [?|[[? _]|Hc]]; [done|congruence|].
    split_and!; [done| |done|split; [done|]].
    + destruct Hc as [r Hr]. unfold child in Hr. rewrite Hh in Hr. by destruct (is_present e).
    + rewrite page_path_pre, (table_at_snoc w m p4 (page_pre page) _ q), Hg by done. done.
Qed.

(** The page was mapped to a misaligned address, which only the checks of the
    huge page operations notice. *)
Definition misaligned {S} (m : Mem) (page : Page S) (a : PhysAddr) : Prop :=
  S <> Size4KiB /\ pa a mod SIZE S <> 0 /\ exists fl, mapped_at m page a fl.

(** Failing at the page's own entry. *)
Lemma unmap_entry_fails {S} m (page : Page S) q x :
  mapper_valid m -> Page_wf page -> table_at w m p4 (page_pre page) = Some q ->
  unmap_entry S (page_entry m page q) = Err x ->
  match x with
  | UnmapPageNotMapped => page_unmapped m page \/
      exists a fl, mapped_at m page a fl /\ Z.testbit fl 0 = false
  | UnmapParentEntryHugePage => split_page m page
  | UnmapInvalidFrameAddress a => misaligned m page a
  end.
Proof.
  intros HV Hp Hq Hu.
  destruct (resolve_table w m p4 page q HV Hp (proj2 (resolve_Ok _ _ _ _ _) Hq)) as (_ & Ht & _).
  destruct (page_entry_get page m q Hp Ht) as (_ & He & _).
  destruct (page_entry_cases m page q HV Hp Hq)
    as [[Hz Hun]|[(Hnz & Hf & Hmap)|(Hnz & Hpr & Hh & Hsp)]]; unfold unmap_entry in Hu.
  - unfold is_present in Hu. rewrite Hz in Hu. cbn in Hu. injection Hu as <-. by left.
  - destruct (is_present (page_entry m page q)) eqn:Hpr; cbn [negb] in Hu.
    + assert (negb (is_huge (page_entry m page q)) && negb (bool_decide (S = Size4KiB)) = false) as Eh.
      { destruct Hf as [->|Hf]; [by rewrite bool_decide_true, andb_false_r by done|by rewrite Hf]. }
      rewrite Eh in Hu. destruct (Z.eqb_spec (pa (entry_addr (page_entry m page q)) mod SIZE S) 0); [done|].
      injection Hu as <-. split_and!; [|done|eauto]. intros ->. by apply n, entry_addr_mod.
    + injection Hu as <-. right. do 2 eexists. split; [exact Hmap|].
      rewrite Z.land_spec. unfold is_present in Hpr. by rewrite Hpr.
  - rewrite Hpr, Hh in Hu. cbn [negb andb] in Hu. pose proof Hsp as [HS _].
    rewrite bool_decide_false in Hu by done. injection Hu as <-. done.
Qed.

(** [unmap] on every branch. *)
Lemma unmap_spec {S} m (page : Page S) :
  mapper_valid m -> Page_wf page ->
  exists r m', unmap self page m = Ret (r, m') /\ mapper_valid m' /\
    match r with
    | Ok (f, flush) =>
        flush = MapperFlush_new page /\ PhysFrame_wf f /\ same_outside page m m' /\
        forall x, canonical x -> in_page page x ->
          (exists fl, translate self m x = Ret (Mapped (mapped_frame f) (va x mod SIZE S) fl)) /\
          translate self m' x = Ret NotMapped
    | Err UnmapPageNotMapped => m' = m /\ (page_unmapped m page \/
        exists a fl, mapped_at m page a fl /\ Z.testbit fl 0 = false)
    | Err UnmapParentEntryHugePage => m' = m /\ (in_larger_page m page \/ split_page m page)
    | Err (UnmapInvalidFrameAddress a) => m' = m /\ misaligned m page a
    end.
Proof.
  intros HV Hp. rewrite unmap_run by done.
  destruct (resolve w m p4 (page_pre page)) as [q|x] eqn:Eq.
  2: { pose proof (resolve_fails m page x HV Hp Eq). eexists _, m. do 2 (split; [done|]).
       destruct x; cbn [UnmapError_from]; auto. }
  destruct (resolve_table w m p4 page q HV Hp Eq) as (Hq & Ht & _).
  destruct (page_entry_get page m q Hp Ht) as (_ & He & _).
  destruct (unmap_entry S (page_entry m page q)) as [f|x] eqn:Eu.
  2: { pose proof (unmap_entry_fails m page q x HV Hp Hq Eu). eexists _, m. do 2 (split; [done|]).
       destruct x; auto. }
  destruct (unmap_entry_Ok S _ f He Eu) as (-> & Hnz & Hh & Hm & Hf).
  destruct (store_page m page q PageTableEntry_new HV Hp Hq) as (HV' & Hout & Hin);
    [split; vm_compute; done|by apply final_unused|].
  eexists _, _. split; [done|]. split; [done|]. split_and!; [done|done|done|].
  intros x Hx Hix. split.
  - rewrite (translate_in_page m page q x) by (done || by apply final_page).
    rewrite translate_view_page by done. eauto.
  - rewrite Hin by done. by rewrite mk_view_zero.
Qed.

(** C3. [unmap] on a valid hierarchy always returns.  On success it returns
    the frame the page was mapped to, every address of the page is unmapped
    afterwards and every other address translates as before.  On an error the
    memory is untouched, and the error says why: the page is unmapped or its
    mapping is not present; it lies inside a larger page or its range is split
    by a table of the next level; or a huge page is mapped to a misaligned
    address. *)
Theorem unmap_correct {S} m (page : Page S) :
  mapper_valid m -> Page_wf page ->
  exists r m', unmap self page m = Ret (r, m') /\ mapper_valid m' /\
    match r with
    | Ok (f, flush) =>
        flush = MapperFlush_new page /\ PhysFrame_wf f /\ same_outside page m m' /\
        forall x, canonical x -> in_page page x ->
          (exists fl, translate self m x = Ret (Mapped (mapped_frame f) (va x mod SIZE S) fl)) /\
          translate self m' x = Ret NotMapped
    | Err UnmapPageNotMapped => m' = m /\ (page_unmapped m page \/
        exists a fl, mapped_at m page a fl /\ Z.testbit fl 0 = false)
    | Err UnmapParentEntryHugePage => m' = m /\ (in_larger_page m page \/ split_page m page)
    | Err (UnmapInvalidFrameAddress a) => m' = m /\ misaligned m page a
    end.
Proof. apply unmap_spec. Qed.

(** [translate_page] on a valid hierarchy returns and changes nothing.  The
    frame it returns is the one every address of the page translates to, unless
    the range of a huge page is split by a table of the next level; its errors
    mean that the page is unmapped, that it lies inside a larger page, or that
    it is mapped to (or its table lies at) a misaligned address. *)
Theorem translate_page_correct {S} m (page : Page S) :
  mapper_valid m -> Page_wf page ->
  exists r, translate_page self page m = Ret (r, m) /\
    match r with
    | Ok f => PhysFrame_wf f /\
        ((exists fl, mapped_at m page (frame_start f) fl) \/ split_page m page)
    | Err TranslatePageNotMapped => page_unmapped m page
    | Err TranslateParentEntryHugePage => in_larger_page m page
    | Err (TranslateInvalidFrameAddress a) =>
        misaligned m page a \/ (pa a mod SIZE S <> 0 /\ split_page m page)
    end.
Proof.
  intros HV Hp. rewrite translate_page_run by done.
  destruct (resolve w m p4 (page_pre page)) as [q|x] eqn:Eq.
  2: { pose proof (resolve_fails m page x HV Hp Eq). eexists. split; [done|]. by destruct x. }
  destruct (resolve_table w m p4 page q HV Hp Eq) as (Hq & Ht & _).
  destruct (page_entry_get page m q Hp Ht) as (_ & He & _).
  eexists. split; [done|]. unfold translate_entry.
  destruct (page_entry_cases m page q HV Hp Hq) as [[Hz Hun]|[(Hnz & _ & Hmap)|(Hnz & _ & _ & Hsp)]];
    [by rewrite Hz| |]; rewrite (proj2 (Z.eqb_neq _ _)) by done;
    (destruct (Z.eqb_spec (pa (entry_addr (page_entry m page q)) mod SIZE S) 0) as [Hm|Hm];
      [split; [split; [by apply PageTableEntry_addr_val|done]|]|]); eauto.
  left. split_and!; [|done|eauto]. intros ->. by apply Hm, entry_addr_mod.
Qed.

(** When an address of the page translates to a frame of the page's size, the
    page's own entry is the one that maps it. *)
Lemma mapped_entry_final {S} m (page : Page S) q x f o fl :
  mapper_valid m -> Page_wf page -> table_at w m p4 (page_pre page) = Some q ->
  canonical x -> in_page page x ->
  translate self m x = Ret (Mapped (mapped_frame (f : PhysFrame S)) o fl) ->
  S = Size4KiB \/ is_huge (page_entry m page q) = true.
Proof.
  intros HV Hp Hq Hx Hix Htr. destruct (decide (S = Size4KiB)) as [?|HS]; [by left|right].
  pose proof (page_pre_length page) as Hl.
  assert (length (page_pre page) < 3)%nat as Hl3.
  { unfold page_pre. rewrite length_fmap. destruct S; [done| |]; simpl; lia. }
  pose proof (valid_table _ _ _ HV (page_pre page) q ltac:(lia) Hq) as Ht.
  destruct (page_entry_get page m q Hp Ht) as (Hg & He & _).
  destruct (valid_entry _ _ _ HV (page_pre page) q _ _ Hl3 Hq Hg) as [Hz|[[Hh _]|[r Hr]]]; [|done|].
  { rewrite (translate_in_page m page q x) in Htr by (done || by apply final_unused).
    by rewrite mk_view_zero in Htr. }
  exfalso. rewrite translate_run in Htr by done.
  assert (page_path page `prefix_of` addr_path x) as [k Ek] by by apply in_page_path.
  rewrite page_path_pre, <- app_assoc in Ek. cbn [app] in Ek.
  unfold view in Htr. rewrite Ek, (leaf_through w m p4 0 (page_pre page) q _ _ k Hq Hg) in Htr.
  assert (length k = 3 - length (page_pre page))%nat as Hk.
  { apply (f_equal length) in Ek. rewrite addr_path_length, length_app in Ek. simpl in Ek. lia. }
  destruct k as [|j k]; [simpl in Hk; lia|]. rewrite Hr in Htr.
  destruct (leaf w m r (Datatypes.S (0 + length (page_pre page))) (j :: k)) as [[d e]|] eqn:El; [|done].
  apply leaf_depth in El. cbn [mbind option_bind] in Htr. unfold mk_view in Htr.
  case_decide; [done|].
  destruct S; [done| |]; cbn [page_pre page_parents fmap list_fmap length] in El;
    destruct d as [|[|[|d]]]; try lia; cbn [translate_view] in Htr; try done; by destruct (is_huge e).
Qed.

(** The entry that [update_flags] stores keeps the address. *)
Lemma updated_entry_spec S e f :
  entry_wf e -> u64 f -> Z.land f ADDR_MASK = 0 -> f <> 0 ->
  let e' := mkPageTableEntry (Z.lor (pa (entry_addr e)) (page_flags S f)) in
  entry_wf e' /\ entry_addr e' = entry_addr e /\ entry e' <> 0 /\
  (S = Size4KiB \/ is_huge e' = true) /\
  Z.land (entry e') PageTableFlags_all =
    Z.lor (page_flags S f) (Z.land (pa (entry_addr e)) flag_address_overlap).
Proof.
  intros He Hu Hm Hn e'.
  assert (PhysFrame_wf (mkPhysFrame (entry_addr e) : PhysFrame Size4KiB)) as Hf.
  { split; [by apply PageTableEntry_addr_val|by apply entry_addr_mod]. }
  destruct (page_flags_ok S f Hu Hm) as [Hu' Hm'].
  assert (page_flags S f <> 0) as Hn'.
  { destruct S; cbn [page_flags]; [done| |]; rewrite Z.lor_eq_0_iff; naive_solver. }
  destruct (page_new_entry_spec _ (page_flags S f) Hf Hu' Hm' Hn') as (H1 & H2 & H3 & _ & H5).
  split_and!; try done.
  destruct S; [by left| |]; right; unfold is_huge, e'; cbn [entry page_flags];
    rewrite !Z.lor_spec; change (Z.testbit PageTableFlags_HUGE_PAGE 7) with true; by rewrite !orb_true_r.
Qed.

Lemma overlap_of_flags e :
  Z.land (pa (entry_addr e)) flag_address_overlap =
  Z.land (Z.land (entry e) PageTableFlags_all) flag_address_overlap.
Proof. unfold entry_addr. cbn [pa]. by rewrite <- !Z.land_assoc. Qed.

(** [update_flags] on every branch. *)
Lemma update_flags_spec {S} m (page : Page S) flags :
  mapper_valid m -> Page_wf page -> u64 flags -> Z.land flags ADDR_MASK = 0 -> flags <> 0 ->
  exists r m', update_flags self page flags m = Ret (r, m') /\ mapper_valid m' /\
    match r with
    | Ok flush =>
        flush = MapperFlush_new page /\ same_outside page m m' /\
        forall x f o fl, canonical x -> in_page page x ->
          translate self m x = Ret (Mapped (mapped_frame (f : PhysFrame S)) o fl) ->
          translate self m' x =
            Ret (Mapped (mapped_frame f) o (Z.lor (page_flags S flags) (Z.land fl flag_address_overlap)))
    | Err FlagPageNotMapped => m' = m /\ page_unmapped m page
    | Err FlagParentEntryHugePage => m' = m /\ in_larger_page m page
    end.
Proof.
  intros HV Hp Hu Hm Hn. rewrite update_flags_run by done.
  destruct (resolve w m p4 (page_pre page)) as [q|x] eqn:Eq.
  2: { pose proof (resolve_fails m page x HV Hp Eq). eexists _, m. do 2 (split; [done|]).
       by destruct x. }
  destruct (resolve_table w m p4 page q HV Hp Eq) as (Hq & Ht & _).
  destruct (page_entry_get page m q Hp Ht) as (_ & He & _).
  destruct (Z.eqb_spec (entry (page_entry m page q)) 0) as [Hz|Hnz].
  { eexists _, m. do 2 (split; [done|]). split; [done|].
    destruct (page_entry_cases m page q HV Hp Hq) as [[_ ?]|[[? _]|[? _]]]; done. }
  destruct (updated_entry_spec S _ flags He Hu Hm Hn) as (He' & Ea & Hnz' & Hh' & Ef).
  destruct (store_page m page q _ HV Hp Hq He' (final_page page _ Hh')) as (HV' & Hout & Hin).
  eexists _, _. do 2 (split; [done|]). split_and!; [done|done|].
  intros x f o fl Hx Hix Htr.
  pose proof (mapped_entry_final m page q x f o fl HV Hp Hq Hx Hix Htr) as Hh.
  rewrite (translate_in_page m page q x) in Htr by (done || by apply final_page).
  rewrite (translate_view_final page x _ He Hnz Hh) in Htr.
  rewrite Hin by done. rewrite (translate_view_final page x _ He' Hnz' Hh').
  rewrite Ea, Ef, overlap_of_flags. congruence.
Qed.

(** C11. [update_flags] with flags that are not zero and contain no address
    bits (bits 12 to 51), on a valid hierarchy, always returns and keeps the
    hierarchy valid.  On success every address of the page that was mapped by a page of this size stays mapped to
    the same frame and offset with the new flags, and every other address
    translates as before.  On an error the memory is untouched and the page is
    unmapped, or lies inside a larger page. *)
Theorem update_flags_correct {S} m (page : Page S) flags :
  mapper_valid m -> Page_wf page -> u64 flags -> Z.land flags ADDR_MASK = 0 -> flags <> 0 ->
  exists r m', update_flags self page flags m = Ret (r, m') /\ mapper_valid m' /\
    match r with
    | Ok flush =>
        flush = MapperFlush_new page /\ same_outside page m m' /\
        forall x f o fl, canonical x -> in_page page x ->
          translate self m x = Ret (Mapped (mapped_frame (f : PhysFrame S)) o fl) ->
          translate self m' x =
            Ret (Mapped (mapped_frame f) o (Z.lor (page_flags S flags) (Z.land fl flag_address_overlap)))
    | Err FlagPageNotMapped => m' = m /\ page_unmapped m page
    | Err FlagParentEntryHugePage => m' = m /\ in_larger_page m page
    end.
Proof. apply update_flags_spec. Qed.

(** C40. The huge page operations do not check that the entry they find is a
    huge page.  When it points to a page table instead, [translate_page]
    returns the frame of that table (if it happens to be aligned) rather than
    an error, and [update_flags] (with flags that are not zero and contain no
    address bits) succeeds and turns the table pointer into a
    huge mapping, so that every address below it now translates into the
    memory that holds the page table. *)
Theorem huge_page_ops_accept_tables {S} m (page : Page S) q flags :
  mapper_valid m -> Page_wf page -> S <> Size4KiB ->
  table_at w m p4 (page_pre page) = Some q -> is_Some (child w (page_entry m page q)) ->
  u64 flags -> Z.land flags ADDR_MASK = 0 -> flags <> 0 ->
  let a := entry_addr (page_entry m page q) in
  translate_page self page m =
    Ret (if pa a mod SIZE S =? 0 then Ok (mkPhysFrame a) else Err (TranslateInvalidFrameAddress a), m) /\
  exists m', update_flags self page flags m = Ret (Ok (MapperFlush_new page), m') /\
    forall x, canonical x -> in_page page x ->
      exists fl, translate self m' x =
        Ret (Mapped (mapped_frame (frame_at (pa a / SIZE S) : PhysFrame S)) (va x mod SIZE S) fl).
Proof.
  intros HV Hp HS Hq [r Hr] Hu Hm Hn a.
  assert (has_table m q) as Ht.
  { pose proof (page_pre_length page). apply (valid_table _ _ _ HV (page_pre page)); [lia|done]. }
  destruct (page_entry_get page m q Hp Ht) as (_ & He & _).
  assert (entry (page_entry m page q) <> 0) as Hnz.
  { intros E. by rewrite (child_zero w _ E) in Hr. }
  pose proof (proj2 (resolve_Ok w m p4 (page_pre page) q) Hq) as Eq.
  destruct (updated_entry_spec S _ flags He Hu Hm Hn) as (He' & Ea & Hnz' & Hh' & _).
  destruct (store_page m page q _ HV Hp Hq He' (final_page page _ Hh')) as (_ & _ & Hin).
  rewrite translate_page_run, update_flags_run, Eq by done. unfold translate_entry.
  rewrite (proj2 (Z.eqb_neq _ _)) by done. split; [done|].
  eexists. split; [done|]. intros x Hx Hix. rewrite Hin by done.
  rewrite (translate_view_final page x _ He' Hnz' Hh'), Ea. eauto.
Qed.

Section map_to.
Context {A : Type} `{FrameAllocator A Size4KiB}.

(** The parent tables are reached or created, then the page's own entry decides. *)
Lemma map_to_run {S} m a (page : Page S) (frame : PhysFrame S) flags pf :
  mapper_valid m -> Page_wf page -> PhysFrame_wf frame -> parent_flags_ok pf ->
  Supply w (reachable w m p4) m 3 a ->
  exists m' a', mapper_valid m' /\
    let run := map_to_with_table_flags self page frame flags pf (m, a) in
    (exists q, table_at w m' p4 (page_pre page) = Some q /\ has_table m' q /\ widened w pf m m' p4 /\
       run = if entry (page_entry m' page q) =? 0
             then Ret (Ok (mkMapperFlush page),
                       (upd m' q (ix (page_last page)) (page_new_entry frame flags), a'))
             else Ret (Err (MapPageAlreadyMapped frame), (m', a'))) \/
    (run = Ret (Err MapFrameAllocationFailed, (m', a')) /\ widened w pf m m' p4 /\
       exists a0, allocate_frame a0 = (None, a')) \/
    (run = Ret (Err MapParentEntryHugePage, (m', a')) /\ huge_touched w pf m m' p4 (page_pre page)).
Proof.
  intros HV Hp Hf Hpf HS. pose proof (page_pre_length page) as Hl.
  assert (length (page_parents page) <= 3)%nat as Hl' by (unfold page_pre in Hl; rewrite length_fmap in Hl; lia).
  destruct (chain_create_run w pf Hpf MapToError_from (map_to_tail page frame flags) m a p4 [] p4
    (page_parents page)) as (m' & a' & HV' & Hc); try done.
  { by apply page_parents_wf. }
  { by apply (Supply_le _ _ _ 3). }
  exists m', a'. split; [done|]. cbn zeta. rewrite map_to_chain. cbn [app] in Hc.
  destruct Hc as [(q & Hq & Hs & E)|[(E & Hs & Ha)|(E & Ht)]].
  - left. assert (has_table m' q) as Ht.
    { apply (valid_table _ _ _ HV' (page_pre page)); [lia|done]. }
    exists q. split_and!; [done|done|done|]. rewrite E. by apply map_to_tail_run.
  - right; left. by rewrite E.
  - right; right. by rewrite E.
Qed.

(** The address translates as before, or the flags of its huge page were added to. *)
Definition flags_added (m m' : Mem) (pf : Z) (x : VirtAddr) : Prop :=
  translate self m' x = translate self m x \/
  exists f o fl, translate self m x = Ret (Mapped f o fl) /\
    translate self m' x = Ret (Mapped f o (Z.lor fl pf)).

(** The flags of the huge page [big] were added to; nothing else changed. *)
Definition huge_page_grown {T} (m m' : Mem) (big : Page T) (pf : Z) : Prop :=
  same_outside big m m' /\
  exists (g : PhysFrame T) fl, forall x, canonical x -> in_page big x ->
    translate self m x = Ret (Mapped (mapped_frame g) (va x mod SIZE T) fl) /\
    translate self m' x = Ret (Mapped (mapped_frame g) (va x mod SIZE T) (Z.lor fl pf)).

Lemma huge_touched_page {S} m m' (page : Page S) pf :
  mapper_valid m -> mapper_valid m' -> Page_wf page -> parent_flags_ok pf ->
  huge_touched w pf m m' p4 (page_pre page) ->
  exists T (big : Page T), Page_wf big /\ SIZE S < SIZE T /\
    (forall x, canonical x -> in_page page x -> in_page big x) /\ huge_page_grown m m' big pf.
Proof.
  intros HV HV' Hp Hpf (pre & j & rest & e & Epre & Hne & Hhe & Hv).
  destruct (page_pre_larger page pre j rest Epre Hne) as (T & Hd & HT & Hsz).
  destruct (enclosing_page page T pre j rest Hp Epre Hd) as (big & Hb & Ebig).
  destruct (with_flags_reported pf e Hpf) as [Ea Ef].
  exists T, big. split_and!; [done|done| |split].
  - intros x Hx Hix. apply in_page_path; [done|done|]. rewrite Ebig.
    eapply page_pre_prefix; [done|by apply in_page_path].
  - intros x Hx Hix. rewrite !translate_run by done. destruct (Hv _ (addr_path_length x)) as [_ ->].
    rewrite decide_False; [done|]. by rewrite <- Ebig, <- in_page_path.
  - eexists _, _. intros x Hx Hix. rewrite !translate_run by done.
    destruct (Hv _ (addr_path_length x)) as [-> ->].
    rewrite !decide_True by by rewrite <- Ebig, <- in_page_path.
    rewrite Hd, !translate_view_huge by (done || by rewrite with_flags_huge). by rewrite Ea, Ef.
Qed.

Lemma mapped_frame_size_val {T} (g : PhysFrame T) : MappedFrame_size (mapped_frame g) = SIZE T.
Proof. by destruct T. Qed.

Lemma huge_touched_translation {S} m m' (page : Page S) pf :
  mapper_valid m -> mapper_valid m' -> Page_wf page -> parent_flags_ok pf ->
  huge_touched w pf m m' p4 (page_pre page) ->
  in_larger_page m page /\ (forall x, canonical x -> flags_added m m' pf x).
Proof.
  intros HV HV' Hp Hpf Ht.
  destruct (huge_touched_page m m' page pf HV HV' Hp Hpf Ht) as (T & big & Hb & Hsz & Hsub & Hout & g & fl & Hin).
  split; intros x Hx.
  - intros Hix. destruct (Hin x Hx (Hsub x Hx Hix)) as [E _]. rewrite E.
    do 3 eexists. split; [done|]. by rewrite mapped_frame_size_val.
  - destruct (decide (in_page big x)) as [Hix|Hix]; [right|left; by apply Hout].
    destruct (Hin x Hx Hix) as [E E']. eauto.
Qed.

(** All outcomes of [map_to]. *)
Lemma map_to_spec {S} m a (page : Page S) (frame : PhysFrame S) flags pf :
  mapper_valid m -> Page_wf page -> PhysFrame_wf frame ->
  u64 flags -> Z.land flags ADDR_MASK = 0 -> flags <> 0 -> parent_flags_ok pf ->
  Supply w (reachable w m p4) m 3 a ->
  exists r m' a', map_to_with_table_flags self page frame flags pf (m, a) = Ret (r, (m', a')) /\
    mapper_valid m' /\
    match r with
    | Ok flush =>
        flush = MapperFlush_new page /\ same_outside page m m' /\
        forall x, canonical x -> in_page page x ->
          translate self m x = Ret NotMapped /\
          translate self m' x =
            Ret (Mapped (mapped_frame frame) (va x mod SIZE S)
              (Z.lor (page_flags S flags) (Z.land (pa (frame_start frame)) flag_address_overlap)))
    | Err (MapPageAlreadyMapped f) => f = frame /\ same_translation m m' /\
        ((exists b fl, mapped_at m page b fl) \/ split_page m' page)
    | Err MapFrameAllocationFailed =>
        same_translation m m' /\ exists a0, allocate_frame a0 = (None, a')
    | Err MapParentEntryHugePage =>
        in_larger_page m page /\ forall x, canonical x -> flags_added m m' pf x
    end.
Proof.
  intros HV Hp Hf Hu Ha Hn Hpf HS.
  destruct (page_new_entry_spec frame flags Hf Hu Ha Hn) as (He & Ea & Hnz & Hh & Efl).
  destruct (map_to_run m a page frame flags pf HV Hp Hf Hpf HS)
    as (m' & a' & HV' & [(q & Hq & Ht & Hs & ->)|[(-> & Hs & Hal)|(-> & Ht)]]); cbn zeta.
  - destruct (Z.eqb_spec (entry (page_entry m' page q)) 0) as [Hz|Hz].
    2: { pose proof (same_view_translation m m' HV HV' (proj1 Hs)) as Hst.
         eexists _, _, _. do 2 (split; [done|]). split_and!; [done|done|].
         destruct (page_entry_cases m' page q HV' Hp Hq) as [[? _]|[(_ & _ & Hmap)|(_ & _ & _ & ?)]];
           [done| |by right]. left. do 2 eexists. intros x Hx Hix.
         rewrite <- (Hst x Hx). by apply Hmap. }
    destruct (store_page m' page q _ HV' Hp Hq He (final_page page _ Hh)) as (HV'' & Hout & Hin).
    pose proof (same_view_translation m m' HV HV' (proj1 Hs)) as Hst.
    eexists _, _, _. do 2 (split; [done|]). split_and!; [done| |].
    + intros x Hx Hnx. rewrite Hout by done. by apply Hst.
    + intros x Hx Hix. rewrite Hin by done. split.
      * rewrite <- Hst by done. rewrite (translate_in_page m' page q x) by (done || by apply final_unused).
        by rewrite mk_view_zero.
      * rewrite translate_view_page by (done || rewrite Ea; by destruct Hf).
        rewrite Ea, Efl. by destruct frame.
  - eexists _, _, _. do 2 (split; [done|]). split; [by apply same_view_translation, Hs|done].
  - eexists _, _, _. do 2 (split; [done|]). by apply huge_touched_translation.
Qed.

(** C1. [map_to_with_table_flags] on a valid hierarchy, with an allocator that
    hands out unused frames, with non-zero flags for the page that contain no
    address bits (bits 12 to 51) and parent flags that contain PRESENT, not
    HUGE_PAGE, and no address bits, always returns, keeps the hierarchy valid,
    and:
    - on success every address of the page was unmapped before and now
      translates to the frame with its offset and flags, and every other
      address translates as before;
    - when a frame could not be allocated or the page's entry is in use, no
      translation changes at all, and the page in use is mapped (by a page of
      its size) or its range is split by a table of the next level;
    - when a huge page is in the way, the page lies inside a larger mapping,
      and no address translates to another frame or offset. *)
Theorem map_to_correct {S} m a (page : Page S) (frame : PhysFrame S) flags pf :
  mapper_valid m -> Page_wf page -> PhysFrame_wf frame ->
  u64 flags -> Z.land flags ADDR_MASK = 0 -> flags <> 0 -> parent_flags_ok pf ->
  Supply w (reachable w m p4) m 3 a ->
  exists r m' a', map_to_with_table_flags self page frame flags pf (m, a) = Ret (r, (m', a')) /\
    mapper_valid m' /\
    match r with
    | Ok flush =>
        flush = MapperFlush_new page /\ same_outside page m m' /\
        forall x, canonical x -> in_page page x ->
          translate self m x = Ret NotMapped /\
          translate self m' x =
            Ret (Mapped (mapped_frame frame) (va x mod SIZE S)
              (Z.lor (page_flags S flags) (Z.land (pa (frame_start frame)) flag_address_overlap)))
    | Err (MapPageAlreadyMapped f) => f = frame /\ same_translation m m' /\
        ((exists b fl, mapped_at m page b fl) \/ split_page m' page)
    | Err MapFrameAllocationFailed =>
        same_translation m m' /\ exists a0, allocate_frame a0 = (None, a')
    | Err MapParentEntryHugePage =>
        in_larger_page m page /\ forall x, canonical x -> flags_added m m' pf x
    end.
Proof.
  intros HV Hp Hf Hu Ha Hn Hpf HS.
  by apply map_to_spec.
Qed.

(** C36. A failed [map_to] can change existing mappings.  When
    [map_to_with_table_flags] (with parent flags that contain PRESENT, not
    HUGE_PAGE, and no address bits) returns [ParentEntryHugePage], the page lies
    inside a larger huge page, and the parent flags have already been added to
    the entry of that huge page: every address of the whole huge page translates
    to the same frame and offset as before with the parent flags added to its
    flags, so that the huge page is, for example, user accessible afterwards.
    The translation of every address outside of the huge page is unchanged. *)
Theorem map_to_error_changes_huge_page {S} m a (page : Page S) (frame : PhysFrame S) flags pf m' a' :
  mapper_valid m -> Page_wf page -> PhysFrame_wf frame -> parent_flags_ok pf ->
  Supply w (reachable w m p4) m 3 a ->
  map_to_with_table_flags self page frame flags pf (m, a) =
    Ret (Err MapParentEntryHugePage, (m', a')) ->
  exists T (big : Page T), Page_wf big /\ SIZE S < SIZE T /\
    (forall x, canonical x -> in_page page x -> in_page big x) /\ huge_page_grown m m' big pf.
Proof.
  intros HV Hp Hf Hpf HS Hrun.
  destruct (map_to_run m a page frame flags pf HV Hp Hf Hpf HS)
    as (m1 & a1 & HV' & [(q & Hq & Ht & Hs & E)|[(E & Hs & Hal)|(E & Ht)]]); cbn zeta in E;
    rewrite Hrun in E; [by destruct (_ =? _)|done|].
  simplify_eq. by apply huge_touched_page.
Qed.

(** C10. Round trip: when [map_to_with_table_flags] succeeds, with flags for the
    page that contain PRESENT and no address bits (bits 12 to 51) and parent
    flags that contain PRESENT, not HUGE_PAGE, and no address bits, and with an
    allocator that hands out unused frames, then [translate_page] returns the
    frame, and [unmap] returns the frame and restores the translation of every
    address. *)
Theorem map_unmap_roundtrip {S} m a (page : Page S) (frame : PhysFrame S) flags pf flush m' a' :
  mapper_valid m -> Page_wf page -> PhysFrame_wf frame ->
  u64 flags -> Z.land flags ADDR_MASK = 0 -> Z.testbit flags 0 = true -> parent_flags_ok pf ->
  Supply w (reachable w m p4) m 3 a ->
  map_to_with_table_flags self page frame flags pf (m, a) = Ret (Ok flush, (m', a')) ->
  translate_page self page m' = Ret (Ok frame, m') /\
  exists m'', unmap self page m' = Ret (Ok (frame, MapperFlush_new page), m'') /\
    mapper_valid m'' /\ same_translation m m''.
Proof.
  intros HV Hp Hf Hu Ha Hb Hpf HS Hrun.
  assert (flags <> 0) as Hn by (intros ->; done).
  destruct (page_new_entry_spec frame flags Hf Hu Ha Hn) as (He & Ea & Hnz & Hh & Efl).
  destruct (map_to_run m a page frame flags pf HV Hp Hf Hpf HS)
    as (m1 & a1 & HV1 & [(q & Hq & Ht & Hs & E)|[(E & Hs & Hal)|(E & Hto)]]); cbn zeta in E;
    rewrite Hrun in E; [|done|done].
  destruct (Z.eqb_spec (entry (page_entry m1 page q)) 0) as [Hz|]; [|done]. simplify_eq.
  set (e := page_new_entry frame flags) in *. pose proof Hf as [_ Hm].
  destruct (store_page m1 page q e HV1 Hp Hq He (final_page page _ Hh)) as (HV2 & Hout & _).
  destruct (store_page_lookup m1 page q e HV1 Hp Hq) as (Hr & Hq' & Hpe).
  split.
  { rewrite translate_page_run, Hr, Hpe by done. unfold translate_entry.
    rewrite (proj2 (Z.eqb_neq _ _)), Ea, Hm, Z.eqb_refl by done. by destruct frame. }
  destruct (store_page _ page q PageTableEntry_new HV2 Hp Hq') as (HV3 & Hout3 & Hin3);
    [split; vm_compute; done|by apply final_unused|].
  eexists. split; [|split; [exact HV3|]].
  - rewrite unmap_run, Hr, Hpe by done.
    by rewrite (unmap_new_entry frame flags Hf Hu Ha Hb : unmap_entry S e = Ok frame).
  - intros x Hx. destruct (decide (in_page page x)) as [Hix|Hix].
    + rewrite Hin3 by done. rewrite <- (same_view_translation m m1 HV HV1 (proj1 Hs) x Hx).
      rewrite (translate_in_page m1 page q x) by (done || by apply final_unused).
      by rewrite !mk_view_zero.
    + rewrite Hout3, Hout by done. by apply (same_view_translation m m1 HV HV1 (proj1 Hs)).
Qed.

(** When the parent flags do not contain [PRESENT], mapping a page whose
    level 4 entry is unused does not return an error: the new parent entry is
    not present, which [create_next_table] answers with a panic. *)
Theorem map_to_panics_without_present {S} m a (page : Page S) (frame : PhysFrame S) flags pf e f a' :
  mapper_valid m -> Page_wf page ->
  get m p4 (ix (Page_p4_index page)) = Some e -> entry e = 0 ->
  allocate_frame a = (Some f, a') -> PhysFrame_wf f ->
  u64 pf -> Z.testbit pf 0 = false -> Z.testbit pf 7 = false ->
  map_to_with_table_flags self page frame flags pf (m, a) = Panic.
Proof.
  intros HV Hp Hg Hz Hal Hf Hu Hb0 Hb7.
  assert (has_table m p4) as Ht by (by apply (valid_table _ _ _ HV []); [simpl; lia|]).
  assert (PageTableIndex_wf (Page_p4_index page)) as Hi.
  { exact (proj1 (VirtAddr_index_wf _ (proj1 Hp))). }
  assert (create_next_table w p4 (Page_p4_index page) pf (m, a) = Panic) as E.
  { by apply (create_panics w m a p4 _ e pf f a'). }
  rewrite map_to_chain. destruct (page_parents_cons page) as [is_ ->]. by apply chain_create_panics.
Qed.
End map_to.
End mapper.
