(* ===== verification/CleanUp.v ===== *)
(** * Freeing empty page tables ([CleanUp for MappedPageTable])

    [clean_up_addr_range] walks the tables of a page range bottom-up, unlinks
    and deallocates those that are empty, and changes no translation. *)
From Stdlib Require Import ZArith Lia Bool.
From stdpp Require Import base decidable option list gmap numbers.
From S2P Require Import Prelude Crates Index Addr Page Frame PageTable Mapper.
From S2P Require Import MappedPageTable PageWalk MapperSpec MapperCreate MapperProofs.
#[local] Open Scope Z_scope.

(** ** Addresses of the entries of a table *)

(** Bytes covered by a table and by one of its entries. *)
Definition table_span (l : PageTableLevel) : Z := 2 ^ (level_u8 l * 9 + 12).
Definition entry_span (l : PageTableLevel) : Z := 2 ^ ((level_u8 l - 1) * 9 + 12).

Lemma table_alignment_val l :
  table_address_space_alignment l = table_span l /\ entry_address_space_alignment l = entry_span l.
Proof. by destruct l. Qed.

Lemma position_mod a : canonical a -> position a = va a mod 2 ^ 48.
Proof. unfold canonical, position. intros Ha. zcase; mlia. Qed.

Definition table_base (l : PageTableLevel) (a : VirtAddr) : Z :=
  position a / table_span l * table_span l.

Lemma table_base_range l a :
  canonical a -> 0 <= table_base l a /\ table_base l a + table_span l <= 2 ^ 48.
Proof.
  intros Ha. pose proof (position_range a Ha). unfold table_base, table_span.
  destruct l; cbn [level_u8]; zify_pow; Z.to_euclidean_division_equations; lia.
Qed.

Lemma table_addr_val l a :
  canonical a ->
  VirtAddr_align_down a (table_address_space_alignment l) = Ret (of_position (table_base l a)).
Proof.
  intros Ha. rewrite (proj1 (table_alignment_val l)). unfold table_base. rewrite position_mod by done.
  unfold VirtAddr_align_down, VirtAddr_align_down_u64, table_span.
  pose proof (canonical_u64 a Ha) as Hu.
  rewrite align_down_pow2 by (done || destruct l; cbn; lia). cbn [fmap outcome_fmap].
  rewrite VirtAddr_new_truncate_val.
  - do 2 f_equal. unfold uN in Hu. destruct l; cbn [level_u8]; mlia.
  - unfold uN in *. destruct l; cbn [level_u8]; mlia.
Qed.

Section entries.
Context `{BFL : BitFieldLaws} `{Target} (H64 : usize_bits = 64).

(** The first and the last address below entry [i]. *)
Lemma entry_addr_range l a i :
  canonical a -> (i < 512)%nat -> l <> One ->
  let first := table_base l a + entry_span l * Z.of_nat i in
  arith usize_bits (wrap usize_bits (entry_span l) * Z.of_nat i) =
    Ret (entry_span l * Z.of_nat i) /\
  VirtAddr_forward_checked_impl (of_position (table_base l a)) (entry_span l * Z.of_nat i) =
    Ret (Some (of_position first)) /\
  VirtAddr_add (of_position first) (entry_span l - 1) = Ret (of_position (first + (entry_span l - 1))) /\
  canonical (of_position first) /\ canonical (of_position (first + (entry_span l - 1))).
Proof.
  intros Ha Hi Hl first. pose proof (table_base_range l a Ha) as Hb.
  assert (table_span l = 512 * entry_span l) as Hs by by destruct l.
  assert (0 < entry_span l <= 2 ^ 39) as He by by destruct l.
  assert (entry_span l * Z.of_nat i + entry_span l <= table_span l) as Hlast by nia.
  assert (canonical (of_position first)) as Hc1 by (apply of_position_canonical; unfold first; nia).
  assert (canonical (of_position (first + (entry_span l - 1)))) as Hc2
    by (apply of_position_canonical; unfold first; nia).
  split_and!; [| | |done|done].
  - rewrite H64, wrap_small by (unfold uN; lia). apply arith_in_range. unfold uN. nia.
  - unfold VirtAddr_forward_checked_impl.
    rewrite forward_checked_u64_position, position_of_position; [|nia|apply of_position_canonical; nia|unfold uN; nia].
    rewrite (proj2 (Z.ltb_lt _ _)) by (unfold first in *; nia). done.
  - assert (va (of_position first) + (entry_span l - 1) =
      va (of_position (first + (entry_span l - 1)))) as E.
    { assert (first mod entry_span l = 0) as Hm.
      { unfold first, table_base. rewrite Hs. replace (position a / (512 * entry_span l) *
          (512 * entry_span l) + entry_span l * Z.of_nat i) with
          ((position a / (512 * entry_span l) * 512 + Z.of_nat i) * entry_span l) by lia.
        apply Z.mod_mul. lia. }
      clearbody first. unfold of_position. cbn [va]. unfold entry_span in *.
      destruct l; [done| | |]; cbn [level_u8] in *; zcase; mlia. }
    unfold VirtAddr_add, checked_add. rewrite E, checked_in_range by by apply canonical_u64.
    cbn [unwrap mbind outcome_bind]. by apply VirtAddr_new_canonical.
Qed.

(** The page range passed to the recursive call for entry [i]. *)
Definition sub_range (l : PageTableLevel) (range : PageRangeInclusive Size4KiB) (i : nat)
    : PageRangeInclusive Size4KiB :=
  let first := table_base l (Page_start_address (pri_start range)) + entry_span l * Z.of_nat i in
  Page_range_inclusive
    (Page_max (page_at (first / 4096)) (pri_start range))
    (Page_min (page_at ((first + (entry_span l - 1)) / 4096)) (pri_end range)).

Lemma containing_position x :
  0 <= x < 2 ^ 48 ->
  Page_containing_address (of_position x) = Ret (page_at (x / 4096) : Page Size4KiB) /\
  Page_wf (page_at (x / 4096) : Page Size4KiB).
Proof.
  intros Hx.
  destruct (Page_containing_address_val (S := Size4KiB) _ (of_position_canonical x Hx)) as [-> _]. split.
  - f_equal. apply page_ext. unfold page_at, of_position. cbn [page_start va].
    change (SIZE Size4KiB) with 4096. zcase; mlia.
  - apply page_at_wf. change (page_count Size4KiB) with (2 ^ 36). mlia.
Qed.

Lemma entry_pages l a i :
  canonical a -> (i < 512)%nat -> l <> One ->
  let first := table_base l a + entry_span l * Z.of_nat i in
  0 <= first /\ first + (entry_span l - 1) < 2 ^ 48 /\ 1 <= entry_span l.
Proof.
  intros Ha Hi Hl first. pose proof (table_base_range l a Ha) as Hb.
  assert (table_span l = 512 * entry_span l) as Hs by by destruct l.
  assert (0 < entry_span l <= 2 ^ 39) as He by by destruct l.
  assert (entry_span l * Z.of_nat i + entry_span l <= table_span l) as Hlast by nia.
  unfold first. split_and!; nia.
Qed.
End entries.

(** ** The invariant of the clean-up *)
Definition level_at (depth : nat) : PageTableLevel :=
  match depth with 0%nat => Four | 1%nat => Three | 2%nat => Two | _ => One end.

Lemma next_level_at depth :
  (depth < 3)%nat ->
  next_lower_level (level_at depth) = Some (level_at (S depth)) /\ level_at depth <> One.
Proof. intros Hd. destruct depth as [|[|[|]]]; [done|done|done|lia]. Qed.

Section clean_up.
Context `{BFL : BitFieldLaws} `{Target} (H64 : usize_bits = 64).
Context {P : Type} `{PageTableFrameMapping P} `{BL : BitflagsLaws} (self : MappedPageTable P).
Context {D : Type} `{FrameDeallocator D Size4KiB}.
#[local] Abbreviation w := (page_table_walker self).
#[local] Abbreviation p4 := (level_4_table self).

Definition deallocate_all (fs : list (PhysFrame Size4KiB)) (d : D) : D :=
  foldl (fun d f => deallocate_frame f d) d fs.

Lemma deallocate_all_app fs fs' d :
  deallocate_all (fs ++ fs') d = deallocate_all fs' (deallocate_all fs d).
Proof. apply foldl_app. Qed.

Definition empty_table (m : Mem) (q : Z) : Prop := forall i e, get m q i = Some e -> entry e = 0.

(** A freed frame held a table of the hierarchy that is empty and no longer
    part of it. *)
Definition freed (m m' : Mem) (f : PhysFrame Size4KiB) : Prop :=
  exists q, frame_to_pointer (page_table_frame_mapping w) f = Ret q /\
    reachable w m p4 q /\ ~ reachable w m' p4 q /\ empty_table m' q.

(** From [m] to [m'] only empty tables strictly below [pre] were unlinked. *)
Record Cleaned (pre : list nat) (m m' : Mem) (fs : list (PhysFrame Size4KiB)) : Prop := {
  cl_valid : Valid w m' p4;
  cl_view : same_view w m m' p4;
  cl_trail path :
    length path = 4%nat -> is_Some (view w m p4 path) -> trail w m' p4 path = trail w m p4 path;
  cl_shrink path r :
    (length path <= 3)%nat -> table_at w m' p4 path = Some r -> table_at w m p4 path = Some r;
  cl_keep path :
    (length path <= 3)%nat -> (forall j, ~ pre ++ [j] `prefix_of` path) ->
    table_at w m' p4 path = table_at w m p4 path;
  cl_unreachable r j : ~ reachable w m p4 r -> get m' r j = get m r j;
  (** Tables that are not at or below [pre] keep their contents. *)
  cl_frame path r j :
    (length path <= 3)%nat -> ~ pre `prefix_of` path -> table_at w m p4 path = Some r ->
    get m' r j = get m r j;
  cl_freed : Forall (freed m m') fs;
}.

Lemma Cleaned_refl pre m : Valid w m p4 -> Cleaned pre m m [].
Proof. intros HV. by split. Qed.

Lemma Cleaned_reachable pre m m' fs q : Cleaned pre m m' fs -> reachable w m' p4 q -> reachable w m p4 q.
Proof. intros HC (path & Hl & Hq). exists path. split; [done|]. by apply (cl_shrink _ _ _ _ HC). Qed.

Lemma Cleaned_trans pre m1 m2 m3 fs fs' :
  Cleaned pre m1 m2 fs -> Cleaned pre m2 m3 fs' -> Cleaned pre m1 m3 (fs ++ fs').
Proof.
  intros H12 H23. split.
  - apply (cl_valid _ _ _ _ H23).
  - eapply same_view_trans; [apply (cl_view _ _ _ _ H12)|apply (cl_view _ _ _ _ H23)].
  - intros path Hl Hv. rewrite (cl_trail _ _ _ _ H23), (cl_trail _ _ _ _ H12); try done.
    by rewrite (cl_view _ _ _ _ H12).
  - intros path r Hl Hr. apply (cl_shrink _ _ _ _ H12); [done|]. by apply (cl_shrink _ _ _ _ H23).
  - intros path Hl Hn. by rewrite (cl_keep _ _ _ _ H23), (cl_keep _ _ _ _ H12).
  - intros r j Hr. rewrite (cl_unreachable _ _ _ _ H23), (cl_unreachable _ _ _ _ H12); try done.
    intros Hr'. by eapply Hr, Cleaned_reachable.
  - intros path r j Hl Hn Hr. rewrite (cl_frame _ _ _ _ H23 path), (cl_frame _ _ _ _ H12 path); try done.
    rewrite (cl_keep _ _ _ _ H12); [done|done|]. intros i [k ->]. apply Hn.
    exists ([i] ++ k). by rewrite app_assoc.
  - apply Forall_app. split.
    + eapply Forall_impl; [|apply (cl_freed _ _ _ _ H12)]. intros f (q & Hq & Hr & Hnr & He). exists q. split_and!; [done|done| |].
      * intros Hr'. by eapply Hnr, Cleaned_reachable.
      * intros i e. rewrite (cl_unreachable _ _ _ _ H23) by done. apply He.
    + eapply Forall_impl; [|apply (cl_freed _ _ _ _ H23)]. intros f (q & Hq & Hr & Hnr & He). exists q. split_and!; [done| |done|done].
      by eapply Cleaned_reachable.
Qed.

Lemma Cleaned_up pre i m m' fs : Cleaned (pre ++ [i]) m m' fs -> Cleaned pre m m' fs.
Proof.
  intros HC. split; try apply HC.
  - intros path Hl Hn. apply HC; [done|].
    intros j [k ->]. apply (Hn i). rewrite <- !app_assoc. eexists. cbn [app]. by rewrite <- app_assoc.
  - intros path r j Hl Hn. apply (cl_frame _ _ _ _ HC path); [done|].
    intros [k ->]. apply Hn. exists ([i] ++ k). by rewrite app_assoc.
Qed.

(** Unlinking an empty table. *)
Lemma Cleaned_unlink pre m p i e q :
  Valid w m p4 -> (length pre < 3)%nat -> table_at w m p4 pre = Some p ->
  get m p i = Some e -> child w e = Some q -> empty_table m q ->
  Cleaned pre m (upd m p i PageTableEntry_new) [entry_frame e].
Proof.
  intros HV Hl Hp Hg Hc Hz. pose proof (valid_table _ _ _ HV pre p ltac:(lia) Hp) as Ht.
  destruct (get_Some _ _ _ _ Ht Hg) as [Hi _].
  assert (entry_wf PageTableEntry_new) as Hwf by (split; vm_compute; done).
  destruct (store_final w m p4 pre p i PageTableEntry_new) as (HV' & Hshrink & Hview);
    try done || lia; [by right; left|].
  assert (forall r j, reachable w m p4 r -> ~ (r = p /\ j = i) ->
    get (upd m p i PageTableEntry_new) r j = get m r j) as Hold by (intros; by rewrite get_upd, decide_False).
  assert (table_at w m p4 (pre ++ [i]) = Some q) as Hq.
  { rewrite (table_at_snoc _ _ _ _ _ p) by done. by rewrite Hg. }
  assert (q <> p) as Hqp.
  { intros ->. assert (pre ++ [i] = pre) as E%(f_equal length).
    { apply (valid_tree _ _ _ HV _ _ p); try done; [rewrite length_app; simpl; lia|lia]. }
    rewrite length_app in E. simpl in E. lia. }
  assert (forall rest, length (pre ++ i :: rest) = 4%nat -> view w m p4 (pre ++ i :: rest) = None) as Hun.
  { intros rest Hpl. unfold view. rewrite (leaf_through w m p4 0 pre p i e rest) by done. rewrite Hc.
    rewrite !length_app in Hpl. cbn [length] in Hpl. destruct rest as [|j rest]; [simpl in Hpl; lia|].
    simpl. destruct (get m q j) as [x|] eqn:Ex; [|done]. simpl. pose proof (Hz _ _ Ex) as Hx.
    rewrite (child_zero w x Hx). destruct rest; simpl; by rewrite mk_view_zero. }
  split; [done| | |done| | | |].
  - intros path Hpl. rewrite Hview by done. case_decide as Hd; [|done].
    destruct Hd as [rest ->]. rewrite <- app_assoc in *. cbn [app] in *. by rewrite mk_view_zero, Hun.
  - intros path Hpl Hv. apply (trail_other w m _ p4 HV pre p i); [lia|done|done|lia|].
    intros [rest ->]. rewrite <- app_assoc in *. cbn [app] in *. rewrite Hun in Hv by done. by destruct Hv.
  - intros path Hpl Hn. eapply (walk_other w m _ p4 HV pre p i); [lia|done|done|lia|apply Hn].
  - intros r j Hr. rewrite get_upd, decide_False; [done| |done|done].
    intros [-> _]. apply Hr. exists pre. split; [lia|done].
  - intros path r j Hpl Hn Hr. rewrite get_upd, decide_False; [done| |done|done].
    intros [-> _]. apply Hn. rewrite (valid_tree _ _ _ HV path pre p); done || lia.
  - constructor; [|done]. exists q. split_and!.
    + by apply child_pointer.
    + exists (pre ++ [i]). split; [rewrite length_app; simpl; lia|done].
    + intros (path & Hpl & Hr). pose proof (Hshrink path q Hpl Hr) as Hr'.
      assert (path = pre ++ [i]) as ->.
      { apply (valid_tree _ _ _ HV _ _ q); try done. rewrite length_app. simpl. lia. }
      rewrite (table_at_snoc _ _ _ _ _ p) in Hr.
      * by rewrite get_upd, decide_True in Hr.
      * apply (table_at_pre w m _ p4 HV pre p i); [lia|done|done].
    + intros j x. rewrite get_upd, decide_False by (done || naive_solver). apply Hz.
Qed.

(** ** Execution *)
Definition range_wf (range : PageRangeInclusive Size4KiB) : Prop :=
  Page_wf (pri_start range) /\ Page_wf (pri_end range).

(** What one call of the inner [clean_up] on the table [p] at [pre] does. *)
Definition cleans (call : Z -> PageRangeInclusive Size4KiB -> Mem * D -> outcome (bool * (Mem * D)))
    (pre : list nat) : Prop :=
  forall m d p range, Valid w m p4 -> table_at w m p4 pre = Some p -> range_wf range ->
    exists b m' fs, call p range (m, d) = Ret (b, (m', deallocate_all fs d)) /\
      Cleaned pre m m' fs /\ (b = true -> empty_table m' p).

Lemma index_of_nat i : (i < 512)%nat ->
  PageTableIndex_wf (mkPageTableIndex (Z.of_nat i)) /\ ix (mkPageTableIndex (Z.of_nat i)) = i.
Proof. intros Hi. unfold PageTableIndex_wf, ENTRY_COUNT, ix. cbn [pti]. lia. Qed.

(** The loop body: nothing for an entry without a table, otherwise the
    recursive call and, when it reports an empty table, the unlinking. *)
Lemma clean_up_entry_eval call pre m d p range i e :
  Valid w m p4 -> table_at w m p4 pre = Some p -> (length pre < 3)%nat -> (i < 512)%nat ->
  range_wf range -> get m p i = Some e ->
  let l := level_at (length pre) in
  range_wf (sub_range l range i) /\
  clean_up_entry call w p (of_position (table_base l (Page_start_address (pri_start range))))
    (entry_address_space_alignment l) range i (m, d) =
  match child w e with
  | None => Ret (m, d)
  | Some q =>
      '(empty, s) ← call q (sub_range l range i) (m, d);
      if empty : bool then
        e ← read_entry (fst s) p (mkPageTableIndex (Z.of_nat i));
        r ← PageTableEntry_frame e;
        frame ← unwrap_ok r;
        m ← write_entry (fst s) p (mkPageTableIndex (Z.of_nat i)) (PageTableEntry_set_unused e);
        Ret (m, deallocate_frame frame (snd s))
      else Ret s
  end.
Proof.
  intros HV Hp Hl Hi [Hs He] Hg l. destruct (next_level_at (length pre) Hl) as [_ Hl1].
  destruct (index_of_nat i Hi) as [Hwf Hix].
  set (a := Page_start_address (pri_start range)). assert (canonical a) as Ha by apply Hs.
  destruct (entry_pages l a i Ha Hi Hl1) as (Hf1 & Hf2 & Hf3).
  set (first := table_base l a + entry_span l * Z.of_nat i) in *.
  destruct (containing_position first ltac:(lia)) as [C1 W1].
  destruct (containing_position (first + (entry_span l - 1)) ltac:(lia)) as [C2 W2].
  split.
  { split; cbn [sub_range Page_range_inclusive pri_start pri_end]; fold a; fold first;
      unfold Page_max, Page_min; by destruct (Page_ltb _ _). }
  assert (walkable w m e) as Hw by (apply (valid_walkable w m p4 pre p i); done || lia).
  assert (next_table_mut w p (mkPageTableIndex (Z.of_nat i)) m = Ret (step_result w e, m)) as En.
  { apply next_table_mut_run; [done|by rewrite Hix|done]. }
  unfold clean_up_entry. cbn [fst snd]. rewrite En. cbn [mbind outcome_bind]. unfold step_result.
  destruct (child w e) as [q|] eqn:Ec; [|done].
  rewrite (proj2 (table_alignment_val l)).
  destruct (entry_addr_range H64 l a i Ha Hi Hl1) as (E1 & E2 & E3 & _).
  rewrite E1. cbn [mbind outcome_bind]. rewrite E2. cbn [unwrap mbind outcome_bind].
  rewrite (arith_in_range 64) by (destruct l; split; vm_compute; done).
  cbn [mbind outcome_bind]. rewrite E3. cbn [mbind outcome_bind]. fold first. rewrite C1.
  cbn [mbind outcome_bind]. by rewrite C2.
Qed.

(** The unlinking, after a call that left the table of entry [i] empty. *)
Lemma unlink_eval pre i m m1 fs d p q :
  Cleaned (pre ++ [i]) m m1 fs -> (length pre < 3)%nat -> (i < 512)%nat ->
  table_at w m p4 pre = Some p -> table_at w m p4 (pre ++ [i]) = Some q -> empty_table m1 q ->
  exists f,
    (e ← read_entry m1 p (mkPageTableIndex (Z.of_nat i));
     r ← PageTableEntry_frame e;
     frame ← unwrap_ok r;
     m ← write_entry m1 p (mkPageTableIndex (Z.of_nat i)) (PageTableEntry_set_unused e);
     Ret (m, deallocate_frame frame d)) =
      Ret (upd m1 p i PageTableEntry_new, deallocate_frame f d) /\
    table_at w m1 p4 pre = Some p /\ Valid w m1 p4 /\
    Cleaned pre m1 (upd m1 p i PageTableEntry_new) [f] /\
    frame_to_pointer (page_table_frame_mapping w) f = Ret q.
Proof.
  intros HC Hl Hi Hp Hq Hz. destruct (index_of_nat i Hi) as [Hwf Hix].
  assert (table_at w m1 p4 pre = Some p) as Hp1.
  { rewrite (cl_keep _ _ _ _ HC); [done|lia|]. intros j [k E%(f_equal length)].
    rewrite !length_app in E. simpl in E. lia. }
  assert (table_at w m1 p4 (pre ++ [i]) = Some q) as Hq1.
  { rewrite (cl_keep _ _ _ _ HC); [done|rewrite length_app; simpl; lia|]. intros j. apply not_prefix_self. }
  rewrite (table_at_snoc _ _ _ _ _ p) in Hq1 by done.
  destruct (get m1 p i) as [e1|] eqn:Hg1; [|done]. cbn [mbind option_bind] in Hq1.
  pose proof (cl_valid _ _ _ _ HC) as HV1.
  pose proof (valid_table _ _ _ HV1 pre p ltac:(lia) Hp1) as Ht1.
  destruct (get_Some _ _ _ _ Ht1 Hg1) as [_ He1].
  assert (is_present e1 = true) as Hpr.
  { unfold child in Hq1. destruct (is_huge e1); [done|]. by destruct (is_present e1). }
  exists (entry_frame e1).
  split_and!; [|done|done|by apply (Cleaned_unlink pre m1 p i e1 q)|by apply child_pointer].
  rewrite (read_entry_get m1 p (mkPageTableIndex (Z.of_nat i)) e1) by (done || by rewrite Hix).
  cbn [mbind outcome_bind]. rewrite PageTableEntry_frame_val by done.
  fold (is_present e1). fold (entry_frame e1). rewrite Hpr.
  cbn [unwrap_ok mbind outcome_bind]. rewrite write_entry_upd by done. by rewrite Hix.
Qed.

Lemma clean_up_entry_run call pre m d p range i :
  Valid w m p4 -> table_at w m p4 pre = Some p -> (length pre < 3)%nat -> (i < 512)%nat ->
  range_wf range -> cleans call (pre ++ [i]) ->
  let l := level_at (length pre) in
  exists m' fs,
    clean_up_entry call w p (of_position (table_base l (Page_start_address (pri_start range))))
      (entry_address_space_alignment l) range i (m, d) = Ret (m', deallocate_all fs d) /\
    Cleaned pre m m' fs.
Proof.
  intros HV Hp Hl Hi Hr Hcall. cbn zeta.
  pose proof (valid_table _ _ _ HV pre p ltac:(lia) Hp) as Ht.
  destruct (get_is_Some m p i Ht Hi) as (e & Hg & _).
  destruct (clean_up_entry_eval call pre m d p range i e HV Hp Hl Hi Hr Hg) as [Hsr ->].
  destruct (child w e) as [q|] eqn:Ec; [|exists m, []; split; [done|by apply Cleaned_refl]].
  assert (table_at w m p4 (pre ++ [i]) = Some q) as Hq.
  { rewrite (table_at_snoc _ _ _ _ _ p) by done. by rewrite Hg. }
  destruct (Hcall m d q _ HV Hq Hsr) as (b & m1 & fs & -> & HC & Hb).
  cbn [mbind outcome_bind fst snd]. destruct b.
  - destruct (unlink_eval pre i m m1 fs (deallocate_all fs d) p q) as (f & -> & _ & _ & HC' & _); auto.
    exists (upd m1 p i PageTableEntry_new), (fs ++ [f]).
    split; [by rewrite deallocate_all_app|].
    eapply Cleaned_trans; [by eapply Cleaned_up|done].
  - exists m1, fs. split; [done|by eapply Cleaned_up].
Qed.

Lemma clean_up_entries_run body pre p is_ m d :
  (forall m d i, In i is_ -> Valid w m p4 -> table_at w m p4 pre = Some p ->
     exists m' fs, body i (m, d) = Ret (m', deallocate_all fs d) /\ Cleaned pre m m' fs) ->
  Valid w m p4 -> (length pre <= 3)%nat -> table_at w m p4 pre = Some p ->
  exists m' fs, clean_up_entries body is_ (m, d) = Ret (m', deallocate_all fs d) /\ Cleaned pre m m' fs.
Proof.
  intros Hbody HV Hl. revert m d HV. induction is_ as [|i is_ IH]; intros m d HV Hp.
  { exists m, []. split; [done|by apply Cleaned_refl]. }
  destruct (Hbody m d i) as (m1 & fs1 & E1 & HC1); [by left|done|done|].
  destruct IH with (m := m1) (d := deallocate_all fs1 d) as (m2 & fs2 & E2 & HC2).
  - intros m' d' j Hj. apply Hbody. by right.
  - apply (cl_valid _ _ _ _ HC1).
  - rewrite (cl_keep _ _ _ _ HC1); [done|done|]. intros j. apply not_prefix_self.
  - exists m2, (fs1 ++ fs2). simpl. rewrite E1. cbn [mbind outcome_bind]. rewrite E2.
    split; [by rewrite deallocate_all_app|by eapply Cleaned_trans].
Qed.

Lemma is_empty_table m p t : m !! p = Some t -> PageTable_is_empty t = true -> empty_table m p.
Proof.
  intros Et He%PageTable_is_empty_true i e. unfold get. rewrite Et. simpl. intros Ei.
  by eapply Forall_lookup_1 in He.
Qed.

Lemma clean_up_table_run fuel pre :
  (length pre <= 3)%nat -> (4 - length pre <= fuel)%nat ->
  cleans (fun p r s => clean_up_table fuel w p (level_at (length pre)) r s) pre.
Proof.
  revert pre. induction fuel as [|fuel IH]; intros pre Hl Hfuel; [lia|].
  intros m d p range HV Hp Hr. pose proof Hr as [Hs He]. cbn [clean_up_table].
  destruct (PageRangeInclusive_is_empty range).
  { exists false, m, []. split; [done|]. split; [by apply Cleaned_refl|done]. }
  rewrite table_addr_val by apply Hs. cbn [mbind outcome_bind].
  set (is_ := seq _ _).
  assert (forall i, In i is_ -> (i < 512)%nat) as His.
  { intros i Hi%in_seq. pose proof (PageTableIndex_new_truncate_wf
      (wrap 16 (Z.shiftr (Z.shiftr (va (page_start (pri_end range))) 12)
        ((level_u8 (level_at (length pre)) - 1) * 9)))) as Hw.
    change (PageTableIndex_wf (Page_page_table_index (pri_end range) (level_at (length pre)))) in Hw.
    unfold PageTableIndex_wf, ENTRY_COUNT in Hw. lia. }
  assert (exists m' fs,
    match next_lower_level (level_at (length pre)) with
    | Some next_level => clean_up_entries
        (clean_up_entry (fun p' r s => clean_up_table fuel w p' next_level r s) w p
          (of_position (table_base (level_at (length pre)) (Page_start_address (pri_start range))))
          (entry_address_space_alignment (level_at (length pre))) range) is_ (m, d)
    | None => Ret (m, d)
    end = Ret (m', deallocate_all fs d) /\ Cleaned pre m m' fs) as (m' & fs & E & HC).
  { destruct (decide (length pre < 3)%nat) as [Hl3|Hl3].
    - rewrite (proj1 (next_level_at (length pre) Hl3)).
      apply (clean_up_entries_run _ pre p); [|done|done|done].
      intros m0 d0 i Hi HV0 Hp0. apply clean_up_entry_run; auto.
      assert (length (pre ++ [i]) = S (length pre)) as El by (rewrite length_app; simpl; lia).
      rewrite <- El. apply IH; lia.
    - exists m, []. replace (length pre) with 3%nat by lia. split; [done|by apply Cleaned_refl]. }
  rewrite E. cbn [mbind outcome_bind fst].
  assert (table_at w m' p4 pre = Some p) as Hp'.
  { rewrite (cl_keep _ _ _ _ HC); [done|done|]. intros j. apply not_prefix_self. }
  destruct (valid_table _ _ _ (cl_valid _ _ _ _ HC) pre p Hl Hp') as (t & Et & _).
  unfold deref. rewrite Et. cbn [mbind outcome_bind].
  exists (PageTable_is_empty t), m', fs. split; [done|]. split; [done|]. by apply is_empty_table.
Qed.

(** Clean-up of a range and of everything. *)
Lemma clean_up_addr_range_run m d (range : PageRangeInclusive Size4KiB) :
  mapper_valid self m -> range_wf range ->
  exists m' fs, clean_up_addr_range self range (m, d) = Ret (m', deallocate_all fs d) /\
    Cleaned [] m m' fs.
Proof.
  intros HV Hwf.
  destruct (clean_up_table_run 4 [] ltac:(simpl; lia) ltac:(simpl; lia) m d p4 range HV eq_refl Hwf)
    as (b & m' & fs & E & HC & _).
  exists m', fs. cbn [length level_at] in E. split; [|done].
  unfold clean_up_addr_range, MappedPageTable_CleanUp, MappedPageTable_clean_up_addr_range. by rewrite E.
Qed.

Lemma all_pages_wf : range_wf (mkPageRangeInclusive (page_at 0) (page_at (page_count Size4KiB - 1))).
Proof. split; apply page_at_wf; vm_compute; done. Qed.

Lemma clean_up_run m d :
  mapper_valid self m ->
  exists m' fs, clean_up self (m, d) = Ret (m', deallocate_all fs d) /\ Cleaned [] m m' fs.
Proof. intros HV. apply (clean_up_addr_range_run m d _ HV all_pages_wf). Qed.

Lemma Cleaned_translation pre m m' fs :
  mapper_valid self m -> Cleaned pre m m' fs ->
  mapper_valid self m' /\ same_translation self m m' /\ Forall (freed m m') fs.
Proof.
  intros HV HC. split; [apply (cl_valid _ _ _ _ HC)|]. split; [|apply (cl_freed _ _ _ _ HC)].
  apply same_view_translation; [done|apply (cl_valid _ _ _ _ HC)|apply (cl_view _ _ _ _ HC)].
Qed.

Lemma clean_up_spec m d (range : PageRangeInclusive Size4KiB) :
  mapper_valid self m -> range_wf range ->
  (exists m' fs, clean_up_addr_range self range (m, d) = Ret (m', deallocate_all fs d) /\
     mapper_valid self m' /\ same_translation self m m' /\ Forall (freed m m') fs) /\
  (exists m' fs, clean_up self (m, d) = Ret (m', deallocate_all fs d) /\
     mapper_valid self m' /\ same_translation self m m' /\ Forall (freed m m') fs).
Proof.
  intros HV Hr. split.
  - destruct (clean_up_addr_range_run m d range HV Hr) as (m' & fs & E & HC).
    exists m', fs. split; [done|]. by apply (Cleaned_translation []).
  - destruct (clean_up_run m d HV) as (m' & fs & E & HC).
    exists m', fs. split; [done|]. by apply (Cleaned_translation []).
Qed.

(** C4. [clean_up_addr_range] and [clean_up] on a valid hierarchy terminate
    without panic or fault (on a target with 64-bit [usize]), keep the
    hierarchy valid and change no translation; each frame they deallocate held
    a table of the hierarchy that is empty and that the hierarchy no longer
    uses. *)
Theorem clean_up_correct m d (range : PageRangeInclusive Size4KiB) :
  mapper_valid self m -> range_wf range ->
  (exists m' fs, clean_up_addr_range self range (m, d) = Ret (m', deallocate_all fs d) /\
     mapper_valid self m' /\ same_translation self m m' /\ Forall (freed m m') fs) /\
  (exists m' fs, clean_up self (m, d) = Ret (m', deallocate_all fs d) /\
     mapper_valid self m' /\ same_translation self m m' /\ Forall (freed m m') fs).
Proof. apply clean_up_spec. Qed.
End clean_up.
