(* ===== verification/CleanUpFull.v ===== *)
(** * [clean_up] removes all empty page tables

    The unrestricted [clean_up] visits every table: the recursive calls cover
    exactly the pages below the table they are given, and afterwards no table
    below the level 4 table is empty. *)
From Stdlib Require Import ZArith Lia Bool.
From stdpp Require Import base decidable option list gmap numbers.
From S2P Require Import Prelude Crates Index Addr Page Frame PageTable Mapper.
From S2P Require Import MappedPageTable PageWalk MapperSpec MapperCreate MapperProofs CleanUp.
#[local] Open Scope Z_scope.

(** ** The pages below a table *)
Definition path_number (pre : list nat) : Z := foldl (fun acc i => acc * 512 + Z.of_nat i) 0 pre.
Definition span_pages (depth : nat) : Z := 2 ^ (9 * (4 - Z.of_nat depth)).
Definition full_range (pre : list nat) : PageRangeInclusive Size4KiB :=
  let n := span_pages (length pre) in
  Page_range_inclusive (page_at (path_number pre * n)) (page_at (path_number pre * n + (n - 1))).

Lemma path_number_snoc pre i : path_number (pre ++ [i]) = path_number pre * 512 + Z.of_nat i.
Proof. unfold path_number. by rewrite foldl_app. Qed.

Lemma path_number_range pre :
  Forall (fun i => (i < 512)%nat) pre -> 0 <= path_number pre < 2 ^ (9 * Z.of_nat (length pre)).
Proof.
  induction pre as [|i pre IH] using rev_ind; intros Hf; [vm_compute; done|].
  apply Forall_app in Hf as [Hf Hi]. apply Forall_cons_iff in Hi as [Hi _].
  rewrite path_number_snoc, length_app. cbn [length].
  replace (9 * Z.of_nat (length pre + 1)) with (9 * Z.of_nat (length pre) + 9) by lia.
  rewrite Z.pow_add_r by lia. change (2 ^ 9) with 512. specialize (IH Hf). lia.
Qed.

(** The first and the last page are in range. *)
Lemma full_range_pages pre :
  (length pre <= 3)%nat -> Forall (fun i => (i < 512)%nat) pre ->
  let a := path_number pre * span_pages (length pre) in
  let b := a + (span_pages (length pre) - 1) in
  0 <= a /\ a < b /\ b < page_count Size4KiB.
Proof.
  intros Hl Hf a b. pose proof (path_number_range pre Hf) as Hn. change (page_count Size4KiB) with (2 ^ 36).
  assert (2 ^ (9 * Z.of_nat (length pre)) * span_pages (length pre) = 2 ^ 36) as Hm.
  { unfold span_pages. rewrite <- Z.pow_add_r by lia. f_equal. lia. }
  assert (512 <= span_pages (length pre)) as Hs.
  { unfold span_pages. change 512 with (2 ^ 9). apply Z.pow_le_mono_r; lia. }
  unfold b, a. nia.
Qed.

Lemma full_range_wf pre :
  (length pre <= 3)%nat -> Forall (fun i => (i < 512)%nat) pre ->
  range_wf (full_range pre) /\ PageRangeInclusive_is_empty (full_range pre) = false.
Proof.
  intros Hl Hf. destruct (full_range_pages pre Hl Hf) as (Ha & Hab & Hb).
  split; [split; apply page_at_wf; lia|].
  unfold PageRangeInclusive_is_empty, full_range. cbn [Page_range_inclusive pri_start pri_end].
  rewrite page_at_ltb by lia. apply Z.ltb_ge. lia.
Qed.

(** Table indices of a page by its number. *)
Lemma page_at_level_index n depth :
  0 <= n < page_count Size4KiB -> (depth <= 3)%nat ->
  pti (Page_page_table_index (page_at n : Page Size4KiB) (level_at depth)) =
    n / 2 ^ (9 * (3 - Z.of_nat depth)) mod 512.
Proof.
  intros Hn Hd. change (page_count Size4KiB) with (2 ^ 36) in Hn.
  destruct (page_at_4kib_index n Hn) as (E1 & E2 & E3 & E4).
  unfold Page_p1_index, Page_p2_index, Page_p3_index, Page_p4_index in *.
  destruct (VirtAddr_page_table_index_levels (page_start (page_at n : Page Size4KiB)))
    as (L1 & L2 & L3 & L4).
  unfold Page_page_table_index, Page_start_address in *.
  destruct depth as [|[|[|[|]]]]; [| | | |lia]; cbn [level_at Z.of_nat Pos.of_succ_nat Pos.succ].
  - rewrite L4, E4. change (2 ^ (9 * (3 - 0))) with (512 * 512 * 512).
    rewrite !Z.div_div by lia. rewrite Z.mod_small; [done|]. mlia.
  - rewrite L3, E3. change (2 ^ (9 * (3 - 1))) with (512 * 512). by rewrite Z.div_div by lia.
  - by rewrite L2, E2.
  - rewrite L1, E1. change (2 ^ (9 * (3 - 3))) with 1. by rewrite Z.div_1_r.
Qed.

Lemma full_range_indices pre :
  (length pre < 3)%nat -> Forall (fun i => (i < 512)%nat) pre ->
  pti (Page_page_table_index (pri_start (full_range pre)) (level_at (length pre))) = 0 /\
  pti (Page_page_table_index (pri_end (full_range pre)) (level_at (length pre))) = 511.
Proof.
  intros Hl Hf. destruct (full_range_pages pre ltac:(lia) Hf) as (Ha & Hab & Hb).
  cbn [full_range Page_range_inclusive pri_start pri_end].
  rewrite !page_at_level_index by lia.
  assert (span_pages (length pre) = 512 * 2 ^ (9 * (3 - Z.of_nat (length pre)))) as Es.
  { unfold span_pages. change 512 with (2 ^ 9). rewrite <- Z.pow_add_r by lia. f_equal. lia. }
  rewrite Es in *. set (k := 2 ^ (9 * (3 - Z.of_nat (length pre)))) in *.
  assert (0 < k) as Hk by (apply Z.pow_pos_nonneg; lia).
  set (c := path_number pre) in *. split.
  - replace (c * (512 * k)) with (c * 512 * k) by lia. rewrite Z.div_mul by lia. by apply Z.mod_mul.
  - replace (c * (512 * k) + (512 * k - 1)) with ((k - 1) + (c * 512 + 511) * k) by lia.
    rewrite Z.div_add by lia. rewrite Z.div_small by lia.
    replace (0 + (c * 512 + 511)) with (511 + c * 512) by lia. by rewrite Z.mod_add.
Qed.

(** The recursive call for entry [i] gets exactly the pages below it. *)
Lemma sub_range_full pre i :
  (length pre < 3)%nat -> Forall (fun i => (i < 512)%nat) pre -> (i < 512)%nat ->
  sub_range (level_at (length pre)) (full_range pre) i = full_range (pre ++ [i]).
Proof.
  intros Hl Hf Hi. destruct (full_range_pages pre ltac:(lia) Hf) as (Ha & Hab & Hb).
  assert (Forall (fun i => (i < 512)%nat) (pre ++ [i])) as Hf' by (apply Forall_app; auto).
  destruct (full_range_pages (pre ++ [i]) ltac:(rewrite length_app; simpl; lia) Hf') as (Ha' & Hab' & Hb').
  pose proof (path_number_snoc pre i) as En.
  assert (length (pre ++ [i]) = S (length pre)) as El by (rewrite length_app; simpl; lia).
  unfold sub_range, full_range. rewrite El in *. cbn [Page_range_inclusive pri_start pri_end].
  set (c := path_number pre) in *. set (c' := path_number (pre ++ [i])) in *.
  assert (position (Page_start_address (page_at (c * span_pages (length pre)) : Page Size4KiB)) =
    c * span_pages (length pre) * 4096) as Ep.
  { unfold Page_start_address, page_at. cbn [page_start]. apply position_of_position.
    change (page_count Size4KiB) with (2 ^ 36) in Hb. change (SIZE Size4KiB) with 4096. lia. }
  unfold table_base. rewrite Ep.
  assert (table_span (level_at (length pre)) = span_pages (length pre) * 4096 /\
    entry_span (level_at (length pre)) = span_pages (S (length pre)) * 4096 /\
    span_pages (length pre) = 512 * span_pages (S (length pre))) as (Et & Ee & Es).
  { destruct (length pre) as [|[|[|]]]; [done|done|done|lia]. }
  rewrite Et, Ee. set (k := span_pages (length pre)) in *. set (k' := span_pages (S (length pre))) in *.
  assert (0 < k') as Hk by (apply Z.pow_pos_nonneg; lia).
  replace (c * k * 4096) with (c * (k * 4096)) by lia. rewrite Z.div_mul by lia.
  replace (c * (k * 4096) + k' * 4096 * Z.of_nat i) with (c' * k' * 4096) by (rewrite En, Es; lia).
  rewrite Z.div_mul by lia.
  replace ((c' * k' * 4096 + (k' * 4096 - 1)) / 4096) with (c' * k' + (k' - 1))
    by (apply Z.div_unique with 4095; lia).
  assert (c * k <= c' * k' /\ c' * k' + (k' - 1) <= c * k + (k - 1)) as [H1 H2] by (rewrite En, Es; nia).
  unfold Page_max, Page_min. rewrite !page_at_ltb by lia.
  f_equal; zcase; try done; f_equal; lia.
Qed.

(** ** Execution on the full range *)
Section full.
Context `{BFL : BitFieldLaws} `{Target} (H64 : usize_bits = 64).
Context {P : Type} `{PageTableFrameMapping P} `{BL : BitflagsLaws} (self : MappedPageTable P).
Context {D : Type} `{FrameDeallocator D Size4KiB}.
#[local] Abbreviation w := (page_table_walker self).
#[local] Abbreviation p4 := (level_4_table self).

(** No table at or below [path] is empty. *)
Definition nonempty_from (m : Mem) (path : list nat) : Prop :=
  forall rest q, (length (path ++ rest) <= 3)%nat -> table_at w m p4 (path ++ rest) = Some q ->
    ~ empty_table m q.

(** The tables at and below [path] are the same in both memories. *)
Definition same_from (m m' : Mem) (path : list nat) : Prop :=
  forall rest, (length (path ++ rest) <= 3)%nat ->
    table_at w m' p4 (path ++ rest) = table_at w m p4 (path ++ rest) /\
    forall q j, table_at w m p4 (path ++ rest) = Some q -> get m' q j = get m q j.

Lemma same_from_nonempty m m' path : same_from m m' path -> nonempty_from m path -> nonempty_from m' path.
Proof.
  intros Hs Hn rest q Hl Hq He. destruct (Hs rest Hl) as [E Hg]. rewrite E in Hq.
  apply (Hn rest q Hl Hq). intros i e. rewrite <- (Hg q i Hq). apply He.
Qed.

Lemma same_from_trans m1 m2 m3 path : same_from m1 m2 path -> same_from m2 m3 path -> same_from m1 m3 path.
Proof.
  intros H12 H23 rest Hl. destruct (H12 rest Hl) as [E1 G1], (H23 rest Hl) as [E2 G2].
  split; [congruence|]. intros q j Hq. rewrite G2, G1; congruence.
Qed.

(** A call on the full range of [pre] leaves no empty table below it. *)
Definition cleans_full
    (call : Z -> PageRangeInclusive Size4KiB -> Mem * D -> outcome (bool * (Mem * D)))
    (pre : list nat) : Prop :=
  forall m d p, Valid w m p4 -> table_at w m p4 pre = Some p ->
    exists b m' fs, call p (full_range pre) (m, d) = Ret (b, (m', deallocate_all fs d)) /\
      Cleaned self pre m m' fs /\ (b = true <-> empty_table m' p) /\
      forall i, nonempty_from m' (pre ++ [i]).

Lemma sibling_not_prefix (pre rest k : list nat) i i0 : i0 <> i -> pre ++ i0 :: rest <> (pre ++ [i]) ++ k.
Proof. intros Hne E. rewrite <- app_assoc in E. apply app_inv_head in E. by simplify_eq/=. Qed.

Lemma Cleaned_siblings pre i i0 m m' fs :
  Cleaned self (pre ++ [i]) m m' fs -> i0 <> i -> same_from m m' (pre ++ [i0]).
Proof.
  intros HC Hne rest Hl. rewrite <- app_assoc in *. cbn [app] in *. split.
  - apply (cl_keep _ _ _ _ _ HC); [done|]. intros j [k E]. rewrite <- app_assoc in E.
    by eapply sibling_not_prefix in E.
  - intros q j Hq. apply (cl_frame _ _ _ _ _ HC (pre ++ i0 :: rest)); [done| |done].
    intros [k E]. by eapply sibling_not_prefix in E.
Qed.

Lemma unlink_siblings pre p i i0 e m :
  Valid w m p4 -> (length pre < 3)%nat -> table_at w m p4 pre = Some p -> (i < 512)%nat -> i0 <> i ->
  same_from m (upd m p i e) (pre ++ [i0]).
Proof.
  intros HV Hl Hp Hi Hne rest Hlr. rewrite <- app_assoc in *. cbn [app] in *.
  pose proof (valid_table _ _ _ HV pre p ltac:(lia) Hp) as Ht. split.
  - eapply (walk_other w m (upd m p i e) p4 HV pre p i); [lia|done| |lia|].
    + intros r j _ Hd. by rewrite get_upd, decide_False.
    + intros [k E]. by eapply sibling_not_prefix in E.
  - intros q j Hq. rewrite get_upd, decide_False; [done| |done|done]. intros [-> _].
    assert (pre ++ i0 :: rest = pre) as E%(f_equal length) by (by apply (valid_tree _ _ _ HV _ _ p); [| lia| |]).
    rewrite length_app in E. simpl in E. lia.
Qed.

Lemma nonempty_from_None m path : table_at w m p4 path = None -> nonempty_from m path.
Proof. intros E rest q _. by rewrite table_at_app, E. Qed.

Lemma clean_up_entry_full call pre m d p i :
  Valid w m p4 -> table_at w m p4 pre = Some p -> (length pre < 3)%nat ->
  Forall (fun i => (i < 512)%nat) pre -> (i < 512)%nat -> cleans_full call (pre ++ [i]) ->
  let l := level_at (length pre) in
  exists m' fs,
    clean_up_entry call w p (of_position (table_base l (Page_start_address (pri_start (full_range pre)))))
      (entry_address_space_alignment l) (full_range pre) i (m, d) = Ret (m', deallocate_all fs d) /\
    Cleaned self pre m m' fs /\ nonempty_from m' (pre ++ [i]) /\
    forall i0, i0 <> i -> same_from m m' (pre ++ [i0]).
Proof.
  intros HV Hp Hl Hf Hi Hcall. cbn zeta.
  pose proof (valid_table _ _ _ HV pre p ltac:(lia) Hp) as Ht.
  destruct (get_is_Some m p i Ht Hi) as (e & Hg & _).
  destruct (full_range_wf pre ltac:(lia) Hf) as [Hr _].
  destruct (clean_up_entry_eval H64 self call pre m d p (full_range pre) i e HV Hp Hl Hi Hr Hg) as [_ ->].
  rewrite sub_range_full by done.
  pose proof (table_at_snoc w m p4 pre i p Hp) as Hq. rewrite Hg in Hq. cbn [mbind option_bind] in Hq.
  destruct (child w e) as [q|] eqn:Ec.
  2: { exists m, []. split_and!; [done|by apply Cleaned_refl|by apply nonempty_from_None|done]. }
  destruct (Hcall m d q HV Hq) as (b & m1 & fs & -> & HC & Hb & Hn).
  cbn [mbind outcome_bind fst snd]. destruct b.
  - destruct (unlink_eval self pre i m m1 fs (deallocate_all fs d) p q) as (f & -> & Hp1 & HV1 & HC' & _);
      [done|done|done|done|done|by apply Hb|].
    exists (upd m1 p i PageTableEntry_new), (fs ++ [f]). split_and!.
    + by rewrite deallocate_all_app.
    + eapply Cleaned_trans; [by eapply Cleaned_up|done].
    + apply nonempty_from_None.
      pose proof (valid_table _ _ _ HV1 pre p ltac:(lia) Hp1) as Ht1.
      rewrite (table_at_snoc _ _ _ _ _ p).
      * by rewrite get_upd, decide_True.
      * apply (table_at_pre w m1 _ p4 HV1 pre p i); [lia|done|]. intros. by rewrite get_upd, decide_False.
    + intros i0 Hne. eapply same_from_trans; [by eapply Cleaned_siblings|by apply unlink_siblings].
  - exists m1, fs. split_and!; [done|by eapply Cleaned_up| |intros; by eapply Cleaned_siblings].
    intros [|j rest] r Hlr Hr1.
    + rewrite app_nil_r, (cl_keep _ _ _ _ _ HC) in Hr1; [|rewrite length_app; simpl; lia|intros; apply not_prefix_self].
      assert (r = q) as -> by congruence. intros Hz. by apply Hb in Hz.
    + apply (Hn j rest); [by rewrite <- app_assoc|by rewrite <- app_assoc].
Qed.

Lemma clean_up_entries_full body pre p is_ m d :
  (forall m d i, In i is_ -> Valid w m p4 -> table_at w m p4 pre = Some p ->
     exists m' fs, body i (m, d) = Ret (m', deallocate_all fs d) /\ Cleaned self pre m m' fs /\
       nonempty_from m' (pre ++ [i]) /\ forall i0, i0 <> i -> same_from m m' (pre ++ [i0])) ->
  Valid w m p4 -> (length pre <= 3)%nat -> table_at w m p4 pre = Some p ->
  exists m' fs, clean_up_entries body is_ (m, d) = Ret (m', deallocate_all fs d) /\
    Cleaned self pre m m' fs /\ (forall i, In i is_ -> nonempty_from m' (pre ++ [i])) /\
    forall i0, ~ In i0 is_ -> same_from m m' (pre ++ [i0]).
Proof.
  intros Hbody HV Hl. revert m d HV. induction is_ as [|i is_ IH]; intros m d HV Hp.
  { exists m, []. split_and!; [done|by apply Cleaned_refl|done|done]. }
  destruct (Hbody m d i) as (m1 & fs1 & E1 & HC1 & Hn1 & Hs1); [by left|done|done|].
  destruct IH with (m := m1) (d := deallocate_all fs1 d) as (m2 & fs2 & E2 & HC2 & Hn2 & Hs2).
  - intros m' d' j Hj. apply Hbody. by right.
  - apply (cl_valid _ _ _ _ _ HC1).
  - rewrite (cl_keep _ _ _ _ _ HC1); [done|done|]. intros j. apply not_prefix_self.
  - exists m2, (fs1 ++ fs2). simpl. rewrite E1. cbn [mbind outcome_bind]. rewrite E2.
    split_and!; [by rewrite deallocate_all_app|by eapply Cleaned_trans| |].
    + intros j [->|Hj]; [|by apply Hn2]. destruct (in_dec Nat.eq_dec j is_); [by apply Hn2|].
      eapply same_from_nonempty; [by apply Hs2|done].
    + intros j Hj. eapply same_from_trans; [apply Hs1; naive_solver|apply Hs2; naive_solver].
Qed.

Lemma empty_is_empty m p t : m !! p = Some t -> empty_table m p -> PageTable_is_empty t = true.
Proof.
  intros Et Hz. apply PageTable_is_empty_true, Forall_lookup_2. intros i e Ei.
  apply (Hz i). unfold get. by rewrite Et.
Qed.

Lemma clean_up_table_full fuel pre :
  (length pre <= 3)%nat -> (4 - length pre <= fuel)%nat -> Forall (fun i => (i < 512)%nat) pre ->
  cleans_full (fun p r s => clean_up_table fuel w p (level_at (length pre)) r s) pre.
Proof.
  revert pre. induction fuel as [|fuel IH]; intros pre Hl Hfuel Hf; [lia|].
  intros m d p HV Hp. destruct (full_range_wf pre Hl Hf) as [[Hs _] Hne].
  cbn [clean_up_table]. rewrite Hne, table_addr_val by apply Hs. cbn [mbind outcome_bind].
  assert (exists m' fs,
    match next_lower_level (level_at (length pre)) with
    | Some next_level => clean_up_entries
        (clean_up_entry (fun p' r s => clean_up_table fuel w p' next_level r s) w p
          (of_position (table_base (level_at (length pre)) (Page_start_address (pri_start (full_range pre)))))
          (entry_address_space_alignment (level_at (length pre))) (full_range pre))
        (seq (Z.to_nat (pti (Page_page_table_index (pri_start (full_range pre)) (level_at (length pre)))))
          (Z.to_nat (pti (Page_page_table_index (pri_end (full_range pre)) (level_at (length pre)))) + 1 -
           Z.to_nat (pti (Page_page_table_index (pri_start (full_range pre)) (level_at (length pre))))))
        (m, d)
    | None => Ret (m, d)
    end = Ret (m', deallocate_all fs d) /\ Cleaned self pre m m' fs /\
    forall i, nonempty_from m' (pre ++ [i])) as (m' & fs & E & HC & Hn).
  { destruct (decide (length pre < 3)%nat) as [Hl3|Hl3].
    - rewrite (proj1 (next_level_at (length pre) Hl3)).
      destruct (full_range_indices pre Hl3 Hf) as [-> ->].
      edestruct (clean_up_entries_full) as (m' & fs & E & HC & Hn & _); [|exact HV|exact Hl|exact Hp|].
      2: { exists m', fs. split_and!; [exact E|done|]. intros i. destruct (decide (i < 512)%nat).
           - apply Hn, in_seq. lia.
           - intros rest q Hlr. rewrite <- app_assoc. cbn [app]. rewrite table_at_app.
             rewrite (cl_keep _ _ _ _ _ HC), Hp; [|done|intros; apply not_prefix_self].
             cbn [mbind option_bind table_at]. destruct (get m' p i) as [e|] eqn:Eg; [|done].
             apply get_Some in Eg as [? _]; [lia|].
             apply (valid_table _ _ _ (cl_valid _ _ _ _ _ HC) pre); [done|].
             rewrite (cl_keep _ _ _ _ _ HC); [done|done|intros; apply not_prefix_self]. }
      intros m0 d0 i Hi HV0 Hp0. apply in_seq in Hi. apply clean_up_entry_full; try done; [lia|].
      assert (length (pre ++ [i]) = S (length pre)) as El by (rewrite length_app; simpl; lia).
      rewrite <- El. apply IH; [lia|lia|]. apply Forall_app. split; [done|]. constructor; [lia|done].
    - exists m, []. replace (length pre) with 3%nat by lia.
      split_and!; [done|by apply Cleaned_refl|]. intros i rest q Hlr.
      rewrite !length_app in Hlr. simpl in Hlr. lia. }
  rewrite E. cbn [mbind outcome_bind fst].
  assert (table_at w m' p4 pre = Some p) as Hp'.
  { rewrite (cl_keep _ _ _ _ _ HC); [done|done|]. intros j. apply not_prefix_self. }
  destruct (valid_table _ _ _ (cl_valid _ _ _ _ _ HC) pre p Hl Hp') as (t & Et & _).
  unfold deref. rewrite Et. cbn [mbind outcome_bind].
  exists (PageTable_is_empty t), m', fs. split_and!; [done|done| |done].
  split; [by apply is_empty_table|by apply empty_is_empty].
Qed.

(** C2. On a target with 64-bit [usize] and on a valid hierarchy, [clean_up]
    removes all empty level 1 to level 3 tables: it returns, keeps the hierarchy
    valid, and afterwards no table below the level 4 table has only unused
    entries. *)
Theorem clean_up_complete m d :
  mapper_valid self m ->
  exists m' d', clean_up self (m, d) = Ret (m', d') /\ mapper_valid self m' /\
    forall path q, (1 <= length path <= 3)%nat -> table_at w m' p4 path = Some q -> ~ empty_table m' q.
Proof.
  intros HV.
  assert (cleans_full (fun p r s => clean_up_table 4 w p (level_at (length (@nil nat))) r s) []) as Hall.
  { apply clean_up_table_full; [cbn; lia|cbn; lia|constructor]. }
  destruct (Hall m d p4 HV eq_refl) as (b & m' & fs & E & HC & _ & Hn).
  exists m', (deallocate_all fs d). split_and!.
  - unfold clean_up, MappedPageTable_CleanUp.
    change (MappedPageTable_clean_up self (m, d)) with
      ('(_, s) ← clean_up_table 4 w p4 (level_at (length (@nil nat))) (full_range []) (m, d); Ret s).
    by rewrite E.
  - apply (cl_valid _ _ _ _ _ HC).
  - intros [|i rest] q Hl; [cbn in Hl; lia|]. apply (Hn i rest). exact (proj2 Hl).
Qed.
End full.
