(* ===== verification/SetFlags.v ===== *)
(** * Changing the flags of parent entries

    [set_flags_p4_entry], [set_flags_p3_entry] and [set_flags_p2_entry] of the
    three [Mapper] implementations of MappedPageTable.v: what they store, which
    errors they return, and when the translation stays the same. *)
From Stdlib Require Import ZArith Lia Bool.
From stdpp Require Import base decidable option list gmap numbers.
From S2P Require Import Prelude Crates Index Addr Page Frame PageTable Mapper.
From S2P Require Import MappedPageTable PageWalk MapperSpec MapperCreate MapperProofs.
#[local] Open Scope Z_scope.

Lemma list_split_nth {X} (l : list X) k x :
  l !! k = Some x -> l = take k l ++ x :: drop (S k) l.
Proof. intros E. by rewrite take_drop_middle. Qed.

Section set_flags.
Context {P : Type} `{PageTableFrameMapping P} `{BL : BitflagsLaws} (self : MappedPageTable P).
#[local] Abbreviation w := (page_table_walker self).
#[local] Abbreviation p4 := (level_4_table self).

(** The three operations, by the number of tables walked before the entry. *)
Definition set_flags_op {S} (k : nat) : Page S -> Z -> M Mem FlagUpdateError MapperFlushAll :=
  match k with
  | O => set_flags_p4_entry self
  | 1%nat => set_flags_p3_entry self
  | _ => set_flags_p2_entry self
  end.

Definition set_flags_tail (i : PageTableIndex) (flags : Z) (q : Z) : M Mem FlagUpdateError MapperFlushAll :=
  e ← get_entry q i;
  if PageTableEntry_is_unused e then throw FlagPageNotMapped
  else
    e' ← lift (PageTableEntry_set_flags e flags);
    _ ← put_entry q i e';
    mret MapperFlushAll_new.

Lemma set_flags_chain {S} (page : Page S) k i flags :
  page_parents page !! k = Some i ->
  set_flags_op k page flags =
    chain_mut w FlagUpdateError_from p4 (take k (page_parents page)) (set_flags_tail i flags).
Proof. destruct S, k as [|[|[|k]]]; intros [= <-]; reflexivity. Qed.

(** There is no such parent entry for this page size. *)
Lemma set_flags_no_parent {S} (page : Page S) k flags m :
  (k < 3)%nat -> page_parents page !! k = None ->
  set_flags_op k page flags m = Ret (Err FlagParentEntryHugePage, m).
Proof. destruct S, k as [|[|[|k]]]; intros Hk E; try discriminate E; (lia || reflexivity). Qed.

(** The stored entry: the address of the old one with the new flags. *)
Definition reflagged (f : Z) (e : PageTableEntry) : PageTableEntry :=
  mkPageTableEntry (Z.lor (Z.land (entry e) ADDR_MASK) f).

Lemma set_flags_tail_run m q i e flags :
  PageTableIndex_wf i -> has_table m q -> get m q (ix i) = Some e -> entry_wf e ->
  set_flags_tail i flags q m =
    if entry e =? 0 then Ret (Err FlagPageNotMapped, m)
    else Ret (Ok MapperFlushAll_new, upd m q (ix i) (reflagged flags e)).
Proof.
  intros Hi Ht Hg He. unfold set_flags_tail, mbind, M_bind, lift. rewrite (get_entry_run m q i e) by done.
  unfold PageTableEntry_is_unused. destruct (entry e =? 0); [done|].
  rewrite set_flags_val by done. by rewrite put_entry_run.
Qed.

(** The parent entry that the operation finds, and how the walk to the page
    continues from it. *)
Lemma parent_entry {S} m (page : Page S) k i :
  mapper_valid self m -> Page_wf page -> page_parents page !! k = Some i ->
  let pre := take k (page_pre page) in
  (k < 3)%nat /\ length pre = k /\ PageTableIndex_wf i /\
  match resolve w m p4 pre with
  | Err x => resolve w m p4 (page_pre page) = Err x
  | Ok q => table_at w m p4 pre = Some q /\ has_table m q /\
      exists e, get m q (ix i) = Some e /\ entry_wf e /\
        (child w e = None -> resolve w m p4 (page_pre page) =
           Err (if is_huge e then WalkMappedToHugePage else WalkNotMapped))
  end.
Proof.
  intros HV Hp Hk pre. pose proof (page_pre_length page) as Hl.
  pose proof (lookup_lt_Some _ _ _ Hk) as Hlt.
  assert (length (page_parents page) = length (page_pre page)) as El
    by (unfold page_pre; by rewrite length_fmap).
  assert (page_pre page !! k = Some (ix i)) as Hk'
    by (unfold page_pre; by rewrite list_lookup_fmap, Hk).
  assert (PageTableIndex_wf i) as Hi.
  { destruct (page_parents_wf page Hp) as [Hf _]. rewrite Forall_forall in Hf.
    apply Hf, list_elem_of_In. by eapply list_elem_of_lookup_2. }
  assert (length pre = k) as Hpre by (unfold pre; rewrite length_take; lia).
  split_and!; [lia|done|done|]. pose proof (list_split_nth _ _ _ Hk') as Es. fold pre in Es.
  destruct (resolve w m p4 pre) as [q|x] eqn:Eq.
  - apply resolve_Ok in Eq. pose proof (valid_table _ _ _ HV pre q ltac:(lia) Eq) as Ht.
    destruct (get_is_Some m q (ix i) Ht (ix_lt i Hi)) as (e & Hg & He).
    split; [done|]. split; [done|]. exists e. split; [done|]. split; [done|]. intros Hc.
    rewrite Es, resolve_app, (proj2 (resolve_Ok _ _ _ _ _) Eq). simpl. rewrite Hg.
    unfold step_result. by rewrite Hc.
  - by rewrite Es, resolve_app, Eq.
Qed.

Lemma reflagged_wf f e : u64 f -> entry_wf e -> entry_wf (reflagged f e).
Proof. intros Hf He. apply lor_u64; [|done]. by apply land_uN. Qed.

Lemma reflagged_bit f e i :
  Z.testbit ADDR_MASK i = false -> Z.testbit (entry (reflagged f e)) i = Z.testbit f i.
Proof. intros Hm. cbn [entry reflagged]. by rewrite Z.lor_spec, Z.land_spec, Hm, andb_false_r. Qed.

Lemma reflagged_child f e :
  parent_flags_ok f -> is_Some (child w e) -> child w (reflagged f e) = child w e.
Proof.
  intros Hf [q Hq]. unfold child, is_huge, is_present in *.
  rewrite !reflagged_bit, (pf_not_huge _ Hf), (pf_present _ Hf) by done.
  destruct (Z.testbit (entry e) 7); [done|]. destruct (Z.testbit (entry e) 0); [|done].
  assert (entry_frame (reflagged f e) = entry_frame e) as ->; [|done].
  unfold entry_frame. cbn [entry reflagged]. do 2 f_equal.
  rewrite Z.land_lor_distr_l, (pf_no_addr _ Hf), Z.lor_0_r, <- Z.land_assoc. by rewrite Z.land_diag.
Qed.
End set_flags.

Section theorem.
Context {P : Type} `{PageTableFrameMapping P} `{BL : BitflagsLaws} (self : MappedPageTable P).
#[local] Abbreviation w := (page_table_walker self).
#[local] Abbreviation p4 := (level_4_table self).

(** The flags of parent entries on every branch. *)
Lemma set_parent_flags_spec {S} m (page : Page S) k flags :
  mapper_valid self m -> Page_wf page -> parent_flags_ok flags -> (k < 3)%nat ->
  exists r m', set_flags_op self k page flags m = Ret (r, m') /\
    match r with
    | Ok _ => exists q i e,
        page_pre page !! k = Some i /\ table_at w m p4 (take k (page_pre page)) = Some q /\
        get m q i = Some e /\ m' = upd m q i (reflagged flags e) /\
        ((is_Some (child w e) /\ mapper_valid self m' /\ same_translation self m m') \/
         (is_huge e = true /\ is_huge (reflagged flags e) = false /\ in_larger_page self m page))
    | Err FlagPageNotMapped => m' = m /\ page_unmapped self m page /\
        forall q i e, page_pre page !! k = Some i ->
          table_at w m p4 (take k (page_pre page)) = Some q -> get m q i = Some e -> entry e = 0
    | Err FlagParentEntryHugePage =>
        m' = m /\ (page_pre page !! k = None \/
          (table_at w m p4 (take k (page_pre page)) = None /\ in_larger_page self m page))
    end.
Proof.
  intros HV Hp Hf Hk3.
  destruct (page_parents page !! k) as [i|] eqn:Hk; cycle 1.
  { eexists _, m. split; [by apply set_flags_no_parent|]. split; [done|]. left.
    unfold page_pre. by rewrite list_lookup_fmap, Hk. }
  destruct (parent_entry self m page k i HV Hp Hk) as (_ & Hpre & Hi & Hm).
  assert (ix <$> take k (page_parents page) = take k (page_pre page)) as Et
    by (unfold page_pre; by rewrite fmap_take).
  rewrite (set_flags_chain self page k i) by done.
  rewrite (proj1 (chain_run w m p4 [] p4 _ FlagUpdateError_from (set_flags_tail i flags)
    HV eq_refl ltac:(rewrite <- (length_fmap ix), Et, Hpre; simpl; lia)
    ltac:(apply Forall_take; by apply page_parents_wf))).
  rewrite Et. destruct (resolve w m p4 (take k (page_pre page))) as [q|x] eqn:Er.
  2: { pose proof (resolve_fails self m page x HV Hp Hm).
       assert (table_at w m p4 (take k (page_pre page)) = None) as Hno.
       { apply eq_None_not_Some. intros [q Hq%resolve_Ok]. congruence. }
       eexists _, m. split; [done|]. destruct x; cbn [FlagUpdateError_from]; [|by auto].
       split_and!; [done|done|]. congruence. }
  destruct Hm as (Hq & Ht & e & Hg & He & Hno). rewrite (set_flags_tail_run m q i e) by done.
  destruct (Z.eqb_spec (entry e) 0) as [Hz|Hz].
  { eexists _, m. split; [done|]. split; [done|]. pose proof (Hno (child_zero w e Hz)) as Hr.
    unfold is_huge in Hr. rewrite Hz in Hr. split; [by apply (resolve_fails self m page _ HV Hp) in Hr|].
    intros q' i' e' Hi' Hq' Hg'. assert (i' = ix i) as ->.
    { unfold page_pre in Hi'. rewrite list_lookup_fmap, Hk in Hi'. simpl in Hi'. by simplify_eq. }
    by simplify_eq. }
  eexists _, _. split; [done|]. exists q, (ix i), e.
  split; [unfold page_pre; by rewrite list_lookup_fmap, Hk|]. split; [done|]. split; [done|]. split; [done|].
  destruct (valid_entry _ _ _ HV (take k (page_pre page)) q (ix i) e) as [?|[[Hh _]|Hc]]; try done; [lia| |].
  - right. split; [done|]. split.
    + unfold is_huge. rewrite reflagged_bit by done. by apply pf_not_huge.
    + assert (child w e = None) as Hc by (unfold child; by rewrite Hh).
      pose proof (Hno Hc) as Hr. rewrite Hh in Hr. by apply (resolve_fails self m page _ HV Hp) in Hr.
  - left. split; [done|].
    destruct (store_same_child w m p4 (take k (page_pre page)) q (ix i) e (reflagged flags e))
      as (HV' & _ & Hv); try done; [lia|apply reflagged_wf; [apply Hf|done]|by apply reflagged_child|].
    split; [done|]. by apply same_view_translation.
Qed.

(** C12. Changing the flags of a page's level 4, 3 or 2 parent entry to flags that
    contain PRESENT, not HUGE_PAGE, and no address bits (bits 12 to 51) always
    returns on a valid hierarchy.  An error leaves the memory untouched and is
    returned exactly when there is no used entry to change: PageNotMapped when
    the page is unmapped and its entry, if there is one, is unused;
    ParentEntryHugePage when pages of its size have no such parent entry or an
    entry above it is huge.  Otherwise the call succeeds: the entry keeps its
    address and has exactly the new flags, and when it points to a table the
    hierarchy stays valid and no address translates differently.  The operations
    do not check that the entry points to a table: when the used entry that they
    reach is huge itself they succeed too and clear its HUGE_PAGE, which turns
    the mapped huge frame into a page table. *)
Theorem set_parent_flags_correct {S} m (page : Page S) k flags :
  mapper_valid self m -> Page_wf page -> parent_flags_ok flags -> (k < 3)%nat ->
  exists r m', set_flags_op self k page flags m = Ret (r, m') /\
    match r with
    | Ok _ => exists q i e,
        page_pre page !! k = Some i /\ table_at w m p4 (take k (page_pre page)) = Some q /\
        get m q i = Some e /\ m' = upd m q i (reflagged flags e) /\
        ((is_Some (child w e) /\ mapper_valid self m' /\ same_translation self m m') \/
         (is_huge e = true /\ is_huge (reflagged flags e) = false /\ in_larger_page self m page))
    | Err FlagPageNotMapped => m' = m /\ page_unmapped self m page /\
        forall q i e, page_pre page !! k = Some i ->
          table_at w m p4 (take k (page_pre page)) = Some q -> get m q i = Some e -> entry e = 0
    | Err FlagParentEntryHugePage =>
        m' = m /\ (page_pre page !! k = None \/
          (table_at w m p4 (take k (page_pre page)) = None /\ in_larger_page self m page))
    end.
Proof. apply set_parent_flags_spec. Qed.
End theorem.
