(* ===== verification/MapperExamples.v ===== *)
(** * A concrete page table hierarchy

    An identity-mapped physical memory with four page table frames, an
    allocator that hands out a list of frames, and hierarchies with no
    mapping, with a 1GiB mapping and with a level 2 table: the hypotheses of
    the theorems on the mapper hold there. *)
From Stdlib Require Import ZArith Lia Bool.
From stdpp Require Import base decidable option list gmap numbers.
From S2P Require Import Prelude Crates Index Addr Page Frame PageTable Mapper.
From S2P Require Import MappedPageTable PageWalk MapperSpec MapperCreate MapperProofs CleanUp CleanUpFull SetFlags.
#[local] Open Scope Z_scope.

(** ** The environment *)
#[local] Instance identity_mapping : PageTableFrameMapping unit :=
  fun _ f => Ret (pa (frame_start f)).
#[local] Instance list_allocator : FrameAllocator (list (PhysFrame Size4KiB)) Size4KiB := fun l =>
  match l with f :: l => (Some f, l) | [] => (None, []) end.
#[local] Instance list_deallocator : FrameDeallocator (list (PhysFrame Size4KiB)) Size4KiB := cons.

Definition table_frame (n : Z) : PhysFrame Size4KiB := mkPhysFrame (mkPhysAddr (n * 4096)).
Definition mapper : MappedPageTable unit := MappedPageTable_new 0x1000 tt.

(** Four zeroed tables; the level 4 table is at 0x1000. *)
Definition mem0 : Mem :=
  <[0x1000 := PageTable_new]> (<[0x2000 := PageTable_new]>
    (<[0x3000 := PageTable_new]> (<[0x4000 := PageTable_new]> ∅))).

Lemma mem0_valid : mapper_valid mapper mem0.
Proof. by apply Valid_new. Qed.

Lemma mem0_has_table p : p = 0x2000 \/ p = 0x3000 \/ p = 0x4000 -> has_table mem0 p.
Proof. intros Hp. exists PageTable_new. split; [by destruct Hp as [->|[->| ->]]|apply PageTable_new_wf]. Qed.

Lemma table_frame_wf n : 0 <= n < 16 -> PhysFrame_wf (table_frame n).
Proof.
  intros Hn. split; [unfold phys_valid; cbn; lia|]. cbn [table_frame frame_start pa].
  apply Z.mod_mul. done.
Qed.

Lemma mem0_supply :
  Supply (page_table_walker mapper) (reachable (page_table_walker mapper) mem0 0x1000) mem0 3
    [table_frame 2; table_frame 3; table_frame 4].
Proof.
  assert (forall q, reachable (page_table_walker mapper) mem0 0x1000 q -> q = 0x1000) as Hr
    by (intros q; by apply reachable_new).
  split; [by apply table_frame_wf|]. exists 0x2000.
  split_and!; [done|by apply mem0_has_table; auto|by intros ?%Hr|].
  split; [by apply table_frame_wf|]. exists 0x3000.
  split_and!; [done|by apply mem0_has_table; auto|by intros [?%Hr|?]|].
  split; [by apply table_frame_wf|]. exists 0x4000.
  split_and!; [done|by apply mem0_has_table; auto|by intros [[?%Hr|?]|?]|done].
Qed.

(** A level 3 table below entry 0, without and with a 1GiB page in its entry
    0, and with a level 2 table there. *)
Definition parent_entry (n : Z) : PageTableEntry := mkPageTableEntry (n * 4096 + 3).
Definition huge_entry : PageTableEntry := mkPageTableEntry 0x40000083.

Definition mem1 : Mem := <[0x2000 := PageTable_new]> (upd mem0 0x1000 0 (parent_entry 2)).
Definition mem_huge : Mem := upd mem1 0x2000 0 huge_entry.
Definition mem_table : Mem := <[0x3000 := PageTable_new]> (upd mem1 0x2000 0 (parent_entry 3)).

Lemma mem1_valid :
  Valid (page_table_walker mapper) mem1 0x1000 /\
  table_at (page_table_walker mapper) mem1 0x1000 [0%nat] = Some 0x2000 /\
  (forall r, reachable (page_table_walker mapper) mem1 0x1000 r -> r = 0x1000 \/ r = 0x2000).
Proof.
  destruct (store_new_table (page_table_walker mapper) mem0 0x1000 [] 0x1000 0 PageTableEntry_new
    (parent_entry 2) 0x2000) as (HV & Ht & Hr & _); try done.
  - apply mem0_valid.
  - simpl. lia.
  - by intros ?%reachable_new.
  - split_and!; [exact HV|exact Ht|]. intros r Hre. apply Hr in Hre as [Hre|Hre]; [|by right].
    left. by apply reachable_new in Hre.
Qed.

Lemma mem_huge_valid : mapper_valid mapper mem_huge.
Proof.
  destruct mem1_valid as (HV & Ht & _).
  destruct (store_final (page_table_walker mapper) mem1 0x1000 [0%nat] 0x2000 0 huge_entry)
    as (HV' & _); try done.
  - simpl. lia.
  - lia.
  - by right; right.
Qed.

Lemma mem_table_valid :
  mapper_valid mapper mem_table /\
  table_at (page_table_walker mapper) mem_table 0x1000 [0%nat] = Some 0x2000.
Proof.
  destruct mem1_valid as (HV & Ht & Hr).
  destruct (store_new_table (page_table_walker mapper) mem1 0x1000 [0%nat] 0x2000 0 PageTableEntry_new
    (parent_entry 3) 0x3000) as (HV' & _); try done.
  - simpl. lia.
  - by intros [?|?]%Hr.
Qed.

(** ** The theorems at work *)
Definition page0 (S : PageSize) : Page S := mkPage (mkVirtAddr 0).
Definition frame1 (S : PageSize) : PhysFrame S := mkPhysFrame (mkPhysAddr 0x40000000).
Definition addr5 : VirtAddr := mkVirtAddr 5.
Definition free_frames : list (PhysFrame Size4KiB) := [table_frame 2; table_frame 3; table_frame 4].

Lemma page0_wf S : Page_wf (page0 S).
Proof. split; [left; cbn; lia|by destruct S]. Qed.

Lemma frame1_wf S : PhysFrame_wf (frame1 S).
Proof. split; [unfold phys_valid; cbn; lia|by destruct S]. Qed.

Lemma addr5_in S : canonical addr5 /\ in_page (page0 S) addr5.
Proof. split; [left; cbn; lia|]. unfold in_page. cbn [page0 page_start va addr5]. pose proof (SIZE_pos S). lia. Qed.

Lemma writable_parent : parent_flags_ok 3.
Proof. split; vm_compute; done. Qed.

Lemma user_parent : parent_flags_ok 7.
Proof. split; vm_compute; done. Qed.

Lemma translate_refines_witness :
  mapper_valid mapper mem_huge /\
  translate mapper mem_huge addr5 =
    Ret (Mapped (MappedSize1GiB (frame1 Size1GiB)) 5 0x83).
Proof.
  split; [exact mem_huge_valid|].
  rewrite (translate_refines mapper mem_huge addr5 mem_huge_valid (proj1 (addr5_in Size1GiB))).
  vm_compute. reflexivity.
Defined.

Lemma map_to_correct_witness :
  exists r m' a', map_to_with_table_flags mapper (page0 Size4KiB) (frame1 Size4KiB) 3 3
    (mem0, free_frames) = Ret (r, (m', a')) /\ mapper_valid mapper m' /\
    r = Ok (MapperFlush_new (page0 Size4KiB)).
Proof.
  destruct (map_to_correct mapper mem0 free_frames (page0 Size4KiB) (frame1 Size4KiB) 3 3
    mem0_valid (page0_wf _) (frame1_wf _) ltac:(split; vm_compute; done) eq_refl ltac:(lia)
    writable_parent mem0_supply) as (r & m' & a' & E & HV & _).
  exists r, m', a'. split; [exact E|]. split; [exact HV|].
  vm_compute in E. injection E as <- _ _. reflexivity.
Defined.

Lemma map_unmap_roundtrip_witness :
  exists m' a', map_to_with_table_flags mapper (page0 Size2MiB) (frame1 Size2MiB) 3 3
      (mem0, free_frames) = Ret (Ok (MapperFlush_new (page0 Size2MiB)), (m', a')) /\
    translate_page mapper (page0 Size2MiB) m' = Ret (Ok (frame1 Size2MiB), m').
Proof.
  destruct (map_to_with_table_flags mapper (page0 Size2MiB) (frame1 Size2MiB) 3 3 (mem0, free_frames))
    as [[[flush|err] [m' a']]| |] eqn:E; try (exfalso; vm_compute in E; discriminate E).
  assert (flush = MapperFlush_new (page0 Size2MiB)) as ->.
  { vm_compute in E. injection E as <- _ _. reflexivity. }
  exists m', a'. split; [reflexivity|].
  exact (proj1 (map_unmap_roundtrip mapper mem0 free_frames (page0 Size2MiB) (frame1 Size2MiB) 3 3
    _ m' a' mem0_valid (page0_wf _) (frame1_wf _) ltac:(split; vm_compute; done) eq_refl eq_refl
    writable_parent mem0_supply E)).
Defined.

Lemma mem_huge_supply :
  Supply (page_table_walker mapper) (reachable (page_table_walker mapper) mem_huge 0x1000) mem_huge 3 [].
Proof. done. Qed.

Lemma map_to_error_changes_huge_page_witness :
  exists m' a' f o fl,
    map_to_with_table_flags mapper (page0 Size4KiB) (frame1 Size4KiB) 7 7 (mem_huge, []) =
      Ret (Err MapParentEntryHugePage, (m', a')) /\
    translate mapper mem_huge addr5 = Ret (Mapped f o fl) /\
    translate mapper m' addr5 = Ret (Mapped f o (Z.lor fl 7)).
Proof.
  destruct (map_to_with_table_flags mapper (page0 Size4KiB) (frame1 Size4KiB) 7 7 (mem_huge, []))
    as [[[flush|err] [m' a']]| |] eqn:E; try (exfalso; vm_compute in E; discriminate E).
  assert (err = MapParentEntryHugePage) as ->.
  { vm_compute in E. injection E as <- _ _. reflexivity. }
  destruct (map_to_error_changes_huge_page mapper mem_huge [] (page0 Size4KiB) (frame1 Size4KiB) 7 7
    m' a' mem_huge_valid (page0_wf _) (frame1_wf _) user_parent mem_huge_supply E)
    as (T & big & _ & _ & Hsub & _ & g & fl & Hin).
  destruct (addr5_in Size4KiB) as [Hc Hi].
  destruct (Hin addr5 Hc (Hsub addr5 Hc Hi)) as [E1 E2].
  exists m', a', (mapped_frame g), (va addr5 mod SIZE T), fl.
  split; [reflexivity|]. split; [exact E1|exact E2].
Defined.

Lemma map_to_panics_without_present_witness :
  map_to_with_table_flags mapper (page0 Size4KiB) (frame1 Size4KiB) 2 2 (mem0, free_frames) = Panic.
Proof.
  exact (map_to_panics_without_present mapper mem0 free_frames (page0 Size4KiB) (frame1 Size4KiB) 2 2
    PageTableEntry_new (table_frame 2) [table_frame 3; table_frame 4] mem0_valid (page0_wf _)
    eq_refl eq_refl eq_refl (table_frame_wf 2 ltac:(lia)) ltac:(split; vm_compute; done) eq_refl eq_refl).
Defined.

Lemma unmap_correct_witness :
  exists r m', unmap mapper (page0 Size1GiB) mem_huge = Ret (r, m') /\ mapper_valid mapper m' /\
    r = Ok (frame1 Size1GiB, MapperFlush_new (page0 Size1GiB)).
Proof.
  destruct (unmap_correct mapper mem_huge (page0 Size1GiB) mem_huge_valid (page0_wf _))
    as (r & m' & E & HV & _).
  exists r, m'. split; [exact E|]. split; [exact HV|].
  vm_compute in E. injection E as <- _. reflexivity.
Defined.

Lemma update_flags_correct_witness :
  exists r m', update_flags mapper (page0 Size1GiB) 1 mem_huge = Ret (r, m') /\ mapper_valid mapper m' /\
    r = Ok (MapperFlush_new (page0 Size1GiB)).
Proof.
  destruct (update_flags_correct mapper mem_huge (page0 Size1GiB) 1 mem_huge_valid (page0_wf _)
    ltac:(split; vm_compute; done) eq_refl ltac:(lia)) as (r & m' & E & HV & _).
  exists r, m'. split; [exact E|]. split; [exact HV|].
  vm_compute in E. injection E as <- _. reflexivity.
Defined.

Lemma huge_page_ops_accept_tables_witness :
  exists m', update_flags mapper (page0 Size1GiB) 1 mem_table = Ret (Ok (MapperFlush_new (page0 Size1GiB)), m').
Proof.
  destruct (huge_page_ops_accept_tables mapper mem_table (page0 Size1GiB) 0x2000 1
    (proj1 mem_table_valid) (page0_wf _) ltac:(discriminate) (proj2 mem_table_valid)
    ltac:(vm_compute; eauto) ltac:(split; vm_compute; done) eq_refl ltac:(lia)) as (_ & m' & E & _).
  exists m'. exact E.
Defined.

Lemma clean_up_correct_witness :
  let T := {| overflow_checks := true; usize_bits := 64 |} in
  exists m' fs, clean_up mapper (mem_table, []) = Ret (m', deallocate_all fs []) /\
    same_translation mapper mem_table m'.
Proof.
  intros T.
  destruct (proj2 (clean_up_correct (H := T) eq_refl mapper mem_table []
    (mkPageRangeInclusive (page0 Size4KiB) (page0 Size4KiB)) (proj1 mem_table_valid)
    (conj (page0_wf _) (page0_wf _)))) as (m' & fs & E & _ & Hs & _).
  exists m', fs. split; [exact E|exact Hs].
Defined.

Lemma clean_up_complete_witness :
  let T := {| overflow_checks := true; usize_bits := 64 |} in
  exists m' d', clean_up mapper (mem_table, @nil (PhysFrame Size4KiB)) = Ret (m', d') /\
    forall q, table_at (page_table_walker mapper) m' 0x1000 [0%nat] = Some q -> ~ empty_table m' q.
Proof.
  intros T.
  destruct (clean_up_complete (H := T) eq_refl mapper mem_table [] (proj1 mem_table_valid))
    as (m' & d' & E & _ & Hn).
  exists m', d'. split; [exact E|]. intros q. apply Hn. cbn. lia.
Defined.

Lemma translate_page_correct_witness :
  exists r, translate_page mapper (page0 Size1GiB) mem_huge = Ret (r, mem_huge) /\
    r = Ok (frame1 Size1GiB).
Proof.
  destruct (translate_page_correct mapper mem_huge (page0 Size1GiB) mem_huge_valid (page0_wf _))
    as (r & E & _).
  exists r. split; [exact E|]. vm_compute in E. injection E as <-. reflexivity.
Defined.

Lemma set_parent_flags_correct_witness :
  exists m', set_flags_op mapper 1 (page0 Size2MiB) 7 mem_table = Ret (Ok MapperFlushAll_new, m') /\
    get m' 0x2000 0 = Some (mkPageTableEntry 0x3007).
Proof.
  destruct (set_parent_flags_correct mapper mem_table (page0 Size2MiB) 1 7
    (proj1 mem_table_valid) (page0_wf _) user_parent ltac:(lia)) as (r & m' & E & _).
  exists m'. vm_compute in E. injection E as <- <-. split; vm_compute; reflexivity.
Defined.
