(* ===== verification/OffsetPageTable.v ===== *)
(** * The offset page table ([mapper/offset_page_table.rs])

    A [MappedPageTable] whose frames are reached through a mapping of the whole
    physical memory at a fixed virtual offset.  The trait implementations
    delegate to the inner mapper; the frame mapping is [PhysOffset].  The
    theorem follows a mapping from [map_to] or [identity_map] to the physical
    address that [translate_addr] computes. *)
From Stdlib Require Import ZArith Lia Bool.
From stdpp Require Import base decidable option list gmap numbers.
From S2P Require Import Prelude Crates Index Addr Page Frame PageTable Mapper.
From S2P Require Import MappedPageTable PageWalk MapperSpec MapperCreate MapperProofs.
#[local] Open Scope Z_scope.

Record PhysOffset : Type := mkPhysOffset { offset : VirtAddr }.

#[export] Instance PhysOffset_frame_to_pointer : PageTableFrameMapping PhysOffset :=
  fun self frame =>
    virt ← VirtAddr_add (offset self) (PhysAddr_as_u64 (PhysFrame_start_address frame));
    Ret (VirtAddr_as_mut_ptr virt).

Record OffsetPageTable : Type := mkOffsetPageTable { inner : MappedPageTable PhysOffset }.

Definition OffsetPageTable_new (level_4_table : Z) (phys_offset : VirtAddr) : OffsetPageTable :=
  let phys_offset := mkPhysOffset phys_offset in
  mkOffsetPageTable (MappedPageTable_new level_4_table phys_offset).

Definition OffsetPageTable_level_4_table (self : OffsetPageTable) : Z := level_4_table (inner self).
Definition OffsetPageTable_level_4_table_mut (self : OffsetPageTable) : Z :=
  MappedPageTable_level_4_table_mut (inner self).
Definition OffsetPageTable_phys_offset (self : OffsetPageTable) : VirtAddr :=
  offset (page_table_frame_mapping (page_table_walker (inner self))).

Section delegation.
Context `{T : Target} `{B : BitField} `{F : Bitflags}.

#[export] Instance OffsetPageTable_Mapper S : Mapper Mem OffsetPageTable S := {
  map_to_with_table_flags A _ self := map_to_with_table_flags (inner self);
  unmap self := unmap (inner self);
  update_flags self := update_flags (inner self);
  set_flags_p4_entry self := set_flags_p4_entry (inner self);
  set_flags_p3_entry self := set_flags_p3_entry (inner self);
  set_flags_p2_entry self := set_flags_p2_entry (inner self);
  translate_page self := translate_page (inner self);
}.

#[export] Instance OffsetPageTable_Translate : Translate Mem OffsetPageTable :=
  fun self => translate (inner self).

#[export] Instance OffsetPageTable_CleanUp : CleanUp Mem OffsetPageTable := {
  clean_up D _ self := clean_up (inner self);
  clean_up_addr_range D _ self := clean_up_addr_range (inner self);
}.
End delegation.

(** ** The direct map *)
Section offset.
Context `{F : Bitflags} {FL : BitflagsLaws F} (self : OffsetPageTable).

(** Where the direct map shows a frame. *)
Definition pointer (f : PhysFrame Size4KiB) : Z :=
  va (OffsetPageTable_phys_offset self) + pa (frame_start f).

Definition direct_mapped (m : Mem) (f : PhysFrame Size4KiB) : Prop :=
  canonical (mkVirtAddr (pointer f)) /\ has_table m (pointer f).

Lemma frame_to_pointer_val f :
  canonical (mkVirtAddr (pointer f)) ->
  frame_to_pointer (page_table_frame_mapping (page_table_walker (inner self))) f = Ret (pointer f).
Proof.
  intros Hc. unfold frame_to_pointer, PhysOffset_frame_to_pointer, VirtAddr_add, checked_add.
  pose proof (canonical_u64 _ Hc) as Hu. cbn [va] in Hu.
  change (va (offset _) + PhysAddr_as_u64 _) with (pointer f). rewrite checked_in_range by done.
  cbn [unwrap mbind outcome_bind].
  pose proof (VirtAddr_new_canonical _ Hc) as E. cbn [va] in E. by rewrite E.
Qed.

Lemma pointer_inj f g : pointer f = pointer g -> f = g.
Proof. destruct f as [[x]], g as [[y]]. unfold pointer. cbn. intros E. do 2 f_equal. lia. Qed.

(** The allocator's contract in terms of frames: the next [n] frames are well
    formed, direct mapped, not in use, and not handed out twice. *)
Section allocator.
Context {A : Type} `{FrameAllocator A Size4KiB}.

Fixpoint FreshFrames (m : Mem) (used : PhysFrame Size4KiB -> Prop) (n : nat) (a : A) : Prop :=
  match n with
  | O => True
  | Datatypes.S n =>
      match allocate_frame a with
      | (None, _) => True
      | (Some f, a') => PhysFrame_wf f /\ direct_mapped m f /\ ~ used f /\
          FreshFrames m (fun g => used g \/ g = f) n a'
      end
  end.

Lemma FreshFrames_Supply m (used : PhysFrame Size4KiB -> Prop) (used' : Z -> Prop) n a :
  (forall f, used' (pointer f) -> used f) ->
  FreshFrames m used n a -> Supply (page_table_walker (inner self)) used' m n a.
Proof.
  revert used used' a. induction n as [|n IH]; intros used used' a Hu; [done|]. simpl.
  destruct (allocate_frame a) as [[f|] a']; [|done].
  intros (Hf & [Hc Ht] & Hn & HS). split; [done|]. exists (pointer f).
  split_and!; [by apply frame_to_pointer_val|done|auto|].
  eapply IH; [|exact HS]. intros g [Hg|Hg]; [left; auto|right; by apply pointer_inj].
Qed.
End allocator.

(** ** [translate_addr] *)
Lemma PhysAddr_add_in_frame {S} (f : PhysFrame S) o :
  PhysFrame_wf f -> 0 <= o < SIZE S ->
  PhysAddr_add (frame_start f) o = Ret (mkPhysAddr (pa (frame_start f) + o)).
Proof.
  intros [Hv Hm] Ho. unfold PhysAddr_add, checked_add, phys_valid in *.
  assert (pa (frame_start f) + o < 2 ^ 52) as Hlt.
  { destruct S; page_consts; mlia. }
  rewrite checked_in_range by (unfold uN; lia). cbn [unwrap mbind outcome_bind].
  apply (PhysAddr_new_valid (mkPhysAddr (pa (frame_start f) + o))). unfold phys_valid; cbn; lia.
Qed.

Lemma translate_addr_mapped {S} m x (f : PhysFrame S) fl :
  PhysFrame_wf f ->
  translate self m x = Ret (Mapped (mapped_frame f) (va x mod SIZE S) fl) ->
  translate_addr self m x = Ret (Some (mkPhysAddr (pa (frame_start f) + va x mod SIZE S))).
Proof.
  intros Hf E. unfold translate_addr. rewrite E. cbn [mbind outcome_bind].
  assert (MappedFrame_start_address (mapped_frame f) = frame_start f) as -> by (by destruct S).
  rewrite (PhysAddr_add_in_frame f); [done|done|]. apply Z.mod_pos_bound. pose proof (SIZE_pos S). lia.
Qed.

Lemma translate_addr_flags m m' pf x :
  flags_added (inner self) m m' pf x -> translate_addr self m' x = translate_addr self m x.
Proof.
  unfold translate_addr. change (translate self) with (translate (inner self)).
  intros [->|(f & o & fl & -> & ->)]; done.
Qed.

(** The parent flags that [map_to] derives from the page's flags. *)
Lemma map_to_parent_flags f :
  u64 f -> Z.testbit f 0 = true ->
  parent_flags_ok (flags_and f (flags_or (flags_or PageTableFlags_PRESENT PageTableFlags_WRITABLE)
    PageTableFlags_USER_ACCESSIBLE)).
Proof.
  intros Hu Hb. autorewrite with flags.
  change (Z.lor (Z.lor PageTableFlags_PRESENT PageTableFlags_WRITABLE) PageTableFlags_USER_ACCESSIBLE) with 7.
  split.
  - apply land_uN; [lia|done|lia].
  - by rewrite Z.land_spec, Hb.
  - by rewrite Z.land_spec, andb_false_r.
  - rewrite <- Z.land_assoc. apply Z.land_0_r.
Qed.
End offset.

Section theorems.
Context `{F : Bitflags} {FL : BitflagsLaws F} {A : Type} `{FrameAllocator A Size4KiB}.

(** C14. End to end through the offset page table: with a valid hierarchy in the
    direct map and an allocator that hands out fresh frames of it, [map_to] with
    flags that contain PRESENT and no address bits (bits 12 to 51) always
    returns and keeps the hierarchy valid.  On success
    [translate_addr] maps each address of the page to the same offset in the
    frame, and every other address as before; on an error it maps every address
    as before.  [identity_map] is [map_to] at the page with the frame's own
    address, and panics exactly when that address is not in the lower half. *)
Theorem offset_map_to_translate {S} (self : OffsetPageTable) m a (page : Page S)
    (frame : PhysFrame S) flags :
  mapper_valid (inner self) m -> Page_wf page -> PhysFrame_wf frame ->
  u64 flags -> Z.land flags ADDR_MASK = 0 -> Z.testbit flags 0 = true ->
  FreshFrames self m
    (fun f => reachable (page_table_walker (inner self)) m (OffsetPageTable_level_4_table self)
                (pointer self f)) 3 a ->
  (exists r m' a', map_to self page frame flags (m, a) = Ret (r, (m', a')) /\
     mapper_valid (inner self) m' /\
     forall x, canonical x ->
       translate_addr self m' x =
         match r with
         | Ok _ => if decide (in_page page x)
             then Ret (Some (mkPhysAddr (pa (frame_start frame) + va x mod SIZE S)))
             else translate_addr self m x
         | Err _ => translate_addr self m x
         end) /\
  (if pa (frame_start frame) <? 2 ^ 47 then
     exists p, Page_wf p /\ va (page_start p) = pa (frame_start frame) /\
       identity_map self frame flags (m, a) = map_to self p frame flags (m, a)
   else identity_map self frame flags (m, a) = Panic).
Proof.
  intros HV Hp Hf Hu Ha Hb HS. split.
  - apply (FreshFrames_Supply self m _
      (reachable (page_table_walker (inner self)) m (level_4_table (inner self)))) in HS; [|done].
    destruct (map_to_spec (inner self) m a page frame flags _ HV Hp Hf Hu Ha
      ltac:(intros ->; done) (map_to_parent_flags flags Hu Hb) HS) as (r & m' & a' & E & HV' & Hr).
    exists r, m', a'. split; [exact E|]. split; [done|]. intros x Hx.
    destruct r as [fl|[| |f]].
    + destruct Hr as (_ & Hout & Hin). case_decide as Hix.
      * destruct (Hin x Hx Hix) as [_ E']. by eapply translate_addr_mapped.
      * unfold translate_addr, translate, OffsetPageTable_Translate. by rewrite (Hout x Hx Hix).
    + apply (translate_addr_flags self m m' 0). left. by apply (proj1 Hr).
    + eapply translate_addr_flags. by apply (proj2 Hr).
    + apply (translate_addr_flags self m m' 0). left. by apply (proj1 (proj2 Hr)).
  - destruct Hf as [Hv Hm]. unfold phys_valid in Hv.
    unfold identity_map, PhysFrame_start_address, PhysAddr_as_u64.
    destruct (Z.ltb_spec (pa (frame_start frame)) (2 ^ 47)) as [Hlt|Hge].
    + assert (canonical (mkVirtAddr (pa (frame_start frame)))) as Hc by (left; cbn; lia).
      exists (mkPage (mkVirtAddr (pa (frame_start frame)))). split; [done|]. split; [done|].
      pose proof (VirtAddr_new_canonical _ Hc) as E. cbn [va] in E. rewrite E. cbn [mbind outcome_bind].
      pose proof (Page_containing_address_wf (mkPage (mkVirtAddr (pa (frame_start frame))) : Page S)
        (conj Hc Hm)) as E'. cbn [page_start] in E'. by rewrite E'.
    + by rewrite VirtAddr_new_Panic by (unfold uN, canonical; cbn; lia).
Qed.
End theorems.

(** ** Example: three table frames shown at 0xffff800000000000. *)
#[local] Instance frame_list_allocator : FrameAllocator (list (PhysFrame Size4KiB)) Size4KiB := fun l =>
  match l with f :: l => (Some f, l) | [] => (None, []) end.
Definition example_offset : OffsetPageTable :=
  OffsetPageTable_new 0xffff800000001000 (mkVirtAddr 0xffff800000000000).
Definition example_mem : Mem :=
  <[0xffff800000001000 := PageTable_new]> (<[0xffff800000002000 := PageTable_new]> ∅).
Definition example_frames : list (PhysFrame Size4KiB) := [mkPhysFrame (mkPhysAddr 0x2000)].
Definition example_page : Page Size1GiB := mkPage (mkVirtAddr 0x80000000).
Definition example_frame : PhysFrame Size1GiB := mkPhysFrame (mkPhysAddr 0x40000000).

Lemma example_fresh :
  FreshFrames example_offset example_mem
    (fun f => reachable (page_table_walker (inner example_offset)) example_mem
       (OffsetPageTable_level_4_table example_offset) (pointer example_offset f)) 3 example_frames.
Proof.
  split; [split; [unfold phys_valid; cbn; lia|reflexivity]|].
  split; [split; [right; vm_compute; split; congruence|exists PageTable_new; split; [reflexivity|apply PageTable_new_wf]]|].
  split; [|done]. intros Hr. apply reachable_new in Hr; [discriminate Hr|reflexivity].
Qed.

Lemma offset_map_to_translate_witness :
  exists m' a' fl, map_to example_offset example_page example_frame 3 (example_mem, example_frames) =
      Ret (Ok fl, (m', a')) /\
    translate_addr example_offset m' (mkVirtAddr 0x80001234) = Ret (Some (mkPhysAddr 0x40001234)).
Proof.
  assert (PhysFrame_wf example_frame) as Hf by (split; [unfold phys_valid; cbn; lia|reflexivity]).
  assert (Page_wf example_page) as Hp by (split; [left; cbn; lia|reflexivity]).
  destruct (offset_map_to_translate example_offset example_mem example_frames example_page
    example_frame 3) as ((r & m' & a' & E & _ & Ht) & _).
  - apply Valid_new. reflexivity.
  - exact Hp.
  - exact Hf.
  - split; vm_compute; congruence.
  - reflexivity.
  - reflexivity.
  - exact example_fresh.
  - destruct r as [fl|e]; [|exfalso; vm_compute in E; discriminate E].
    exists m', a', fl. split; [exact E|]. rewrite Ht by (left; cbn; lia). reflexivity.
Defined.
