(* ===== verification/Gdt.v ===== *)
(** * Segment selectors, descriptors and the global descriptor table

    Models [PrivilegeLevel] (src/lib.rs), [SegmentSelector]
    (src/registers/segmentation.rs), [TaskStateSegment]
    (src/structures/tss.rs) and src/structures/gdt.rs. *)
From Stdlib Require Import ZArith Lia Bool.
From stdpp Require Import base decidable option list numbers.
From S2P Require Import Prelude Crates Index Addr.
#[local] Open Scope Z_scope.

(** ** [PrivilegeLevel] *)
Inductive PrivilegeLevel : Type := Ring0 | Ring1 | Ring2 | Ring3.

#[export] Instance PrivilegeLevel_eq_dec : EqDecision PrivilegeLevel.
Proof. solve_decision. Defined.

Definition privilege_u16 (l : PrivilegeLevel) : Z :=
  match l with Ring0 => 0 | Ring1 => 1 | Ring2 => 2 | Ring3 => 3 end.

Definition PrivilegeLevel_from_u16 (value : Z) : outcome PrivilegeLevel :=
  if value =? 0 then Ret Ring0
  else if value =? 1 then Ret Ring1
  else if value =? 2 then Ret Ring2
  else if value =? 3 then Ret Ring3
  else Panic.

(** ** [SegmentSelector] *)
Record SegmentSelector : Type := mkSegmentSelector { selector : Z }.

Definition SegmentSelector_new (index : Z) (rpl : PrivilegeLevel) : SegmentSelector :=
  mkSegmentSelector (Z.lor (wrap 16 (Z.shiftl index 3)) (privilege_u16 rpl)).

Definition SegmentSelector_NULL : SegmentSelector := SegmentSelector_new 0 Ring0.

Definition SegmentSelector_index (s : SegmentSelector) : Z := Z.shiftr (selector s) 3.

Definition SegmentSelector_rpl `{BitField} (s : SegmentSelector) : outcome PrivilegeLevel :=
  b ← get_bits 16 (selector s) 0 2;
  PrivilegeLevel_from_u16 b.

Definition SegmentSelector_set_rpl `{BitField} (s : SegmentSelector) (rpl : PrivilegeLevel)
    : outcome SegmentSelector :=
  mkSegmentSelector <$> set_bits 16 (selector s) 0 2 (privilege_u16 rpl).

(** ** [TaskStateSegment] *)
Record TaskStateSegment : Type := mkTaskStateSegment {
  reserved_1 : Z;
  privilege_stack_table : list VirtAddr;
  reserved_2 : Z;
  interrupt_stack_table : list VirtAddr;
  reserved_3 : Z;
  reserved_4 : Z;
  iomap_base : Z;
}.

(** [size_of::<TaskStateSegment>()] of the [repr(C, packed(4))] struct: the sum
    of its fields, which are all multiples of two bytes at 4-byte packing. *)
Definition TSS_SIZE : Z := 4 + 3 * 8 + 8 + 7 * 8 + 8 + 2 + 2.

Definition TaskStateSegment_new : TaskStateSegment := {|
  privilege_stack_table := replicate 3 VirtAddr_zero;
  interrupt_stack_table := replicate 7 VirtAddr_zero;
  iomap_base := wrap 16 TSS_SIZE;
  reserved_1 := 0;
  reserved_2 := 0;
  reserved_3 := 0;
  reserved_4 := 0;
|}.

(** ** [DescriptorFlags] *)
Definition DescriptorFlags_ACCESSED : Z := Z.shiftl 1 40.
Definition DescriptorFlags_WRITABLE : Z := Z.shiftl 1 41.
Definition DescriptorFlags_CONFORMING : Z := Z.shiftl 1 42.
Definition DescriptorFlags_EXECUTABLE : Z := Z.shiftl 1 43.
Definition DescriptorFlags_USER_SEGMENT : Z := Z.shiftl 1 44.
Definition DescriptorFlags_DPL_RING_3 : Z := Z.shiftl 3 45.
Definition DescriptorFlags_PRESENT : Z := Z.shiftl 1 47.
Definition DescriptorFlags_AVAILABLE : Z := Z.shiftl 1 52.
Definition DescriptorFlags_LONG_MODE : Z := Z.shiftl 1 53.
Definition DescriptorFlags_DEFAULT_SIZE : Z := Z.shiftl 1 54.
Definition DescriptorFlags_GRANULARITY : Z := Z.shiftl 1 55.
Definition DescriptorFlags_LIMIT_0_15 : Z := 0xFFFF.
Definition DescriptorFlags_LIMIT_16_19 : Z := Z.shiftl 0xF 48.
Definition DescriptorFlags_BASE_0_23 : Z := Z.shiftl 0xFFFFFF 16.
Definition DescriptorFlags_BASE_24_31 : Z := Z.shiftl 0xFF 56.

Definition DescriptorFlags_all : Z :=
  foldr Z.lor 0
    [DescriptorFlags_ACCESSED; DescriptorFlags_WRITABLE; DescriptorFlags_CONFORMING;
     DescriptorFlags_EXECUTABLE; DescriptorFlags_USER_SEGMENT; DescriptorFlags_DPL_RING_3;
     DescriptorFlags_PRESENT; DescriptorFlags_AVAILABLE; DescriptorFlags_LONG_MODE;
     DescriptorFlags_DEFAULT_SIZE; DescriptorFlags_GRANULARITY; DescriptorFlags_LIMIT_0_15;
     DescriptorFlags_LIMIT_16_19; DescriptorFlags_BASE_0_23; DescriptorFlags_BASE_24_31].

Section default_flags.
Context `{Bitflags}.

Definition DescriptorFlags_COMMON : Z :=
  from_bits_truncate DescriptorFlags_all
    (Z.lor (Z.lor (Z.lor (Z.lor (Z.lor (Z.lor
       DescriptorFlags_USER_SEGMENT DescriptorFlags_PRESENT) DescriptorFlags_WRITABLE)
       DescriptorFlags_ACCESSED) DescriptorFlags_LIMIT_0_15) DescriptorFlags_LIMIT_16_19)
       DescriptorFlags_GRANULARITY).

Definition DescriptorFlags_KERNEL_DATA : Z :=
  from_bits_truncate DescriptorFlags_all (Z.lor DescriptorFlags_COMMON DescriptorFlags_DEFAULT_SIZE).

Definition DescriptorFlags_KERNEL_CODE32 : Z :=
  from_bits_truncate DescriptorFlags_all
    (Z.lor (Z.lor DescriptorFlags_COMMON DescriptorFlags_EXECUTABLE) DescriptorFlags_DEFAULT_SIZE).

Definition DescriptorFlags_KERNEL_CODE64 : Z :=
  from_bits_truncate DescriptorFlags_all
    (Z.lor (Z.lor DescriptorFlags_COMMON DescriptorFlags_EXECUTABLE) DescriptorFlags_LONG_MODE).

Definition DescriptorFlags_USER_DATA : Z :=
  from_bits_truncate DescriptorFlags_all (Z.lor DescriptorFlags_KERNEL_DATA DescriptorFlags_DPL_RING_3).

Definition DescriptorFlags_USER_CODE32 : Z :=
  from_bits_truncate DescriptorFlags_all (Z.lor DescriptorFlags_KERNEL_CODE32 DescriptorFlags_DPL_RING_3).

Definition DescriptorFlags_USER_CODE64 : Z :=
  from_bits_truncate DescriptorFlags_all (Z.lor DescriptorFlags_KERNEL_CODE64 DescriptorFlags_DPL_RING_3).
End default_flags.

(** ** [Descriptor] *)
Inductive Descriptor : Type :=
  | UserSegment (v : Z)
  | SystemSegment (low high : Z).

Definition Descriptor_dpl (d : Descriptor) : outcome PrivilegeLevel :=
  let value_low := match d with UserSegment v => v | SystemSegment v _ => v end in
  let dpl := Z.shiftr (Z.land value_low DescriptorFlags_DPL_RING_3) 45 in
  PrivilegeLevel_from_u16 (wrap 16 dpl).

Definition Descriptor_kernel_code_segment `{Bitflags} : Descriptor :=
  UserSegment DescriptorFlags_KERNEL_CODE64.
Definition Descriptor_kernel_data_segment `{Bitflags} : Descriptor :=
  UserSegment DescriptorFlags_KERNEL_DATA.
Definition Descriptor_user_data_segment `{Bitflags} : Descriptor :=
  UserSegment DescriptorFlags_USER_DATA.
Definition Descriptor_user_code_segment `{Bitflags} : Descriptor :=
  UserSegment DescriptorFlags_USER_CODE64.

(** [tss] is the address of the task state segment. *)
Definition Descriptor_tss_segment_unchecked `{BitField} (ptr : Z) : outcome Descriptor :=
  let low := DescriptorFlags_PRESENT in
  (* base *)
  b ← get_bits 64 ptr 0 24;
  low ← set_bits 64 low 16 40 b;
  b ← get_bits 64 ptr 24 32;
  low ← set_bits 64 low 56 64 b;
  (* limit (the -1 is needed since the bound is inclusive) *)
  low ← set_bits 64 low 0 16 (TSS_SIZE - 1);
  (* type (0b1001 = available 64-bit tss) *)
  low ← set_bits 64 low 40 44 9;
  let high := 0 in
  b ← get_bits 64 ptr 32 64;
  high ← set_bits 64 high 0 32 b;
  Ret (SystemSegment low high).

Definition Descriptor_tss_segment `{BitField} (ptr : Z) : outcome Descriptor :=
  Descriptor_tss_segment_unchecked ptr.

(** ** [GlobalDescriptorTable<MAX>] *)
Record GdtEntry : Type := mkGdtEntry { gdt_raw : Z }.
Definition Entry_new (raw : Z) : GdtEntry := mkGdtEntry raw.
Definition Entry_raw (e : GdtEntry) : Z := gdt_raw e.
Definition Entry_clone (e : GdtEntry) : GdtEntry := Entry_new (Entry_raw e).
Definition Entry_eq (e e' : GdtEntry) : bool := Entry_raw e =? Entry_raw e'.

Record GlobalDescriptorTable : Type := mkGdt { gdt_table : list GdtEntry; gdt_len : Z }.

Definition GDT_empty (MAX : Z) : outcome GlobalDescriptorTable :=
  _ ← rust_assert (0 <? MAX);
  _ ← rust_assert (MAX <=? Z.shiftl 1 13);
  Ret (mkGdt (replicate (Z.to_nat MAX) (Entry_new 0)) 1).

Definition GDT_new : outcome GlobalDescriptorTable := GDT_empty 8.
Definition GDT_default : outcome GlobalDescriptorTable := GDT_new.

(** The [while] loop copies the slice to the front of the table. *)
Fixpoint copy_entries (table : list GdtEntry) (slice : list Z) (idx : nat) : list GdtEntry :=
  match slice with
  | [] => table
  | v :: slice => copy_entries (<[idx := Entry_new v]> table) slice (S idx)
  end.

Definition GDT_from_raw_entries (MAX : Z) (slice : list Z) : outcome GlobalDescriptorTable :=
  let len := Z.of_nat (length slice) in
  empty ← GDT_empty MAX;
  let table := gdt_table empty in
  _ ← rust_assert (0 <? len);
  first ← unwrap (slice !! 0%nat);
  _ ← rust_assert (first =? 0);
  _ ← rust_assert (len <=? MAX);
  Ret (mkGdt (copy_entries table slice 0) len).

Definition GDT_entries (g : GlobalDescriptorTable) : list GdtEntry :=
  take (Z.to_nat (gdt_len g)) (gdt_table g).

(** [push] stores at [len]; an index outside of the table panics. *)
Definition GDT_push `{Target} (g : GlobalDescriptorTable) (value : Z)
    : outcome (Z * GlobalDescriptorTable) :=
  let index := gdt_len g in
  if index <? Z.of_nat (length (gdt_table g)) then
    len ← arith usize_bits (gdt_len g + 1);
    Ret (index, mkGdt (<[Z.to_nat index := Entry_new value]> (gdt_table g)) len)
  else Panic.

Definition saturating_sub (x y : Z) : Z := Z.max 0 (x - y).

Definition GDT_append `{Target} (g : GlobalDescriptorTable) (entry : Descriptor)
    : outcome (SegmentSelector * GlobalDescriptorTable) :=
  let table_len := Z.of_nat (length (gdt_table g)) in
  '(index, g') ←
    match entry with
    | UserSegment value =>
        if saturating_sub table_len 1 <? gdt_len g then Panic else GDT_push g value
    | SystemSegment value_low value_high =>
        if saturating_sub table_len 2 <? gdt_len g then Panic else
        '(index, g) ← GDT_push g value_low;
        '(_, g) ← GDT_push g value_high;
        Ret (index, g)
    end;
  dpl ← Descriptor_dpl entry;
  Ret (SegmentSelector_new (wrap 16 index) dpl, g').

Definition GDT_limit `{Target} (g : GlobalDescriptorTable) : outcome Z :=
  bytes ← arith usize_bits (gdt_len g * 8);
  limit ← arith usize_bits (bytes - 1);
  Ret (wrap 16 limit).

(** ** Facts *)
Definition gdt_wf (MAX : Z) (g : GlobalDescriptorTable) : Prop :=
  0 < MAX <= 2 ^ 13 /\ Z.of_nat (length (gdt_table g)) = MAX /\ 1 <= gdt_len g <= MAX.

(** The entries a descriptor occupies. *)
Definition descriptor_entries (d : Descriptor) : list GdtEntry :=
  match d with
  | UserSegment v => [Entry_new v]
  | SystemSegment low high => [Entry_new low; Entry_new high]
  end.

Definition descriptor_low (d : Descriptor) : Z :=
  match d with UserSegment v => v | SystemSegment v _ => v end.

Lemma PrivilegeLevel_from_u16_val l : PrivilegeLevel_from_u16 (privilege_u16 l) = Ret l.
Proof. by destruct l. Qed.

Lemma PrivilegeLevel_from_u16_total x :
  0 <= x < 4 -> exists l, PrivilegeLevel_from_u16 x = Ret l /\ privilege_u16 l = x.
Proof.
  intros Hx. assert (x = 0 \/ x = 1 \/ x = 2 \/ x = 3) as [->|[->|[->| ->]]] by lia; eauto.
Qed.

Lemma dpl_bits v : Z.shiftr (Z.land v DescriptorFlags_DPL_RING_3) 45 = v / 2 ^ 45 mod 4.
Proof.
  change DescriptorFlags_DPL_RING_3 with (Z.shiftl (2 ^ 2 - 1) 45).
  rewrite Z.shiftr_land, Z.shiftr_shiftl_l, Z.sub_diag, Z.shiftl_0_r by lia.
  rewrite land_ones_mod, Z.shiftr_div_pow2 by lia. done.
Qed.

(** The two DPL bits always form a privilege level: [dpl] never panics. *)
Lemma Descriptor_dpl_val d :
  exists l, Descriptor_dpl d = Ret l /\ privilege_u16 l = descriptor_low d / 2 ^ 45 mod 4.
Proof.
  assert (Descriptor_dpl d = PrivilegeLevel_from_u16 (descriptor_low d / 2 ^ 45 mod 4)) as ->.
  { unfold Descriptor_dpl. fold (descriptor_low d). rewrite dpl_bits, wrap_small; [done|].
    pose proof (Z.mod_pos_bound (descriptor_low d / 2 ^ 45) 4). unfold uN. lia. }
  apply PrivilegeLevel_from_u16_total. by apply Z.mod_pos_bound.
Qed.

Lemma selector_val index rpl :
  0 <= index < 2 ^ 13 -> selector (SegmentSelector_new index rpl) = index * 8 + privilege_u16 rpl.
Proof.
  intros Hi. unfold SegmentSelector_new. cbn [selector].
  rewrite Z.shiftl_mul_pow2, wrap_small by (unfold uN; lia).
  rewrite Z.lor_comm, lor_low_high; [lia|lia|]. destruct rpl; cbn; lia.
Qed.

Lemma copy_entries_spec slice : forall table idx,
  (idx + length slice <= length table)%nat ->
  copy_entries table slice idx =
    take idx table ++ (Entry_new <$> slice) ++ drop (idx + length slice) table.
Proof.
  induction slice as [|v slice IH]; intros table idx Hl; simpl.
  - by rewrite Nat.add_0_r, take_drop.
  - simpl in Hl. rewrite IH by (rewrite length_insert; lia).
    rewrite drop_insert_lt by lia. rewrite (take_S_r _ _ (Entry_new v)).
    + rewrite take_insert_ge by lia. rewrite <- app_assoc.
      replace (S idx + length slice)%nat with (idx + S (length slice))%nat by lia. done.
    + apply list_lookup_insert_eq. lia.
Qed.

Section push.
Context `{TargetOk}.

Lemma GDT_push_run MAX g v :
  gdt_wf MAX g -> gdt_len g < MAX ->
  let g' := mkGdt (<[Z.to_nat (gdt_len g) := Entry_new v]> (gdt_table g)) (gdt_len g + 1) in
  GDT_push g v = Ret (gdt_len g, g') /\ gdt_wf MAX g' /\
  GDT_entries g' = GDT_entries g ++ [Entry_new v].
Proof.
  intros (HM & Ht & Hl) Hlt g'. pose proof usize_bits_ge as Hb.
  assert (2 ^ 13 < 2 ^ usize_bits) as Hp by (apply Z.pow_lt_mono_r; lia).
  unfold GDT_push. rewrite (proj2 (Z.ltb_lt _ _)) by lia.
  rewrite arith_in_range by (unfold uN; lia). split_and!; [done| |].
  - unfold gdt_wf, g'. cbn [gdt_table gdt_len]. rewrite length_insert. lia.
  - unfold GDT_entries, g'. cbn [gdt_table gdt_len].
    replace (Z.to_nat (gdt_len g + 1)) with (S (Z.to_nat (gdt_len g))) by lia.
    rewrite (take_S_r _ _ (Entry_new v)).
    + by rewrite take_insert_ge by lia.
    + apply list_lookup_insert_eq. lia.
Qed.

(** The entries of a descriptor that fits are pushed. *)
Lemma GDT_append_push MAX g d :
  gdt_wf MAX g -> gdt_len g + Z.of_nat (length (descriptor_entries d)) <= MAX ->
  exists g', GDT_append g d =
      (dpl ← Descriptor_dpl d; Ret (SegmentSelector_new (wrap 16 (gdt_len g)) dpl, g')) /\
    gdt_wf MAX g' /\ gdt_len g' = gdt_len g + Z.of_nat (length (descriptor_entries d)) /\
    GDT_entries g' = GDT_entries g ++ descriptor_entries d.
Proof.
  intros Hwf Hfit. pose proof Hwf as (HM & Ht & Hl). unfold GDT_append.
  destruct d as [v|low high]; cbn [descriptor_entries length] in Hfit |- *.
  - destruct (GDT_push_run MAX g v Hwf ltac:(lia)) as (-> & Hwf' & He).
    rewrite (proj2 (Z.ltb_ge _ _)) by (unfold saturating_sub; lia). eexists. split_and!; done.
  - destruct (GDT_push_run MAX g low Hwf ltac:(lia)) as (-> & Hwf' & He).
    rewrite (proj2 (Z.ltb_ge _ _)) by (unfold saturating_sub; lia). cbn [mbind outcome_bind].
    set (g1 := mkGdt _ _) in *.
    destruct (GDT_push_run MAX g1 high Hwf') as (-> & Hwf2 & He2); [cbn [g1 gdt_len]; lia|].
    cbn [mbind outcome_bind]. eexists. split_and!; [done|done|cbn [gdt_len g1]; lia|].
    rewrite He2, He. by rewrite <- app_assoc.
Qed.

Lemma GDT_limit_val MAX g :
  gdt_wf MAX g -> 0 < gdt_len g -> GDT_limit g = Ret (8 * gdt_len g - 1).
Proof.
  intros (HM & Ht & Hl) Hpos. pose proof usize_bits_ge.
  assert (2 ^ 17 < 2 ^ usize_bits) as Hp by (apply Z.pow_lt_mono_r; lia).
  unfold GDT_limit. rewrite arith_in_range by (unfold uN; lia). cbn [mbind outcome_bind].
  rewrite arith_in_range by (unfold uN; lia). cbn [mbind outcome_bind].
  rewrite wrap_small by (unfold uN; lia). f_equal. lia.
Qed.
End push.

(** A selector gives back its index and its privilege level. *)
Lemma selector_new_fields `{BFL : BitFieldLaws} index l :
  0 <= index < 2 ^ 13 ->
  SegmentSelector_index (SegmentSelector_new index l) = index /\
  SegmentSelector_rpl (SegmentSelector_new index l) = Ret l.
Proof.
  intros Hidx. pose proof (selector_val index l Hidx) as Es.
  assert (0 <= privilege_u16 l < 4) as Hr by (destruct l; cbn; lia). split.
  - unfold SegmentSelector_index. rewrite Es, Z.shiftr_div_pow2 by lia. mlia.
  - unfold SegmentSelector_rpl. rewrite get_bits_law by (rewrite ?Es; unfold uN; lia).
    cbn [mbind outcome_bind]. rewrite Es. unfold field.
    replace ((index * 8 + privilege_u16 l) / 2 ^ 0 mod 2 ^ (2 - 0)) with (privilege_u16 l) by mlia.
    apply PrivilegeLevel_from_u16_val.
Qed.

(** ** Properties *)

(** C24. [append] panics exactly when the table has too few free entries for the
    descriptor (one for a user, two for a system segment).  Otherwise it
    appends the descriptor's entries behind the existing ones, which stay, and
    returns the selector whose index is that of the first new entry and whose
    requested privilege level is the descriptor's DPL; the limit is one less
    than the size of the used entries in bytes. *)
Theorem GDT_append_correct `{BFL : BitFieldLaws} `{TargetOk} MAX g d :
  gdt_wf MAX g ->
  let n := Z.of_nat (length (descriptor_entries d)) in
  if gdt_len g + n <=? MAX then
    exists s g' l, GDT_append g d = Ret (s, g') /\ gdt_wf MAX g' /\
      GDT_entries g' = GDT_entries g ++ descriptor_entries d /\
      SegmentSelector_index s = gdt_len g /\
      Descriptor_dpl d = Ret l /\ SegmentSelector_rpl s = Ret l /\
      GDT_limit g' = Ret (8 * (gdt_len g + n) - 1)
  else GDT_append g d = Panic.
Proof.
  intros Hwf n. pose proof Hwf as (HM & Ht & Hl).
  destruct (Descriptor_dpl_val d) as (l & Edpl & _).
  destruct (Z.leb_spec (gdt_len g + n) MAX) as [Hfit|Hfull].
  - destruct (GDT_append_push MAX g d Hwf Hfit) as (g' & -> & Hwf' & Hlen & He).
    assert (0 <= gdt_len g < 2 ^ 13) as Hidx by (unfold n in Hfit; destruct d; cbn in Hfit; lia).
    rewrite Edpl. cbn [mbind outcome_bind]. rewrite wrap_small by (unfold uN; lia).
    destruct (selector_new_fields (gdt_len g) l Hidx) as [Ei Er].
    exists (SegmentSelector_new (gdt_len g) l), g', l. split_and!; try done.
    rewrite (GDT_limit_val MAX g' Hwf') by (rewrite Hlen; unfold n; destruct d; cbn; lia).
    by rewrite Hlen.
  - unfold GDT_append. destruct d as [v|low high]; cbn [descriptor_entries length] in n; subst n;
      by rewrite (proj2 (Z.ltb_lt _ _)) by (unfold saturating_sub; lia).
Qed.

Lemma GDT_append_correct_witness :
  let T := {| overflow_checks := true; usize_bits := 64 |} in
  let g := mkGdt (replicate 8 (Entry_new 0)) 7 in
  gdt_wf 8 g /\ GDT_append (H := T) g (SystemSegment 1 2) = Panic.
Proof.
  intros T g. assert (gdt_wf 8 g) as Hg by (split_and!; vm_compute; done). split; [exact Hg|].
  exact (GDT_append_correct (BFL := ref_bit_field_laws) (T := T) (H := or_intror eq_refl) 8 g
    (SystemSegment 1 2) Hg).
Defined.

(** [from_raw_entries] panics exactly when [MAX] is not in [1, 2^13], the
    slice is empty, longer than [MAX], or does not start with a null entry;
    otherwise the table holds exactly the slice. *)
Theorem GDT_from_raw_entries_correct MAX slice :
  let ok := (0 <? MAX) && (MAX <=? 2 ^ 13) && (1 <=? Z.of_nat (length slice)) &&
            (Z.of_nat (length slice) <=? MAX) && bool_decide (slice !! 0%nat = Some 0) in
  if ok then
    exists g, GDT_from_raw_entries MAX slice = Ret g /\ gdt_wf MAX g /\
      GDT_entries g = Entry_new <$> slice
  else GDT_from_raw_entries MAX slice = Panic.
Proof.
  unfold GDT_from_raw_entries, GDT_empty. change (Z.shiftl 1 13) with (2 ^ 13).
  destruct (Z.ltb_spec 0 MAX); cbn [rust_assert mbind outcome_bind andb]; [|done].
  destruct (Z.leb_spec MAX (2 ^ 13)); cbn [rust_assert mbind outcome_bind andb]; [|done].
  destruct slice as [|v slice]; [done|].
  rewrite (proj2 (Z.ltb_lt 0 _)), (proj2 (Z.leb_le 1 _)) by (cbn [length]; lia).
  cbn [rust_assert mbind outcome_bind andb unwrap lookup list_lookup].
  destruct (Z.leb_spec (Z.of_nat (length (v :: slice))) MAX) as [Hl|Hl]; cbn [andb].
  2: { by destruct (v =? 0). }
  case_bool_decide as Hv.
  2: { rewrite (proj2 (Z.eqb_neq v 0)) by congruence. done. }
  assert (v = 0) as -> by congruence. cbn [Z.eqb rust_assert mbind outcome_bind gdt_table].
  eexists. split; [done|].
  rewrite copy_entries_spec by (rewrite length_replicate; lia). rewrite take_0, app_nil_l.
  split.
  - split_and!; cbn [gdt_table gdt_len]; try lia; [|cbn [length]; lia].
    rewrite length_app, length_fmap, length_drop, length_replicate. lia.
  - unfold GDT_entries. cbn [gdt_table gdt_len]. rewrite Nat2Z.id.
    rewrite <- (length_fmap Entry_new (0 :: slice)) at 1. apply take_app_length.
Qed.

(** [tss_segment] encodes a TSS descriptor that decodes to the base address
    of the TSS (split over both words), the limit 0x67, the type of an available
    64-bit TSS, DPL 0 and the present bit, with all other bits zero. *)
Theorem tss_segment_decodes `{BFL : BitFieldLaws} ptr :
  u64 ptr ->
  exists low high, Descriptor_tss_segment ptr = Ret (SystemSegment low high) /\
    u64 low /\ u64 high /\
    field low 16 40 + field low 56 64 * 2 ^ 24 + field high 0 32 * 2 ^ 32 = ptr /\
    field low 0 16 = 0x67 /\ field low 40 44 = 9 /\ field low 44 47 = 0 /\
    Z.testbit low 47 = true /\ field low 48 56 = 0 /\ field high 32 64 = 0 /\
    Descriptor_dpl (SystemSegment low high) = Ret Ring0.
Proof.
  intros Hp. unfold Descriptor_tss_segment, Descriptor_tss_segment_unchecked.
  assert (u64 DescriptorFlags_PRESENT) as H0 by (split; vm_compute; done).
  assert (uN 24 (field ptr 0 24)) as F1 by by apply (field_uN ptr 0 24).
  assert (uN 8 (field ptr 24 32)) as F2 by by apply (field_uN ptr 24 32).
  assert (uN 32 (field ptr 32 64)) as F3 by by apply (field_uN ptr 32 64).
  assert (uN 16 (TSS_SIZE - 1)) as F4 by (split; vm_compute; done).
  assert (uN 4 9) as F5 by (split; vm_compute; done).
  rewrite !get_bits_law by (done || lia). cbn [mbind outcome_bind].
  set (l1 := set_field DescriptorFlags_PRESENT 16 40 (field ptr 0 24)).
  assert (u64 l1) as H1 by (by apply set_field_uN; [lia|lia| |]).
  set (l2 := set_field l1 56 64 (field ptr 24 32)).
  assert (u64 l2) as H2 by (by apply set_field_uN; [lia|lia| |]).
  set (l3 := set_field l2 0 16 (TSS_SIZE - 1)).
  assert (u64 l3) as H3 by (by apply set_field_uN; [lia|lia| |]).
  set (l4 := set_field l3 40 44 9).
  assert (u64 l4) as H4 by (by apply set_field_uN; [lia|lia| |]).
  set (h := set_field 0 0 32 (field ptr 32 64)).
  assert (u64 h) as Hh by (apply set_field_uN; [lia|lia|split; vm_compute; done|done]).
  exists l4, h. split.
  { rewrite (set_bits_law 64 DescriptorFlags_PRESENT 16 40) by (done || lia). cbn [mbind outcome_bind].
    fold l1. rewrite (set_bits_law 64 l1 56 64) by (done || lia). cbn [mbind outcome_bind].
    fold l2. rewrite (set_bits_law 64 l2 0 16) by (done || lia). cbn [mbind outcome_bind].
    fold l3. rewrite (set_bits_law 64 l3 40 44) by (done || lia). cbn [mbind outcome_bind].
    fold l4. rewrite (set_bits_law 64 0 0 32) by (assumption || (unfold uN; lia)). done. }
  assert (field l4 44 47 = 0) as Hdpl.
  { unfold l4, l3, l2, l1. rewrite !field_set_field_other by (assumption || lia). reflexivity. }
  split_and!; [done|done| | | |done| | | |].
  - unfold l4, l3, h. rewrite !(field_set_field_other _ 40 44), !(field_set_field_other _ 0 16) by (assumption || lia).
    unfold l2. rewrite (field_set_field_other _ 56 64 _ 16 40), field_set_field_same by (assumption || lia).
    unfold l1. rewrite !field_set_field_same by (assumption || lia). unfold field, uN in *. mlia.
  - unfold l4, l3. rewrite field_set_field_other, field_set_field_same by (assumption || lia). reflexivity.
  - unfold l4. by rewrite field_set_field_same by (assumption || lia).
  - unfold l4, l3, l2, l1. by rewrite !testbit_set_field by (assumption || lia).
  - unfold l4, l3, l2, l1. rewrite !field_set_field_other by (assumption || lia). reflexivity.
  - unfold h. rewrite field_set_field_other by (assumption || lia). reflexivity.
  - destruct (Descriptor_dpl_val (SystemSegment l4 h)) as (l & -> & El). cbn [descriptor_low] in El.
    unfold field in Hdpl. assert (privilege_u16 l = 0) as E0 by (unfold uN in H4; mlia).
    by destruct l.
Qed.

Lemma tss_segment_decodes_witness :
  let ptr := 0xffff800012345678 in
  exists low high, Descriptor_tss_segment ptr = Ret (SystemSegment low high) /\ field low 0 16 = 0x67.
Proof.
  intros ptr. destruct (tss_segment_decodes (BFL := ref_bit_field_laws) ptr ltac:(split; vm_compute; done))
    as (low & high & E & _ & _ & _ & El & _).
  exists low, high. split; [exact E|exact El].
Defined.

(** The predefined segments are those of Linux. *)
Lemma default_segment_bits `{BL : BitflagsLaws} :
  DescriptorFlags_KERNEL_CODE64 = 0x00af9b000000ffff /\
  DescriptorFlags_KERNEL_CODE32 = 0x00cf9b000000ffff /\
  DescriptorFlags_KERNEL_DATA = 0x00cf93000000ffff /\
  DescriptorFlags_USER_CODE64 = 0x00affb000000ffff /\
  DescriptorFlags_USER_CODE32 = 0x00cffb000000ffff /\
  DescriptorFlags_USER_DATA = 0x00cff3000000ffff.
Proof.
  unfold DescriptorFlags_USER_CODE64, DescriptorFlags_USER_CODE32,
    DescriptorFlags_USER_DATA, DescriptorFlags_KERNEL_CODE64, DescriptorFlags_KERNEL_CODE32,
    DescriptorFlags_KERNEL_DATA, DescriptorFlags_COMMON.
  autorewrite with flags. split_and!; reflexivity.
Qed.

Lemma default_segment_dpl `{BL : BitflagsLaws} :
  Descriptor_dpl Descriptor_kernel_code_segment = Ret Ring0 /\
  Descriptor_dpl Descriptor_kernel_data_segment = Ret Ring0 /\
  Descriptor_dpl Descriptor_user_code_segment = Ret Ring3 /\
  Descriptor_dpl Descriptor_user_data_segment = Ret Ring3.
Proof.
  unfold Descriptor_kernel_code_segment, Descriptor_kernel_data_segment,
    Descriptor_user_code_segment, Descriptor_user_data_segment.
  destruct default_segment_bits as (-> & _ & -> & -> & _ & ->). split_and!; reflexivity.
Qed.

(** The predefined segments have the documented values (those of Linux)
    and privilege levels; a selector gives back its index and privilege level,
    and [set_rpl] changes the privilege level only. *)
Theorem segment_defaults_and_selectors `{BL : BitflagsLaws} `{BFL : BitFieldLaws} index l l' :
  0 <= index < 2 ^ 13 ->
  (DescriptorFlags_KERNEL_CODE64 = 0x00af9b000000ffff /\
   DescriptorFlags_KERNEL_CODE32 = 0x00cf9b000000ffff /\
   DescriptorFlags_KERNEL_DATA = 0x00cf93000000ffff /\
   DescriptorFlags_USER_CODE64 = 0x00affb000000ffff /\
   DescriptorFlags_USER_CODE32 = 0x00cffb000000ffff /\
   DescriptorFlags_USER_DATA = 0x00cff3000000ffff) /\
  (Descriptor_dpl Descriptor_kernel_code_segment = Ret Ring0 /\
   Descriptor_dpl Descriptor_kernel_data_segment = Ret Ring0 /\
   Descriptor_dpl Descriptor_user_code_segment = Ret Ring3 /\
   Descriptor_dpl Descriptor_user_data_segment = Ret Ring3) /\
  let s := SegmentSelector_new index l in
  SegmentSelector_index s = index /\ SegmentSelector_rpl s = Ret l /\
  SegmentSelector_set_rpl s l' = Ret (SegmentSelector_new index l').
Proof.
  intros Hi.
  split; [apply default_segment_bits|]. split; [apply default_segment_dpl|].
  cbn zeta. pose proof (selector_val index l Hi) as Es. pose proof (selector_val index l' Hi) as Es'.
  assert (0 <= privilege_u16 l < 4) as Hr by (destruct l; cbn; lia).
  assert (0 <= privilege_u16 l' < 4) as Hr' by (destruct l'; cbn; lia).
  split_and!.
  - unfold SegmentSelector_index. rewrite Es, Z.shiftr_div_pow2 by lia. mlia.
  - unfold SegmentSelector_rpl. rewrite get_bits_law by (rewrite ?Es; unfold uN; lia).
    cbn [mbind outcome_bind]. rewrite Es. unfold field.
    replace ((index * 8 + privilege_u16 l) / 2 ^ 0 mod 2 ^ (2 - 0)) with (privilege_u16 l) by mlia.
    apply PrivilegeLevel_from_u16_val.
  - unfold SegmentSelector_set_rpl. rewrite set_bits_law by (rewrite ?Es; unfold uN; lia).
    cbn [fmap outcome_fmap]. f_equal.
    transitivity (mkSegmentSelector (selector (SegmentSelector_new index l'))); [|by destruct (SegmentSelector_new index l')].
    f_equal. rewrite Es, Es'. unfold set_field. mlia.
Qed.

Lemma segment_defaults_and_selectors_witness :
  0 <= 5 < 2 ^ 13 /\ SegmentSelector_rpl (SegmentSelector_new 5 Ring3) = Ret Ring3.
Proof.
  split; [lia|].
  exact (proj1 (proj2 (proj2 (proj2 (segment_defaults_and_selectors
    (BL := ref_bitflags_laws) (BFL := ref_bit_field_laws) 5 Ring3 Ring0 ltac:(lia)))))).
Defined.
