(* ===== verification/Debug.v ===== *)
(** * Debug registers ([registers/debug.rs])

    The address register numbers, the breakpoint conditions and sizes, the
    flag sets of DR6 and DR7, the packed value of DR7 and the accesses to the
    registers.  A register is a 64-bit cell of the machine state [DebugRegs];
    the inline [mov] instructions read and write the cell.

    The contract of [Dr7Value] is stated with an abstract control block
    ([Dr7Spec]): a flag set, and a condition and a size per address register.
    Every operation on the packed value acts on the one component it names. *)
From Stdlib Require Import ZArith Lia Bool.
From stdpp Require Import base decidable option list numbers.
From S2P Require Import Prelude Crates.
#[local] Open Scope Z_scope.

(** ** Address register numbers *)
Inductive DebugAddressRegisterNumber := Dr0 | Dr1 | Dr2 | Dr3.
#[export] Instance DebugAddressRegisterNumber_eq_dec : EqDecision DebugAddressRegisterNumber.
Proof. solve_decision. Defined.

Definition DebugAddressRegisterNumber_new (n : Z) : option DebugAddressRegisterNumber :=
  match n with
  | 0 => Some Dr0 | 1 => Some Dr1 | 2 => Some Dr2 | 3 => Some Dr3
  | _ => None
  end.
Definition DebugAddressRegisterNumber_get (n : DebugAddressRegisterNumber) : Z :=
  match n with Dr0 => 0 | Dr1 => 1 | Dr2 => 2 | Dr3 => 3 end.

(** ** Flags of DR6 and DR7 *)
Definition TRAP0 : Z := 1.
Definition TRAP1 : Z := Z.shiftl 1 1.
Definition TRAP2 : Z := Z.shiftl 1 2.
Definition TRAP3 : Z := Z.shiftl 1 3.
Definition TRAP : Z := Z.lor (Z.lor (Z.lor TRAP0 TRAP1) TRAP2) TRAP3.
Definition ACCESS_DETECTED : Z := Z.shiftl 1 13.
Definition STEP : Z := Z.shiftl 1 14.
Definition SWITCH : Z := Z.shiftl 1 15.
Definition RTM : Z := Z.shiftl 1 16.
Definition Dr6Flags_all : Z :=
  foldr Z.lor 0 [TRAP0; TRAP1; TRAP2; TRAP3; TRAP; ACCESS_DETECTED; STEP; SWITCH; RTM].

Definition Dr6Flags_trap (n : DebugAddressRegisterNumber) : Z :=
  match n with Dr0 => TRAP0 | Dr1 => TRAP1 | Dr2 => TRAP2 | Dr3 => TRAP3 end.

Definition LOCAL_BREAKPOINT_0_ENABLE : Z := 1.
Definition LOCAL_BREAKPOINT_1_ENABLE : Z := Z.shiftl 1 2.
Definition LOCAL_BREAKPOINT_2_ENABLE : Z := Z.shiftl 1 4.
Definition LOCAL_BREAKPOINT_3_ENABLE : Z := Z.shiftl 1 6.
Definition GLOBAL_BREAKPOINT_0_ENABLE : Z := Z.shiftl 1 1.
Definition GLOBAL_BREAKPOINT_1_ENABLE : Z := Z.shiftl 1 3.
Definition GLOBAL_BREAKPOINT_2_ENABLE : Z := Z.shiftl 1 5.
Definition GLOBAL_BREAKPOINT_3_ENABLE : Z := Z.shiftl 1 7.
Definition LOCAL_EXACT_BREAKPOINT_ENABLE : Z := Z.shiftl 1 8.
Definition GLOBAL_EXACT_BREAKPOINT_ENABLE : Z := Z.shiftl 1 9.
Definition RESTRICTED_TRANSACTIONAL_MEMORY : Z := Z.shiftl 1 11.
Definition GENERAL_DETECT_ENABLE : Z := Z.shiftl 1 13.
Definition Dr7Flags_all : Z :=
  foldr Z.lor 0
    [LOCAL_BREAKPOINT_0_ENABLE; LOCAL_BREAKPOINT_1_ENABLE; LOCAL_BREAKPOINT_2_ENABLE;
     LOCAL_BREAKPOINT_3_ENABLE; GLOBAL_BREAKPOINT_0_ENABLE; GLOBAL_BREAKPOINT_1_ENABLE;
     GLOBAL_BREAKPOINT_2_ENABLE; GLOBAL_BREAKPOINT_3_ENABLE; LOCAL_EXACT_BREAKPOINT_ENABLE;
     GLOBAL_EXACT_BREAKPOINT_ENABLE; RESTRICTED_TRANSACTIONAL_MEMORY; GENERAL_DETECT_ENABLE].

Definition Dr7Flags_local_breakpoint_enable (n : DebugAddressRegisterNumber) : Z :=
  match n with
  | Dr0 => LOCAL_BREAKPOINT_0_ENABLE
  | Dr1 => LOCAL_BREAKPOINT_1_ENABLE
  | Dr2 => LOCAL_BREAKPOINT_2_ENABLE
  | Dr3 => LOCAL_BREAKPOINT_3_ENABLE
  end.
Definition Dr7Flags_global_breakpoint_enable (n : DebugAddressRegisterNumber) : Z :=
  match n with
  | Dr0 => GLOBAL_BREAKPOINT_0_ENABLE
  | Dr1 => GLOBAL_BREAKPOINT_1_ENABLE
  | Dr2 => GLOBAL_BREAKPOINT_2_ENABLE
  | Dr3 => GLOBAL_BREAKPOINT_3_ENABLE
  end.

(** ** Breakpoint conditions and sizes *)
Inductive BreakpointCondition :=
  | InstructionExecution | DataWrites | IoReadsWrites | DataReadsWrites.
#[export] Instance BreakpointCondition_eq_dec : EqDecision BreakpointCondition.
Proof. solve_decision. Defined.
(** [condition as u64]: the discriminant. *)
Definition BreakpointCondition_as_u64 (c : BreakpointCondition) : Z :=
  match c with
  | InstructionExecution => 0 | DataWrites => 1 | IoReadsWrites => 2 | DataReadsWrites => 3
  end.
Definition BreakpointCondition_from_bits (bits : Z) : option BreakpointCondition :=
  match bits with
  | 0 => Some InstructionExecution
  | 1 => Some DataWrites
  | 2 => Some IoReadsWrites
  | 3 => Some DataReadsWrites
  | _ => None
  end.

Inductive BreakpointSize := Length1B | Length2B | Length8B | Length4B.
#[export] Instance BreakpointSize_eq_dec : EqDecision BreakpointSize.
Proof. solve_decision. Defined.
Definition BreakpointSize_as_u64 (s : BreakpointSize) : Z :=
  match s with Length1B => 0 | Length2B => 1 | Length8B => 2 | Length4B => 3 end.
Definition BreakpointSize_new (size : Z) : option BreakpointSize :=
  match size with
  | 1 => Some Length1B | 2 => Some Length2B | 8 => Some Length8B | 4 => Some Length4B
  | _ => None
  end.
Definition BreakpointSize_from_bits (bits : Z) : option BreakpointSize :=
  match bits with
  | 0 => Some Length1B | 1 => Some Length2B | 2 => Some Length8B | 3 => Some Length4B
  | _ => None
  end.

Section bit_ranges.
Context `{T : Target}.
(** [(16 + 4 * n.get()) as usize] is computed in [u8] and widened. *)
Definition BreakpointCondition_bit_range (n : DebugAddressRegisterNumber) : outcome (Z * Z) :=
  m ← arith 8 (4 * DebugAddressRegisterNumber_get n);
  lsb ← arith 8 (16 + m);
  hi ← arith usize_bits (lsb + 2);
  Ret (lsb, hi).
Definition BreakpointSize_bit_range (n : DebugAddressRegisterNumber) : outcome (Z * Z) :=
  m ← arith 8 (4 * DebugAddressRegisterNumber_get n);
  lsb ← arith 8 (18 + m);
  hi ← arith usize_bits (lsb + 2);
  Ret (lsb, hi).
End bit_ranges.

(** ** The packed value of DR7 *)
Record Dr7Value := { Dr7Value_bits : Z }.

Definition Dr7Value_valid_bits : Z :=
  let field_valid_bits := Z.shiftl 1 32 - Z.shiftl 1 16 in
  let flag_valid_bits := Dr7Flags_all in
  Z.lor field_valid_bits flag_valid_bits.

Definition Dr7Value_from_bits (bits : Z) : option Dr7Value :=
  if Z.land bits (bitnot 64 Dr7Value_valid_bits) =? 0
  then Some {| Dr7Value_bits := bits |} else None.
Definition Dr7Value_from_bits_truncate (bits : Z) : Dr7Value :=
  {| Dr7Value_bits := Z.land bits Dr7Value_valid_bits |}.
Definition Dr7Value_from_bits_unchecked (bits : Z) : Dr7Value := {| Dr7Value_bits := bits |}.
(** [From<Dr7Flags>]. *)
Definition Dr7Value_from (dr7_flags : Z) : Dr7Value := Dr7Value_from_bits_truncate dr7_flags.

Definition Dr7Value_insert_flags (v : Dr7Value) (flags : Z) : Dr7Value :=
  {| Dr7Value_bits := Z.lor (Dr7Value_bits v) flags |}.
Definition Dr7Value_remove_flags (v : Dr7Value) (flags : Z) : Dr7Value :=
  {| Dr7Value_bits := Z.land (Dr7Value_bits v) (bitnot 64 flags) |}.
Definition Dr7Value_toggle_flags (v : Dr7Value) (flags : Z) : Dr7Value :=
  {| Dr7Value_bits := Z.lxor (Dr7Value_bits v) flags |}.
Definition Dr7Value_set_flags (v : Dr7Value) (flags : Z) (value : bool) : Dr7Value :=
  if value then Dr7Value_insert_flags v flags else Dr7Value_remove_flags v flags.

Section dr7_value.
Context `{T : Target} `{B : BitField} `{F : Bitflags}.

Definition Dr7Value_flags (v : Dr7Value) : Z := from_bits_truncate Dr7Flags_all (Dr7Value_bits v).

Definition Dr7Value_condition (v : Dr7Value) (n : DebugAddressRegisterNumber)
    : outcome BreakpointCondition :=
  '(lo, hi) ← BreakpointCondition_bit_range n;
  condition ← get_bits 64 (Dr7Value_bits v) lo hi;
  unwrap (BreakpointCondition_from_bits condition).
Definition Dr7Value_set_condition (v : Dr7Value) (n : DebugAddressRegisterNumber)
    (condition : BreakpointCondition) : outcome Dr7Value :=
  '(lo, hi) ← BreakpointCondition_bit_range n;
  bits ← set_bits 64 (Dr7Value_bits v) lo hi (BreakpointCondition_as_u64 condition);
  Ret {| Dr7Value_bits := bits |}.
Definition Dr7Value_size (v : Dr7Value) (n : DebugAddressRegisterNumber)
    : outcome BreakpointSize :=
  '(lo, hi) ← BreakpointSize_bit_range n;
  size ← get_bits 64 (Dr7Value_bits v) lo hi;
  unwrap (BreakpointSize_from_bits size).
Definition Dr7Value_set_size (v : Dr7Value) (n : DebugAddressRegisterNumber)
    (size : BreakpointSize) : outcome Dr7Value :=
  '(lo, hi) ← BreakpointSize_bit_range n;
  bits ← set_bits 64 (Dr7Value_bits v) lo hi (BreakpointSize_as_u64 size);
  Ret {| Dr7Value_bits := bits |}.
End dr7_value.

(** ** The registers *)
Record DebugRegs := {
  dr_addr : DebugAddressRegisterNumber -> Z;
  dr6 : Z;
  dr7 : Z;
}.

(** [DebugAddressRegister::read] and [write], for the register [n]. *)
Definition DebugAddressRegister_read (n : DebugAddressRegisterNumber) (s : DebugRegs) : Z :=
  dr_addr s n.
Definition DebugAddressRegister_write (n : DebugAddressRegisterNumber) (addr : Z)
    (s : DebugRegs) : DebugRegs :=
  {| dr_addr := fun m => if decide (m = n) then addr else dr_addr s m;
     dr6 := dr6 s; dr7 := dr7 s |}.

Definition Dr6_read_raw (s : DebugRegs) : Z := dr6 s.
Definition Dr6_read `{F : Bitflags} (s : DebugRegs) : Z :=
  from_bits_truncate Dr6Flags_all (Dr6_read_raw s).
Definition Dr7_read_raw (s : DebugRegs) : Z := dr7 s.
Definition Dr7_read (s : DebugRegs) : Dr7Value := Dr7Value_from_bits_truncate (Dr7_read_raw s).
Definition Dr7_write_raw (value : Z) (s : DebugRegs) : DebugRegs :=
  {| dr_addr := dr_addr s; dr6 := dr6 s; dr7 := value |}.
Definition Dr7_write (value : Dr7Value) (s : DebugRegs) : DebugRegs :=
  let old_value := Dr7_read_raw s in
  let reserved := Z.land old_value (bitnot 64 Dr7Value_valid_bits) in
  let new_value := Z.lor reserved (Dr7Value_bits value) in
  Dr7_write_raw new_value s.
(** The closure is a function that may panic. *)
Definition Dr7_update (f : Dr7Value -> outcome Dr7Value) (s : DebugRegs) : outcome DebugRegs :=
  value ← f (Dr7_read s);
  Ret (Dr7_write value s).

(** ** Bounds of the masks *)
Lemma Dr7Flags_all_u64 : u64 Dr7Flags_all.
Proof. split; vm_compute; congruence. Qed.
Lemma Dr7Value_valid_bits_u64 : u64 Dr7Value_valid_bits.
Proof. split; vm_compute; congruence. Qed.
#[local] Hint Resolve Dr7Flags_all_u64 Dr7Value_valid_bits_u64 : core.

Lemma Dr7Flags_all_high i : 16 <= i -> Z.testbit Dr7Flags_all i = false.
Proof. intros Hi. apply (uN_testbit_high 16); [lia| |done]. split; vm_compute; congruence. Qed.

Lemma testbit_valid_bits i :
  0 <= i ->
  Z.testbit Dr7Value_valid_bits i =
    ((16 <=? i) && (i <? 32)) || Z.testbit Dr7Flags_all i.
Proof.
  intros Hi. unfold Dr7Value_valid_bits. rewrite Z.lor_spec. f_equal.
  change (Z.shiftl 1 32 - Z.shiftl 1 16) with (Z.shiftl (Z.ones 16) 16).
  rewrite Z.shiftl_spec by done. destruct (Z.leb_spec 16 i).
  - rewrite Z.testbit_ones_nonneg by lia. simpl.
    apply Bool.eq_iff_eq_true. rewrite !Z.ltb_lt. lia.
  - by rewrite Z.testbit_neg_r by lia.
Qed.

(** ** The control block a DR7 value stands for *)
Record Dr7Spec := {
  spec_flags : Z;
  spec_condition : DebugAddressRegisterNumber -> BreakpointCondition;
  spec_size : DebugAddressRegisterNumber -> BreakpointSize;
}.
Definition Dr7Spec_eq (d d' : Dr7Spec) : Prop :=
  spec_flags d = spec_flags d' /\
  forall n, spec_condition d n = spec_condition d' n /\ spec_size d n = spec_size d' n.

Definition spec_set_flags (d : Dr7Spec) (flags : Z) : Dr7Spec :=
  {| spec_flags := flags; spec_condition := spec_condition d; spec_size := spec_size d |}.
Definition spec_set_condition (d : Dr7Spec) n (c : BreakpointCondition) : Dr7Spec :=
  {| spec_flags := spec_flags d;
     spec_condition m := if decide (m = n) then c else spec_condition d m;
     spec_size := spec_size d |}.
Definition spec_set_size (d : Dr7Spec) n (z : BreakpointSize) : Dr7Spec :=
  {| spec_flags := spec_flags d; spec_condition := spec_condition d;
     spec_size m := if decide (m = n) then z else spec_size d m |}.

(** A set of declared flags, and the invariant of [Dr7Value]. *)
Definition Dr7Flags_wf (f : Z) : Prop := u64 f /\ Z.land f Dr7Flags_all = f.
Definition Dr7Value_wf (v : Dr7Value) : Prop :=
  u64 (Dr7Value_bits v) /\
  Z.land (Dr7Value_bits v) (bitnot 64 Dr7Value_valid_bits) = 0.

(** The least significant bit of the condition field; the size field follows. *)
Definition lsb (n : DebugAddressRegisterNumber) : Z := 16 + 4 * DebugAddressRegisterNumber_get n.

Lemma lsb_bounds n : 16 <= lsb n <= 28.
Proof. destruct n; vm_compute; split; congruence. Qed.

Lemma lsb_apart n m : n <> m -> lsb n + 4 <= lsb m \/ lsb m + 4 <= lsb n.
Proof. destruct n, m; try done; intros _; vm_compute; first [left; congruence | right; congruence]. Qed.

Lemma condition_as_u64_uN c : uN 2 (BreakpointCondition_as_u64 c).
Proof. destruct c; split; vm_compute; congruence. Qed.
Lemma size_as_u64_uN z : uN 2 (BreakpointSize_as_u64 z).
Proof. destruct z; split; vm_compute; congruence. Qed.

Lemma condition_from_bits_iff b c :
  BreakpointCondition_from_bits b = Some c <-> b = BreakpointCondition_as_u64 c.
Proof.
  split; [|intros ->; by destruct c].
  destruct b as [|[[]|[]|]|]; cbn; intros [= <-]; done.
Qed.
Lemma size_from_bits_iff b z :
  BreakpointSize_from_bits b = Some z <-> b = BreakpointSize_as_u64 z.
Proof.
  split; [|intros ->; by destruct z].
  destruct b as [|[[]|[]|]|]; cbn; intros [= <-]; done.
Qed.

Lemma two_bits b : uN 2 b -> b = 0 \/ b = 1 \/ b = 2 \/ b = 3.
Proof. intros [? H]. change (2 ^ 2) with 4 in H. lia. Qed.

(** ** Refinement of the control block *)
Section refinement.
Context `{T : Target} {TO : TargetOk T} `{B : BitField} {BL : BitFieldLaws B}.
Context `{F : Bitflags} {FL : BitflagsLaws F}.

Definition Represents (v : Dr7Value) (d : Dr7Spec) : Prop :=
  Dr7Value_wf v /\ Dr7Value_flags v = spec_flags d /\
  forall n, Dr7Value_condition v n = Ret (spec_condition d n) /\
            Dr7Value_size v n = Ret (spec_size d n).

Lemma small_usize x : 0 <= x < 64 -> uN usize_bits x.
Proof. unfold uN. destruct target_usize as [-> | ->]; lia. Qed.

Lemma condition_bit_range n : BreakpointCondition_bit_range n = Ret (lsb n, lsb n + 2).
Proof.
  pose proof small_usize. unfold BreakpointCondition_bit_range, lsb.
  destruct n; cbn [DebugAddressRegisterNumber_get];
    repeat (rewrite arith_in_range by (auto with lia || (unfold uN; lia));
      cbn [mbind outcome_bind]); done.
Qed.
Lemma size_bit_range n : BreakpointSize_bit_range n = Ret (lsb n + 2, lsb n + 4).
Proof.
  pose proof small_usize. unfold BreakpointSize_bit_range, lsb.
  destruct n; cbn [DebugAddressRegisterNumber_get];
    repeat (rewrite arith_in_range by (auto with lia || (unfold uN; lia));
      cbn [mbind outcome_bind]); done.
Qed.

Lemma condition_iff v n c :
  u64 (Dr7Value_bits v) ->
  Dr7Value_condition v n = Ret c <->
  field (Dr7Value_bits v) (lsb n) (lsb n + 2) = BreakpointCondition_as_u64 c.
Proof.
  intros Hv. pose proof (lsb_bounds n). unfold Dr7Value_condition.
  rewrite condition_bit_range. cbn [mbind outcome_bind].
  rewrite get_bits_law by (assumption || lia). cbn [mbind outcome_bind].
  by rewrite unwrap_Ret, condition_from_bits_iff.
Qed.
Lemma size_iff v n z :
  u64 (Dr7Value_bits v) ->
  Dr7Value_size v n = Ret z <->
  field (Dr7Value_bits v) (lsb n + 2) (lsb n + 4) = BreakpointSize_as_u64 z.
Proof.
  intros Hv. pose proof (lsb_bounds n). unfold Dr7Value_size.
  rewrite size_bit_range. cbn [mbind outcome_bind].
  rewrite get_bits_law by (assumption || lia). cbn [mbind outcome_bind].
  by rewrite unwrap_Ret, size_from_bits_iff.
Qed.

Lemma condition_total v n : u64 (Dr7Value_bits v) -> exists c, Dr7Value_condition v n = Ret c.
Proof.
  intros Hv. setoid_rewrite condition_iff; [|done].
  pose proof (field_uN (Dr7Value_bits v) (lsb n) (lsb n + 2) ltac:(lia)) as Hf.
  replace (lsb n + 2 - lsb n) with 2 in Hf by lia.
  destruct (two_bits _ Hf) as [->|[->|[->| ->]]];
    [exists InstructionExecution|exists DataWrites|exists IoReadsWrites|exists DataReadsWrites]; done.
Qed.
Lemma size_total v n : u64 (Dr7Value_bits v) -> exists z, Dr7Value_size v n = Ret z.
Proof.
  intros Hv. setoid_rewrite size_iff; [|done].
  pose proof (field_uN (Dr7Value_bits v) (lsb n + 2) (lsb n + 4) ltac:(lia)) as Hf.
  replace (lsb n + 4 - (lsb n + 2)) with 2 in Hf by lia.
  destruct (two_bits _ Hf) as [->|[->|[->| ->]]];
    [exists Length1B|exists Length2B|exists Length8B|exists Length4B]; done.
Qed.

(** Every well-formed value stands for a control block. *)
Lemma Represents_total v : Dr7Value_wf v -> exists d, Represents v d.
Proof.
  intros Hv.
  destruct (condition_total v Dr0 (proj1 Hv)) as [c0 C0], (condition_total v Dr1 (proj1 Hv)) as [c1 C1],
    (condition_total v Dr2 (proj1 Hv)) as [c2 C2], (condition_total v Dr3 (proj1 Hv)) as [c3 C3],
    (size_total v Dr0 (proj1 Hv)) as [z0 S0], (size_total v Dr1 (proj1 Hv)) as [z1 S1],
    (size_total v Dr2 (proj1 Hv)) as [z2 S2], (size_total v Dr3 (proj1 Hv)) as [z3 S3].
  exists {| spec_flags := Dr7Value_flags v;
    spec_condition n := match n with Dr0 => c0 | Dr1 => c1 | Dr2 => c2 | Dr3 => c3 end;
    spec_size n := match n with Dr0 => z0 | Dr1 => z1 | Dr2 => z2 | Dr3 => z3 end |}.
  split; [done|]. split; [done|]. by intros [].
Qed.

(** Each bit of the field area belongs to a condition or a size field. *)
Lemma field_area i :
  16 <= i < 32 -> exists n, lsb n <= i < lsb n + 2 \/ lsb n + 2 <= i < lsb n + 4.
Proof.
  intros Hi.
  destruct (decide (i < 20)); [exists Dr0|destruct (decide (i < 24)); [exists Dr1|
    destruct (decide (i < 28)); [exists Dr2|exists Dr3]]];
    unfold lsb; cbn [DebugAddressRegisterNumber_get]; lia.
Qed.

Lemma field_eq_testbit x y lo hi i :
  0 <= lo -> lo <= i < hi -> field x lo hi = field y lo hi -> Z.testbit x i = Z.testbit y i.
Proof.
  intros Hlo Hi E. apply (f_equal (fun z => Z.testbit z (i - lo))) in E.
  rewrite !testbit_field, (proj2 (Z.ltb_lt _ _)) in E by lia. cbn [andb] in E.
  by replace (i - lo + lo) with i in E by lia.
Qed.

(** ... and a control block is stood for by one value only. *)
Lemma Represents_inj v v' d d' :
  Represents v d -> Represents v' d' -> Dr7Spec_eq d d' -> v = v'.
Proof.
  intros ([Hv Hm] & HF & HS) ([Hv' Hm'] & HF' & HS') [Ef Es].
  destruct v as [x], v' as [y]. cbn [Dr7Value_bits] in *. f_equal. apply Z.bits_inj'. intros i Hi.
  rewrite land_bitnot_0 in Hm, Hm' by auto.
  destruct (Z.testbit Dr7Value_valid_bits i) eqn:E; [|by rewrite Hm, Hm'].
  rewrite testbit_valid_bits in E by done. apply orb_true_iff in E as [E|E].
  - apply andb_true_iff in E as [E1%Z.leb_le E2%Z.ltb_lt].
    destruct (field_area i (conj E1 E2)) as [n Hn]. pose proof (lsb_bounds n).
    destruct (HS n) as [C S'], (HS' n) as [C' S'']. destruct (Es n) as [Ec Ez].
    rewrite condition_iff in C, C' by done. rewrite size_iff in S', S'' by done. cbn [Dr7Value_bits] in C, C', S', S''.
    destruct Hn; [apply (field_eq_testbit _ _ (lsb n) (lsb n + 2))
      |apply (field_eq_testbit _ _ (lsb n + 2) (lsb n + 4))]; try lia; congruence.
  - unfold Dr7Value_flags in HF, HF'. rewrite from_bits_truncate_law in HF, HF'. cbn [Dr7Value_bits] in HF, HF'.
    assert (Z.land x Dr7Flags_all = Z.land y Dr7Flags_all) as EE by congruence.
    apply (f_equal (fun z => Z.testbit z i)) in EE. rewrite !Z.land_spec, E, !andb_true_r in EE. done.
Qed.

(** Values that differ in flag bits only have the same fields. *)
Lemma flags_op_represents x y d f :
  Represents {| Dr7Value_bits := x |} d -> u64 y ->
  (forall i, 0 <= i -> Z.testbit Dr7Flags_all i = false -> Z.testbit y i = Z.testbit x i) ->
  Z.land y Dr7Flags_all = f ->
  Represents {| Dr7Value_bits := y |} (spec_set_flags d f).
Proof.
  intros ([Hx Hm] & HF & HS) Hy Hbits Hf. cbn [Dr7Value_bits] in *.
  split; [split; [done|]|split].
  - cbn [Dr7Value_bits spec_set_flags spec_flags]. rewrite land_bitnot_0 in Hm |- * by auto. intros i Hi Hb.
    rewrite Hbits; [auto|done|]. rewrite testbit_valid_bits in Hb by done.
    apply orb_false_iff in Hb. tauto.
  - unfold Dr7Value_flags. rewrite from_bits_truncate_law. done.
  - assert (forall lo hi, 16 <= lo <= hi -> field y lo hi = field x lo hi) as Hfield.
    { intros lo hi Hlo. apply Z.bits_inj'. intros i Hi. rewrite !testbit_field by lia. f_equal.
      apply Hbits; [lia|]. apply Dr7Flags_all_high. lia. }
    intros n. pose proof (lsb_bounds n). destruct (HS n) as [C Z'].
    rewrite condition_iff in C |- * by done. rewrite size_iff in Z' |- * by done. cbn [Dr7Value_bits spec_set_flags spec_condition spec_size] in C, Z' |- *.
    rewrite !Hfield by lia. done.
Qed.

(** Writing a field in the field area keeps the value well formed. *)
Lemma set_field_wf x lo hi w :
  Dr7Value_wf {| Dr7Value_bits := x |} -> 16 <= lo <= hi -> hi <= 32 -> uN (hi - lo) w ->
  Dr7Value_wf {| Dr7Value_bits := set_field x lo hi w |} /\
  Z.land (set_field x lo hi w) Dr7Flags_all = Z.land x Dr7Flags_all.
Proof.
  intros [Hx Hm] Hlo Hhi Hw. cbn [Dr7Value_bits] in *.
  assert (u64 (set_field x lo hi w)) as Hu by (apply set_field_uN; (assumption || lia)).
  split; [split; [done|]|].
  - cbn [Dr7Value_bits spec_set_flags spec_flags]. rewrite land_bitnot_0 in Hm |- * by auto. intros i Hi Hb.
    rewrite testbit_set_field by (assumption || lia).
    destruct (Z.leb_spec lo i), (Z.ltb_spec i hi); cbn [andb]; auto.
    rewrite testbit_valid_bits, (proj2 (Z.leb_le 16 i)), (proj2 (Z.ltb_lt i 32)) in Hb by lia. done.
  - apply Z.bits_inj'. intros i Hi. rewrite !Z.land_spec, testbit_set_field by (assumption || lia).
    destruct (Z.leb_spec lo i); cbn [andb]; [|done].
    by rewrite (Dr7Flags_all_high i), !andb_false_r by lia.
Qed.

Lemma insert_flags_represents v d f :
  Dr7Flags_wf f -> Represents v d ->
  Represents (Dr7Value_insert_flags v f) (spec_set_flags d (Z.lor (spec_flags d) f)).
Proof.
  intros [Hf Ha] HR. destruct v as [x]. pose proof HR as ([Hx _] & HF & _).
  unfold Dr7Value_flags in HF. rewrite from_bits_truncate_law in HF. cbn [Dr7Value_bits] in Hx, HF.
  apply (flags_op_represents x); [done|by apply lor_uN|..].
  - intros i Hi Hb. cbn [Dr7Value_bits spec_set_flags spec_flags]. rewrite <- Ha, Z.lor_spec, Z.land_spec, Hb.
    by rewrite andb_false_r, orb_false_r.
  - cbn [Dr7Value_bits spec_set_flags spec_flags]. rewrite Z.land_lor_distr_l. congruence.
Qed.

Lemma remove_flags_represents v d f :
  Dr7Flags_wf f -> Represents v d ->
  Represents (Dr7Value_remove_flags v f) (spec_set_flags d (Z.ldiff (spec_flags d) f)).
Proof.
  intros [Hf Ha] HR. destruct v as [x]. pose proof HR as ([Hx _] & HF & _).
  unfold Dr7Value_flags in HF. rewrite from_bits_truncate_law in HF. cbn [Dr7Value_bits] in Hx, HF.
  apply (flags_op_represents x); [done| |..].
  - cbn [Dr7Value_bits]. apply land_uN; [lia|done|]. rewrite bitnot_sub by (done || lia). unfold uN in Hf. lia.
  - intros i Hi Hb. cbn [Dr7Value_bits spec_set_flags spec_flags]. rewrite testbit_land_bitnot by done.
    rewrite <- Ha, Z.land_spec, Hb. by rewrite andb_false_r, andb_true_r.
  - cbn [Dr7Value_bits spec_set_flags spec_flags]. rewrite <- HF. apply Z.bits_inj'. intros i Hi.
    rewrite Z.land_spec, testbit_land_bitnot, Z.ldiff_spec, Z.land_spec by done.
    by destruct (Z.testbit x i), (Z.testbit f i), (Z.testbit Dr7Flags_all i).
Qed.

Lemma toggle_flags_represents v d f :
  Dr7Flags_wf f -> Represents v d ->
  Represents (Dr7Value_toggle_flags v f) (spec_set_flags d (Z.lxor (spec_flags d) f)).
Proof.
  intros [Hf Ha] HR. destruct v as [x]. pose proof HR as ([Hx _] & HF & _).
  unfold Dr7Value_flags in HF. rewrite from_bits_truncate_law in HF. cbn [Dr7Value_bits] in Hx, HF.
  apply (flags_op_represents x); [done| |..].
  - cbn [Dr7Value_bits]. apply uN_testbit; [lia|apply Z.lxor_nonneg; unfold uN in *; lia|].
    intros i Hi. rewrite Z.lxor_spec. by rewrite !(uN_testbit_high 64) by (done || lia).
  - intros i Hi Hb. cbn [Dr7Value_bits spec_set_flags spec_flags]. rewrite <- Ha, Z.lxor_spec, Z.land_spec, Hb.
    by rewrite andb_false_r, xorb_false_r.
  - cbn [Dr7Value_bits spec_set_flags spec_flags]. rewrite <- HF. rewrite <- Ha at 2. apply Z.bits_inj'. intros i Hi.
    rewrite !Z.land_spec, !Z.lxor_spec, !Z.land_spec.
    by destruct (Z.testbit x i), (Z.testbit f i), (Z.testbit Dr7Flags_all i).
Qed.

Lemma set_condition_represents v d n c :
  Represents v d ->
  exists v', Dr7Value_set_condition v n c = Ret v' /\ Represents v' (spec_set_condition d n c).
Proof.
  intros (Hwf & HF & HS). destruct v as [x]. pose proof (lsb_bounds n).
  pose proof (condition_as_u64_uN c) as Hc. pose proof (proj1 Hwf) as Hx. cbn [Dr7Value_bits] in Hx.
  assert (uN (lsb n + 2 - lsb n) (BreakpointCondition_as_u64 c)) as Hc'
    by (by replace (lsb n + 2 - lsb n) with 2 by lia).
  destruct (set_field_wf x (lsb n) (lsb n + 2) (BreakpointCondition_as_u64 c)) as [Hwf' Hfl];
    [done|lia|lia|done|].
  unfold Dr7Value_set_condition. rewrite condition_bit_range. cbn [mbind outcome_bind Dr7Value_bits].
  rewrite set_bits_law by (assumption || lia). cbn [mbind outcome_bind]. eexists. split; [done|].
  split; [done|]. split.
  - unfold Dr7Value_flags in *. rewrite from_bits_truncate_law in *.
    cbn [Dr7Value_bits] in *. rewrite Hfl. done.
  - intros m. pose proof (lsb_bounds m). destruct (HS m) as [C Z'].
    rewrite condition_iff in C |- * by (apply Hwf'||done). rewrite size_iff in Z' |- * by (apply Hwf'||done).
    cbn [Dr7Value_bits spec_condition spec_size spec_set_condition] in *. destruct (decide (m = n)) as [->|Hmn].
    + rewrite field_set_field_same, field_set_field_other by (assumption || lia). done.
    + destruct (lsb_apart m n Hmn); by rewrite !field_set_field_other by (assumption || lia).
Qed.

Lemma set_size_represents v d n z :
  Represents v d ->
  exists v', Dr7Value_set_size v n z = Ret v' /\ Represents v' (spec_set_size d n z).
Proof.
  intros (Hwf & HF & HS). destruct v as [x]. pose proof (lsb_bounds n).
  pose proof (size_as_u64_uN z) as Hc. pose proof (proj1 Hwf) as Hx. cbn [Dr7Value_bits] in Hx.
  assert (uN (lsb n + 4 - (lsb n + 2)) (BreakpointSize_as_u64 z)) as Hc'
    by (by replace (lsb n + 4 - (lsb n + 2)) with 2 by lia).
  destruct (set_field_wf x (lsb n + 2) (lsb n + 4) (BreakpointSize_as_u64 z)) as [Hwf' Hfl];
    [done|lia|lia|done|].
  unfold Dr7Value_set_size. rewrite size_bit_range. cbn [mbind outcome_bind Dr7Value_bits].
  rewrite set_bits_law by (assumption || lia). cbn [mbind outcome_bind]. eexists. split; [done|].
  split; [done|]. split.
  - unfold Dr7Value_flags in *. rewrite from_bits_truncate_law in *.
    cbn [Dr7Value_bits] in *. rewrite Hfl. done.
  - intros m. pose proof (lsb_bounds m). destruct (HS m) as [C Z'].
    rewrite condition_iff in C |- * by (apply Hwf'||done). rewrite size_iff in Z' |- * by (apply Hwf'||done).
    cbn [Dr7Value_bits spec_condition spec_size spec_set_size] in *. destruct (decide (m = n)) as [->|Hmn].
    + rewrite field_set_field_same, field_set_field_other by (assumption || lia). done.
    + destruct (lsb_apart m n Hmn); by rewrite !field_set_field_other by (assumption || lia).
Qed.
End refinement.

Section theorems.
Context `{T : Target} {TO : TargetOk T} `{B : BitField} {BL : BitFieldLaws B}.
Context `{F : Bitflags} {FL : BitflagsLaws F}.

Lemma from_bits_truncate_wf b : u64 b -> Dr7Value_wf (Dr7Value_from_bits_truncate b).
Proof.
  intros Hb. pose proof Dr7Value_valid_bits_u64 as Hm.
  assert (u64 (Z.land b Dr7Value_valid_bits)) as Hu by (apply land_uN; [lia|done|apply Hm]).
  split; [done|]. apply land_bitnot_0; [done|done|]. intros i Hi E.
  cbn [Dr7Value_bits Dr7Value_from_bits_truncate]. by rewrite Z.land_spec, E, andb_false_r.
Qed.

Lemma from_bits_truncate_id v :
  Dr7Value_wf v -> Dr7Value_from_bits_truncate (Dr7Value_bits v) = v.
Proof.
  intros [Hv Hm]. destruct v as [x]. unfold Dr7Value_from_bits_truncate.
  cbn [Dr7Value_bits] in *. f_equal. rewrite land_bitnot_0 in Hm by auto.
  apply Z.bits_inj'. intros i Hi. rewrite Z.land_spec.
  destruct (Z.testbit Dr7Value_valid_bits i) eqn:E; [apply andb_true_r|].
  by rewrite Hm.
Qed.

Lemma from_bits_iff x w :
  u64 x -> Dr7Value_from_bits x = Some w <-> Dr7Value_bits w = x /\ Dr7Value_wf w.
Proof.
  intros Hx. unfold Dr7Value_from_bits, Dr7Value_wf. destruct (Z.eqb_spec (Z.land x (bitnot 64 Dr7Value_valid_bits)) 0).
  - split; [by intros [= <-]|]. destruct w as [y]. cbn [Dr7Value_bits]. by intros [-> _].
  - split; [done|]. by intros [<- [_ ?]].
Qed.

Lemma from_bits_is_Some x :
  u64 x -> is_Some (Dr7Value_from_bits x) <->
    forall i, Z.testbit x i = true -> Z.testbit Dr7Flags_all i = true \/ 16 <= i < 32.
Proof.
  intros Hx. unfold Dr7Value_from_bits.
  assert (is_Some (if Z.land x (bitnot 64 Dr7Value_valid_bits) =? 0
                   then Some {| Dr7Value_bits := x |} else None) <->
    Z.land x (bitnot 64 Dr7Value_valid_bits) = 0) as ->.
  { destruct (Z.eqb_spec (Z.land x (bitnot 64 Dr7Value_valid_bits)) 0);
      (split; intros Hz; [try done; by destruct Hz|try done; by eexists]). }
  rewrite land_bitnot_0 by auto using Dr7Value_valid_bits_u64. split.
  - intros H i Hi. destruct (decide (0 <= i)) as [Hp|Hn]; [|by rewrite Z.testbit_neg_r in Hi by lia].
    specialize (H i Hp). rewrite testbit_valid_bits in H by done.
    destruct (Z.testbit Dr7Flags_all i); [by left|right].
    destruct (decide (16 <= i < 32)); [done|]. rewrite H in Hi; [done|]. zcase; simpl; lia || done.
  - intros H i Hp Hi. destruct (Z.testbit x i) eqn:E; [|done]. rewrite testbit_valid_bits in Hi by done.
    destruct (H i E) as [Ha|Ha]; [by rewrite Ha, ?orb_true_r in Hi|].
    revert Hi. zcase; simpl; try lia; done.
Qed.

(** C26. The packed DR7 value implements the control block it stands for.
    [from_bits] accepts a 64-bit word exactly when every set bit is a declared
    flag or in the condition and size fields (bits 16 to 31), and then returns
    the value with these bits, the well-formed values.  Every well-formed value
    stands for a control block (reading its flags, and each condition and size,
    never panics), which is unique, and no other value stands for it.
    Inserting, removing, toggling and setting declared flags changes the flag
    set as the set operation says, and no condition or size; setting the
    condition or the size of one address register never panics, changes that
    field only, and every result is well formed again. *)
Theorem Dr7Value_refines v (f : Z) n c z :
  Dr7Value_wf v -> Dr7Flags_wf f ->
  (forall x w, u64 x ->
     (Dr7Value_from_bits x = Some w <-> Dr7Value_bits w = x /\ Dr7Value_wf w) /\
     (is_Some (Dr7Value_from_bits x) <->
        forall i, Z.testbit x i = true -> Z.testbit Dr7Flags_all i = true \/ 16 <= i < 32)) /\
  exists d, Represents v d /\
  (forall v' d', Represents v' d' -> (v = v' <-> Dr7Spec_eq d d')) /\
  Represents (Dr7Value_insert_flags v f) (spec_set_flags d (Z.lor (spec_flags d) f)) /\
  Represents (Dr7Value_remove_flags v f) (spec_set_flags d (Z.ldiff (spec_flags d) f)) /\
  Represents (Dr7Value_toggle_flags v f) (spec_set_flags d (Z.lxor (spec_flags d) f)) /\
  (forall b, Represents (Dr7Value_set_flags v f b)
     (spec_set_flags d (if b then Z.lor (spec_flags d) f else Z.ldiff (spec_flags d) f))) /\
  (exists v', Dr7Value_set_condition v n c = Ret v' /\ Represents v' (spec_set_condition d n c)) /\
  (exists v', Dr7Value_set_size v n z = Ret v' /\ Represents v' (spec_set_size d n z)).
Proof.
  intros Hv Hf. split; [intros x w Hx; by split; [apply from_bits_iff|apply from_bits_is_Some]|].
  destruct (Represents_total v Hv) as [d HR]. exists d. split; [done|]. split.
  - intros v' d' HR'. split; [|by apply Represents_inj]. intros ->.
    destruct HR as (_ & HF & HS), HR' as (_ & HF' & HS'). split; [congruence|].
    intros m. destruct (HS m), (HS' m). split; congruence.
  - pose proof (insert_flags_represents v d f Hf HR). pose proof (remove_flags_represents v d f Hf HR).
    split; [done|]. split; [done|]. split; [by apply toggle_flags_represents|].
    split; [by intros []|]. split; [by apply set_condition_represents|by apply set_size_represents].
Qed.

(** [Dr7::update] with a closure that returns a well-formed value: the
    next [Dr7::read] returns that value, the reserved bits of the register
    keep their old contents, and no other debug register changes.  The value
    handed to the closure is well formed whatever the register holds, and a
    closure that panics makes the update panic before anything is written. *)
Theorem Dr7_update_correct (s : DebugRegs) (g : Dr7Value -> outcome Dr7Value) :
  u64 (dr7 s) ->
  (forall v v', Dr7Value_wf v -> g v = Ret v' -> Dr7Value_wf v') ->
  Dr7Value_wf (Dr7_read s) /\ (exists d, Represents (Dr7_read s) d) /\
  match g (Dr7_read s) with
  | Ret v' => exists s', Dr7_update g s = Ret s' /\ Dr7_read s' = v' /\
      Z.land (dr7 s') (bitnot 64 Dr7Value_valid_bits) =
        Z.land (dr7 s) (bitnot 64 Dr7Value_valid_bits) /\
      u64 (dr7 s') /\ Dr6_read s' = Dr6_read s /\
      forall n, DebugAddressRegister_read n s' = DebugAddressRegister_read n s
  | Panic => Dr7_update g s = Panic
  | Fault => Dr7_update g s = Fault
  end.
Proof.
  intros Hs Hg. pose proof (from_bits_truncate_wf _ Hs) as Hwf.
  split; [done|]. split; [by apply Represents_total|]. unfold Dr7_update.
  destruct (g (Dr7_read s)) as [v'| |] eqn:E; [|done|done]. cbn [mbind outcome_bind].
  pose proof (Hg _ _ Hwf E) as [Hv' Hm']. rewrite land_bitnot_0 in Hm' by auto.
  pose proof Dr7Value_valid_bits_u64 as HV.
  assert (u64 (Z.land (dr7 s) (bitnot 64 Dr7Value_valid_bits))) as Hr.
  { apply land_uN; [lia|done|]. rewrite bitnot_sub by (done || lia). unfold uN in HV. lia. }
  assert (u64 (Z.lor (Z.land (dr7 s) (bitnot 64 Dr7Value_valid_bits)) (Dr7Value_bits v'))) as Hn
    by (apply lor_uN; (lia || done)).
  eexists. split; [reflexivity|].
  split; [|split; [|done]].
  - trans (Dr7Value_from_bits_truncate (Dr7Value_bits v'));
      [|apply from_bits_truncate_id; split; [done|by apply land_bitnot_0]].
    unfold Dr7_read, Dr7Value_from_bits_truncate. f_equal. apply Z.bits_inj'. intros i Hi.
    cbn [dr7 Dr7_read_raw Dr7_write Dr7_write_raw Dr7Value_bits].
    rewrite !Z.land_spec, Z.lor_spec, testbit_land_bitnot by done.
    unfold Dr7_read_raw. by destruct (Z.testbit (dr7 s) i), (Z.testbit Dr7Value_valid_bits i),
      (Z.testbit (Dr7Value_bits v') i).
  - apply Z.bits_inj'. intros i Hi. cbn [dr7 Dr7_write Dr7_write_raw Dr7_read_raw].
    rewrite !testbit_land_bitnot, Z.lor_spec, testbit_land_bitnot by done.
    destruct (Z.testbit Dr7Value_valid_bits i) eqn:EV; cbn [negb]; rewrite ?andb_false_r; [done|].
    by rewrite !andb_true_r, Hm', orb_false_r.
Qed.
End theorems.

(** ** Examples *)
Definition example_dr7 : Dr7Value := {| Dr7Value_bits := 0xD0103 |}.

Lemma Dr7Value_refines_witness :
  let T := {| overflow_checks := true; usize_bits := 64 |} in
  exists d v', Represents example_dr7 d /\
    Dr7Value_set_condition example_dr7 Dr2 DataReadsWrites = Ret v' /\
    Represents v' (spec_set_condition d Dr2 DataReadsWrites) /\
    Dr7Value_bits v' = 0x30D0103.
Proof.
  intros T. assert (TargetOk T) by (right; reflexivity).
  assert (Dr7Value_wf example_dr7) as Hwf
    by (split; [split; vm_compute; congruence|vm_compute; reflexivity]).
  destruct (Dr7Value_refines example_dr7 GENERAL_DETECT_ENABLE Dr2
    DataReadsWrites Length8B) as (_ & d & HR0 & _ & _ & _ & _ & _ & (v' & E & HR) & _).
  - exact Hwf.
  - split; [split; vm_compute; congruence|vm_compute; reflexivity].
  - exists d, v'. split; [exact HR0|]. split; [exact E|]. split; [exact HR|].
    vm_compute in E. injection E as <-. reflexivity.
Defined.

Lemma Dr7_update_correct_witness :
  let T := {| overflow_checks := true; usize_bits := 64 |} in
  let s := {| dr_addr _ := 0; dr6 := 0xFFFF0FF0; dr7 := 0x400 |} in
  exists s', Dr7_update (fun v => Ret (Dr7Value_insert_flags v GENERAL_DETECT_ENABLE)) s = Ret s' /\
    Dr7Value_flags (Dr7_read s') = GENERAL_DETECT_ENABLE /\ dr7 s' = 0x2400.
Proof.
  intros T s. assert (TargetOk T) by (right; reflexivity).
  destruct (Dr7_update_correct s
    (fun v => Ret (Dr7Value_insert_flags v GENERAL_DETECT_ENABLE))) as (_ & _ & s' & E & R & _).
  - split; vm_compute; congruence.
  - intros v v' Hv [= <-]. destruct (Represents_total v Hv) as [d Hd].
    apply (insert_flags_represents v d GENERAL_DETECT_ENABLE); [|exact Hd].
    split; [split; vm_compute; congruence|vm_compute; reflexivity].
  - exists s'. split; [exact E|]. rewrite R. split; [vm_compute; reflexivity|].
    injection E as <-. vm_compute. reflexivity.
Defined.
