(* ===== verification/Tlb.v ===== *)
(** * Flushing the translation lookaside buffer ([instructions/tlb.rs])

    PCIDs, the [invpcid] command and its descriptor, and the broadcast flush:
    the processor's limits ([Invlpgb]), the builder and the loop that splits a
    page range into [invlpgb] instructions.  An executed instruction is a
    record of the register values handed to it; a flush returns the list of
    instructions it executes.  The CPUID leaves and the CS register are
    arguments. *)
From Stdlib Require Import ZArith Lia Bool.
From stdpp Require Import base decidable option list numbers.
From S2P Require Import Prelude Crates Index Addr Page Gdt.
#[local] Open Scope Z_scope.

(** ** PCIDs and [invpcid] *)
Record Pcid := mkPcid { pcid_value : Z }.
Record PcidTooBig := mkPcidTooBig { pcid_too_big : Z }.

Definition Pcid_new (pcid : Z) : result Pcid PcidTooBig :=
  if 4096 <=? pcid then Err (mkPcidTooBig pcid) else Ok (mkPcid pcid).
Definition Pcid_value (p : Pcid) : Z := pcid_value p.

Inductive InvPcidCommand :=
  | InvPcid_Address (addr : VirtAddr) (pcid : Pcid)
  | InvPcid_Single (pcid : Pcid)
  | InvPcid_All
  | InvPcid_AllExceptGlobal.

Record InvpcidDescriptor := { desc_pcid : Z; desc_address : Z }.

(** The operands of the [invpcid] instruction: the kind and the descriptor. *)
Definition flush_pcid (command : InvPcidCommand) : Z * InvpcidDescriptor :=
  match command with
  | InvPcid_Address addr pcid =>
      (0, {| desc_pcid := Pcid_value pcid; desc_address := VirtAddr_as_u64 addr |})
  | InvPcid_Single pcid => (1, {| desc_pcid := pcid_value pcid; desc_address := 0 |})
  | InvPcid_All => (2, {| desc_pcid := 0; desc_address := 0 |})
  | InvPcid_AllExceptGlobal => (3, {| desc_pcid := 0; desc_address := 0 |})
  end.

(** The operand of [invlpg]. *)
Definition flush (addr : VirtAddr) : Z := VirtAddr_as_u64 addr.

(** ** [Invlpgb] *)
Record Invlpgb := {
  invlpgb_count_max : Z;
  tlb_flush_nested : bool;
  nasid : Z;
}.

Record CpuidResult := { eax : Z; ebx : Z; ecx : Z; edx : Z }.

Definition Invlpgb_new `{BitField} (cs : SegmentSelector) (cpuid : Z -> CpuidResult)
    : outcome (option Invlpgb) :=
  rpl ← SegmentSelector_rpl cs;
  _ ← rust_assert (bool_decide (rpl = Ring0));
  supported ← get_bit 32 (ebx (cpuid 0x80000008)) 3;
  if negb supported then Ret None
  else
    nested ← get_bit 32 (ebx (cpuid 0x80000008)) 21;
    count ← get_bits 32 (edx (cpuid 0x80000008)) 0 16;
    Ret (Some {| tlb_flush_nested := nested;
                 invlpgb_count_max := wrap 16 count;
                 nasid := ebx (cpuid 0x8000000a) |}).

Definition Invlpgb_invlpgb_count_max (self : Invlpgb) : Z := invlpgb_count_max self.
Definition Invlpgb_tlb_flush_nested (self : Invlpgb) : bool := tlb_flush_nested self.
Definition Invlpgb_nasid (self : Invlpgb) : Z := nasid self.

Record InvlpgbFlushBuilder (S : PageSize) := {
  fb_invlpgb : Invlpgb;
  fb_page_range : option (PageRange S);
  fb_pcid : option Pcid;
  fb_asid : option Z;
  fb_include_global : bool;
  fb_final_translation_only : bool;
  fb_include_nested_translations : bool;
}.
Arguments fb_invlpgb {S}.
Arguments fb_page_range {S}.
Arguments fb_pcid {S}.
Arguments fb_asid {S}.
Arguments fb_include_global {S}.
Arguments fb_final_translation_only {S}.
Arguments fb_include_nested_translations {S}.

Definition Invlpgb_build (i : Invlpgb) : InvlpgbFlushBuilder Size4KiB :=
  {| fb_invlpgb := i; fb_page_range := None; fb_pcid := None; fb_asid := None;
     fb_include_global := false; fb_final_translation_only := false;
     fb_include_nested_translations := false |}.

Section builder.
Context {S : PageSize}.
Implicit Types b : InvlpgbFlushBuilder S.

Definition InvlpgbFlushBuilder_pages {T} (b : InvlpgbFlushBuilder S) (page_range : PageRange T)
    : InvlpgbFlushBuilder T :=
  {| fb_invlpgb := fb_invlpgb b; fb_page_range := Some page_range; fb_pcid := fb_pcid b;
     fb_asid := fb_asid b; fb_include_global := fb_include_global b;
     fb_final_translation_only := fb_final_translation_only b;
     fb_include_nested_translations := fb_include_nested_translations b |}.
Definition InvlpgbFlushBuilder_pcid b (pcid : Pcid) : InvlpgbFlushBuilder S :=
  {| fb_invlpgb := fb_invlpgb b; fb_page_range := fb_page_range b; fb_pcid := Some pcid;
     fb_asid := fb_asid b; fb_include_global := fb_include_global b;
     fb_final_translation_only := fb_final_translation_only b;
     fb_include_nested_translations := fb_include_nested_translations b |}.

Record AsidOutOfRangeError := { err_asid : Z; err_nasid : Z }.

(** The method borrows the builder: an error leaves it as it was. *)
Definition InvlpgbFlushBuilder_asid b (asid : Z)
    : result unit AsidOutOfRangeError * InvlpgbFlushBuilder S :=
  if nasid (fb_invlpgb b) <=? asid
  then (Err {| err_asid := asid; err_nasid := nasid (fb_invlpgb b) |}, b)
  else (Ok tt,
    {| fb_invlpgb := fb_invlpgb b; fb_page_range := fb_page_range b; fb_pcid := fb_pcid b;
       fb_asid := Some asid; fb_include_global := fb_include_global b;
       fb_final_translation_only := fb_final_translation_only b;
       fb_include_nested_translations := fb_include_nested_translations b |}).
Definition InvlpgbFlushBuilder_include_global b : InvlpgbFlushBuilder S :=
  {| fb_invlpgb := fb_invlpgb b; fb_page_range := fb_page_range b; fb_pcid := fb_pcid b;
     fb_asid := fb_asid b; fb_include_global := true;
     fb_final_translation_only := fb_final_translation_only b;
     fb_include_nested_translations := fb_include_nested_translations b |}.
Definition InvlpgbFlushBuilder_final_translation_only b : InvlpgbFlushBuilder S :=
  {| fb_invlpgb := fb_invlpgb b; fb_page_range := fb_page_range b; fb_pcid := fb_pcid b;
     fb_asid := fb_asid b; fb_include_global := fb_include_global b;
     fb_final_translation_only := true;
     fb_include_nested_translations := fb_include_nested_translations b |}.
Definition InvlpgbFlushBuilder_include_nested_translations b : outcome (InvlpgbFlushBuilder S) :=
  _ ← rust_assert (tlb_flush_nested (fb_invlpgb b));
  Ret {| fb_invlpgb := fb_invlpgb b; fb_page_range := fb_page_range b; fb_pcid := fb_pcid b;
     fb_asid := fb_asid b; fb_include_global := fb_include_global b;
     fb_final_translation_only := fb_final_translation_only b;
     fb_include_nested_translations := true |}.
End builder.

(** ** The [invlpgb] instruction *)
Record InvlpgbRegs := { reg_rax : Z; reg_ecx : Z; reg_edx : Z }.

Definition flush_broadcast `{BitField} {S : PageSize} (va_and_count : option (Page S * Z))
    (pcid : option Pcid) (asid : option Z)
    (include_global final_translation_only include_nested_translations : bool)
    : outcome InvlpgbRegs :=
  let rax := 0 in
  let ecx := 0 in
  let edx := 0 in
  '(rax, ecx) ← (match va_and_count with
    | Some (va, count) =>
        rax ← set_bit 64 rax 0 true;
        v ← get_bits 64 (VirtAddr_as_u64 (Page_start_address va)) 12 64;
        rax ← set_bits 64 rax 12 64 v;
        ecx ← set_bits 32 ecx 0 16 count;
        ecx ← set_bit 32 ecx 31 (SIZE S =? SIZE Size2MiB);
        Ret (rax, ecx)
    | None => Ret (rax, ecx)
    end);
  '(rax, edx) ← (match pcid with
    | Some pcid =>
        rax ← set_bit 64 rax 1 true;
        edx ← set_bits 32 edx 16 28 (Pcid_value pcid);
        Ret (rax, edx)
    | None => Ret (rax, edx)
    end);
  '(rax, edx) ← (match asid with
    | Some asid =>
        rax ← set_bit 64 rax 2 true;
        edx ← set_bits 32 edx 0 16 asid;
        Ret (rax, edx)
    | None => Ret (rax, edx)
    end);
  rax ← set_bit 64 rax 3 include_global;
  rax ← set_bit 64 rax 4 final_translation_only;
  rax ← set_bit 64 rax 5 include_nested_translations;
  Ret {| reg_rax := rax; reg_ecx := ecx; reg_edx := edx |}.

(** [flush]: the body of the loop computes the size of the next batch. *)
Definition flush_count `{Target} {S} (b : InvlpgbFlushBuilder S) (pages : PageRange S)
    : outcome Z :=
  let count := fst (Page_steps_between_impl (pr_start pages) (pr_end pages)) in
  second_half ← VirtAddr_new 0xffff800000000000;
  second_half_start ← Page_containing_address second_half;
  let count :=
    if Page_ltb (pr_start pages) second_half_start then
      let count_to_second_half :=
        fst (Page_steps_between_impl (pr_start pages) second_half_start) in
      Z.min count count_to_second_half
    else count in
  let count := if count <=? U16_MAX then count else U16_MAX in
  Ret (Z.min count (invlpgb_count_max (fb_invlpgb b))).

(** The [while] loop; [None] when the fuel does not suffice. *)
Fixpoint flush_loop `{BitField} `{Target} {S} (b : InvlpgbFlushBuilder S) (fuel : nat)
    (pages : PageRange S) : outcome (option (list InvlpgbRegs)) :=
  match fuel with
  | O => Ret None
  | Datatypes.S fuel =>
      if PageRange_is_empty pages then Ret (Some [])
      else
        count ← flush_count b pages;
        regs ← flush_broadcast (Some (pr_start pages, count)) (fb_pcid b) (fb_asid b)
                 (fb_include_global b) (fb_final_translation_only b)
                 (fb_include_nested_translations b);
        let inc_count := Z.max count 1 in
        o ← Page_forward_checked_impl (pr_start pages) inc_count;
        start ← unwrap o;
        l ← flush_loop b fuel (mkPageRange start (pr_end pages));
        Ret (option_map (cons regs) l)
  end.

Definition InvlpgbFlushBuilder_flush `{BitField} `{Target} {S} (fuel : nat)
    (b : InvlpgbFlushBuilder S) : outcome (option (list InvlpgbRegs)) :=
  match fb_page_range b with
  | Some pages => flush_loop b fuel pages
  | None =>
      regs ← flush_broadcast (S := S) None (fb_pcid b) (fb_asid b)
        (fb_include_global b) (fb_final_translation_only b)
        (fb_include_nested_translations b);
      Ret (Some [regs])
  end.

(** ** What an instruction does: the fields of its registers *)
Definition Pcid_wf (p : Pcid) : Prop := uN 12 (pcid_value p).

(** The registers encode a flush of [count] pages from a start page, or of
    the whole TLB, restricted to a PCID and an ASID when they are given. *)
Record encodes {S : PageSize} (r : InvlpgbRegs) (vc : option (Page S * Z)) (pcid : option Pcid)
    (asid : option Z) (global final nested : bool) : Prop := {
  enc_rax : u64 (reg_rax r);
  enc_ecx : uN 32 (reg_ecx r);
  enc_edx : uN 32 (reg_edx r);
  enc_va_valid : Z.testbit (reg_rax r) 0 = bool_decide (is_Some vc);
  enc_pcid_valid : Z.testbit (reg_rax r) 1 = bool_decide (is_Some pcid);
  enc_asid_valid : Z.testbit (reg_rax r) 2 = bool_decide (is_Some asid);
  enc_global : Z.testbit (reg_rax r) 3 = global;
  enc_final : Z.testbit (reg_rax r) 4 = final;
  enc_nested : Z.testbit (reg_rax r) 5 = nested;
  enc_reserved : field (reg_rax r) 6 12 = 0;
  enc_va : field (reg_rax r) 12 64 * 2 ^ 12 = from_option (fun '(p, _) => va (page_start p)) 0 vc;
  enc_count : field (reg_ecx r) 0 16 = from_option snd 0 vc;
  enc_stride : Z.testbit (reg_ecx r) 31 = bool_decide (is_Some vc /\ S = Size2MiB);
  enc_pcid : field (reg_edx r) 16 28 = from_option pcid_value 0 pcid;
  enc_asid : field (reg_edx r) 0 16 = from_option id 0 asid;
}.

Section broadcast.
Context `{B : BitField} {BL : BitFieldLaws B}.

Lemma page_addr_field {S} (p : Page S) :
  Page_wf p ->
  u64 (va (page_start p)) /\ uN (64 - 12) (field (va (page_start p)) 12 64) /\
  field (va (page_start p)) 12 64 * 2 ^ 12 = va (page_start p).
Proof.
  intros [Hc Hal]. pose proof (canonical_u64 _ Hc) as Hv. split; [done|].
  split; [apply field_uN; lia|]. unfold field. rewrite Z.mod_small by mlia.
  destruct S; page_consts; mlia.
Qed.

Lemma flush_broadcast_encodes {S} (vc : option (Page S * Z)) pcid asid g f n :
  (forall p c, vc = Some (p, c) -> Page_wf p /\ u16 c) ->
  (forall p, pcid = Some p -> Pcid_wf p) ->
  (forall a, asid = Some a -> u16 a) ->
  exists r, flush_broadcast vc pcid asid g f n = Ret r /\ encodes r vc pcid asid g f n.
Proof.
  intros Hvc Hp Ha. unfold flush_broadcast, Pcid_value, VirtAddr_as_u64, Page_start_address.
  destruct vc as [[p c]|]; [destruct (Hvc p c eq_refl) as [Hpw Hc];
    pose proof (page_addr_field p Hpw) as (Hv & Hf & Hfe); change (uN (16 - 0) c) in Hc|];
  (destruct pcid as [q|]; [pose proof (Hp q eq_refl) as Hq; change (uN (28 - 16) (pcid_value q)) in Hq|]);
  (destruct asid as [a|]; [pose proof (Ha a eq_refl) as Has; change (uN (16 - 0) a) in Has|]);
  cbn [mbind outcome_bind]; bits_write; (eexists; split; [reflexivity|]).
  all: constructor; cbn [reg_rax reg_ecx reg_edx]; bits_read; try bits_uN; try done.
  all: by destruct S.
Qed.
End broadcast.

(** ** The loop *)
Definition Invlpgb_wf (i : Invlpgb) : Prop := u16 (invlpgb_count_max i).
Definition Builder_wf {S} (b : InvlpgbFlushBuilder S) : Prop :=
  Invlpgb_wf (fb_invlpgb b) /\
  (forall p, fb_pcid b = Some p -> Pcid_wf p) /\ (forall a, fb_asid b = Some a -> u16 a).

(** The pages one instruction flushes: the start page and, for a count
    above one, the pages that follow it. *)
Definition batch_pages {S} (pc : Page S * Z) : list (Page S) :=
  pages_from (page_position (fst pc)) (Z.to_nat (Z.max (snd pc) 1)).
(** A batch of valid pages respects the processor's limit and ends before the
    gap between the canonical halves when it starts below it. *)
Definition batch_ok {S} (i : Invlpgb) (pc : Page S * Z) : Prop :=
  Page_wf (fst pc) /\ page_position (fst pc) + Z.max (snd pc) 1 <= page_count S /\
  0 <= snd pc <= Z.min (invlpgb_count_max i) U16_MAX /\
  (page_position (fst pc) < page_count S / 2 ->
   page_position (fst pc) + Z.max (snd pc) 1 <= page_count S / 2).

Lemma pages_from_app {S} a n m :
  pages_from (S := S) a n ++ pages_from (a + Z.of_nat n) m = pages_from a (n + m).
Proof.
  unfold pages_from. rewrite seq_app, fmap_app. f_equal.
  replace (seq (0 + n) m) with (Nat.add n <$> seq 0 m) by (rewrite fmap_add_seq; f_equal; lia).
  rewrite <- list_fmap_compose.
  apply list_fmap_ext. intros j i _. cbn. f_equal. lia.
Qed.

Section flush_loop.
Context `{B : BitField} {BL : BitFieldLaws B} `{T : Target} {TO : TargetOk T} {S : PageSize}.
Implicit Types b : InvlpgbFlushBuilder S.

Lemma steps_at a e :
  0 <= a <= e -> e < page_count S ->
  fst (Page_steps_between_impl (page_at a) (page_at e : Page S)) = Z.min (e - a) usize_max.
Proof.
  intros Ha He. rewrite Page_steps_between_position, !page_position_at
    by (lia || apply page_at_wf; lia).
  rewrite (proj2 (Z.ltb_ge e a)) by lia. destruct (Z.leb_spec (e - a) usize_max); cbn [fst]; lia.
Qed.

Lemma flush_count_spec b a e :
  Builder_wf b -> 0 <= a < e -> e < page_count S ->
  exists c, flush_count b (mkPageRange (page_at a) (page_at e)) = Ret c /\
    batch_ok (fb_invlpgb b) (page_at a : Page S, c) /\ Z.max c 1 <= e - a.
Proof.
  intros [Hi _] Ha He. pose proof (page_count_half S) as Hh.
  pose proof (page_at_wf (S := S) a ltac:(lia)) as Hwf.
  pose proof usize_bits_ge as Hu.
  assert (U16_MAX <= usize_max) as Hum.
  { unfold usize_max, U16_MAX. pose proof (Z.pow_le_mono_r 2 16 usize_bits). lia. }
  unfold flush_count. cbn [pr_start pr_end].
  assert (VirtAddr_new 0xffff800000000000 = Ret (page_start (page_at (page_count S / 2) : Page S))) as ->
    by (destruct S; vm_compute; reflexivity).
  cbn [mbind outcome_bind].
  rewrite Page_containing_address_wf by (apply page_at_wf; lia). cbn [mbind outcome_bind].
  rewrite page_at_ltb, steps_at by lia.
  assert (a < page_count S / 2 ->
    fst (Page_steps_between_impl (page_at a) (page_at (page_count S / 2) : Page S)) =
      Z.min (page_count S / 2 - a) usize_max) as Hs by (intros; apply steps_at; lia).
  eexists. split; [reflexivity|]. unfold batch_ok, Invlpgb_wf in *. cbn [fst snd].
  rewrite page_position_at by lia. unfold uN in Hi. change (2 ^ 16) with (U16_MAX + 1) in Hi.
  generalize dependent (page_count S / 2). intros half Hh Hs.
  assert (0 < U16_MAX) by reflexivity.
  assert (forall c, Page_wf (page_at a : Page S) /\ c <-> c) as Hw by (intros c; tauto).
  rewrite !Hw. clear Hw Hwf.
  destruct (Z.ltb_spec a half) as [Hlt|]; [rewrite (Hs Hlt)|]; clear Hs; zcase; lia.
Qed.

Lemma flush_loop_spec b fuel a e :
  Builder_wf b -> 0 <= a -> 0 <= e < page_count S -> a < page_count S ->
  (Z.to_nat (e - a) < fuel)%nat ->
  exists regs batches,
    flush_loop b fuel (mkPageRange (page_at a) (page_at e)) = Ret (Some regs) /\
    Forall2 (fun r pc => encodes r (Some pc) (fb_pcid b) (fb_asid b) (fb_include_global b)
      (fb_final_translation_only b) (fb_include_nested_translations b)) regs batches /\
    Forall (batch_ok (fb_invlpgb b)) batches /\
    concat (batch_pages <$> batches) = pages_from (S := S) a (Z.to_nat (e - a)).
Proof.
  intros Hb. revert a. induction fuel as [|fuel IH]; intros a Ha He Hac Hf; [lia|].
  cbn [flush_loop]. unfold PageRange_is_empty. cbn [pr_start pr_end].
  rewrite page_at_leb by lia. destruct (Z.leb_spec e a) as [|Hlt].
  { exists [], []. replace (Z.to_nat (e - a)) with 0%nat by lia. done. }
  destruct (flush_count_spec b a e Hb ltac:(lia) ltac:(lia)) as (c & -> & Hok & Hc).
  cbn [mbind outcome_bind]. pose proof (page_at_wf (S := S) a ltac:(lia)) as Hpa.
  assert (u16 c) as Hcu.
  { destruct Hok as (_ & _ & Hok & _). cbn [snd] in Hok. unfold uN, U16_MAX in *. lia. }
  destruct (flush_broadcast_encodes (S := S) (Some (page_at a, c)) (fb_pcid b) (fb_asid b)
    (fb_include_global b) (fb_final_translation_only b) (fb_include_nested_translations b))
    as (r & -> & Hr); [naive_solver|apply Hb|apply Hb|].
  cbn [mbind outcome_bind].
  rewrite Page_forward_checked_position, page_position_at
    by (done || lia || (unfold uN in *; lia)).
  rewrite (proj2 (Z.ltb_lt (a + Z.max c 1) (page_count S))) by lia. cbn [mbind outcome_bind unwrap].
  destruct (IH (a + Z.max c 1)) as (rs & bs & -> & H2 & Hall & Hcat); [lia..|].
  cbn [mbind outcome_bind option_map]. exists (r :: rs), ((page_at a, c) :: bs).
  split; [done|]. split; [by constructor|]. split; [by constructor|].
  cbn [fmap list_fmap concat]. rewrite Hcat. unfold batch_pages at 1. cbn [fst snd].
  rewrite page_position_at by lia.
  replace (a + Z.max c 1) with (a + Z.of_nat (Z.to_nat (Z.max c 1))) at 1 by lia.
  rewrite pages_from_app. f_equal. lia.
Qed.
End flush_loop.

Section theorems.
Context `{B : BitField} {BL : BitFieldLaws B} `{T : Target} {TO : TargetOk T}.

(** C25. A broadcast flush of a page range terminates (any fuel above the
    number of pages is enough) without panicking, also for a range that spans
    both canonical halves, and executes instructions whose registers encode
    batches [(start, count)] with the builder's PCID, ASID and modifiers.  The
    batches are, in order and without overlap, exactly the pages of the range
    (counting the start page for a count of zero); no count exceeds the
    processor's maximum or a [u16], and no batch that starts in the lower half
    continues past it.  Without a range, one instruction without an address
    flushes everything. *)
Theorem broadcast_flush_correct {S} (b : InvlpgbFlushBuilder S) fuel :
  Builder_wf b ->
  (forall r, fb_page_range b = Some r -> Page_wf (pr_start r) /\ Page_wf (pr_end r)) ->
  (Z.to_nat (from_option (fun r => (page_position (pr_end r) - page_position (pr_start r))%Z) 0%Z
     (fb_page_range b)) < fuel)%nat ->
  exists regs, InvlpgbFlushBuilder_flush fuel b = Ret (Some regs) /\
    match fb_page_range b with
    | Some r => exists batches : list (Page S * Z),
        Forall2 (fun g pc => encodes g (Some pc) (fb_pcid b) (fb_asid b) (fb_include_global b)
          (fb_final_translation_only b) (fb_include_nested_translations b)) regs batches /\
        Forall (batch_ok (fb_invlpgb b)) batches /\
        concat (batch_pages <$> batches) =
          pages_from (page_position (pr_start r))
            (Z.to_nat (page_position (pr_end r) - page_position (pr_start r)))
    | None => exists g, regs = [g] /\
        encodes (S := S) g None (fb_pcid b) (fb_asid b) (fb_include_global b)
          (fb_final_translation_only b) (fb_include_nested_translations b)
    end.
Proof.
  intros Hb Hr Hf. unfold InvlpgbFlushBuilder_flush.
  destruct (fb_page_range b) as [r|].
  - destruct (Hr r eq_refl) as [Hs He]. cbn [from_option] in Hf.
    destruct (page_wf_at _ Hs) as (a & Ra & Ea), (page_wf_at _ He) as (e & Re & Ee).
    destruct r as [s e']. cbn [pr_start pr_end] in *. subst s e'.
    rewrite !page_position_at in * by done.
    destruct (flush_loop_spec b fuel a e) as (regs & bs & E & ?); [done|lia|lia|lia|done|].
    exists regs. split; [exact E|]. by exists bs.
  - destruct (flush_broadcast_encodes (S := S) None (fb_pcid b) (fb_asid b)
      (fb_include_global b) (fb_final_translation_only b) (fb_include_nested_translations b))
      as (g & -> & Hg); [done|apply Hb|apply Hb|].
    exists [g]. split; [done|]. by exists g.
Qed.

(** [Invlpgb::new] panics exactly when the privilege level of CS is not
    ring 0, returns [None] exactly when CPUID does not report the instruction,
    and otherwise the limits CPUID reports.  The builder it yields is well
    formed (PCID and ASID fit their register fields), every builder operation
    keeps it so, [asid] fails exactly for an ASID the processor does not
    support and then leaves the builder unchanged, and requesting nested
    translations panics exactly when the processor cannot flush them. *)
Theorem invlpgb_builder_correct (cs : SegmentSelector) (cpuid : Z -> CpuidResult) :
  u16 (selector cs) ->
  (forall leaf, uN 32 (ebx (cpuid leaf)) /\ uN 32 (edx (cpuid leaf))) ->
  (Invlpgb_new cs cpuid = Panic <-> selector cs mod 4 <> 0) /\
  (Invlpgb_new cs cpuid = Ret None <->
     selector cs mod 4 = 0 /\ Z.testbit (ebx (cpuid 0x80000008)) 3 = false) /\
  (forall i, Invlpgb_new cs cpuid = Ret (Some i) ->
     nasid i = ebx (cpuid 0x8000000a) /\
     invlpgb_count_max i = edx (cpuid 0x80000008) mod 2 ^ 16 /\
     tlb_flush_nested i = Z.testbit (ebx (cpuid 0x80000008)) 21 /\
     Builder_wf (Invlpgb_build i)) /\
  (forall S (b : InvlpgbFlushBuilder S) pcid asid p, Builder_wf b -> u16 pcid -> u16 asid ->
     (Pcid_new pcid = Ok p -> Builder_wf (InvlpgbFlushBuilder_pcid b p)) /\
     (Pcid_new pcid = Err (mkPcidTooBig pcid) <-> 4096 <= pcid) /\
     Builder_wf (snd (InvlpgbFlushBuilder_asid b asid)) /\
     (if asid <? nasid (fb_invlpgb b)
      then fb_asid (snd (InvlpgbFlushBuilder_asid b asid)) = Some asid
      else snd (InvlpgbFlushBuilder_asid b asid) = b) /\
     (InvlpgbFlushBuilder_include_nested_translations b = Panic <->
        tlb_flush_nested (fb_invlpgb b) = false)).
Proof.
  intros Hcs Hcpu. pose proof (Hcpu 0x80000008) as [Hbx Hdx].
  assert (Invlpgb_new cs cpuid =
    if selector cs mod 4 =? 0 then
      if Z.testbit (ebx (cpuid 0x80000008)) 3 then
        Ret (Some {| tlb_flush_nested := Z.testbit (ebx (cpuid 0x80000008)) 21;
                     invlpgb_count_max := edx (cpuid 0x80000008) mod 2 ^ 16;
                     nasid := ebx (cpuid 0x8000000a) |})
      else Ret None
    else Panic) as ->.
  { unfold Invlpgb_new, SegmentSelector_rpl.
    rewrite (get_bits_law 16) by (done || lia).
    cbn [mbind outcome_bind]. change (field (selector cs) 0 2) with (selector cs / 1 mod 4).
    rewrite Z.div_1_r.
    destruct (PrivilegeLevel_from_u16_total (selector cs mod 4)) as (l & -> & El);
      [by apply Z.mod_pos_bound|]. cbn [mbind outcome_bind].
    destruct (Z.eqb_spec (selector cs mod 4) 0) as [E0|]; destruct l; cbn in El; try lia; try done.
    cbn [bool_decide decide decide_rel rust_assert mbind outcome_bind].
    rewrite !get_bit_law, get_bits_law by (done || lia).
    cbn [mbind outcome_bind]. destruct (Z.testbit (ebx (cpuid 0x80000008)) 3); [cbn [negb]|done].
    do 3 f_equal. unfold field, wrap. change (2 ^ 0) with 1. rewrite Z.div_1_r.
    change (16 - 0) with 16. by rewrite Z.mod_mod. }
  split; [destruct (Z.eqb_spec (selector cs mod 4) 0), (Z.testbit (ebx (cpuid 0x80000008)) 3); naive_solver|].
  split; [zcase; destruct (Z.testbit _ 3); naive_solver|]. split.
  - intros i. zcase; [|done]. destruct (Z.testbit (ebx (cpuid 0x80000008)) 3); [intros [= <-]|done].
    do 3 (split; [done|]). split; [by apply Z.mod_pos_bound|done].
  - intros S b pcid asid p (Hi & Hp & Ha) Hpc Has. split_and!.
    + unfold Pcid_new. zcase; [done|]. intros [= <-]. split; [done|]. split; [|done].
      intros q [= <-]. unfold Pcid_wf, uN in *. cbn. lia.
    + unfold Pcid_new. zcase; naive_solver lia.
    + unfold InvlpgbFlushBuilder_asid. zcase; [done|]. split; [done|]. split; [done|].
      cbn. intros q [= <-]. done.
    + unfold InvlpgbFlushBuilder_asid. zcase; done || lia.
    + unfold InvlpgbFlushBuilder_include_nested_translations.
      destruct (tlb_flush_nested _); naive_solver.
Qed.
End theorems.

(** ** Examples: a range of three pages around the gap, two at a time. *)
Definition example_invlpgb : Invlpgb :=
  {| invlpgb_count_max := 2; tlb_flush_nested := false; nasid := 16 |}.
Definition example_builder : InvlpgbFlushBuilder Size4KiB :=
  InvlpgbFlushBuilder_pages (Invlpgb_build example_invlpgb)
    (Page_range (mkPage (mkVirtAddr 0x7fffffffe000)) (mkPage (mkVirtAddr 0xffff800000001000))).

Lemma broadcast_flush_correct_witness :
  let T := {| overflow_checks := true; usize_bits := 64 |} in
  exists regs, InvlpgbFlushBuilder_flush 4 example_builder = Ret (Some regs) /\
    (reg_rax <$> regs) = [0x7fffffffe001; 0xffff800000000001] /\
    (reg_ecx <$> regs) = [2; 1].
Proof.
  intros T. assert (TargetOk T) by (right; reflexivity).
  destruct (broadcast_flush_correct example_builder 4) as (regs & E & _).
  - split; [split; vm_compute; congruence|]. split; discriminate.
  - intros r [= <-]. split; (split; [|reflexivity]); [left|right]; cbn; lia.
  - vm_compute. lia.
  - exists regs. split; [exact E|]. vm_compute in E. injection E as <-. split; reflexivity.
Defined.

Lemma invlpgb_builder_correct_witness :
  let cpuid leaf := {| eax := 0; ebx := if leaf =? 0x80000008 then 8 else 16;
                       ecx := 0; edx := 7 |} in
  exists i, Invlpgb_new (mkSegmentSelector 8) cpuid = Ret (Some i) /\
    nasid i = 16 /\ invlpgb_count_max i = 7 /\ Builder_wf (Invlpgb_build i).
Proof.
  intros cpuid.
  destruct (invlpgb_builder_correct (mkSegmentSelector 8) cpuid) as (_ & _ & H & _).
  - split; vm_compute; congruence.
  - intros leaf. unfold uN. cbn. destruct (leaf =? 0x80000008); lia.
  - eexists. split; [reflexivity|]. destruct (H _ eq_refl) as (E1 & E2 & _ & W).
    split; [exact E1|]. split; [exact E2|exact W].
Defined.
