(* ===== verification/Shootdown.v ===== *)
(** * Broadcast flushes on several processors ([invlpgb] and [tlbsync])

    The documentation of [Invlpgb] shows the use of the builder: [flush], and
    then [tlbsync] to "wait for all logical processors to respond".  This file
    runs the instructions of [InvlpgbFlushBuilder_flush] (Tlb.v) followed by
    [Invlpgb_tlbsync] on one processor, interleaved with everything the
    processors do meanwhile: they answer requests in order but at any time,
    broadcast requests of their own, and fill and evict their TLBs.

    What a processor drops when it answers a request is a parameter, with the
    documented effect of the register fields as its law. *)
From Stdlib Require Import ZArith Lia Bool.
From stdpp Require Import base decidable option list numbers relations.
From S2P Require Import Prelude Crates Index Addr Page Gdt Tlb.
#[local] Open Scope Z_scope.

(** ** The instructions *)
Inductive Broadcast : Type := Invlpgb_instr (r : InvlpgbRegs) | Tlbsync_instr.

(** [Invlpgb::tlbsync]. *)
Definition Invlpgb_tlbsync : Broadcast := Tlbsync_instr.

(** [builder.flush(); invlpgb.tlbsync();] *)
Definition shootdown `{BitField} `{Target} {S} (fuel : nat) (b : InvlpgbFlushBuilder S)
    : outcome (option (list Broadcast)) :=
  o ← InvlpgbFlushBuilder_flush fuel b;
  Ret (option_map (fun regs => (Invlpgb_instr <$> regs) ++ [Invlpgb_tlbsync]) o).

(** ** Translation lookaside buffers *)
Record Translation : Type := mkTranslation {
  tr_start : Z;
  tr_size : Z;
  tr_pcid : Z;
  tr_asid : Z;
  tr_global : bool;
}.

#[export] Instance Translation_eq_dec : EqDecision Translation.
Proof. solve_decision. Defined.

Definition translates (e : Translation) (a : Z) : bool :=
  (tr_start e <=? a) && (a <? tr_start e + tr_size e).

(** The translations an [invlpgb] has to drop, by the fields of its registers:
    those of the address and of the [count - 1] addresses that follow at the
    stride, or all; of the PCID and the ASID when they are valid; and global
    ones only if they are included. *)
Definition must_drop (r : InvlpgbRegs) (e : Translation) : bool :=
  let start := field (reg_rax r) 12 64 * 2 ^ 12 in
  let stride := if Z.testbit (reg_ecx r) 31 then 2 ^ 21 else 2 ^ 12 in
  let count := Z.max (field (reg_ecx r) 0 16) 1 in
  (negb (Z.testbit (reg_rax r) 0) ||
     existsb (fun k => translates e (start + k * stride)) (seqZ 0 count)) &&
  (negb (Z.testbit (reg_rax r) 1) || (tr_pcid e =? field (reg_edx r) 16 28)) &&
  (negb (Z.testbit (reg_rax r) 2) || (tr_asid e =? field (reg_edx r) 0 16)) &&
  (Z.testbit (reg_rax r) 3 || negb (tr_global e)).

Class InvlpgbEffect := drops : InvlpgbRegs -> Translation -> bool.
Class InvlpgbEffectLaws (I : InvlpgbEffect) : Prop :=
  drops_law r e : must_drop r e = true -> drops r e = true.

#[export] Instance ref_invlpgb : InvlpgbEffect := must_drop.
#[export] Instance ref_invlpgb_laws : InvlpgbEffectLaws ref_invlpgb.
Proof. by intros r e. Qed.

(** ** The system *)
(** The requests a processor has not answered yet, oldest first, with the
    processor that sent them. *)
Record Core : Type := mkCore { core_tlb : list Translation; core_inbox : list (nat * InvlpgbRegs) }.

(** The processors, and what processor [me] has left to execute. *)
Record System : Type := mkSystem { cores : list Core; prog : list Broadcast }.

Definition receive (from : nat) (r : InvlpgbRegs) (c : Core) : Core :=
  mkCore (core_tlb c) (core_inbox c ++ [(from, r)]).

(** Who acts: [me], processor [j] answering a request, or anything else. *)
Inductive Action : Type := Own | Answer (j : nat) | Other.

Section system.
Context `{I : InvlpgbEffect} (me : nat) (allowed : Translation -> Prop).

(** No request of [me] is pending. *)
Definition answered (c : Core) : Prop := Forall (fun q => q.1 <> me) (core_inbox c).

Inductive step : Action -> System -> System -> Prop :=
  | step_invlpgb cs r l :
      step Own (mkSystem cs (Invlpgb_instr r :: l)) (mkSystem (receive me r <$> cs) l)
  | step_tlbsync cs l :
      Forall answered cs -> step Own (mkSystem cs (Tlbsync_instr :: l)) (mkSystem cs l)
  | step_answer cs l j c q rest :
      cs !! j = Some c -> core_inbox c = q :: rest ->
      step (Answer j) (mkSystem cs l)
        (mkSystem (<[j := mkCore (filter (fun e => drops q.2 e = false) (core_tlb c)) rest]> cs) l)
  | step_request cs l k r :
      k <> me -> step Other (mkSystem cs l) (mkSystem (receive k r <$> cs) l)
  | step_fill cs l j c e :
      cs !! j = Some c -> allowed e ->
      step Other (mkSystem cs l) (mkSystem (<[j := mkCore (e :: core_tlb c) (core_inbox c)]> cs) l)
  | step_evict cs l j c tlb :
      cs !! j = Some c -> tlb ⊆ core_tlb c ->
      step Other (mkSystem cs l) (mkSystem (<[j := mkCore tlb (core_inbox c)]> cs) l).

Definition steps (s s' : System) : Prop := rtc (fun s s' => exists a, step a s s') s s'.

(** An infinite run; [None] is a moment at which nothing happens. *)
Definition execution (acts : nat -> option Action) (sigma : nat -> System) : Prop :=
  forall n, match acts n with
            | None => sigma (S n) = sigma n
            | Some a => step a (sigma n) (sigma (S n))
            end.

Definition enabled (s : System) : Prop := exists s', step Own s s'.

(** A processor with a request answers one eventually, and [me] continues
    unless it has to wait. *)
Definition fair (acts : nat -> option Action) (sigma : nat -> System) : Prop :=
  (forall n j c, cores (sigma n) !! j = Some c -> core_inbox c <> [] ->
     exists m, (n <= m)%nat /\ acts m = Some (Answer j)) /\
  (forall n, exists m, (n <= m)%nat /\ (acts m = Some Own \/ ~ enabled (sigma m))).

(** ** Safety *)

(** A translation to drop is on its way out as long as it is cached. *)
Definition on_its_way (r : InvlpgbRegs) (s : System) : Prop :=
  Forall (fun c => forall e, e ∈ core_tlb c -> must_drop r e = true -> ~ allowed e ->
    Invlpgb_instr r ∈ prog s \/ (me, r) ∈ core_inbox c) (cores s).

(** Nothing is left to execute behind [tlbsync]. *)
Definition sync_last (l : list Broadcast) : Prop :=
  l = [] \/ exists regs, l = (Invlpgb_instr <$> regs) ++ [Tlbsync_instr].

Lemma sync_last_tail i l : sync_last (i :: l) -> sync_last l /\ (i = Tlbsync_instr -> l = []).
Proof.
  intros [|[[|r regs] E]]; [done| |]; injection E as -> ->.
  - by split; [left|].
  - split; [right; by exists regs|done].
Qed.

Context {IL : InvlpgbEffectLaws I}.

Lemma on_its_way_step r a s s' :
  sync_last (prog s) -> step a s s' -> on_its_way r s -> on_its_way r s' /\ sync_last (prog s').
Proof.
  intros Hl Hs Hr. unfold on_its_way in *.
  destruct Hs as [cs g l|cs l Ha|cs l j c q rest Hj Hq|cs l k g Hk|cs l j c e Hj He|cs l j c tlb Hj Ht];
    cbn [cores prog] in *; rewrite ?Forall_fmap in *.
  - destruct (sync_last_tail _ _ Hl) as [Hl' _]. split; [|done].
    eapply Forall_impl; [exact Hr|]. intros c Hc e He Hd Hn. cbn.
    rewrite elem_of_app, list_elem_of_singleton.
    destruct (Hc e He Hd Hn) as [[[= ->]|Hin]%elem_of_cons|Hin]; auto.
  - destruct (sync_last_tail _ _ Hl) as [Hl' El]. specialize (El eq_refl). subst l. split; [|done].
    rewrite Forall_forall in *. intros c Hc e He Hd Hn.
    destruct (Hr c Hc e He Hd Hn) as [[[=]|[]%elem_of_nil]%elem_of_cons|Hin].
    specialize (Ha c Hc). unfold answered in Ha. rewrite Forall_forall in Ha. by destruct (Ha _ Hin).
  - split; [|done]. apply Forall_insert; [done|]. rewrite Forall_lookup in Hr.
    intros e He Hd Hn. cbn in He |- *. apply list_elem_of_filter in He as [Hq' He].
    destruct (Hr j c Hj e He Hd Hn) as [Hin|Hin]; [by left|]. right.
    rewrite Hq in Hin. apply elem_of_cons in Hin as [<-|]; [|done].
    cbn in Hq'. by rewrite (drops_law r e Hd) in Hq'.
  - split; [|done]. eapply Forall_impl; [exact Hr|]. intros c Hc e He Hd Hn. cbn.
    rewrite elem_of_app. destruct (Hc e He Hd Hn); auto.
  - split; [|done]. apply Forall_insert; [done|]. rewrite Forall_lookup in Hr.
    intros e' He' Hd Hn. cbn in He' |- *. apply elem_of_cons in He' as [->|He']; [done|].
    by apply (Hr j c Hj e').
  - split; [|done]. apply Forall_insert; [done|]. rewrite Forall_lookup in Hr.
    intros e' He' Hd Hn. cbn in He' |- *. by apply (Hr j c Hj e'); [apply Ht| |].
Qed.

(** The requests of [me] are answered when it has nothing left to do, and
    nobody but [me] makes new ones. *)
Lemma answered_receive k g c : k <> me -> answered c -> answered (receive k g c).
Proof. intros Hk Hc. unfold answered. cbn. apply Forall_app. by split; [|constructor]. Qed.

Lemma answered_step a s s' :
  step a s s' -> a <> Own -> Forall answered (cores s) -> Forall answered (cores s').
Proof.
  intros Hs Ha H.
  destruct Hs as [cs g l|cs l Hc|cs l j c q rest Hj Hq|cs l k g Hk|cs l j c e Hj He|cs l j c tlb Hj Ht];
    cbn [cores] in *; [done|done| | | |].
  - apply Forall_insert; [done|]. rewrite Forall_lookup in H. specialize (H j c Hj).
    unfold answered in *. rewrite Hq in H. by inversion H.
  - rewrite Forall_fmap. eapply Forall_impl; [exact H|]. intros c. by apply answered_receive.
  - apply Forall_insert; [done|]. rewrite Forall_lookup in H. exact (H j c Hj).
  - apply Forall_insert; [done|]. rewrite Forall_lookup in H. exact (H j c Hj).
Qed.

Lemma other_prog a s s' : step a s s' -> a <> Own -> prog s' = prog s.
Proof. by destruct 1. Qed.

Lemma own_prog s s' : step Own s s' -> exists i, prog s = i :: prog s'.
Proof. inversion 1; by eexists. Qed.

Lemma done_answered_step a s s' :
  step a s s' -> sync_last (prog s) -> (prog s = [] -> Forall answered (cores s)) ->
  (prog s' = [] -> Forall answered (cores s')).
Proof.
  intros Hs Hl H Hp. destruct a.
  2, 3: eapply answered_step; [exact Hs|done|]; apply H; by rewrite <- (other_prog _ _ _ Hs).
  inversion Hs; subst; cbn [cores prog] in *; [|done]. subst.
  destruct Hl as [|[[|g regs] E]]; done || (injection E as _ E; destruct regs; done).
Qed.

(** Once [tlbsync] has returned, no processor caches what the requests name. *)
Lemma steps_drop s s' regs r :
  steps s s' -> prog s = (Invlpgb_instr <$> regs) ++ [Tlbsync_instr] -> r ∈ regs ->
  prog s' = [] ->
  forall c e, c ∈ cores s' -> e ∈ core_tlb c -> must_drop r e = true -> ~ allowed e -> False.
Proof.
  intros Hs Hp Hr Hp'.
  assert (on_its_way r s /\ sync_last (prog s) /\ (prog s = [] -> Forall answered (cores s))) as Hw.
  { split; [|split; [right; by exists regs|rewrite Hp; by destruct regs]].
    unfold on_its_way. apply Forall_true. intros c e _ _ _.
    left. rewrite Hp. apply elem_of_app. left. by apply list_elem_of_fmap_2. }
  assert (on_its_way r s' /\ sync_last (prog s') /\ (prog s' = [] -> Forall answered (cores s')))
    as (Hw' & _ & Ha).
  { clear Hp Hp'. induction Hs as [|s1 s2 s3 [a Ha] _ IH]; [done|]. apply IH.
    destruct Hw as (H1 & H2 & H3). destruct (on_its_way_step r a s1 s2 H2 Ha H1).
    split_and!; [done..|]. by eapply done_answered_step. }
  specialize (Ha Hp'). intros c e Hc He Hd Hn. unfold on_its_way in Hw'. rewrite Forall_forall in *.
  destruct (Hw' c Hc e He Hd Hn) as [Hin|Hin]; [by rewrite Hp' in Hin; apply elem_of_nil in Hin|].
  specialize (Ha c Hc). unfold answered in Ha. rewrite Forall_forall in Ha. by apply (Ha _ Hin).
Qed.
End system.

(** ** Liveness *)
Section liveness.
Context `{I : InvlpgbEffect} (me : nat) (allowed : Translation -> Prop).
Context (acts : nat -> option Action) (sigma : nat -> System).
Context (Hex : execution me allowed acts sigma) (Hfair : fair me allowed acts sigma).

(** How many requests are pending up to the last one of [me]. *)
Fixpoint rank (l : list (nat * InvlpgbRegs)) : nat :=
  match l with
  | [] => 0
  | q :: l => if decide (q.1 = me) then S (rank l) else match rank l with O => 0 | n => S n end
  end.

Lemma rank_answered l : rank l = 0%nat <-> Forall (fun q => q.1 <> me) l.
Proof.
  induction l as [|q l IH]; cbn [rank]; [by split|].
  rewrite Forall_cons, <- IH. destruct (decide (q.1 = me)), (rank l); naive_solver.
Qed.
Lemma rank_tail q l : (rank l <= pred (rank (q :: l)))%nat.
Proof. cbn [rank]. destruct (decide (q.1 = me)); [done|]. destruct (rank l); cbn; lia. Qed.
Lemma rank_snoc l k g : k <> me -> rank (l ++ [(k, g)]) = rank l.
Proof.
  intros Hk. induction l as [|q l IH]; cbn [rank app fst]; [by rewrite decide_False|by rewrite IH].
Qed.
Lemma rank_nil l : rank l <> 0%nat -> l <> [].
Proof. by destruct l. Qed.

Definition core_rank (j : nat) (s : System) : nat :=
  from_option (fun c => rank (core_inbox c)) 0%nat (cores s !! j).

Lemma core_rank_insert j cs l i c c' :
  cs !! i = Some c -> (rank (core_inbox c') <= rank (core_inbox c))%nat ->
  (core_rank j (mkSystem (<[i := c']> cs) l) <= core_rank j (mkSystem cs l))%nat.
Proof.
  intros Hi Hc. unfold core_rank. cbn [cores]. destruct (decide (i = j)) as [->|].
  - rewrite list_lookup_insert_eq by (by eapply lookup_lt_Some). by rewrite Hi.
  - by rewrite list_lookup_insert_ne by done.
Qed.

(** While [me] makes no requests the rank of a processor never grows, and an
    answer of the processor decreases it. *)
Lemma core_rank_step j a s s' :
  step me allowed a s s' -> a <> Own -> (core_rank j s' <= core_rank j s)%nat.
Proof.
  destruct 1 as [cs g l|cs l Hc|cs l i c q rest Hi Hq|cs l k g Hk|cs l i c e Hi He|cs l i c tlb Hi Ht];
    intros Ha; try done.
  - eapply core_rank_insert; [done|]. cbn. rewrite Hq. pose proof (rank_tail q rest). lia.
  - unfold core_rank. cbn [cores]. rewrite list_lookup_fmap.
    destruct (cs !! j); cbn; [|done]. by rewrite rank_snoc.
  - by eapply core_rank_insert.
  - by eapply core_rank_insert.
Qed.

Lemma core_rank_answer j s s' :
  step me allowed (Answer j) s s' -> (core_rank j s' <= pred (core_rank j s))%nat.
Proof.
  inversion 1 as [| |cs l i c q rest Hi Hq| | |]; subst.
  unfold core_rank. cbn [cores]. rewrite list_lookup_insert_eq by (by eapply lookup_lt_Some).
  rewrite Hi. cbn. rewrite Hq. apply rank_tail.
Qed.

Lemma length_cores n : length (cores (sigma n)) = length (cores (sigma 0)).
Proof.
  induction n as [|n IH]; [done|]. rewrite <- IH. specialize (Hex n).
  destruct (acts n); [|by rewrite Hex].
  by destruct Hex; cbn [cores]; rewrite ?length_fmap, ?length_insert.
Qed.

(** From one moment to a later one, [me] has either not acted or has executed
    its next instruction. *)
Lemma prog_later n m :
  (n <= m)%nat ->
  (prog (sigma m) = prog (sigma n) /\ forall k, (n <= k < m)%nat -> acts k <> Some Own) \/
  exists k i, (n < k <= m)%nat /\ prog (sigma n) = i :: prog (sigma k).
Proof.
  induction 1 as [|m Hnm IH]; [left; split; [done|lia]|].
  destruct IH as [[E Hno]|(k & i & Hk & E)]; [|right; exists k, i; split; [lia|done]].
  specialize (Hex m). destruct (acts m) as [[]|] eqn:Em.
  - right. rewrite <- E. apply own_prog in Hex as [i Ei]. exists (S m), i. by split; [lia|].
  - left. split; [by rewrite (other_prog _ _ _ _ _ Hex)|]. intros k Hk.
    destruct (decide (k = m)) as [->|]; [by rewrite Em|apply Hno; lia].
  - left. split; [by rewrite (other_prog _ _ _ _ _ Hex)|]. intros k Hk.
    destruct (decide (k = m)) as [->|]; [by rewrite Em|apply Hno; lia].
  - left. split; [by rewrite Hex|]. intros k Hk.
    destruct (decide (k = m)) as [->|]; [by rewrite Em|apply Hno; lia].
Qed.

Lemma core_rank_later j n m :
  (n <= m)%nat -> (forall k, (n <= k < m)%nat -> acts k <> Some Own) ->
  (core_rank j (sigma m) <= core_rank j (sigma n))%nat.
Proof.
  induction 1 as [|m Hnm IH]; intros Hno; [done|].
  etransitivity; [|apply IH; intros; apply Hno; lia].
  pose proof (Hno m ltac:(lia)) as Hm. specialize (Hex m). destruct (acts m) as [a|]; [|by rewrite Hex].
  eapply core_rank_step; [exact Hex|naive_solver].
Qed.

Lemma enabled_invlpgb s r l : prog s = Invlpgb_instr r :: l -> enabled me allowed s.
Proof. destruct s. cbn. intros ->. eexists. constructor. Qed.

Lemma invlpgb_progress n r l :
  prog (sigma n) = Invlpgb_instr r :: l -> exists m, prog (sigma m) = l.
Proof.
  intros E. destruct (proj2 Hfair n) as (m & Hm & Ho).
  destruct (prog_later n m Hm) as [[E' _]|(k & i & _ & E')].
  - rewrite E in E'. destruct Ho as [Ho|Ho]; [|by destruct Ho; eapply enabled_invlpgb].
    exists (S m). specialize (Hex m). rewrite Ho in Hex.
    apply own_prog in Hex as [i Ei]. rewrite E' in Ei. by injection Ei.
  - exists k. rewrite E in E'. by injection E'.
Qed.

(** Either [me] has passed the barrier, or it is still waiting and has not
    acted since. *)
Definition waits (n m : nat) : Prop :=
  (n <= m)%nat /\ prog (sigma m) = [Tlbsync_instr] /\
  forall k, (n <= k < m)%nat -> acts k <> Some Own.

Lemma waits_trans a b c : waits a b -> waits b c -> waits a c.
Proof.
  intros (H1 & _ & Q1) (H2 & E & Q2). split_and!; [lia|done|].
  intros k Hk. destruct (decide (k < b)%nat); [apply Q1|apply Q2]; lia.
Qed.

Lemma sync_later n m :
  prog (sigma n) = [Tlbsync_instr] -> (n <= m)%nat ->
  (exists k, prog (sigma k) = []) \/ waits n m.
Proof.
  intros E Hm. destruct (prog_later n m Hm) as [[E' Hq]|(k & i & _ & E')].
  - right. split_and!; [done| |done]. by rewrite E'.
  - left. exists k. rewrite E in E'. by injection E'.
Qed.

Lemma drain j r n :
  prog (sigma n) = [Tlbsync_instr] -> (core_rank j (sigma n) <= r)%nat ->
  (exists k, prog (sigma k) = []) \/ exists m, waits n m /\ core_rank j (sigma m) = 0%nat.
Proof.
  revert n. induction r as [|r IH]; intros n E Hr.
  { right. exists n. split; [split_and!; [done|done|lia]|lia]. }
  destruct (decide (core_rank j (sigma n) = 0%nat)) as [E0|Hn0].
  { right. exists n. split; [split_and!; [done|done|lia]|done]. }
  assert (exists c, cores (sigma n) !! j = Some c /\ core_inbox c <> []) as (c & Hj & Hc).
  { unfold core_rank in Hn0. destruct (cores (sigma n) !! j) as [c|] eqn:Hj; [|done].
    exists c. split; [done|]. by apply rank_nil. }
  destruct (proj1 Hfair n j c Hj Hc) as (m & Hm & Ha).
  destruct (sync_later n (S m) E ltac:(lia)) as [|Hw]; [by left|].
  pose proof Hw as (_ & E' & Hq).
  pose proof (core_rank_later j n m Hm ltac:(intros; apply Hq; lia)) as Hle.
  pose proof (Hex m) as Hs. rewrite Ha in Hs. apply core_rank_answer in Hs.
  destruct (IH (S m) E' ltac:(lia)) as [|(m' & Hw' & E0)]; [by left|].
  right. exists m'. split; [by eapply waits_trans|done].
Qed.

Lemma drain_all t n :
  prog (sigma n) = [Tlbsync_instr] ->
  (exists k, prog (sigma k) = []) \/
  exists m, waits n m /\ forall j, (j < t)%nat -> core_rank j (sigma m) = 0%nat.
Proof.
  intros E. induction t as [|t IH].
  { right. exists n. split; [split_and!; [done|done|lia]|lia]. }
  destruct IH as [|(m & Hw & H0)]; [by left|]. pose proof Hw as (_ & Em & _).
  destruct (drain t _ m Em (le_n _)) as [|(m' & Hw' & E0)]; [by left|].
  right. exists m'. split; [by eapply waits_trans|].
  destruct Hw' as (Hle & _ & Hq). intros j Hj. destruct (decide (j = t)) as [->|]; [done|].
  pose proof (core_rank_later j m m' Hle Hq). specialize (H0 j ltac:(lia)). lia.
Qed.

Lemma sync_progress n : prog (sigma n) = [Tlbsync_instr] -> exists k, prog (sigma k) = [].
Proof.
  intros E. destruct (drain_all (length (cores (sigma 0))) n E) as [|(m & Hw & H0)]; [done|].
  destruct (proj2 Hfair m) as (m' & Hm & Ho). pose proof Hw as (_ & Em & _).
  destruct (sync_later m m' Em Hm) as [|(_ & Em' & Hq)]; [done|].
  assert (Forall (answered me) (cores (sigma m'))) as Hans.
  { apply Forall_lookup. intros j c Hj. unfold answered. apply rank_answered.
    assert (j < length (cores (sigma 0)))%nat as Hlt.
    { rewrite <- (length_cores m'). by eapply lookup_lt_Some. }
    pose proof (core_rank_later j m m' Hm Hq) as Hle. rewrite (H0 j Hlt) in Hle.
    unfold core_rank in Hle. rewrite Hj in Hle. cbn in Hle. lia. }
  destruct Ho as [Ho|Ho].
  - exists (S m'). specialize (Hex m'). rewrite Ho in Hex.
    apply own_prog in Hex as [i Ei]. rewrite Em' in Ei. by injection Ei.
  - destruct Ho. destruct (sigma m') as [cs l]. cbn [prog cores] in *. subst l.
    eexists. by apply step_tlbsync.
Qed.

Lemma run_completes regs n :
  prog (sigma n) = (Invlpgb_instr <$> regs) ++ [Tlbsync_instr] -> exists k, prog (sigma k) = [].
Proof.
  revert n. induction regs as [|r regs IH]; intros n E; [by apply (sync_progress n)|].
  destruct (invlpgb_progress n r _ E) as [m Em]. by apply (IH m).
Qed.
End liveness.

(** ** What a builder asks for *)
Definition range_pages {S} (r : PageRange S) : list (Page S) :=
  pages_from (page_position (pr_start r))
    (Z.to_nat (page_position (pr_end r) - page_position (pr_start r))).

(** The builder's documentation: the pages of the range, or everything; only
    the given PCID and ASID; global translations only when included. *)
Definition selects {S} (b : InvlpgbFlushBuilder S) (e : Translation) : Prop :=
  (forall r, fb_page_range b = Some r ->
     exists p, p ∈ range_pages r /\ translates e (va (page_start p)) = true) /\
  (forall q, fb_pcid b = Some q -> tr_pcid e = pcid_value q) /\
  (forall a, fb_asid b = Some a -> tr_asid e = a) /\
  (tr_global e = true -> fb_include_global b = true).

Definition range_wf {S} (b : InvlpgbFlushBuilder S) : Prop :=
  forall r, fb_page_range b = Some r -> Page_wf (pr_start r) /\ Page_wf (pr_end r).

(** Enough fuel for the loop over the batches. *)
Definition enough {S} (b : InvlpgbFlushBuilder S) (fuel : nat) : Prop :=
  (Z.to_nat (from_option (fun r => (page_position (pr_end r) - page_position (pr_start r))%Z) 0%Z
     (fb_page_range b)) < fuel)%nat.

Section shootdown.
Context `{B : BitField} {BL : BitFieldLaws B} `{T : Target} {TO : TargetOk T}.
Context {S : PageSize} {NG : NotGiantPageSize S}.
Implicit Types b : InvlpgbFlushBuilder S.

(** The pages of a batch are at the addresses the instruction steps through:
    a batch does not jump the gap. *)
Lemma batch_addresses i (pc : Page S * Z) p :
  batch_ok i pc -> p ∈ batch_pages pc ->
  exists k, 0 <= k < Z.max (snd pc) 1 /\ va (page_start p) = va (page_start (fst pc)) + k * SIZE S.
Proof.
  intros (Hw & Hc & _ & Hh) Hp. unfold batch_pages, pages_from in Hp.
  apply list_elem_of_fmap in Hp as (k & -> & [_ Hk]%elem_of_seq).
  destruct pc as [q c]. cbn [fst snd] in *.
  destruct (page_wf_at _ Hw) as (n & Hn & ->). rewrite page_position_at in * by done.
  exists (Z.of_nat k). split; [lia|]. rewrite !page_at_va by lia.
  destruct (Z.ltb_spec (n + Z.of_nat k) (page_count S / 2)), (Z.ltb_spec n (page_count S / 2)); lia.
Qed.

Lemma stride_SIZE (vc : option (Page S * Z)) g pcid asid gl f n :
  encodes g vc pcid asid gl f n -> is_Some vc ->
  (if Z.testbit (reg_ecx g) 31 then 2 ^ 21 else 2 ^ 12) = SIZE S.
Proof.
  intros E Hs. rewrite (enc_stride _ _ _ _ _ _ _ E). destruct NG as [->| ->].
  - by rewrite bool_decide_eq_false_2 by naive_solver.
  - by rewrite bool_decide_eq_true_2 by naive_solver.
Qed.

(** The restrictions an instruction encodes besides the addresses. *)
Lemma must_drop_restrictions (vc : option (Page S * Z)) g b e :
  encodes g vc (fb_pcid b) (fb_asid b) (fb_include_global b) (fb_final_translation_only b)
    (fb_include_nested_translations b) ->
  selects b e ->
  negb (Z.testbit (reg_rax g) 0) ||
    existsb (fun k => translates e (field (reg_rax g) 12 64 * 2 ^ 12 +
      k * (if Z.testbit (reg_ecx g) 31 then 2 ^ 21 else 2 ^ 12)))
      (seqZ 0 (Z.max (field (reg_ecx g) 0 16) 1)) = true ->
  must_drop g e = true.
Proof.
  intros E (_ & Hp & Ha & Hg) Hv. unfold must_drop. rewrite Hv. cbn [andb].
  rewrite (enc_pcid_valid _ _ _ _ _ _ _ E), (enc_asid_valid _ _ _ _ _ _ _ E),
    (enc_global _ _ _ _ _ _ _ E), (enc_pcid _ _ _ _ _ _ _ E), (enc_asid _ _ _ _ _ _ _ E).
  rewrite !andb_true_iff. split_and!.
  - destruct (fb_pcid b) as [q|]; [|done]. cbn. rewrite (Hp q eq_refl). apply Z.eqb_refl.
  - destruct (fb_asid b) as [a|]; [|done]. cbn. rewrite (Ha a eq_refl). apply Z.eqb_refl.
  - destruct (tr_global e); [by rewrite Hg|apply orb_true_r].
Qed.

(** Every translation the builder selects is dropped by one of the
    instructions of its flush. *)
Lemma flush_must_drop b fuel :
  Builder_wf b -> range_wf b -> enough b fuel ->
  exists regs, InvlpgbFlushBuilder_flush fuel b = Ret (Some regs) /\
    forall e, selects b e -> exists g, g ∈ regs /\ must_drop g e = true.
Proof.
  intros Hb Hr Hf. unfold InvlpgbFlushBuilder_flush, enough, range_wf in *.
  destruct (fb_page_range b) as [r|] eqn:Er.
  - destruct (Hr r eq_refl) as [Hs He]. cbn [from_option] in Hf.
    destruct (page_wf_at _ Hs) as (a & Ra & Ea), (page_wf_at _ He) as (e & Re & Ee).
    destruct r as [s e']. cbn [pr_start pr_end] in *. subst s e'.
    rewrite !page_position_at in * by done.
    destruct (flush_loop_spec b fuel a e) as (regs & bs & E & H2 & Hok & Hcat); [done|lia..|].
    exists regs. split; [exact E|]. intros t Ht. pose proof Ht as (Hsel & _).
    destruct (Hsel _ Er) as (p & Hp & Htr). unfold range_pages in Hp. cbn [pr_start pr_end] in Hp.
    rewrite !page_position_at, <- Hcat in Hp by done.
    apply list_elem_of_In, in_concat in Hp as (ps & Hps & Hin).
    apply list_elem_of_In, list_elem_of_fmap in Hps as (pc & -> & Hpc). apply list_elem_of_In in Hin.
    apply list_elem_of_lookup in Hpc as [i Hi].
    destruct (Forall2_lookup_r _ _ _ _ _ H2 Hi) as (g & Hg & Henc).
    exists g. split; [by eapply list_elem_of_lookup_2|].
    rewrite Forall_lookup in Hok. specialize (Hok i pc Hi).
    destruct (batch_addresses _ _ _ Hok Hin) as (k & Hk & Ek).
    eapply must_drop_restrictions; [exact Henc|done|]. apply orb_true_iff. right.
    apply existsb_exists. exists k. rewrite (enc_count _ _ _ _ _ _ _ Henc). destruct pc as [q c].
    cbn [from_option snd fst] in *. split; [apply list_elem_of_In, elem_of_seqZ; lia|].
    rewrite (enc_va _ _ _ _ _ _ _ Henc), (stride_SIZE _ _ _ _ _ _ _ Henc) by done.
    cbn [from_option]. by rewrite <- Ek.
  - destruct (flush_broadcast_encodes (S := S) None (fb_pcid b) (fb_asid b)
      (fb_include_global b) (fb_final_translation_only b) (fb_include_nested_translations b))
      as (g & -> & Hg); [done|apply Hb|apply Hb|].
    exists [g]. split; [done|]. intros e He. exists g. split; [set_solver|].
    eapply must_drop_restrictions; [exact Hg|done|].
    by rewrite (enc_va_valid _ _ _ _ _ _ _ Hg).
Qed.

Lemma shootdown_flush b fuel regs :
  InvlpgbFlushBuilder_flush fuel b = Ret (Some regs) ->
  shootdown fuel b = Ret (Some ((Invlpgb_instr <$> regs) ++ [Tlbsync_instr])).
Proof. unfold shootdown. by intros ->. Qed.
End shootdown.

(** ** The properties *)

(** C6. A flush with a builder, followed by [tlbsync], is coherent on all
    processors: it does not panic, and in every interleaving with the other
    processors, once [tlbsync] has returned no processor caches a translation
    that the builder selects, provided that none of them can be cached anew
    (the page tables no longer contain them).  The processors answer requests
    at any time, send their own, and refill and evict their TLBs.  This holds for ranges on both
    sides of the gap of the address space and for every limit of the
    processor on the number of pages. *)
Theorem shootdown_coherent `{BFL : BitFieldLaws} `{TO : TargetOk} `{IL : InvlpgbEffectLaws}
    {S} `{NotGiantPageSize S} (b : InvlpgbFlushBuilder S) fuel :
  Builder_wf b -> range_wf b -> enough b fuel ->
  exists l, shootdown fuel b = Ret (Some l) /\
    forall me allowed cs s', (forall e, selects b e -> ~ allowed e) ->
      steps me allowed (mkSystem cs l) s' -> prog s' = [] ->
      forall c e, c ∈ cores s' -> e ∈ core_tlb c -> ~ selects b e.
Proof.
  intros Hb Hr Hf. destruct (flush_must_drop b fuel Hb Hr Hf) as (regs & E & Hd).
  eexists. split; [exact (shootdown_flush _ _ _ E)|].
  intros me allowed cs s' Hno Hs Hp c e Hc He Hsel. destruct (Hd e Hsel) as (g & Hg & Hmd).
  exact (steps_drop me allowed _ s' regs g Hs eq_refl Hg Hp c e Hc He Hmd (Hno e Hsel)).
Qed.

(** The example of tlb.rs on two processors, with pages around the gap. *)
Definition example_translation : Translation := mkTranslation 0xffff800000000000 4096 5 1 false.

Lemma shootdown_coherent_witness :
  let T := {| overflow_checks := true; usize_bits := 64 |} in
  exists l, shootdown (H0 := T) 4 example_builder = Ret (Some l) /\ length l = 3%nat /\
    forall cs s', steps 0 (fun e => e <> example_translation /\ ~ selects example_builder e)
        (mkSystem cs l) s' ->
      prog s' = [] -> forall c, c ∈ cores s' -> example_translation ∉ core_tlb c.
Proof.
  intros T. assert (TargetOk T) by (right; reflexivity).
  destruct (shootdown_coherent (S := Size4KiB) example_builder 4) as (l & E & H').
  - split; [split; vm_compute; congruence|]. split; discriminate.
  - intros r [= <-]. split; (split; [|reflexivity]); [left|right]; cbn; lia.
  - vm_compute. lia.
  - exists l. split; [exact E|]. split; [vm_compute in E; injection E as <-; reflexivity|].
    intros cs s' Hs Hp c Hc He. refine (H' _ _ cs s' _ Hs Hp c _ Hc He _); [exact (fun e He' Ha => proj2 Ha He')|].
    split; [|split; [discriminate|split; discriminate]]. intros r [= <-].
    exists (mkPage (mkVirtAddr 0xffff800000000000)). split; [|reflexivity].
    apply list_elem_of_lookup_2 with 2%nat. vm_compute. reflexivity.
Defined.

Section runs.
Context `{I : InvlpgbEffect} (me : nat) (allowed : Translation -> Prop).
Context (acts : nat -> option Action) (sigma : nat -> System) (Hex : execution me allowed acts sigma).

Lemma execution_steps n m : (n <= m)%nat -> steps me allowed (sigma n) (sigma m).
Proof.
  induction 1 as [|m Hm IH]; [apply rtc_refl|]. specialize (Hex m).
  destruct (acts m) as [a|]; [|by rewrite Hex]. eapply rtc_r; [exact IH|by exists a].
Qed.

Lemma done_forever n m : (n <= m)%nat -> prog (sigma n) = [] -> prog (sigma m) = [].
Proof.
  intros Hm E. destruct (prog_later me allowed acts sigma Hex n m Hm) as [[E' _]|(k & i & _ & E')].
  - by rewrite E'.
  - by rewrite E in E'.
Qed.
End runs.

(** C7. A shootdown completes: in every fair run, in which a processor with a
    pending request answers one eventually and the issuing processor continues
    unless [tlbsync] has to wait, the issuing processor gets past [tlbsync],
    however many requests the others send meanwhile.  From some moment on no
    processor caches a translation the builder selects. *)
Theorem shootdown_completes `{BFL : BitFieldLaws} `{TO : TargetOk} `{IL : InvlpgbEffectLaws}
    {S} `{NotGiantPageSize S} (b : InvlpgbFlushBuilder S) fuel me allowed acts sigma :
  Builder_wf b -> range_wf b -> enough b fuel ->
  execution me allowed acts sigma -> fair me allowed acts sigma ->
  shootdown fuel b = Ret (Some (prog (sigma 0%nat))) ->
  (forall e, selects b e -> ~ allowed e) ->
  exists n, forall m, (n <= m)%nat ->
    prog (sigma m) = [] /\
    forall c e, c ∈ cores (sigma m) -> e ∈ core_tlb c -> ~ selects b e.
Proof.
  intros Hb Hr Hf Hex Hfair Hprog Hno.
  destruct (flush_must_drop b fuel Hb Hr Hf) as (regs & E & Hd).
  rewrite (shootdown_flush _ _ _ E) in Hprog. injection Hprog as Hprog. symmetry in Hprog.
  destruct (run_completes me allowed acts sigma Hex Hfair regs 0 Hprog) as [n Hn].
  exists n. intros m Hm. pose proof (done_forever _ _ _ _ Hex n m Hm Hn) as Em. split; [exact Em|].
  intros c e Hc He Hsel. destruct (Hd e Hsel) as (g & Hg & Hmd).
  exact (steps_drop me allowed _ _ regs g (execution_steps _ _ _ _ Hex 0 m ltac:(lia)) Hprog Hg Em
    c e Hc He Hmd (Hno e Hsel)).
Qed.

(** Two processors that both cache a translation; processor 0 flushes all. *)
Definition example_regs : InvlpgbRegs := {| reg_rax := 0; reg_ecx := 0; reg_edx := 0 |}.
Definition example_run : list System :=
  let c tlb inbox := mkCore tlb inbox in
  let e := [example_translation] in
  let q := [(0%nat, example_regs)] in
  [ mkSystem [c e []; c e []] [Invlpgb_instr example_regs; Tlbsync_instr];
    mkSystem [c e q; c e q] [Tlbsync_instr];
    mkSystem [c [] []; c e q] [Tlbsync_instr];
    mkSystem [c [] []; c [] []] [Tlbsync_instr] ].
Definition example_sigma (n : nat) : System :=
  List.nth n example_run (mkSystem [mkCore [] []; mkCore [] []] []).
Definition example_acts (n : nat) : option Action :=
  match n with 0 | 3 => Some Own | 1 => Some (Answer 0) | 2 => Some (Answer 1) | _ => None end%nat.

Lemma example_execution allowed : execution 0 allowed example_acts example_sigma.
Proof.
  intros [|[|[|[|n]]]].
  - exact (step_invlpgb 0 allowed _ _ _).
  - exact (step_answer 0 allowed (cores (example_sigma 1)) _ 0 _ _ [] eq_refl eq_refl).
  - exact (step_answer 0 allowed (cores (example_sigma 2)) _ 1 _ _ [] eq_refl eq_refl).
  - apply step_tlbsync. by repeat constructor.
  - by destruct n.
Qed.

Lemma example_done n : (4 <= n)%nat -> example_sigma n = mkSystem [mkCore [] []; mkCore [] []] [].
Proof. intros Hn. do 4 (destruct n as [|n]; [lia|]). by destruct n. Qed.

Lemma example_fair allowed : fair 0 allowed example_acts example_sigma.
Proof.
  split.
  - intros n j c Hj Hc. destruct (decide (4 <= n)%nat) as [Hn|Hn].
    { rewrite (example_done n Hn) in Hj. by destruct j as [|[|j]]; cbn in Hj; simplify_eq. }
    destruct j as [|[|j]].
    + exists 1%nat. split; [|done].
      destruct n as [|[|[|[|n]]]]; cbn in Hj; simplify_eq; done || lia.
    + exists 2%nat. split; [|done].
      destruct n as [|[|[|[|n]]]]; cbn in Hj; simplify_eq; done || lia.
    + destruct n as [|[|[|[|n]]]]; cbn in Hj; simplify_eq; lia.
  - intros n. exists (n `max` 4)%nat. split; [lia|]. right.
    rewrite example_done by lia. intros [s' Hs]. inversion Hs.
Qed.

Lemma shootdown_completes_witness :
  let T := {| overflow_checks := true; usize_bits := 64 |} in
  let b := Invlpgb_build example_invlpgb in
  exists n, core_tlb <$> cores (example_sigma n) = [[]; []] /\
    forall c, c ∈ cores (example_sigma n) -> example_translation ∉ core_tlb c.
Proof.
  intros T b. assert (TargetOk T) by (right; reflexivity).
  destruct (shootdown_completes (S := Size4KiB) b 1 0 (fun _ => False) example_acts example_sigma)
    as [n Hn].
  - split; [split; vm_compute; congruence|]. split; discriminate.
  - intros r [=].
  - vm_compute. lia.
  - apply example_execution.
  - apply example_fair.
  - vm_compute. reflexivity.
  - exact (fun e _ F => F).
  - exists (n `max` 4)%nat. split; [by rewrite example_done by lia|].
    destruct (Hn (n `max` 4)%nat ltac:(lia)) as [_ H'].
    intros c Hc He. apply (H' c example_translation Hc He). split; [discriminate|split; [discriminate|split; discriminate]].
Defined.
