(* ===== verification/RecursivePageTable.v ===== *)
(** * The recursive page table (mapper/recursive_page_table.rs)

    A level 4 table with an entry that points to the table itself makes every
    table of the active hierarchy accessible at a virtual address that is
    computed from indices.  A reference to a table is its virtual pointer;
    every access goes through the memory management unit, which walks the
    hierarchy that is being edited.  Physical memory is the [Mem] of
    MappedPageTable.v, keyed by physical addresses.  The translation of virtual
    pointers is not part of the crate: it is the class [MMU], with the law that
    the walk through present entries gives the frame of the last one. *)
From Stdlib Require Import ZArith Lia Bool.
From stdpp Require Import base decidable option list gmap numbers.
From S2P Require Import Prelude Crates Index Addr Page Frame PageTable Mapper MappedPageTable.
#[local] Open Scope Z_scope.

(** ** The processor: the frame in CR3 ([Cr3::read().0]) and the translation
    of a virtual pointer; [Fault] is a page fault. *)
Class MMU := {
  cr3_frame : PhysFrame Size4KiB;
  mmu_translate : Mem -> Z -> outcome Z;
}.

Inductive InvalidPageTable : Type := NotRecursive | NotActive.

#[export] Instance InvalidPageTable_eq_dec : EqDecision InvalidPageTable.
Proof. solve_decision. Defined.

(** [p4] is a [&mut PageTable]: the virtual pointer of the level 4 table. *)
Record RecursivePageTable : Type := mkRecursivePageTable {
  rpt_p4 : Z;
  recursive_index : PageTableIndex;
}.

Definition RecursivePageTable_new_unchecked (table : Z) (recursive_index : PageTableIndex)
    : RecursivePageTable := mkRecursivePageTable table recursive_index.

Definition RecursivePageTable_level_4_table (self : RecursivePageTable) : Z := rpt_p4 self.
Definition RecursivePageTable_level_4_table_mut (self : RecursivePageTable) : Z := rpt_p4 self.

(** ** Addresses of the tables *)
Definition p3_page {S} (page : Page S) (recursive_index : PageTableIndex) : outcome (Page Size4KiB) :=
  Page_from_page_table_indices recursive_index recursive_index recursive_index
    (Page_p4_index page).

Definition p2_page {S} `{NotGiantPageSize S} (page : Page S) (recursive_index : PageTableIndex)
    : outcome (Page Size4KiB) :=
  Page_from_page_table_indices recursive_index recursive_index (Page_p4_index page)
    (Page_p3_index page).

Definition p1_page (page : Page Size4KiB) (recursive_index : PageTableIndex)
    : outcome (Page Size4KiB) :=
  Page_from_page_table_indices recursive_index (Page_p4_index page) (Page_p3_index page)
    (Page_p2_index page).

Definition page_ptr (page : outcome (Page Size4KiB)) : outcome Z :=
  p ← page; Ret (VirtAddr_as_mut_ptr (Page_start_address p)).

Definition p3_ptr {S} (page : Page S) (recursive_index : PageTableIndex) : outcome Z :=
  page_ptr (p3_page page recursive_index).
Definition p2_ptr {S} `{NotGiantPageSize S} (page : Page S) (recursive_index : PageTableIndex)
    : outcome Z :=
  page_ptr (p2_page page recursive_index).
Definition p1_ptr (page : Page Size4KiB) (recursive_index : PageTableIndex) : outcome Z :=
  page_ptr (p1_page page recursive_index).

Section recursive_page_table.
Context `{MMU} `{Bitflags}.

(** ** Accesses through virtual pointers *)
Definition vderef (m : Mem) (p : Z) : outcome PageTable :=
  q ← mmu_translate m p; deref m q.
Definition vread_entry (m : Mem) (p : Z) (i : PageTableIndex) : outcome PageTableEntry :=
  q ← mmu_translate m p; read_entry m q i.
Definition vwrite_entry (m : Mem) (p : Z) (i : PageTableIndex) (e : PageTableEntry) : outcome Mem :=
  q ← mmu_translate m p; write_entry m q i e.

(** [p\[i\]], [p\[i\] = e] and [&mut *p] in the monad. *)
Definition vget_entry {E} (p : Z) (i : PageTableIndex) : M Mem E PageTableEntry :=
  m ← get_state; lift (vread_entry m p i).
Definition vput_entry {E} (p : Z) (i : PageTableIndex) (e : PageTableEntry) : M Mem E unit :=
  m ← get_state; m' ← lift (vwrite_entry m p i e); put_state m'.
Definition vtable {E} (ptr : outcome Z) : M Mem E Z :=
  p ← lift ptr; m ← get_state; _ ← lift (vderef m p); mret p.

(** ** [new] *)
Definition RecursivePageTable_new (m : Mem) (table : Z)
    : outcome (result RecursivePageTable InvalidPageTable) :=
  a ← VirtAddr_new table;
  page ← (Page_containing_address a : outcome (Page Size4KiB));
  let recursive_index := Page_p4_index page in
  if negb (bool_decide (Page_p3_index page = recursive_index))
     || negb (bool_decide (Page_p2_index page = recursive_index))
     || negb (bool_decide (Page_p1_index page = recursive_index))
  then Ret (Err NotRecursive)
  else
    e ← vread_entry m table recursive_index;
    r ← PageTableEntry_frame e;
    if negb (bool_decide (Ok cr3_frame = r)) then Ret (Err NotActive)
    else Ret (Ok (mkRecursivePageTable table recursive_index)).

(** ** [map_to] *)
Section create.
Context {A : Type} `{FrameAllocator A Size4KiB}.

(** [create_next_table]; the entry is at [p\[i\]].  New entries are present and
    writable; the huge page check comes after the flags were added. *)
Definition Recursive_create_next_table {S} (p : Z) (i : PageTableIndex)
    (next_table_page : Page Size4KiB) (insert_flags : Z) : M (Mem * A) (MapToError S) Z :=
  e ← on_mem (vget_entry p i);
  created ←
    (if PageTableEntry_is_unused e then
       s ← get_state;
       match allocate_frame (snd s) with
       | (Some frame, a) =>
           _ ← put_state (fst s, a);
           e' ← lift (PageTableEntry_set_frame e frame
                        (flags_or (flags_or PageTableFlags_PRESENT PageTableFlags_WRITABLE)
                           insert_flags));
           _ ← on_mem (vput_entry p i e');
           mret true
       | (None, a) =>
           _ ← put_state (fst s, a);
           throw MapFrameAllocationFailed
       end
     else
       _ ← (if negb (flags_is_empty insert_flags)
               && negb (contains (PageTableEntry_flags e) insert_flags) then
              e' ← lift (PageTableEntry_set_flags e (flags_or (PageTableEntry_flags e) insert_flags));
              on_mem (vput_entry p i e')
            else mret tt);
       mret false);
  e ← on_mem (vget_entry p i);
  if contains (PageTableEntry_flags e) PageTableFlags_HUGE_PAGE then throw MapParentEntryHugePage
  else
    page_table ← on_mem (vtable (page_ptr (Ret next_table_page)));
    _ ← (if created : bool then
           s ← get_state;
           t ← lift (vderef (fst s) page_table);
           q ← lift (mmu_translate (fst s) page_table);
           put_state (<[q := PageTable_zero t]> (fst s), snd s)
         else mret tt);
    mret page_table.

Definition Recursive_map_to_1gib (self : RecursivePageTable) (page : Page Size1GiB)
    (frame : PhysFrame Size1GiB) (flags parent_table_flags : Z)
    : M (Mem * A) (MapToError Size1GiB) (MapperFlush Size1GiB) :=
  let p4 := rpt_p4 self in
  p3_page ← lift (p3_page page (recursive_index self));
  p3 ← Recursive_create_next_table p4 (Page_p4_index page) p3_page parent_table_flags;
  e ← on_mem (vget_entry p3 (Page_p3_index page));
  if negb (PageTableEntry_is_unused e) then throw (MapPageAlreadyMapped frame)
  else
    e' ← lift (PageTableEntry_set_addr e (PhysFrame_start_address frame)
                 (flags_or flags PageTableFlags_HUGE_PAGE));
    _ ← on_mem (vput_entry p3 (Page_p3_index page) e');
    mret (MapperFlush_new page).

Definition Recursive_map_to_2mib (self : RecursivePageTable) (page : Page Size2MiB)
    (frame : PhysFrame Size2MiB) (flags parent_table_flags : Z)
    : M (Mem * A) (MapToError Size2MiB) (MapperFlush Size2MiB) :=
  let p4 := rpt_p4 self in
  p3_page ← lift (p3_page page (recursive_index self));
  p3 ← Recursive_create_next_table p4 (Page_p4_index page) p3_page parent_table_flags;
  p2_page ← lift (p2_page page (recursive_index self));
  p2 ← Recursive_create_next_table p3 (Page_p3_index page) p2_page parent_table_flags;
  e ← on_mem (vget_entry p2 (Page_p2_index page));
  if negb (PageTableEntry_is_unused e) then throw (MapPageAlreadyMapped frame)
  else
    e' ← lift (PageTableEntry_set_addr e (PhysFrame_start_address frame)
                 (flags_or flags PageTableFlags_HUGE_PAGE));
    _ ← on_mem (vput_entry p2 (Page_p2_index page) e');
    mret (MapperFlush_new page).

Definition Recursive_map_to_4kib (self : RecursivePageTable) (page : Page Size4KiB)
    (frame : PhysFrame Size4KiB) (flags parent_table_flags : Z)
    : M (Mem * A) (MapToError Size4KiB) (MapperFlush Size4KiB) :=
  let p4 := rpt_p4 self in
  p3_page ← lift (p3_page page (recursive_index self));
  p3 ← Recursive_create_next_table p4 (Page_p4_index page) p3_page parent_table_flags;
  p2_page ← lift (p2_page page (recursive_index self));
  p2 ← Recursive_create_next_table p3 (Page_p3_index page) p2_page parent_table_flags;
  p1_page ← lift (p1_page page (recursive_index self));
  p1 ← Recursive_create_next_table p2 (Page_p2_index page) p1_page parent_table_flags;
  e ← on_mem (vget_entry p1 (Page_p1_index page));
  if negb (PageTableEntry_is_unused e) then throw (MapPageAlreadyMapped frame)
  else
    e' ← lift (PageTableEntry_set_frame e frame flags);
    _ ← on_mem (vput_entry p1 (Page_p1_index page) e');
    mret (MapperFlush_new page).
End create.

(** ** [unmap] *)

(** The checks of a parent entry, repeated in the three implementations:
    [HUGE_PAGE] first, then [entry.frame()]. *)
Definition unmap_parent (p : Z) (i : PageTableIndex) : M Mem UnmapError unit :=
  e ← vget_entry p i;
  if contains (PageTableEntry_flags e) PageTableFlags_HUGE_PAGE then throw UnmapParentEntryHugePage
  else
    r ← lift (PageTableEntry_frame e);
    match r with
    | Ok _ => mret tt
    | Err FrameNotPresent => throw UnmapPageNotMapped
    | Err HugeFrame => lift Panic (* unreachable!() *)
    end.

(** What follows for the huge pages, repeated in two implementations. *)
Definition unmap_huge {S} (page : Page S) (p : Z) (i : PageTableIndex)
    : M Mem UnmapError (PhysFrame S * MapperFlush S) :=
  e ← vget_entry p i;
  let flags := PageTableEntry_flags e in
  if negb (contains flags PageTableFlags_PRESENT) then throw UnmapPageNotMapped
  else if negb (contains flags PageTableFlags_HUGE_PAGE) then throw UnmapParentEntryHugePage
  else
    a ← lift (PageTableEntry_addr e);
    r ← lift (PhysFrame_from_start_address a);
    match r with
    | Err mkAddressNotAligned => throw (UnmapInvalidFrameAddress a)
    | Ok frame =>
        _ ← vput_entry p i (PageTableEntry_set_unused e);
        mret (frame, MapperFlush_new page)
    end.

Definition Recursive_unmap_1gib (self : RecursivePageTable) (page : Page Size1GiB)
    : M Mem UnmapError (PhysFrame Size1GiB * MapperFlush Size1GiB) :=
  _ ← unmap_parent (rpt_p4 self) (Page_p4_index page);
  p3 ← vtable (p3_ptr page (recursive_index self));
  unmap_huge page p3 (Page_p3_index page).

Definition Recursive_unmap_2mib (self : RecursivePageTable) (page : Page Size2MiB)
    : M Mem UnmapError (PhysFrame Size2MiB * MapperFlush Size2MiB) :=
  _ ← unmap_parent (rpt_p4 self) (Page_p4_index page);
  p3 ← vtable (p3_ptr page (recursive_index self));
  _ ← unmap_parent p3 (Page_p3_index page);
  p2 ← vtable (p2_ptr page (recursive_index self));
  unmap_huge page p2 (Page_p2_index page).

Definition Recursive_unmap_4kib (self : RecursivePageTable) (page : Page Size4KiB)
    : M Mem UnmapError (PhysFrame Size4KiB * MapperFlush Size4KiB) :=
  _ ← unmap_parent (rpt_p4 self) (Page_p4_index page);
  p3 ← vtable (p3_ptr page (recursive_index self));
  _ ← unmap_parent p3 (Page_p3_index page);
  p2 ← vtable (p2_ptr page (recursive_index self));
  _ ← unmap_parent p2 (Page_p2_index page);
  p1 ← vtable (p1_ptr page (recursive_index self));
  e ← vget_entry p1 (Page_p1_index page);
  r ← lift (PageTableEntry_frame e);
  match r with
  | Err FrameNotPresent => throw UnmapPageNotMapped
  | Err HugeFrame => lift Panic (* unreachable!() *)
  | Ok frame =>
      _ ← vput_entry p1 (Page_p1_index page) (PageTableEntry_set_unused e);
      mret (frame, MapperFlush_new page)
  end.

(** ** [update_flags] and the flags of the parent entries *)

(** [if p\[i\].is_unused() { return Err(err) }], the only check of the parent
    entries outside of [map_to] and [unmap]. *)
Definition used_or {E} (err : E) (p : Z) (i : PageTableIndex) : M Mem E unit :=
  e ← vget_entry p i;
  if PageTableEntry_is_unused e then throw err else mret tt.

Definition Recursive_update_flags_1gib (self : RecursivePageTable) (page : Page Size1GiB) (flags : Z)
    : M Mem FlagUpdateError (MapperFlush Size1GiB) :=
  _ ← used_or FlagPageNotMapped (rpt_p4 self) (Page_p4_index page);
  p3 ← vtable (p3_ptr page (recursive_index self));
  e ← vget_entry p3 (Page_p3_index page);
  if PageTableEntry_is_unused e then throw FlagPageNotMapped
  else
    e' ← lift (PageTableEntry_set_flags e (flags_or flags PageTableFlags_HUGE_PAGE));
    _ ← vput_entry p3 (Page_p3_index page) e';
    mret (MapperFlush_new page).

Definition Recursive_update_flags_2mib (self : RecursivePageTable) (page : Page Size2MiB) (flags : Z)
    : M Mem FlagUpdateError (MapperFlush Size2MiB) :=
  _ ← used_or FlagPageNotMapped (rpt_p4 self) (Page_p4_index page);
  p3 ← vtable (p3_ptr page (recursive_index self));
  _ ← used_or FlagPageNotMapped p3 (Page_p3_index page);
  p2 ← vtable (p2_ptr page (recursive_index self));
  e ← vget_entry p2 (Page_p2_index page);
  if PageTableEntry_is_unused e then throw FlagPageNotMapped
  else
    e' ← lift (PageTableEntry_set_flags e (flags_or flags PageTableFlags_HUGE_PAGE));
    _ ← vput_entry p2 (Page_p2_index page) e';
    mret (MapperFlush_new page).

Definition Recursive_update_flags_4kib (self : RecursivePageTable) (page : Page Size4KiB) (flags : Z)
    : M Mem FlagUpdateError (MapperFlush Size4KiB) :=
  _ ← used_or FlagPageNotMapped (rpt_p4 self) (Page_p4_index page);
  p3 ← vtable (p3_ptr page (recursive_index self));
  _ ← used_or FlagPageNotMapped p3 (Page_p3_index page);
  p2 ← vtable (p2_ptr page (recursive_index self));
  _ ← used_or FlagPageNotMapped p2 (Page_p2_index page);
  p1 ← vtable (p1_ptr page (recursive_index self));
  e ← vget_entry p1 (Page_p1_index page);
  if PageTableEntry_is_unused e then throw FlagPageNotMapped
  else
    e' ← lift (PageTableEntry_set_flags e flags);
    _ ← vput_entry p1 (Page_p1_index page) e';
    mret (MapperFlush_new page).

(** The end of the functions [set_flags_p*_entry]. *)
Definition set_used_flags (p : Z) (i : PageTableIndex) (flags : Z)
    : M Mem FlagUpdateError MapperFlushAll :=
  e ← vget_entry p i;
  if PageTableEntry_is_unused e then throw FlagPageNotMapped
  else
    e' ← lift (PageTableEntry_set_flags e flags);
    _ ← vput_entry p i e';
    mret MapperFlushAll_new.

Definition Recursive_set_flags_p4_entry {S} (self : RecursivePageTable) (page : Page S) (flags : Z)
    : M Mem FlagUpdateError MapperFlushAll :=
  set_used_flags (rpt_p4 self) (Page_p4_index page) flags.

Definition Recursive_set_flags_p3_entry {S} (self : RecursivePageTable) (page : Page S) (flags : Z)
    : M Mem FlagUpdateError MapperFlushAll :=
  match S with
  | Size1GiB => throw FlagParentEntryHugePage
  | _ =>
      _ ← used_or FlagPageNotMapped (rpt_p4 self) (Page_p4_index page);
      p3 ← vtable (p3_ptr page (recursive_index self));
      set_used_flags p3 (Page_p3_index page) flags
  end.

Definition Recursive_set_flags_p2_entry_4kib (self : RecursivePageTable) (page : Page Size4KiB)
    (flags : Z) : M Mem FlagUpdateError MapperFlushAll :=
  _ ← used_or FlagPageNotMapped (rpt_p4 self) (Page_p4_index page);
  p3 ← vtable (p3_ptr page (recursive_index self));
  _ ← used_or FlagPageNotMapped p3 (Page_p3_index page);
  p2 ← vtable (p2_ptr page (recursive_index self));
  set_used_flags p2 (Page_p2_index page) flags.

Definition Recursive_set_flags_p2_entry {S} (self : RecursivePageTable) (page : Page S) (flags : Z)
    : M Mem FlagUpdateError MapperFlushAll :=
  match S return Page S -> _ with
  | Size4KiB => fun page => Recursive_set_flags_p2_entry_4kib self page flags
  | _ => fun _ => throw FlagParentEntryHugePage
  end page.

(** ** [translate_page] *)

(** The end of the three implementations. *)
Definition translate_used {S} (p : Z) (i : PageTableIndex) : M Mem TranslateError (PhysFrame S) :=
  e ← vget_entry p i;
  if PageTableEntry_is_unused e then throw TranslatePageNotMapped
  else
    a ← lift (PageTableEntry_addr e);
    r ← lift (PhysFrame_from_start_address a);
    match r with
    | Err mkAddressNotAligned => throw (TranslateInvalidFrameAddress a)
    | Ok frame => mret frame
    end.

Definition Recursive_translate_page_1gib (self : RecursivePageTable) (page : Page Size1GiB)
    : M Mem TranslateError (PhysFrame Size1GiB) :=
  _ ← used_or TranslatePageNotMapped (rpt_p4 self) (Page_p4_index page);
  p3 ← vtable (p3_ptr page (recursive_index self));
  translate_used p3 (Page_p3_index page).

Definition Recursive_translate_page_2mib (self : RecursivePageTable) (page : Page Size2MiB)
    : M Mem TranslateError (PhysFrame Size2MiB) :=
  _ ← used_or TranslatePageNotMapped (rpt_p4 self) (Page_p4_index page);
  p3 ← vtable (p3_ptr page (recursive_index self));
  _ ← used_or TranslatePageNotMapped p3 (Page_p3_index page);
  p2 ← vtable (p2_ptr page (recursive_index self));
  translate_used p2 (Page_p2_index page).

Definition Recursive_translate_page_4kib (self : RecursivePageTable) (page : Page Size4KiB)
    : M Mem TranslateError (PhysFrame Size4KiB) :=
  _ ← used_or TranslatePageNotMapped (rpt_p4 self) (Page_p4_index page);
  p3 ← vtable (p3_ptr page (recursive_index self));
  _ ← used_or TranslatePageNotMapped p3 (Page_p3_index page);
  p2 ← vtable (p2_ptr page (recursive_index self));
  _ ← used_or TranslatePageNotMapped p2 (Page_p2_index page);
  p1 ← vtable (p1_ptr page (recursive_index self));
  translate_used p1 (Page_p1_index page).

(** ** [translate] *)
Definition Recursive_translate (self : RecursivePageTable) (m : Mem) (addr : VirtAddr)
    : outcome TranslateResult :=
  page ← (Page_containing_address addr : outcome (Page Size4KiB));
  let table (ptr : outcome Z) := p ← ptr; _ ← vderef m p; Ret p in
  p4_entry ← vread_entry m (rpt_p4 self) (VirtAddr_p4_index addr);
  if PageTableEntry_is_unused p4_entry then Ret NotMapped
  else if contains (PageTableEntry_flags p4_entry) PageTableFlags_HUGE_PAGE then Panic
  else
  p3 ← table (p3_ptr page (recursive_index self));
  entry ← vread_entry m p3 (VirtAddr_p3_index addr);
  if PageTableEntry_is_unused entry then Ret NotMapped
  else if contains (PageTableEntry_flags entry) PageTableFlags_HUGE_PAGE then
    a ← PageTableEntry_addr entry;
    frame ← PhysFrame_containing_address a;
    let offset := Z.land (VirtAddr_as_u64 addr) 0x3fffffff in
    let flags := PageTableEntry_flags entry in
    Ret (Mapped (MappedSize1GiB frame) offset flags)
  else
  p2 ← table (p2_ptr page (recursive_index self));
  entry ← vread_entry m p2 (VirtAddr_p2_index addr);
  if PageTableEntry_is_unused entry then Ret NotMapped
  else if contains (PageTableEntry_flags entry) PageTableFlags_HUGE_PAGE then
    a ← PageTableEntry_addr entry;
    frame ← PhysFrame_containing_address a;
    let offset := Z.land (VirtAddr_as_u64 addr) 0x1fffff in
    let flags := PageTableEntry_flags entry in
    Ret (Mapped (MappedSize2MiB frame) offset flags)
  else
  p1 ← table (p1_ptr page (recursive_index self));
  p1_entry ← vread_entry m p1 (VirtAddr_p1_index addr);
  if PageTableEntry_is_unused p1_entry then Ret NotMapped
  else
    a ← PageTableEntry_addr p1_entry;
    r ← PhysFrame_from_start_address a;
    match r with
    | Err mkAddressNotAligned => Ret (InvalidFrameAddress a)
    | Ok frame =>
        let offset := page_offset_val (VirtAddr_page_offset addr) in
        let flags := PageTableEntry_flags p1_entry in
        Ret (Mapped (MappedSize4KiB frame) offset flags)
    end.
End recursive_page_table.

(** ** [CleanUp] *)
Section clean_up.
Context `{Target} `{BitField} `{MMU} `{Bitflags}.
Context {D : Type} `{FrameDeallocator D Size4KiB}.

(** [\[p1_ptr, p2_ptr, p3_ptr\]\[level as usize - 2\](start, recursive_index)]. *)
Definition next_table_ptr (level : PageTableLevel) (start : Page Size4KiB)
    (recursive_index : PageTableIndex) : outcome Z :=
  ptr ← unwrap ([p1_ptr; p2_ptr; p3_ptr] !! Z.to_nat (level_u8 level - 2));
  ptr start recursive_index.

(** One iteration of the loop, for the entry [p\[i\]]; [recurse] is the
    recursive call of [clean_up] at the next lower level. *)
Definition Recursive_clean_up_entry
    (recurse : Z -> PageRangeInclusive Size4KiB -> Mem * D -> outcome (bool * (Mem * D)))
    (recursive_index : PageTableIndex) (level : PageTableLevel) (p : Z) (table_addr : VirtAddr)
    (offset_per_entry : Z) (range : PageRangeInclusive Size4KiB) (i : nat) (s : Mem * D)
    : outcome (Mem * D) :=
  let idx := mkPageTableIndex (Z.of_nat i) in
  e ← vread_entry (fst s) p idx;
  if contains (PageTableEntry_flags e) PageTableFlags_HUGE_PAGE then Ret s
  else
    r ← PageTableEntry_frame e;
    match r with
    | Err _ => Ret s
    | Ok frame =>
        off ← arith usize_bits (wrap usize_bits offset_per_entry * Z.of_nat i);
        o ← VirtAddr_forward_checked_impl table_addr off;
        start ← unwrap o;
        d ← arith 64 (offset_per_entry - 1);
        end_ ← VirtAddr_add start d;
        start ← Page_containing_address start;
        let start := Page_max start (pri_start range) in
        end_ ← Page_containing_address end_;
        let end_ := Page_min end_ (pri_end range) in
        page_table ← next_table_ptr level start recursive_index;
        _ ← vderef (fst s) page_table;
        '(empty, s) ← recurse page_table (Page_range_inclusive start end_) s;
        if empty : bool then
          e ← vread_entry (fst s) p idx;
          m ← vwrite_entry (fst s) p idx (PageTableEntry_set_unused e);
          Ret (m, deallocate_frame frame (snd s))
        else Ret s
    end.

(** [.filter(|(i, _)| !(level == Four && *i == recursive_index.into()))]. *)
Definition not_recursive (recursive_index : PageTableIndex) (level : PageTableLevel) (i : nat)
    : bool :=
  negb (bool_decide (level = Four) && (Z.of_nat i =? pti recursive_index)).

(** The inner function [clean_up]; the recursion descends one level per call,
    and running out of fuel counts as [Fault]. *)
Fixpoint Recursive_clean_up_table (fuel : nat) (recursive_index : PageTableIndex) (p : Z)
    (level : PageTableLevel) (range : PageRangeInclusive Size4KiB) (s : Mem * D)
    : outcome (bool * (Mem * D)) :=
  match fuel with
  | O => Fault
  | S fuel =>
      if PageRangeInclusive_is_empty range then Ret (false, s) else
      table_addr ← VirtAddr_align_down (Page_start_address (pri_start range))
                     (table_address_space_alignment level);
      let start := Z.to_nat (pti (Page_page_table_index (pri_start range) level)) in
      let end_ := Z.to_nat (pti (Page_page_table_index (pri_end range) level)) in
      s ← match next_lower_level level with
          | Some next_level =>
              let offset_per_entry := entry_address_space_alignment level in
              clean_up_entries
                (Recursive_clean_up_entry
                   (fun p' r s => Recursive_clean_up_table fuel recursive_index p' next_level r s)
                   recursive_index level p table_addr offset_per_entry range)
                (List.filter (not_recursive recursive_index level) (seq start (end_ + 1 - start))) s
          | None => Ret s
          end;
      t ← vderef (fst s) p;
      Ret (PageTable_is_empty t, s)
  end.

Definition Recursive_clean_up_addr_range (self : RecursivePageTable)
    (range : PageRangeInclusive Size4KiB) (s : Mem * D) : outcome (Mem * D) :=
  '(_, s) ← Recursive_clean_up_table 4 (recursive_index self)
              (RecursivePageTable_level_4_table_mut self) Four range s;
  Ret s.

Definition Recursive_clean_up (self : RecursivePageTable) (s : Mem * D) : outcome (Mem * D) :=
  a ← VirtAddr_new 0;
  start ← Page_from_start_address a;
  start ← unwrap_ok start;
  a ← VirtAddr_new 0xfffffffffffff000;
  end_ ← Page_from_start_address a;
  end_ ← unwrap_ok end_;
  Recursive_clean_up_addr_range self (mkPageRangeInclusive start end_) s.
End clean_up.

(** ** The trait implementations *)
Section instances.
Context `{Target} `{BitField} `{MMU} `{Bitflags}.

#[export] Instance RecursivePageTable_Mapper_1gib : Mapper Mem RecursivePageTable Size1GiB := {
  map_to_with_table_flags A _ := Recursive_map_to_1gib;
  unmap := Recursive_unmap_1gib;
  update_flags := Recursive_update_flags_1gib;
  set_flags_p4_entry := Recursive_set_flags_p4_entry;
  set_flags_p3_entry := Recursive_set_flags_p3_entry;
  set_flags_p2_entry := Recursive_set_flags_p2_entry;
  translate_page := Recursive_translate_page_1gib;
}.

#[export] Instance RecursivePageTable_Mapper_2mib : Mapper Mem RecursivePageTable Size2MiB := {
  map_to_with_table_flags A _ := Recursive_map_to_2mib;
  unmap := Recursive_unmap_2mib;
  update_flags := Recursive_update_flags_2mib;
  set_flags_p4_entry := Recursive_set_flags_p4_entry;
  set_flags_p3_entry := Recursive_set_flags_p3_entry;
  set_flags_p2_entry := Recursive_set_flags_p2_entry;
  translate_page := Recursive_translate_page_2mib;
}.

#[export] Instance RecursivePageTable_Mapper_4kib : Mapper Mem RecursivePageTable Size4KiB := {
  map_to_with_table_flags A _ := Recursive_map_to_4kib;
  unmap := Recursive_unmap_4kib;
  update_flags := Recursive_update_flags_4kib;
  set_flags_p4_entry := Recursive_set_flags_p4_entry;
  set_flags_p3_entry := Recursive_set_flags_p3_entry;
  set_flags_p2_entry := Recursive_set_flags_p2_entry;
  translate_page := Recursive_translate_page_4kib;
}.

#[export] Instance RecursivePageTable_Mapper S : Mapper Mem RecursivePageTable S :=
  match S with
  | Size4KiB => RecursivePageTable_Mapper_4kib
  | Size2MiB => RecursivePageTable_Mapper_2mib
  | Size1GiB => RecursivePageTable_Mapper_1gib
  end.

#[export] Instance RecursivePageTable_Translate : Translate Mem RecursivePageTable :=
  Recursive_translate.

#[export] Instance RecursivePageTable_CleanUp : CleanUp Mem RecursivePageTable := {
  clean_up D _ := Recursive_clean_up;
  clean_up_addr_range D _ := Recursive_clean_up_addr_range;
}.
End instances.
