(* ===== verification/RecursiveProofs.v ===== *)
(** * The recursive page table refines the mapped page table

    The specification of the recursive mapper is the mapper of
    MappedPageTable.v over identity-mapped physical memory, on the hierarchy
    without its recursive entry.  On the hierarchy with the recursive entry,
    every virtual pointer that the code computes leads to the table the walk
    is at, and each operation behaves as its specification does. *)
From Stdlib Require Import ZArith Lia Bool.
From stdpp Require Import base decidable option list gmap numbers.
From S2P Require Import Prelude Crates Index Addr Page Frame PageTable Mapper.
From S2P Require Import MappedPageTable PageWalk MapperSpec MapperCreate MapperProofs.
From S2P Require Import CleanUp SetFlags RecursivePageTable.
#[local] Open Scope Z_scope.

(** ** Physical memory: a table is at the address of its frame *)
Definition physical_mapping : PageTableFrameMapping unit := fun _ f => Ret (pa (frame_start f)).
#[local] Existing Instance physical_mapping.
Definition physical : PageTableWalker unit := mkPageTableWalker tt.

(** The walk of the processor: through present entries without the page size
    bit in levels 4 to 2 and a present level 1 entry, a page address translates
    to the frame of the level 1 entry. *)
Class MMULaws (C : MMU) : Prop :=
  mmu_walk m v q e :
    canonical v -> va v mod 4096 = 0 ->
    table_at physical m (pa (frame_start cr3_frame))
      (ix <$> [VirtAddr_p4_index v; VirtAddr_p3_index v; VirtAddr_p2_index v]) = Some q ->
    get m q (ix (VirtAddr_p1_index v)) = Some e -> is_present e = true ->
    mmu_translate m (va v) = Ret (pa (entry_addr e)).

(** A processor that satisfies the law. *)
Definition walk_mmu (cr3 : PhysFrame Size4KiB) : MMU := {|
  cr3_frame := cr3;
  mmu_translate m p :=
    let v := mkVirtAddr p in
    match leaf physical m (pa (frame_start cr3)) 0 (addr_path v) with
    | Some (_, e) => if is_present e && (p mod 4096 =? 0) then Ret (pa (entry_addr e)) else Fault
    | None => Fault
    end;
|}.

#[export] Instance walk_mmu_laws cr3 : MMULaws (walk_mmu cr3).
Proof.
  intros m v q e Hc Hm Hq Hg Hp. cbn [walk_mmu mmu_translate cr3_frame] in *.
  change (mkVirtAddr (va v)) with (mkVirtAddr (va v)).
  replace (addr_path (mkVirtAddr (va v))) with
    ((ix <$> [VirtAddr_p4_index v; VirtAddr_p3_index v; VirtAddr_p2_index v]) ++ [ix (VirtAddr_p1_index v)])
    by by destruct v.
  rewrite (leaf_app _ _ _ _ _ _ q) by done. cbn [leaf]. rewrite Hg. simpl. by rewrite Hp, Hm.
Qed.

Lemma child_physical e q :
  child physical e = Some q <-> is_huge e = false /\ is_present e = true /\ q = pa (entry_addr e).
Proof.
  unfold child. destruct (is_huge e), (is_present e); cbn; naive_solver.
Qed.

(** ** Simulation of stateful code under an embedding of states *)
Section sim.
Context {St E : Type} (emb : St -> St).

Definition embed {X} (o : outcome (X * St)) : outcome (X * St) :=
  match o with Ret (x, s) => Ret (x, emb s) | Panic => Panic | Fault => Fault end.

Definition sim {X} (c d : M St E X) (s : St) : Prop := c (emb s) = embed (d s).

Lemma sim_bind {X Y} (c d : M St E X) (f g : X -> M St E Y) s :
  sim c d s -> (forall x s', d s = Ret (Ok x, s') -> sim (f x) (g x) s') ->
  sim (x ← c; f x) (x ← d; g x) s.
Proof.
  unfold sim, mbind, M_bind. intros -> Hk. destruct (d s) as [[[x|e] s']| |] eqn:Ed; cbn; [|done..].
  by apply Hk.
Qed.

Lemma sim_ret {X} (x : X) s : sim (mret x) (mret x) s.
Proof. done. Qed.

Lemma sim_throw {X} (e : E) s : sim (X := X) (throw e) (throw e) s.
Proof. done. Qed.

Lemma sim_lift {X} (o : outcome X) s : sim (lift o) (lift o) s.
Proof. unfold sim, lift. by destruct o. Qed.
End sim.

(** [er] is an entry at index [r] for the level 4 table itself: present, not
    huge, with the frame in CR3. *)
Class RecursiveEntry `{MMU} (r : PageTableIndex) (er : PageTableEntry) : Prop := {
  rec_index_wf : PageTableIndex_wf r;
  rec_entry_wf : entry_wf er;
  rec_entry_self : child physical er = Some (pa (frame_start cr3_frame));
}.

Section recursive.
Context `{C : MMU} {ML : MMULaws C} `{BL : BitflagsLaws}.
Context (r : PageTableIndex) (er : PageTableEntry).
#[local] Abbreviation p4 := (pa (frame_start cr3_frame)).

Context {RE : RecursiveEntry r er}.
Let Hr : PageTableIndex_wf r := rec_index_wf.
Let Her : entry_wf er := rec_entry_wf.
Let Hself : child physical er = Some p4 := rec_entry_self.

(** ** Pointers: the recursive index until the path fits *)
Definition padded (is_ : list PageTableIndex) : list PageTableIndex :=
  replicate (4 - length is_) r ++ is_.

Definition rec_page (is_ : list PageTableIndex) : outcome (Page Size4KiB) :=
  match padded is_ with
  | [a; b; c; d] => Page_from_page_table_indices a b c d
  | _ => Panic
  end.

Definition rptr (is_ : list PageTableIndex) : Z :=
  match rec_page is_ with Ret p => va (page_start p) | _ => 0 end.

Lemma rec_page_spec is_ :
  Forall PageTableIndex_wf is_ -> (length is_ <= 4)%nat ->
  exists p, rec_page is_ = Ret p /\ Page_wf p /\ rptr is_ = va (page_start p) /\
    padded is_ = [Page_p4_index p; Page_p3_index p; Page_p2_index p; Page_p1_index p].
Proof.
  intros Hf Hl.
  assert (exists a b c d, padded is_ = [a; b; c; d]) as (a & b & c & d & E).
  { assert (length (padded is_) = 4%nat) as El.
    { unfold padded. rewrite length_app, length_replicate. lia. }
    destruct (padded is_) as [|a [|b [|c [|d [|]]]]]; try done. by exists a, b, c, d. }
  assert (Forall PageTableIndex_wf (padded is_)) as Hw.
  { apply Forall_app. split; [by apply Forall_replicate|done]. }
  rewrite E in Hw. apply Forall_cons_iff in Hw as [Ha Hw]. apply Forall_cons_iff in Hw as [Hb Hw].
  apply Forall_cons_iff in Hw as [Hc Hw]. apply Forall_cons_iff in Hw as [Hd _].
  destruct (indices_page a b c d Ha Hb Hc Hd) as (p & Ep & Hp & <- & <- & <- & <-).
  exists p. unfold rptr, rec_page. rewrite E, Ep. done.
Qed.

Lemma wf_snoc is_ i :
  Forall PageTableIndex_wf (is_ ++ [i]) -> Forall PageTableIndex_wf is_ /\ PageTableIndex_wf i.
Proof. intros [H1 H2]%Forall_app. by apply Forall_cons_iff in H2 as [H2 _]. Qed.

Lemma rptr_nil : rptr [] = rptr [r].
Proof. unfold rptr, rec_page. by replace (padded []) with (padded [r]). Qed.

Lemma page_ptr_rec is_ :
  Forall PageTableIndex_wf is_ -> (length is_ <= 4)%nat -> page_ptr (rec_page is_) = Ret (rptr is_).
Proof. intros Hf Hl. destruct (rec_page_spec is_ Hf Hl) as (p & E & _ & Ep & _). by rewrite E, Ep. Qed.

(** ** What the processor does with these pointers, in any memory that has
    the recursive entry *)
Section memory.
Context (m : Mem) (Hm : get m p4 (ix r) = Some er).

Lemma table_at_loop k path : table_at physical m p4 (replicate k (ix r) ++ path) = table_at physical m p4 path.
Proof. induction k as [|k IH]; [done|]. cbn [replicate app table_at]. rewrite Hm. simpl. by rewrite Hself. Qed.

Lemma translate_entry_ptr is_ i q e :
  Forall PageTableIndex_wf (is_ ++ [i]) -> (length is_ <= 3)%nat ->
  table_at physical m p4 (ix <$> is_) = Some q -> get m q (ix i) = Some e -> is_present e = true ->
  mmu_translate m (rptr (is_ ++ [i])) = Ret (pa (entry_addr e)).
Proof.
  intros Hf Hl Hq Hg Hp.
  assert (length (is_ ++ [i]) = S (length is_)) as El by (rewrite length_app; simpl; lia).
  destruct (rec_page_spec (is_ ++ [i]) Hf ltac:(lia)) as (p & _ & [Hc Hal] & -> & Ep).
  unfold padded in Ep. rewrite El, app_assoc in Ep.
  change [Page_p4_index p; Page_p3_index p; Page_p2_index p; Page_p1_index p] with
    ([Page_p4_index p; Page_p3_index p; Page_p2_index p] ++ [Page_p1_index p]) in Ep.
  apply app_inj_2 in Ep as [Ep [= ->]]; [|done].
  apply (mmu_walk m (page_start p) q e); try done.
  unfold Page_p4_index, Page_p3_index, Page_p2_index, Page_start_address in Ep.
  rewrite <- Ep, fmap_app, fmap_replicate. by rewrite table_at_loop.
Qed.

Lemma translate_ptr is_ q :
  Forall PageTableIndex_wf is_ -> (length is_ <= 4)%nat ->
  table_at physical m p4 (ix <$> is_) = Some q -> mmu_translate m (rptr is_) = Ret q.
Proof.
  intros Hf Hl Hq. destruct is_ as [|i is_ _] using rev_ind.
  - simpl in Hq. simplify_eq. destruct (proj1 (child_physical _ _) Hself) as (_ & Hp & Ea).
    rewrite rptr_nil. change [r] with ([] ++ [r]).
    rewrite (translate_entry_ptr [] r p4 er); try done; [by rewrite <- Ea|by constructor|simpl; lia].
  - rewrite length_app in Hl. simpl in Hl. rewrite fmap_app, table_at_app in Hq.
    destruct (table_at physical m p4 (ix <$> is_)) as [p|] eqn:Ep; [|done]. simpl in Hq.
    destruct (get m p (ix i)) as [e|] eqn:Ee; [|done]. simpl in Hq.
    destruct (child physical e) as [q'|] eqn:Ec; simplify_eq/=.
    apply child_physical in Ec as (_ & Hp & ->).
    by apply (translate_entry_ptr is_ i p e); [|lia| | |].
Qed.
End memory.

(** ** The hierarchy with and without its recursive entry *)
Definition with_rec (m : Mem) : Mem := upd m p4 (ix r) er.

(** A valid hierarchy that uses neither the recursive entry nor anything
    below it. *)
Record Flat (m : Mem) : Prop := {
  flat_valid : Valid physical m p4;
  flat_unused : get m p4 (ix r) = Some PageTableEntry_new;
}.

(** A path that does not start with the recursive index. *)
Definition off (is_ : list PageTableIndex) : Prop :=
  match is_ with [] => True | i :: _ => i <> r end.

Lemma off_app is_ js : off (is_ ++ js) -> off is_.
Proof. by destruct is_. Qed.

Lemma flat_root m : Flat m -> has_table m p4.
Proof. intros HF. by apply (valid_table _ _ _ (flat_valid _ HF) [] p4); [simpl; lia|]. Qed.

Lemma get_with_rec m q j :
  Flat m -> get (with_rec m) q j = if decide (q = p4 /\ j = ix r) then Some er else get m q j.
Proof. intros HF. apply get_upd; [by apply flat_root|by apply ix_lt]. Qed.

Lemma get_rec m : Flat m -> get (with_rec m) p4 (ix r) = Some er.
Proof. intros HF. by rewrite get_with_rec, decide_True. Qed.

(** Off the recursive index the code never sees the recursive entry. *)
Lemma slot_off m is_ i q :
  Flat m -> (length is_ <= 3)%nat -> Forall PageTableIndex_wf (is_ ++ [i]) -> off (is_ ++ [i]) ->
  table_at physical m p4 (ix <$> is_) = Some q -> ~ (q = p4 /\ ix i = ix r).
Proof.
  intros HF Hl Hf Ho Hq [-> Hi].
  assert (ix <$> is_ = []) as E%fmap_nil_inv.
  { apply (valid_tree _ _ _ (flat_valid _ HF) _ _ p4); try done; [by rewrite length_fmap|simpl; lia]. }
  subst is_. cbn [app off] in *. apply Ho, index_ext.
  apply Forall_cons_iff in Hf as [Hw _]. by apply ix_inj.
Qed.

Lemma table_at_with_rec m is_ :
  Flat m -> (length is_ <= 4)%nat -> Forall PageTableIndex_wf is_ -> off is_ ->
  table_at physical (with_rec m) p4 (ix <$> is_) = table_at physical m p4 (ix <$> is_).
Proof.
  intros HF Hl Hf Ho. apply walk_agree. intros pre j rest q E Hq.
  rewrite get_with_rec, decide_False; [done| |done].
  apply fmap_app_inv in E as (pre' & js & -> & E2 & ->).
  destruct js as [|j' js]; [done|]. injection E2 as -> _.
  change (pre' ++ j' :: js) with (pre' ++ [j'] ++ js) in *. rewrite app_assoc in Hf, Ho. rewrite ! length_app in Hl. cbn [length] in Hl.
  apply (slot_off m pre' j' q); [done|lia| | |done]; [by apply Forall_app in Hf as [? _]|by eapply off_app].
Qed.

(** Stores outside of the slot of the recursive entry commute with it. *)
Lemma upd_comm m p i e p' i' e' :
  ~ (p = p' /\ i = i') -> upd (upd m p i e) p' i' e' = upd (upd m p' i' e') p i e.
Proof.
  intros Hn. unfold upd. destruct (decide (p = p')) as [<-|Hp].
  - destruct (m !! p) as [t|] eqn:E; [|by rewrite E].
    rewrite !lookup_insert_eq, !insert_insert_eq. cbn [entries]. do 2 f_equal.
    apply list_insert_insert_ne. naive_solver.
  - destruct (m !! p) as [t|] eqn:E, (m !! p') as [t'|] eqn:E';
      rewrite ?lookup_insert_ne, ?E, ?E' by done; rewrite ?lookup_insert_ne, ?E by done; try done.
    by apply insert_insert_ne.
Qed.

Lemma upd_with_rec m q j e :
  ~ (q = p4 /\ j = ix r) -> upd (with_rec m) q j e = with_rec (upd m q j e).
Proof. intros Hn. apply upd_comm. naive_solver. Qed.

Lemma insert_with_rec m q t : q <> p4 -> <[q := t]> (with_rec m) = with_rec (<[q := t]> m).
Proof.
  intros Hq. unfold with_rec, upd. rewrite lookup_insert_ne by done.
  destruct (m !! p4); [|done]. by apply insert_insert_ne.
Qed.

Lemma with_rec_has_table m q : Flat m -> has_table m q -> has_table (with_rec m) q.
Proof. intros HF. apply has_table_upd; [by apply flat_root|done]. Qed.

(** ** Accesses through the pointer of a table on a path *)
Section access.
Context (m : Mem) (HF : Flat m) (is_ : list PageTableIndex) (q : Z).
Context (Hl : (length is_ <= 3)%nat) (Hq : table_at physical m p4 (ix <$> is_) = Some q).

Lemma flat_table : has_table m q.
Proof. apply (valid_table _ _ _ (flat_valid _ HF) (ix <$> is_)); [by rewrite length_fmap|done]. Qed.

Section table.
Context (Hf : Forall PageTableIndex_wf is_) (Ho : off is_).

Lemma translate_rec : mmu_translate (with_rec m) (rptr is_) = Ret q.
Proof.
  apply translate_ptr; [by apply get_rec|done|lia|].
  by rewrite table_at_with_rec by (done || lia).
Qed.

Lemma vderef_rec : exists t, vderef (with_rec m) (rptr is_) = Ret t.
Proof.
  unfold vderef. rewrite translate_rec. destruct (with_rec_has_table m q HF flat_table) as (t & Et & _).
  exists t. cbn. unfold deref. by rewrite Et.
Qed.

Lemma vtable_rec {E} :
  vtable (E := E) (page_ptr (rec_page is_)) (with_rec m) = Ret (Ok (rptr is_), with_rec m).
Proof.
  unfold vtable, mbind, M_bind. rewrite page_ptr_rec by (done || lia). mrun.
  destruct vderef_rec as [t Et]. by rewrite Et.
Qed.
End table.

Section slot.
Context (i : PageTableIndex) (Hf : Forall PageTableIndex_wf (is_ ++ [i])) (Ho : off (is_ ++ [i])).

Lemma slot_wf : Forall PageTableIndex_wf is_ /\ PageTableIndex_wf i /\ off is_ /\ ~ (q = p4 /\ ix i = ix r).
Proof.
  pose proof Hf as Hf'. apply Forall_app in Hf' as [H1 H2]. apply Forall_cons_iff in H2 as [H2 _].
  split_and!; [done|done|by eapply off_app|]. by apply (slot_off m is_ i q).
Qed.

Lemma vread_rec e : get m q (ix i) = Some e -> vread_entry (with_rec m) (rptr is_) i = Ret e.
Proof.
  destruct slot_wf as (Hf' & Hi & Ho' & Hs). intros Hg. unfold vread_entry.
  rewrite translate_rec by done. cbn [mbind outcome_bind]. apply read_entry_get; [done|].
  by rewrite get_with_rec, decide_False.
Qed.

Lemma vwrite_rec e : vwrite_entry (with_rec m) (rptr is_) i e = Ret (with_rec (upd m q (ix i) e)).
Proof.
  destruct slot_wf as (Hf' & Hi & Ho' & Hs). unfold vwrite_entry.
  rewrite translate_rec by done. cbn [mbind outcome_bind].
  rewrite write_entry_upd; [by rewrite upd_with_rec|done|]. by apply with_rec_has_table, flat_table.
Qed.

Lemma sim_get {E} : sim (E := E) with_rec (vget_entry (rptr is_) i) (get_entry q i) m.
Proof.
  destruct slot_wf as (_ & Hi & _ & _).
  destruct (get_is_Some m q (ix i) flat_table (ix_lt i Hi)) as (e & Hg & _).
  unfold sim. rewrite (get_entry_run m q i e) by done.
  unfold vget_entry, mbind, M_bind. mrun. by rewrite (vread_rec e).
Qed.

Lemma sim_put {E} e : sim (E := E) with_rec (vput_entry (rptr is_) i e) (put_entry q i e) m.
Proof.
  destruct slot_wf as (_ & Hi & _ & _). unfold sim. rewrite put_entry_run by (done || apply flat_table).
  unfold vput_entry, mbind, M_bind. mrun. by rewrite vwrite_rec.
Qed.
End slot.
End access.

(** ** Chains of parent entries *)
Definition flat : MappedPageTable unit := MappedPageTable_new p4 tt.
Definition rec_mapper : RecursivePageTable := mkRecursivePageTable (rptr []) r.

(** The code's chains: check the parent entry, then form the reference to the
    next table from its indices. *)
Fixpoint rec_chain {E X} (check : Z -> PageTableIndex -> M Mem E unit) (pre : list PageTableIndex)
    (p : Z) (is_ : list PageTableIndex) (k : Z -> M Mem E X) : M Mem E X :=
  match is_ with
  | [] => k p
  | i :: is_ =>
      _ ← check p i;
      p' ← vtable (page_ptr (rec_page (pre ++ [i])));
      rec_chain check (pre ++ [i]) p' is_ k
  end.

(** A check that agrees with the walker on the entries it sees; one that does
    not look at the huge page bit agrees on entries without it. *)
Definition checks {E} (f : PageTableWalkError -> E) (sees_huge : bool)
    (check : Z -> PageTableIndex -> M Mem E unit) : Prop :=
  forall m is_ q i e, Flat m -> (length is_ < 3)%nat ->
    table_at physical m p4 (ix <$> is_) = Some q -> Forall PageTableIndex_wf (is_ ++ [i]) ->
    off (is_ ++ [i]) -> get m q (ix i) = Some e -> (is_huge e = true -> sees_huge = true) ->
    check (rptr is_) i (with_rec m) =
      Ret (match step_result physical e with Ok _ => Ok tt | Err x => Err (f x) end, with_rec m).

Lemma checked_entry m is_ q i e :
  Flat m -> (length is_ < 3)%nat -> table_at physical m p4 (ix <$> is_) = Some q ->
  get m q (ix i) = Some e ->
  entry_wf e /\
  ((entry e = 0 /\ child physical e = None) \/
   (is_huge e = true /\ child physical e = None /\ is_ <> []) \/ is_Some (child physical e)).
Proof.
  intros HF Hl Hq Hg. pose proof (flat_table m HF is_ q ltac:(lia) Hq) as Ht.
  destruct (get_Some _ _ _ _ Ht Hg) as [_ He]. split; [done|].
  destruct (valid_entry _ _ _ (flat_valid _ HF) (ix <$> is_) q (ix i) e) as [E|[[E Hn]|E]];
    [by rewrite length_fmap|done|done| | |].
  - left. split; [done|by apply child_zero].
  - right; left. split_and!; [done|unfold child; by rewrite E|]. by intros ->.
  - by right; right.
Qed.

Lemma unmap_parent_checks : checks UnmapError_from true unmap_parent.
Proof.
  intros m is_ q i e HF Hl Hq Hf Ho Hg _.
  destruct (checked_entry m is_ q i e HF Hl Hq Hg) as [He _].
  unfold unmap_parent, mbind, M_bind, vget_entry, mbind, M_bind. mrun.
  rewrite (vread_rec m HF is_ q ltac:(lia) Hq i Hf Ho e Hg). mrun. rewrite contains_HUGE_PAGE.
  fold (is_huge e). unfold step_result, child.
  destruct (is_huge e); [done|]. mrun. rewrite PageTableEntry_frame_val by done.
  fold (is_present e). by destruct (is_present e).
Qed.

Lemma used_or_checks {E} (f : PageTableWalkError -> E) : checks f false (used_or (f WalkNotMapped)).
Proof.
  intros m is_ q i e HF Hl Hq Hf Ho Hg Hh.
  destruct (checked_entry m is_ q i e HF Hl Hq Hg) as [_ Hc].
  unfold used_or, mbind, M_bind, vget_entry, mbind, M_bind. mrun.
  rewrite (vread_rec m HF is_ q ltac:(lia) Hq i Hf Ho e Hg). mrun.
  unfold PageTableEntry_is_unused, step_result.
  destruct Hc as [[E0 Ec]|[(E1 & _)|[q' Ec]]]; [|by rewrite E1 in Hh; specialize (Hh eq_refl)|].
  - rewrite Ec, E0. unfold is_huge. by rewrite E0.
  - rewrite Ec. destruct (Z.eqb_spec (entry e) 0) as [E0|]; [|done].
    by rewrite (child_zero _ _ E0) in Ec.
Qed.

Lemma rec_chain_run {E X} (f : PageTableWalkError -> E) sees_huge check m pre q is_ (k : Z -> M Mem E X) :
  checks f sees_huge check -> Flat m -> (length pre + length is_ <= 3)%nat ->
  table_at physical m p4 (ix <$> pre) = Some q -> Forall PageTableIndex_wf (pre ++ is_) ->
  off (pre ++ is_) ->
  (resolve physical m q (ix <$> is_) = Err WalkMappedToHugePage -> sees_huge = true) ->
  rec_chain check pre (rptr pre) is_ k (with_rec m) =
    match resolve physical m q (ix <$> is_) with
    | Ok _ => k (rptr (pre ++ is_)) (with_rec m)
    | Err x => Ret (Err (f x), with_rec m)
    end.
Proof.
  intros Hcheck HF. revert pre q. induction is_ as [|i is_ IH]; intros pre q Hl Hq Hf Ho Hh.
  { by rewrite app_nil_r. }
  cbn [length] in Hl. replace (pre ++ i :: is_) with ((pre ++ [i]) ++ is_) in * by by rewrite <- app_assoc.
  assert (Forall PageTableIndex_wf (pre ++ [i]) /\ off (pre ++ [i])) as [Hf' Ho'].
  { split; [by apply Forall_app in Hf as [? _]|by eapply off_app]. }
  assert (PageTableIndex_wf i) as Hi by by apply Forall_app in Hf' as [_ [? _]%Forall_cons_iff].
  destruct (get_is_Some m q (ix i) (flat_table m HF pre q ltac:(lia) Hq) (ix_lt i Hi)) as (e & Hg & _).
  cbn [fmap list_fmap resolve] in *. rewrite Hg in *. cbn [rec_chain]. unfold mbind at 1, M_bind at 1.
  rewrite (Hcheck m pre q i e); try done; [|lia|].
  2: { intros E1. apply Hh. unfold step_result, child. by rewrite E1. }
  unfold step_result in *. destruct (child physical e) as [q'|] eqn:Ec; [|done].
  assert (table_at physical m p4 (ix <$> (pre ++ [i])) = Some q') as Hq'.
  { rewrite fmap_app. cbn [fmap list_fmap]. rewrite (table_at_snoc _ _ _ _ _ q), Hg by done. done. }
  unfold mbind, M_bind.
  rewrite (vtable_rec m HF (pre ++ [i]) q') by (done || rewrite length_app; simpl; lia).
  apply IH; try done. rewrite length_app. simpl. lia.
Qed.

(** ** The operations on a page outside of the recursive region *)
Section page.
Context {S : PageSize} (page : Page S) (m : Mem).
Context (HF : Flat m) (Hp : Page_wf page) (Hoff : Page_p4_index page <> r).

Lemma parents_off : off (page_parents page) /\ off (page_parents page ++ [page_last page]).
Proof. by destruct S. Qed.

Lemma parents_wf : Forall PageTableIndex_wf (page_parents page ++ [page_last page]).
Proof. destruct (page_parents_wf page Hp). apply Forall_app. split; [done|by constructor]. Qed.

Lemma parents_length : (length (page_parents page) <= 3)%nat.
Proof. pose proof (page_pre_length page) as Hl. unfold page_pre in Hl. rewrite length_fmap in Hl. lia. Qed.

(** Related continuations on the table the parents lead to. *)
Definition sim_tail {E X} (k k' : Z -> M Mem E X) : Prop :=
  forall q, table_at physical m p4 (page_pre page) = Some q ->
    sim with_rec (k (rptr (page_parents page))) (k' q) m.

Lemma rec_page_chain {E X} (f : PageTableWalkError -> E) sees_huge check (k k' : Z -> M Mem E X) :
  checks f sees_huge check ->
  (resolve physical m p4 (page_pre page) = Err WalkMappedToHugePage -> sees_huge = true) ->
  sim_tail k k' ->
  sim with_rec (rec_chain check [] (rptr []) (page_parents page) k)
    (chain_mut physical f p4 (page_parents page) k') m /\
  sim with_rec (rec_chain check [] (rptr []) (page_parents page) k)
    (chain physical f p4 (page_parents page) k') m.
Proof.
  intros Hc Hh Hk. destruct (page_chain_run physical m p4 page f k' (flat_valid _ HF) Hp) as [E1 E2].
  unfold sim. rewrite E1, E2.
  rewrite (rec_chain_run f sees_huge check m [] p4 (page_parents page)); try done.
  - unfold page_pre in *. destruct (resolve physical m p4 _) as [q|x] eqn:Er; [|done].
    assert (sim with_rec (k (rptr (page_parents page))) (k' q) m) as Hs by by apply Hk, resolve_Ok.
    by split.
  - simpl. apply parents_length.
  - by apply page_parents_wf.
  - apply parents_off.
Qed.

Lemma sim_page_get {E} q : table_at physical m p4 (page_pre page) = Some q ->
  sim (E := E) with_rec (vget_entry (rptr (page_parents page)) (page_last page))
    (get_entry q (page_last page)) m.
Proof.
  intros Hq. apply sim_get; [done|apply parents_length|done|apply parents_wf|apply parents_off].
Qed.

Lemma sim_page_put {E} q e : table_at physical m p4 (page_pre page) = Some q ->
  sim (E := E) with_rec (vput_entry (rptr (page_parents page)) (page_last page) e)
    (put_entry q (page_last page) e) m.
Proof.
  intros Hq. apply sim_put; [done|apply parents_length|done|apply parents_wf|apply parents_off].
Qed.
End page.

Lemma lift_state {St E X} (o : outcome X) (x : result X E) (s s' : St) :
  lift (E := E) o s = Ret (x, s') -> s' = s.
Proof. unfold lift. destruct o; naive_solver. Qed.

Lemma get_entry_state {E} p i m (x : result PageTableEntry E) m' :
  get_entry p i m = Ret (x, m') -> m' = m.
Proof. unfold get_entry, mbind, M_bind, get_state. apply lift_state. Qed.

(** Step through related code: equal pure steps, related accesses. *)
Ltac sim_step :=
  lazymatch goal with
  | |- sim _ (mbind _ (lift _)) (mbind _ (lift _)) _ =>
      apply sim_bind; [apply sim_lift|]; intros ? ? ->%lift_state
  | |- sim _ (mbind _ (vget_entry _ _)) (mbind _ (get_entry _ _)) _ =>
      apply sim_bind; [by apply sim_page_get|]; intros ? ? ->%get_entry_state
  | |- sim _ (mbind _ (vput_entry _ _ _)) (mbind _ (put_entry _ _ _)) _ =>
      apply sim_bind; [by apply sim_page_put|]; intros
  | |- sim _ (throw _) (throw _) _ => apply sim_throw
  | |- sim _ (mret _) (mret _) _ => apply sim_ret
  | |- sim _ (lift _) (lift _) _ => apply sim_lift
  | |- sim _ (if ?b then _ else _) _ _ => destruct b
  | |- sim _ (match ?x with _ => _ end) _ _ => destruct x
  end.

(** The operations are such chains. *)
Definition rec_update_tail {S} (page : Page S) (flags : Z) (p : Z)
    : M Mem FlagUpdateError (MapperFlush S) :=
  e ← vget_entry p (page_last page);
  if PageTableEntry_is_unused e then throw FlagPageNotMapped
  else
    e' ← lift (PageTableEntry_set_flags e
      match S with Size4KiB => flags | _ => flags_or flags PageTableFlags_HUGE_PAGE end);
    _ ← vput_entry p (page_last page) e';
    mret (MapperFlush_new page).

Lemma rec_update_flags_chain {S} (page : Page S) flags :
  update_flags rec_mapper page flags =
    rec_chain (used_or (FlagUpdateError_from WalkNotMapped)) [] (rptr []) (page_parents page)
      (rec_update_tail page flags).
Proof. by destruct S. Qed.

Lemma rec_translate_page_chain {S} (page : Page S) :
  translate_page rec_mapper page =
    rec_chain (used_or (TranslateError_from WalkNotMapped)) [] (rptr []) (page_parents page)
      (fun p => translate_used p (page_last page)).
Proof. by destruct S. Qed.

Definition rec_unmap_tail_4kib (page : Page Size4KiB) (p : Z)
    : M Mem UnmapError (PhysFrame Size4KiB * MapperFlush Size4KiB) :=
  e ← vget_entry p (page_last page);
  r ← lift (PageTableEntry_frame e);
  match r with
  | Err FrameNotPresent => throw UnmapPageNotMapped
  | Err HugeFrame => lift Panic
  | Ok frame =>
      _ ← vput_entry p (page_last page) (PageTableEntry_set_unused e);
      mret (frame, MapperFlush_new page)
  end.

Lemma rec_unmap_chain {S} (page : Page S) :
  unmap rec_mapper page =
    rec_chain unmap_parent [] (rptr []) (page_parents page)
      (match S return Page S -> Z -> M Mem UnmapError (PhysFrame S * MapperFlush S) with
       | Size4KiB => rec_unmap_tail_4kib
       | _ => fun page p => unmap_huge page p (page_last page)
       end page).
Proof. by destruct S. Qed.

Section operations.
Context {S : PageSize} (page : Page S) (m : Mem).
Context (HF : Flat m) (Hp : Page_wf page) (Hoff : Page_p4_index page <> r).

Lemma update_tails flags : sim_tail page m (rec_update_tail page flags) (update_flags_tail page flags).
Proof. intros q Hq. unfold rec_update_tail, update_flags_tail. repeat sim_step. Qed.

Lemma translate_tails :
  sim_tail page m (fun p => translate_used p (page_last page)) (translate_page_tail page).
Proof. intros q Hq. unfold translate_used, translate_page_tail. repeat sim_step. Qed.

Lemma unmap_sim : sim with_rec (unmap rec_mapper page) (unmap flat page) m.
Proof.
  rewrite unmap_chain, rec_unmap_chain.
  apply (rec_page_chain page m HF Hp Hoff _ true); [apply unmap_parent_checks|done|]. intros q Hq.
  destruct S; unfold rec_unmap_tail_4kib, unmap_tail_4kib, unmap_huge, unmap_tail; cbv zeta;
    repeat sim_step.
Qed.

(** The parents of the page are no huge page. *)
Definition no_huge_parent : Prop := resolve physical m p4 (page_pre page) <> Err WalkMappedToHugePage.

Lemma update_flags_sim flags :
  no_huge_parent -> sim with_rec (update_flags rec_mapper page flags) (update_flags flat page flags) m.
Proof.
  intros Hn. rewrite update_flags_chain, rec_update_flags_chain.
  apply (rec_page_chain page m HF Hp Hoff _ false); [apply used_or_checks|done|apply update_tails].
Qed.

Lemma translate_page_sim :
  no_huge_parent -> sim with_rec (translate_page rec_mapper page) (translate_page flat page) m.
Proof.
  intros Hn. rewrite translate_page_chain, rec_translate_page_chain.
  apply (rec_page_chain page m HF Hp Hoff _ false); [apply used_or_checks|done|apply translate_tails].
Qed.
End operations.

(** ** Flags of parent entries *)
Definition rec_set_flags_op {S} (k : nat) : Page S -> Z -> M Mem FlagUpdateError MapperFlushAll :=
  match k with
  | O => set_flags_p4_entry rec_mapper
  | 1%nat => set_flags_p3_entry rec_mapper
  | _ => set_flags_p2_entry rec_mapper
  end.

Lemma rec_set_flags_chain {S} (page : Page S) k i flags :
  page_parents page !! k = Some i ->
  rec_set_flags_op k page flags =
    rec_chain (used_or (FlagUpdateError_from WalkNotMapped)) [] (rptr []) (take k (page_parents page))
      (fun p => set_used_flags p i flags).
Proof. destruct S, k as [|[|[|k]]]; intros [= <-]; reflexivity. Qed.

Lemma set_flags_sim {S} (page : Page S) m k flags :
  Flat m -> Page_wf page -> Page_p4_index page <> r -> no_huge_parent page m -> (k < 3)%nat ->
  sim with_rec (rec_set_flags_op k page flags) (set_flags_op flat k page flags) m.
Proof.
  intros HF Hp Hoff Hn Hk3. destruct (page_parents page !! k) as [i|] eqn:Hk; cycle 1.
  { unfold sim. rewrite set_flags_no_parent by done.
    destruct S, k as [|[|[|k]]]; try discriminate Hk; (lia || reflexivity). }
  pose proof (list_split_nth _ _ _ Hk) as Es.
  destruct (page_parents_wf page Hp) as [Hf _]. assert (off (page_parents page)) as Ho by by apply parents_off.
  pose proof (parents_length page) as Hl. rewrite Es in Hf, Ho, Hl.
  rewrite length_app in Hl. cbn [length] in Hl.
  change (?a ++ i :: ?b) with (a ++ [i] ++ b) in Hf, Ho. rewrite app_assoc in Hf, Ho.
  apply Forall_app in Hf as [Hf _]. apply off_app in Ho.
  rewrite (rec_set_flags_chain page k i), (set_flags_chain flat page k i) by done.
  unfold no_huge_parent, page_pre in Hn. rewrite Es, fmap_app, (resolve_app physical) in Hn.
  set (is_ := take k (page_parents page)) in *. destruct (wf_snoc is_ i Hf) as [Hf' Hi].
  assert (chain_mut physical FlagUpdateError_from p4 is_ (set_flags_tail i flags) m =
    match resolve physical m p4 (ix <$> is_) with
    | Ok q => set_flags_tail i flags q m
    | Err x => Ret (Err (FlagUpdateError_from x), m)
    end) as Ef.
  { apply (chain_run physical m p4 []); try done; [apply (flat_valid _ HF)|simpl; lia]. }
  unfold sim. change (page_table_walker flat) with physical. change (level_4_table flat) with p4.
  rewrite Ef.
  rewrite (rec_chain_run FlagUpdateError_from false _ m [] p4 is_);
    try done; [|apply used_or_checks|simpl; lia|by eapply off_app|].
  2: { intros Er. by rewrite Er in Hn. }
  destruct (resolve physical m p4 (ix <$> is_)) as [q|x] eqn:Eq; [|done].
  apply resolve_Ok in Eq. cbn [app].
  assert (sim with_rec (set_used_flags (rptr is_) i flags) (set_flags_tail i flags q) m) as Hs; [|exact Hs].
  unfold set_used_flags, set_flags_tail.
  apply sim_bind; [apply sim_get; by try lia|]. intros e ? ->%get_entry_state.
  sim_step; [apply sim_throw|]. sim_step. apply sim_bind; [apply sim_put; by try lia|].
  intros. apply sim_ret.
Qed.

(** ** [translate] *)

(** One level of both walks. *)
Lemma translate_level m is_ i q :
  Flat m -> (length is_ <= 3)%nat -> table_at physical m p4 (ix <$> is_) = Some q ->
  Forall PageTableIndex_wf (is_ ++ [i]) -> off (is_ ++ [i]) ->
  exists e, entry_wf e /\ vread_entry (with_rec m) (rptr is_) i = Ret e /\ read_entry m q i = Ret e /\
    ((length is_ < 3)%nat -> try_next_table physical m e = Ret (step_result physical e) /\
      ((entry e = 0 /\ step_result physical e = Err WalkNotMapped) \/
       (is_huge e = true /\ entry e <> 0 /\ step_result physical e = Err WalkMappedToHugePage) \/
       exists q', is_huge e = false /\ entry e <> 0 /\ step_result physical e = Ok q' /\
         table_at physical m p4 (ix <$> (is_ ++ [i])) = Some q')).
Proof.
  intros HF Hl Hq Hf Ho. pose proof (flat_table m HF is_ q Hl Hq) as Ht.
  destruct (wf_snoc is_ i Hf) as [_ Hi].
  destruct (walk_level flat m (ix <$> is_) q i (flat_valid _ HF)) as (e & Hg & He & Hr' & Ht' & _);
    [by rewrite length_fmap|done|done|].
  exists e. split_and!; [done|by apply (vread_rec m HF is_ q)|done|]. intros Hl'.
  split; [apply Ht'; by rewrite length_fmap|].
  destruct (checked_entry m is_ q i e HF Hl' Hq Hg) as [_ [[E0 Ec]|[(E1 & Ec & _)|[q' Ec]]]];
    unfold step_result; rewrite Ec.
  - left. unfold is_huge. by rewrite E0.
  - right; left. rewrite E1. split_and!; [done|by apply is_huge_nonzero|done].
  - right; right. exists q'. split_and!; [by destruct (proj1 (child_physical _ _) Ec)| |done|].
    + intros E0. by rewrite (child_zero _ _ E0) in Ec.
    + rewrite fmap_app. cbn [fmap list_fmap]. by rewrite (table_at_snoc _ _ _ _ _ q), Hg.
Qed.

(** The page that contains an address has its indices. *)
Lemma containing_page_index a :
  canonical a -> exists p : Page Size4KiB, Page_containing_address a = Ret p /\ Page_wf p /\
    Page_p4_index p = VirtAddr_p4_index a /\ Page_p3_index p = VirtAddr_p3_index a /\
    Page_p2_index p = VirtAddr_p2_index a.
Proof.
  intros Ha. destruct (Page_containing_address_val (S := Size4KiB) a Ha) as [E Hw].
  eexists. split; [exact E|]. split; [done|].
  destruct (VirtAddr_index_val a Ha) as (_ & A2 & A3 & A4 & _).
  destruct (VirtAddr_index_val _ (proj1 Hw)) as (_ & B2 & B3 & B4 & _).
  cbn [page_start va] in B2, B3, B4. change (SIZE Size4KiB) with 4096 in *.
  split_and!; apply index_ext; unfold Page_p4_index, Page_p3_index, Page_p2_index, Page_start_address;
    cbn [page_start]; rewrite ?A2, ?A3, ?A4, ?B2, ?B3, ?B4; mlia.
Qed.

Ltac wf_list := cbn [app]; repeat first [apply Forall_nil_2 | apply Forall_cons_2; [done|]].

Lemma translate_sim m a :
  Flat m -> canonical a -> VirtAddr_p4_index a <> r ->
  translate rec_mapper (with_rec m) a = translate flat m a.
Proof.
  intros HF Ha Ho. destruct (VirtAddr_index_wf a Ha) as (H4 & H3 & H2 & H1).
  destruct (containing_page_index a Ha) as (page & Ep & _ & P4 & P3 & P2).
  set (i4 := VirtAddr_p4_index a) in *. set (i3 := VirtAddr_p3_index a) in *.
  set (i2 := VirtAddr_p2_index a) in *. set (i1 := VirtAddr_p1_index a) in *.
  assert (forall is_ q, Forall PageTableIndex_wf is_ -> off is_ -> (length is_ <= 3)%nat ->
    table_at physical m p4 (ix <$> is_) = Some q ->
    (p ← page_ptr (rec_page is_); _ ← vderef (with_rec m) p; Ret p) = Ret (rptr is_)) as Hptr.
  { intros is_ q Hf Ho' Hl Hq. rewrite page_ptr_rec by (done || lia). cbn.
    destruct (vderef_rec m HF is_ q Hl Hq Hf Ho') as [t Et]. by rewrite Et. }
  unfold translate, RecursivePageTable_Translate, MappedPageTable_Translate, Recursive_translate,
    MappedPageTable_translate. cbv zeta. rewrite Ep. cbn [mbind outcome_bind].
  change (p3_ptr page _) with (page_ptr (rec_page [Page_p4_index page])).
  change (p2_ptr page _) with (page_ptr (rec_page [Page_p4_index page; Page_p3_index page])).
  change (p1_ptr page _) with
    (page_ptr (rec_page [Page_p4_index page; Page_p3_index page; Page_p2_index page])).
  rewrite P4, P3, P2. fold i4 i3 i2 i1.
  change (rpt_p4 rec_mapper) with (rptr []). change (level_4_table flat) with p4.
  change (page_table_walker flat) with physical.
  destruct (translate_level m [] i4 p4 HF) as (e4 & W4 & V4 & R4 & L4);
    [simpl; lia|done|wf_list|done|].
  rewrite V4, R4. cbn [mbind outcome_bind]. unfold PageTableEntry_is_unused.
  destruct (L4 ltac:(simpl; lia)) as [-> [[E ->]|[(E & N & ->)|(q3 & E & N & -> & Q3)]]]; clear L4 V4 R4;
    rewrite ?contains_HUGE_PAGE; fold (is_huge e4); rewrite ?E; [done|..];
    rewrite (proj2 (Z.eqb_neq _ _)) by done; [done|]. cbn [mbind outcome_bind app] in *.
  rewrite (Hptr [i4] q3); [|wf_list|done|simpl; lia|done]. cbn [mbind outcome_bind].
  destruct (translate_level m [i4] i3 q3 HF) as (e3 & W3 & V3 & R3 & L3);
    [simpl; lia|done|wf_list|done|].
  rewrite V3, R3. cbn [mbind outcome_bind].
  destruct (L3 ltac:(simpl; lia)) as [-> [[E' ->]|[(E' & N' & ->)|(q2 & E' & N' & -> & Q2)]]]; clear L3 V3 R3;
    rewrite ?contains_HUGE_PAGE; fold (is_huge e3); rewrite ?E'; [done|..];
    rewrite (proj2 (Z.eqb_neq _ _)) by done; [done|]. cbn [mbind outcome_bind app] in *.
  rewrite (Hptr [i4; i3] q2); [|wf_list|done|simpl; lia|done]. cbn [mbind outcome_bind].
  destruct (translate_level m [i4; i3] i2 q2 HF) as (e2 & W2 & V2 & R2 & L2);
    [simpl; lia|done|wf_list|done|].
  rewrite V2, R2. cbn [mbind outcome_bind].
  destruct (L2 ltac:(simpl; lia)) as [-> [[E2 ->]|[(E2 & N2 & ->)|(q1 & E2 & N2 & -> & Q1)]]]; clear L2 V2 R2;
    rewrite ?contains_HUGE_PAGE; fold (is_huge e2); rewrite ?E2; [done|..];
    rewrite (proj2 (Z.eqb_neq _ _)) by done; [done|]. cbn [mbind outcome_bind app] in *.
  rewrite (Hptr [i4; i3; i2] q1); [|wf_list|done|simpl; lia|done]. cbn [mbind outcome_bind].
  destruct (translate_level m [i4; i3; i2] i1 q1 HF) as (e1 & W1 & V1 & R1 & _);
    [simpl; lia|done|wf_list|done|].
  by rewrite V1, R1.
Qed.

(** ** [map_to] *)
Section create.
Context {A : Type} `{FrameAllocator A Size4KiB} (pf : Z) (Hpf : parent_flags_ok pf).
Context (Hwr : Z.testbit pf 1 = true).

Lemma flags_always : flags_or (flags_or PageTableFlags_PRESENT PageTableFlags_WRITABLE) pf = pf.
Proof.
  autorewrite with flags. apply Z.bits_inj'. intros j Hj. rewrite Z.lor_spec.
  change (Z.lor PageTableFlags_PRESENT PageTableFlags_WRITABLE) with 3.
  destruct (decide (j = 0)) as [->|]; [by rewrite (pf_present _ Hpf)|].
  destruct (decide (j = 1)) as [->|]; [by rewrite Hwr|].
  replace (Z.testbit 3 j) with false; [done|]. symmetry. apply (Z.bits_above_log2 3 j); [done|simpl; lia].
Qed.

(** After a store the pointers of the tables above it are the same. *)
Lemma table_at_stored m is_ q i e :
  Flat m -> (length is_ <= 3)%nat -> Forall PageTableIndex_wf (is_ ++ [i]) -> off (is_ ++ [i]) ->
  table_at physical m p4 (ix <$> is_) = Some q ->
  let m' := with_rec (upd m q (ix i) e) in
  get m' p4 (ix r) = Some er /\ get m' q (ix i) = Some e /\
  table_at physical m' p4 (ix <$> is_) = Some q.
Proof.
  intros HF Hl Hf Ho Hq m'. pose proof (slot_off m is_ i q HF Hl Hf Ho Hq) as Hs.
  destruct (wf_snoc is_ i Hf) as [Hf' Hi]. pose proof (flat_table m HF is_ q Hl Hq) as Ht.
  unfold m'. rewrite <- upd_with_rec by done.
  pose proof (with_rec_has_table m q HF Ht) as Ht'. rewrite !get_upd by (done || by apply ix_lt).
  split_and!; [rewrite decide_False by naive_solver; by apply get_rec|by rewrite decide_True|].
  assert (table_at physical (with_rec m) p4 (ix <$> is_) = Some q) as Hq'.
  { rewrite table_at_with_rec; [done|done|lia|done|by eapply off_app]. }
  rewrite <- Hq'. apply walk_agree. intros pre j rest q' E Hpre.
  rewrite get_upd by (done || by apply ix_lt). rewrite decide_False; [done|]. intros [-> _].
  apply fmap_app_inv in E as (pre' & js & -> & E2 & ->).
  rewrite table_at_with_rec in Hpre; [|done|rewrite length_app in Hl; lia|by apply Forall_app in Hf' as [? _]|
    by eapply off_app, off_app].
  assert (ix <$> pre' = ix <$> (pre' ++ js)) as E3%(f_equal length).
  { apply (valid_tree _ _ _ (flat_valid _ HF) _ _ q); try done; rewrite length_fmap; [|done].
    rewrite length_app in Hl. lia. }
  rewrite !length_fmap, length_app in E3. destruct js; simpl in *; [done|lia].
Qed.

Section step.
Context {S : PageSize} (m : Mem) (a : A) (is_ : list PageTableIndex) (i : PageTableIndex) (q : Z).
Context (page : Page Size4KiB) (HF : Flat m) (Hl : (length is_ < 3)%nat).
Context (Hq : table_at physical m p4 (ix <$> is_) = Some q).
Context (Hf : Forall PageTableIndex_wf (is_ ++ [i])) (Ho : off (is_ ++ [i])).
Context (Hpage : rec_page (is_ ++ [i]) = Ret page).
#[local] Abbreviation create := (Recursive_create_next_table (S := S) (rptr is_) i page pf).

Lemma length_snoc : (length (is_ ++ [i]) <= 3)%nat.
Proof. rewrite length_app. simpl. lia. Qed.

Lemma rec_create_failed e a' :
  get m q (ix i) = Some e -> entry e = 0 -> allocate_frame a = (None, a') ->
  create (with_rec m, a) = Ret (Err MapFrameAllocationFailed, (with_rec m, a')).
Proof.
  intros Hg Hz Ha. unfold Recursive_create_next_table, mbind, M_bind, on_mem. cbn [fst snd].
  unfold vget_entry at 1, mbind, M_bind. mrun.
  rewrite (vread_rec m HF is_ q ltac:(lia) Hq i Hf Ho e Hg). mrun. unfold PageTableEntry_is_unused.
  rewrite Hz. change (0 =? 0) with true. mrun. by rewrite Ha.
Qed.

Lemma rec_create_fresh e f a' qn :
  get m q (ix i) = Some e -> entry e = 0 -> allocate_frame a = (Some f, a') -> PhysFrame_wf f ->
  frame_to_pointer (page_table_frame_mapping physical) f = Ret qn -> has_table m qn -> qn <> p4 ->
  qn <> q ->
  create (with_rec m, a) =
    Ret (Ok (rptr (is_ ++ [i])),
         (with_rec (<[qn := PageTable_new]> (upd m q (ix i) (new_parent pf f))), a')).
Proof.
  intros Hg Hz Ha Hfr Hqn Htn Hn4 Hnq. set (e' := new_parent pf f).
  destruct (new_parent_child physical pf Hpf f qn Hfr Hqn) as [Hwf Hc]. fold e' in Hwf, Hc.
  destruct (proj1 (child_physical _ _) Hc) as (Hh & Hpr & Eq).
  destruct (table_at_stored m is_ q i e' HF ltac:(lia) Hf Ho Hq) as (T1 & T2 & T3).
  destruct (wf_snoc is_ i Hf) as [Hf' Hi].
  pose proof (translate_ptr _ T1 is_ q Hf' ltac:(lia) T3) as V1.
  pose proof (translate_entry_ptr _ T1 is_ i q e' Hf ltac:(lia) T3 T2 Hpr) as V2. rewrite <- Eq in V2.
  assert (has_table (with_rec (upd m q (ix i) e')) qn) as (t & Et & Hwt).
  { rewrite <- upd_with_rec by by apply (slot_off m is_ i q HF ltac:(lia)).
    apply has_table_upd; [|done|]; apply with_rec_has_table; try done; apply (flat_table m HF is_ q); [lia|done]. }
  unfold Recursive_create_next_table, mbind, M_bind, on_mem. cbn [fst snd].
  unfold vget_entry at 1, mbind, M_bind. mrun.
  rewrite (vread_rec m HF is_ q ltac:(lia) Hq i Hf Ho e Hg). mrun. unfold PageTableEntry_is_unused.
  rewrite Hz. change (0 =? 0) with true. mrun. rewrite Ha. mrun. rewrite flags_always.
  unfold PageTableEntry_set_frame. rewrite set_addr_frame by done. fold (new_parent pf f). fold e'. mrun.
  unfold vput_entry, mbind, M_bind. mrun.
  rewrite (vwrite_rec m HF is_ q ltac:(lia) Hq i Hf Ho). mrun.
  unfold vget_entry, mbind, M_bind, vread_entry. mrun. rewrite V1. cbn [mbind outcome_bind].
  rewrite (read_entry_get _ q i e') by done. mrun.
  rewrite contains_HUGE_PAGE. fold (is_huge e'). rewrite Hh. mrun.
  unfold vtable, mbind, M_bind. pose proof length_snoc.
  rewrite <- Hpage, page_ptr_rec by (done || lia).
  mrun. unfold vderef. rewrite V2. cbn [mbind outcome_bind]. unfold deref. rewrite Et. mrun.
  rewrite V2. cbn [mbind outcome_bind]. rewrite Et. mrun. rewrite ?V2. mrun.
  by rewrite PageTable_zero_val, insert_with_rec.
Qed.

Lemma rec_create_existing e :
  get m q (ix i) = Some e -> entry e <> 0 ->
  Flat (upd m q (ix i) (with_flags pf e)) ->
  create (with_rec m, a) =
    Ret (match child physical e with Some _ => Ok (rptr (is_ ++ [i])) | None => Err MapParentEntryHugePage end,
         (with_rec (upd m q (ix i) (with_flags pf e)), a)).
Proof.
  intros Hg Hz HF'. set (m' := upd m q (ix i) (with_flags pf e)) in *.
  destruct (checked_entry m is_ q i e HF Hl Hq Hg) as [He Hc].
  destruct (wf_snoc is_ i Hf) as [Hf' Hi]. pose proof (flat_table m HF is_ q ltac:(lia) Hq) as Ht.
  assert (get m' q (ix i) = Some (with_flags pf e)) as Hg'.
  { unfold m'. by rewrite get_upd, decide_True by (done || by apply ix_lt). }
  assert (table_at physical m' p4 (ix <$> is_) = Some q) as Hq'.
  { destruct (table_at_stored m is_ q i (with_flags pf e) HF ltac:(lia) Hf Ho Hq) as (_ & _ & T).
    rewrite table_at_with_rec in T; [done|done|lia|done|by eapply off_app]. }
  unfold Recursive_create_next_table, mbind, M_bind, on_mem. cbn [fst snd].
  unfold vget_entry at 1, mbind, M_bind. mrun.
  rewrite (vread_rec m HF is_ q ltac:(lia) Hq i Hf Ho e Hg). mrun. unfold PageTableEntry_is_unused.
  rewrite (proj2 (Z.eqb_neq _ _)) by done. autorewrite with flags.
  rewrite (proj2 (Z.eqb_neq _ _)) by by apply pf_nonzero. cbn [negb andb]. rewrite <- contains_law.
  destruct (contains (PageTableEntry_flags e) pf) eqn:Ec; cbn [negb]; mrun.
  1: rewrite <- (upd_same m q (ix i) e Hg), <- (contains_with_flags pf Hpf e Ec) at 1; fold m'.
  2: rewrite <- flags_or_law; unfold lift at 1; rewrite set_flags_add by done; fold (with_flags pf e); mrun;
    unfold vput_entry, mbind, M_bind; mrun;
    rewrite (vwrite_rec m HF is_ q ltac:(lia) Hq i Hf Ho); mrun; fold m'.
  all: unfold vget_entry, mbind, M_bind; mrun;
    rewrite (vread_rec m' HF' is_ q ltac:(lia) Hq' i Hf Ho _ Hg'); mrun;
    rewrite contains_HUGE_PAGE; fold (is_huge (with_flags pf e)); rewrite with_flags_huge by done.
  all: destruct Hc as [[? _]|[(-> & -> & _)|[q' Hc]]]; [done|done|]; rewrite Hc;
    destruct (proj1 (child_physical _ _) Hc) as (-> & _);
    (assert (table_at physical m' p4 (ix <$> (is_ ++ [i])) = Some q') as Hn;
      [rewrite fmap_app; cbn [fmap list_fmap]; rewrite (table_at_snoc _ _ _ _ _ q), Hg' by done;
       cbn [mbind option_bind]; by rewrite with_flags_child by (done || by eexists)|]);
    mrun; rewrite <- Hpage, (vtable_rec m' HF' (is_ ++ [i]) q') by (done || apply length_snoc); done.
Qed.
End step.

Lemma flat_create_state m is_ i q e :
  Flat m -> (length is_ < 3)%nat -> table_at physical m p4 (ix <$> is_) = Some q ->
  Forall PageTableIndex_wf (is_ ++ [i]) -> off (is_ ++ [i]) ->
  get (upd m q (ix i) e) p4 (ix r) = Some PageTableEntry_new.
Proof.
  intros HF Hl Hq Hf Ho. destruct (wf_snoc is_ i Hf) as [_ Hi].
  pose proof (slot_off m is_ i q HF ltac:(lia) Hf Ho Hq) as Hs.
  rewrite get_upd, decide_False; [by apply flat_unused|naive_solver| |by apply ix_lt].
  by apply (flat_table m HF is_); [lia|].
Qed.

(** One step of [map_to]: what the specification does, and the same state and
    result here. *)
Lemma create_sim {S} m a is_ i q n page :
  Flat m -> (length is_ < 3)%nat -> table_at physical m p4 (ix <$> is_) = Some q ->
  Forall PageTableIndex_wf (is_ ++ [i]) -> off (is_ ++ [i]) ->
  Supply physical (reachable physical m p4) m (Datatypes.S n) a ->
  rec_page (is_ ++ [i]) = Ret page ->
  exists res m' a', create_next_table physical q i pf (m, a) = Ret (res, (m', a')) /\ Flat m' /\
    Recursive_create_next_table (S := S) (rptr is_) i page pf (with_rec m, a) =
      Ret (match res with Ok _ => Ok (rptr (is_ ++ [i])) | Err x => Err (MapToError_from x) end,
           (with_rec m', a')) /\
    match res with
    | Ok q' => table_at physical m' p4 (ix <$> (is_ ++ [i])) = Some q' /\
        Supply physical (reachable physical m' p4) m' n a'
    | Err _ => True
    end.
Proof.
  intros HF Hl Hq Hf Ho HS Hpage. destruct (wf_snoc is_ i Hf) as [_ Hi].
  pose proof (flat_table m HF is_ q ltac:(lia) Hq) as Ht.
  destruct (create_step physical pf Hpf m a p4 (ix <$> is_) q i n (flat_valid _ HF) Hq
    ltac:(by rewrite length_fmap) Hi HS) as (res & m' & a' & E & HV & Hres).
  destruct (get_is_Some m q (ix i) Ht (ix_lt i Hi)) as (e & Hg & _).
  destruct (checked_entry m is_ q i e HF Hl Hq Hg) as [He Hc].
  exists res, m', a'. split; [done|].
  destruct (decide (entry e = 0)) as [Hz|Hz].
  - destruct (allocate_frame a) as [[f|] b] eqn:Ea.
    + pose proof HS as HS'. simpl in HS'. rewrite Ea in HS'. destruct HS' as (Hfr & qn & Hqn & Htn & Hn & _).
      assert (qn <> p4) as Hn4 by (intros ->; apply Hn; exists []; split; [simpl; lia|done]).
      assert (qn <> q) as Hnq.
      { intros ->. apply Hn. exists (ix <$> is_). split; [rewrite length_fmap; lia|done]. }
      rewrite (create_fresh physical pf Hpf m a q i e Ht Hi Hg f b qn) in E by done.
      injection E as <- <- <-. split; [split; [done|]|split].
      * rewrite get_insert_table, decide_False by done. by apply (flat_create_state m is_).
      * by apply (rec_create_fresh m a is_ i q page HF Hl Hq Hf Ho Hpage e).
      * rewrite fmap_app. by destruct Hres as (? & _ & ?).
    + rewrite (create_alloc_failed physical pf m a q i e Hi Hg b) in E by done.
      injection E as <- <- <-. split_and!; [done| |done].
      by apply (rec_create_failed m a is_ i q page HF Hl Hq Hf Ho e).
  - assert (walkable physical m e) as Hw.
    { apply (valid_walkable physical m p4 (ix <$> is_) q (ix i)); try done; [apply HF|by rewrite length_fmap]. }
    assert (is_huge e = true \/ is_Some (child physical e)) as Hc'.
    { destruct Hc as [[? _]|[(? & _)|?]]; [done|by left|by right]. }
    rewrite (create_existing physical pf Hpf m a q i e Ht Hi Hg) in E by done.
    injection E as <- <- <-.
    assert (Flat (upd m q (ix i) (with_flags pf e))) as HF'.
    { split; [done|by apply (flat_create_state m is_)]. }
    split; [done|]. split.
    + rewrite (rec_create_existing m a is_ i q page HF Hl Hq Hf Ho Hpage e) by done.
      by destruct (child physical e).
    + destruct (child physical e); [|done]. rewrite fmap_app. by destruct Hres as (? & _ & ?).
Qed.

(** Chains of such steps, and the end of [map_to]. *)
Fixpoint rec_create_chain {S X} (pre : list PageTableIndex) (p : Z) (is_ : list PageTableIndex)
    (k : Z -> M (Mem * A) (MapToError S) X) : M (Mem * A) (MapToError S) X :=
  match is_ with
  | [] => k p
  | i :: is_ =>
      page ← lift (rec_page (pre ++ [i]));
      q ← Recursive_create_next_table p i page pf;
      rec_create_chain (pre ++ [i]) q is_ k
  end.

Definition rec_map_to_tail {S} (page : Page S) (frame : PhysFrame S) (flags : Z) (p : Z)
    : M (Mem * A) (MapToError S) (MapperFlush S) :=
  e ← on_mem (vget_entry p (page_last page));
  if negb (PageTableEntry_is_unused e) then throw (MapPageAlreadyMapped frame)
  else
    e' ← lift (PageTableEntry_set_addr e (PhysFrame_start_address frame)
           match S with Size4KiB => flags | _ => flags_or flags PageTableFlags_HUGE_PAGE end);
    _ ← on_mem (vput_entry p (page_last page) e');
    mret (MapperFlush_new page).

Lemma rec_map_to_chain {S} (page : Page S) frame flags :
  map_to_with_table_flags (A := A) rec_mapper page frame flags pf =
    rec_create_chain [] (rptr []) (page_parents page) (rec_map_to_tail page frame flags).
Proof. by destruct S. Qed.

Definition with_rec_alloc (s : Mem * A) : Mem * A := (with_rec (fst s), snd s).

Lemma rec_create_chain_run {S X} (k k' : Z -> M (Mem * A) (MapToError S) X) m a pre q is_ :
  Flat m -> (length pre + length is_ <= 3)%nat -> table_at physical m p4 (ix <$> pre) = Some q ->
  Forall PageTableIndex_wf (pre ++ is_) -> off (pre ++ is_) ->
  Supply physical (reachable physical m p4) m (length is_) a ->
  (forall q' m' a', Flat m' -> table_at physical m' p4 (ix <$> (pre ++ is_)) = Some q' ->
     sim with_rec_alloc (k (rptr (pre ++ is_))) (k' q') (m', a')) ->
  sim with_rec_alloc (rec_create_chain pre (rptr pre) is_ k)
    (chain_create physical pf MapToError_from q is_ k') (m, a).
Proof.
  revert m a pre q. induction is_ as [|i is_ IH]; intros m a pre q HF Hl Hq Hf Ho HS Hk.
  { rewrite app_nil_r in Hk. by apply Hk. }
  cbn [length] in Hl, HS.
  replace (pre ++ i :: is_) with ((pre ++ [i]) ++ is_) in * by by rewrite <- app_assoc.
  assert (Forall PageTableIndex_wf (pre ++ [i]) /\ off (pre ++ [i])) as [Hf' Ho'].
  { split; [by apply Forall_app in Hf as [? _]|by eapply off_app]. }
  destruct (rec_page_spec (pre ++ [i]) Hf') as (page & Ep & _); [rewrite length_app; simpl; lia|].
  destruct (create_sim (S := S) m a pre i q (length is_) page HF ltac:(lia) Hq Hf' Ho' HS Ep)
    as (res & m' & a' & E & HF' & Er & Hres).
  unfold sim. cbn [rec_create_chain chain_create]. unfold mbind, M_bind, map_err.
  rewrite Ep, E. mrun. unfold with_rec_alloc at 1. cbn [fst snd]. rewrite Er.
  destruct res as [q'|x]; [|done]. apply IH; try done; [rewrite length_app; simpl; lia|..]; apply Hres.
Qed.

(** The specification's chain keeps the hierarchy flat if its end does. *)
Lemma create_chain_flat {S X} (k' : Z -> M (Mem * A) (MapToError S) X) m a pre q is_ x m'' a'' :
  Flat m -> (length pre + length is_ <= 3)%nat -> table_at physical m p4 (ix <$> pre) = Some q ->
  Forall PageTableIndex_wf (pre ++ is_) -> off (pre ++ is_) ->
  Supply physical (reachable physical m p4) m (length is_) a ->
  (forall q' m' a', Flat m' -> table_at physical m' p4 (ix <$> (pre ++ is_)) = Some q' ->
     k' q' (m', a') = Ret (x, (m'', a'')) -> Flat m'') ->
  chain_create physical pf MapToError_from q is_ k' (m, a) = Ret (x, (m'', a'')) -> Flat m''.
Proof.
  revert m a pre q. induction is_ as [|i is_ IH]; intros m a pre q HF Hl Hq Hf Ho HS Hk.
  { rewrite app_nil_r in Hk. by apply Hk. }
  cbn [length] in Hl, HS.
  replace (pre ++ i :: is_) with ((pre ++ [i]) ++ is_) in * by by rewrite <- app_assoc.
  assert (Forall PageTableIndex_wf (pre ++ [i]) /\ off (pre ++ [i])) as [Hf' Ho'].
  { split; [by apply Forall_app in Hf as [? _]|by eapply off_app]. }
  destruct (rec_page_spec (pre ++ [i]) Hf') as (page & Ep & _); [rewrite length_app; simpl; lia|].
  destruct (create_sim (S := S) m a pre i q (length is_) page HF ltac:(lia) Hq Hf' Ho' HS Ep)
    as (res & m' & a' & E & HF' & _ & Hres).
  cbn [chain_create]. unfold mbind, M_bind, map_err. rewrite E.
  destruct res as [q'|y]; [|by intros [= _ <- _]].
  apply (IH m' a' (pre ++ [i]) q'); try done; [rewrite length_app; simpl; lia|..]; apply Hres.
Qed.

Lemma sim_on_mem {E X} (c d : M Mem E X) m a :
  sim with_rec c d m -> sim with_rec_alloc (on_mem c) (on_mem d) (m, a).
Proof. unfold sim, on_mem, with_rec_alloc. cbn [fst snd]. intros ->. by destruct (d m) as [[]| |]. Qed.

Lemma map_to_sim {S} m a (page : Page S) frame flags :
  Flat m -> Page_wf page -> Page_p4_index page <> r ->
  Supply physical (reachable physical m p4) m 3 a ->
  sim with_rec_alloc (map_to_with_table_flags rec_mapper page frame flags pf)
    (map_to_with_table_flags flat page frame flags pf) (m, a).
Proof.
  intros HF Hp Hoff HS. rewrite rec_map_to_chain, map_to_chain.
  pose proof (parents_length page) as Hl.
  apply (rec_create_chain_run _ _ m a [] p4); try done.
  - by apply page_parents_wf.
  - by apply parents_off.
  - by eapply Supply_le.
  - intros q m' a' HF' Hq. unfold rec_map_to_tail, map_to_tail.
    apply sim_bind; [apply sim_on_mem; by apply sim_page_get|]. intros e s' E.
    assert (s' = (m', a')) as ->.
    { revert E. unfold on_mem. cbn [fst snd].
      destruct (get_entry q (page_last page) m') as [[x m'']| |] eqn:E'; [|done..].
      apply get_entry_state in E' as ->. by intros [= _ <-]. }
    sim_step; [apply sim_throw|]. sim_step.
    apply sim_bind; [apply sim_on_mem; by apply sim_page_put|]. intros. apply sim_ret.
Qed.
End create.
End recursive.
