(* ===== verification/RecursiveCleanUp.v ===== *)
(** * Clean-up of the recursive page table

    [clean_up] and [clean_up_addr_range] of the recursive mapper do what the
    mapped page table does on the hierarchy without its recursive entry: the
    filter on the recursive index skips exactly that entry, and the pointers
    computed from the page range lead to the tables of the walk. *)
From Stdlib Require Import ZArith Lia Bool.
From stdpp Require Import base decidable option list gmap numbers.
From S2P Require Import Prelude Crates Index Addr Page Frame PageTable Mapper.
From S2P Require Import MappedPageTable PageWalk MapperSpec MapperCreate MapperProofs.
From S2P Require Import CleanUp CleanUpFull RecursivePageTable RecursiveProofs.
#[local] Open Scope Z_scope.
#[local] Existing Instance physical_mapping.

(** ** Page ranges inside of a table *)
Definition nat_index (i : nat) : PageTableIndex := mkPageTableIndex (Z.of_nat i).

(** The first page of the range lies below the table at the path. *)
Definition range_at (is_ : list PageTableIndex) (range : PageRangeInclusive Size4KiB) : Prop :=
  page_position (pri_start range) / span_pages (length is_) = path_number (ix <$> is_).

Lemma span_pages_S d : (d <= 3)%nat -> span_pages d = 512 * span_pages (S d) /\ 0 < span_pages (S d).
Proof. intros Hd. destruct d as [|[|[|[|]]]]; [done..|lia]. Qed.

(** The range of the recursive call lies below the table of entry [i]. *)
Lemma sub_range_at is_ range i :
  range_wf range -> range_at is_ range -> (length is_ < 3)%nat -> (i < 512)%nat ->
  (Z.to_nat (pti (Page_page_table_index (pri_start range) (level_at (length is_)))) <= i)%nat ->
  range_at (is_ ++ [nat_index i]) (sub_range (level_at (length is_)) range i).
Proof.
  intros [Hs He] Hat Hl Hi Hix. unfold range_at in *.
  destruct (page_wf_at _ Hs) as (s & Rs & Es). unfold sub_range. rewrite Es in *.
  rewrite page_position_at in Hat by done.
  rewrite page_at_level_index in Hix by (done || lia).
  assert (length (is_ ++ [nat_index i]) = S (length is_)) as El by (rewrite length_app; simpl; lia).
  rewrite El, fmap_app. cbn [fmap list_fmap]. rewrite path_number_snoc. unfold Page_range_inclusive. cbn [pri_start].
  assert (ix (nat_index i) = i) as -> by by apply index_of_nat.
  assert (position (Page_start_address (page_at s : Page Size4KiB)) = s * 4096) as Ep.
  { unfold Page_start_address, page_at. cbn [page_start]. apply position_of_position.
    change (page_count Size4KiB) with (2 ^ 36) in Rs. change (SIZE Size4KiB) with 4096. lia. }
  unfold table_base. rewrite Ep.
  destruct (span_pages_S (length is_)) as [Ek Hk]; [lia|].
  assert (table_span (level_at (length is_)) = span_pages (length is_) * 4096 /\
    entry_span (level_at (length is_)) = span_pages (S (length is_)) * 4096 /\
    span_pages (S (length is_)) = 2 ^ (9 * (3 - Z.of_nat (length is_)))) as (Et & Ee & Es').
  { destruct (length is_) as [|[|[|]]]; [done|done|done|lia]. }
  rewrite <- Es' in Hix. rewrite Et, Ee, Z.div_mul_cancel_r, Hat by lia.
  set (c := path_number (ix <$> is_)) in *. set (k := span_pages (S (length is_))) in *.
  rewrite Ek in *.
  replace ((c * (512 * k * 4096) + k * 4096 * Z.of_nat i) / 4096) with ((c * 512 + Z.of_nat i) * k)
    by (apply Z.div_unique with 0; lia).
  assert (s / k = c * 512 + s / k mod 512) as Hsk.
  { rewrite <- Hat, (Z.mul_comm 512), <- Z.div_div by lia. pose proof (Z.div_mod (s / k) 512). lia. }
  assert (0 <= s / k mod 512 <= Z.of_nat i) as Hm by (pose proof (Z.mod_pos_bound (s / k) 512); lia).
  assert (0 <= (c * 512 + Z.of_nat i) * k < page_count Size4KiB) as Hr.
  { change (page_count Size4KiB) with (2 ^ 36) in *.
    assert (0 <= c /\ c * (512 * k) <= s) as [Hc0 Hc1].
    { rewrite <- Hat. split; [apply Z.div_pos; lia|]. rewrite Z.mul_comm. apply Z.mul_div_le. lia. }
    assert (2 ^ 36 = 2 ^ (9 * Z.of_nat (length is_)) * (512 * k)) as Hp.
    { unfold k. destruct (length is_) as [|[|[|]]]; [done|done|done|lia]. }
    assert (c < 2 ^ (9 * Z.of_nat (length is_))) by nia. nia. }
  unfold Page_max. rewrite page_at_ltb by done.
  destruct (Z.ltb_spec s ((c * 512 + Z.of_nat i) * k)).
  - rewrite page_position_at by done. by rewrite Z.div_mul by lia.
  - rewrite page_position_at by done.
    assert (c * 512 + Z.of_nat i <= s / k) by (apply Z.div_le_lower_bound; lia). lia.
Qed.

(** The pointer that the code computes from the first page of the range. *)
Lemma next_table_ptr_at is_ (p : Page Size4KiB) r :
  Page_wf p -> Forall PageTableIndex_wf is_ -> (1 <= length is_ <= 3)%nat ->
  page_position p / span_pages (length is_) = path_number (ix <$> is_) ->
  next_table_ptr (level_at (pred (length is_))) p r = page_ptr (rec_page r is_).
Proof.
  intros Hp Hf Hl Hat. destruct (page_wf_at p Hp) as (n & Rn & ->).
  rewrite page_position_at in Hat by done. change (page_count Size4KiB) with (2 ^ 36) in Rn.
  destruct (page_at_4kib_index n Rn) as (_ & E2 & E3 & E4).
  destruct is_ as [|a [|b [|c [|]]]]; simpl in Hl; try lia;
    repeat (apply Forall_cons_iff in Hf as [? Hf]); unfold PageTableIndex_wf, ENTRY_COUNT in *;
    unfold path_number, span_pages, ix in Hat; cbn [length Z.of_nat Pos.of_succ_nat Pos.succ fmap list_fmap
      foldl Z.sub Z.mul Z.pos_sub Z.opp Z.add] in Hat.
  - change (next_table_ptr _ _ _) with (page_ptr (Page_from_page_table_indices r r r (Page_p4_index (page_at n : Page Size4KiB)))).
    replace (Page_p4_index (page_at n : Page Size4KiB)) with a; [done|]. apply index_ext. rewrite E4. mlia.
  - change (next_table_ptr _ _ _) with (page_ptr (Page_from_page_table_indices r r
      (Page_p4_index (page_at n : Page Size4KiB)) (Page_p3_index (page_at n : Page Size4KiB)))).
    replace (Page_p4_index (page_at n : Page Size4KiB)) with a by (apply index_ext; rewrite E4; mlia).
    replace (Page_p3_index (page_at n : Page Size4KiB)) with b by (apply index_ext; rewrite E3; mlia). done.
  - change (next_table_ptr _ _ _) with (page_ptr (Page_from_page_table_indices r
      (Page_p4_index (page_at n : Page Size4KiB)) (Page_p3_index (page_at n : Page Size4KiB))
      (Page_p2_index (page_at n : Page Size4KiB)))).
    replace (Page_p4_index (page_at n : Page Size4KiB)) with a by (apply index_ext; rewrite E4; mlia).
    replace (Page_p3_index (page_at n : Page Size4KiB)) with b by (apply index_ext; rewrite E3; mlia).
    replace (Page_p2_index (page_at n : Page Size4KiB)) with c by (apply index_ext; rewrite E2; mlia). done.
Qed.

(** ** Simulation *)
Section recursive.
Context `{BFL : BitFieldLaws} `{Target} (H64 : usize_bits = 64).
Context `{C : MMU} {ML : MMULaws C} `{BL : BitflagsLaws}.
Context (r : PageTableIndex) (er : PageTableEntry) {RE : RecursiveEntry r er}.
Context {D : Type} `{FrameDeallocator D Size4KiB}.
#[local] Abbreviation p4 := (pa (frame_start cr3_frame)).
#[local] Abbreviation Flat := (Flat r).

(** A call of the inner [clean_up] for the table at [is_]: same memory up to
    the recursive entry, same frees, same answer below level 4. *)
Definition sim_cleans
    (call rcall : Z -> PageRangeInclusive Size4KiB -> Mem * D -> outcome (bool * (Mem * D)))
    (is_ : list PageTableIndex) : Prop :=
  forall m d q range, Flat m -> table_at physical m p4 (ix <$> is_) = Some q -> range_wf range ->
    range_at is_ range ->
    exists b b' m' d', call q range (m, d) = Ret (b, (m', d')) /\
      rcall (rptr r is_) range (with_rec r er m, d) = Ret (b', (with_rec r er m', d')) /\
      (is_ <> [] -> b' = b) /\ Flat m'.

Section entry.
Context (call rcall : Z -> PageRangeInclusive Size4KiB -> Mem * D -> outcome (bool * (Mem * D))).
Context (m : Mem) (d : D) (is_ : list PageTableIndex) (q : Z) (i : nat)
  (range : PageRangeInclusive Size4KiB).
Context (HF : Flat m) (Hl : (length is_ < 3)%nat) (Hi : (i < 512)%nat).
Context (Hq : table_at physical m p4 (ix <$> is_) = Some q).
Context (Hf : Forall PageTableIndex_wf is_) (Ho : off r (is_ ++ [nat_index i])).
Context (Hr : range_wf range) (Hat : range_at is_ range).
Context (Hix : (Z.to_nat (pti (Page_page_table_index (pri_start range) (level_at (length is_)))) <= i)%nat).
#[local] Abbreviation l := (level_at (length is_)).
#[local] Abbreviation taddr := (of_position (table_base l (Page_start_address (pri_start range)))).

Lemma nat_index_wf : Forall PageTableIndex_wf (is_ ++ [nat_index i]) /\ ix (nat_index i) = i.
Proof.
  destruct (index_of_nat i Hi) as [Hw Hn]. split; [|done]. apply Forall_app. split; [done|].
  by constructor.
Qed.

(** The recursive version of the loop body, evaluated up to the recursive call. *)
Lemma rec_clean_up_entry_eval e :
  get m q i = Some e ->
  Recursive_clean_up_entry rcall r l (rptr r is_) taddr (entry_address_space_alignment l) range i
      (with_rec r er m, d) =
    match child physical e with
    | None => Ret (with_rec r er m, d)
    | Some _ =>
        '(empty, s) ← rcall (rptr r (is_ ++ [nat_index i])) (sub_range l range i) (with_rec r er m, d);
        if empty : bool then
          e' ← vread_entry (fst s) (rptr r is_) (nat_index i);
          m ← vwrite_entry (fst s) (rptr r is_) (nat_index i) (PageTableEntry_set_unused e');
          Ret (m, deallocate_frame (entry_frame e) (snd s))
        else Ret s
    end.
Proof.
  intros Hg. destruct nat_index_wf as [Hf' Hn]. rewrite <- Hn in Hg.
  destruct (checked_entry r m is_ q _ e HF Hl Hq Hg) as [He Hc].
  unfold Recursive_clean_up_entry. fold (nat_index i). cbn [fst snd]. cbv zeta.
  rewrite (vread_rec r er m HF is_ q ltac:(lia) Hq _ Hf' Ho e Hg). cbn [mbind outcome_bind].
  rewrite contains_HUGE_PAGE. fold (is_huge e). rewrite PageTableEntry_frame_val by done.
  fold (is_present e). fold (entry_frame e).
  destruct Hc as [[E0 ->]|[(E1 & -> & _)|[q' Hc]]].
  { unfold is_huge, is_present. by rewrite E0. }
  { by rewrite E1. }
  assert (table_at physical m p4 (ix <$> (is_ ++ [nat_index i])) = Some q') as Hq'.
  { rewrite fmap_app. cbn [fmap list_fmap]. by rewrite (table_at_snoc _ _ _ _ _ q), Hg. }
  rewrite Hc. destruct (proj1 (child_physical _ _) Hc) as (-> & -> & _). cbn [mbind outcome_bind].
  destruct Hr as [Hs He'].
  set (a := Page_start_address (pri_start range)). assert (canonical a) as Ha by apply Hs.
  destruct (next_level_at (length is_) Hl) as [_ Hl1].
  destruct (entry_pages l a i Ha Hi Hl1) as (Hf1 & Hf2 & Hf3).
  destruct (entry_addr_range H64 l a i Ha Hi Hl1) as (E1 & E2 & E3 & _).
  pose proof (sub_range_at is_ range i Hr Hat Hl Hi Hix) as Hsub.
  assert (Page_wf (pri_start (sub_range l range i))) as Hps.
  { unfold sub_range, Page_range_inclusive. fold a. cbn [pri_start].
    destruct (containing_position (table_base l a + entry_span l * Z.of_nat i) ltac:(lia)) as [_ W1].
    unfold Page_max. by destruct (Page_ltb _ _). }
  rewrite (proj2 (table_alignment_val l)), E1. cbn [mbind outcome_bind]. rewrite E2.
  cbn [unwrap mbind outcome_bind].
  rewrite (arith_in_range 64) by (destruct (length is_) as [|[|[|]]]; split; vm_compute; done || lia).
  cbn [mbind outcome_bind]. rewrite E3. cbn [mbind outcome_bind].
  set (first := table_base l a + entry_span l * Z.of_nat i) in *.
  destruct (containing_position first ltac:(lia)) as [-> W1].
  destruct (containing_position (first + (entry_span l - 1)) ltac:(lia)) as [-> W2].
  cbn [mbind outcome_bind].
  change (Page_max (page_at (first / 4096)) (pri_start range)) with (pri_start (sub_range l range i)).
  assert (length (is_ ++ [nat_index i]) = S (length is_)) as El by (rewrite length_app; simpl; lia).
  pose proof (next_table_ptr_at (is_ ++ [nat_index i]) _ r Hps Hf' ltac:(lia) Hsub) as En.
  rewrite El in En. cbn [pred] in En. rewrite En, (page_ptr_rec r er) by (done || lia). cbn [mbind outcome_bind].
  destruct (vderef_rec r er m HF (is_ ++ [nat_index i]) q' ltac:(lia) Hq' Hf' Ho) as [t ->].
  done.
Qed.

(** One iteration of the loop. *)
Lemma clean_up_entry_sim :
  cleans flat call (ix <$> (is_ ++ [nat_index i])) -> sim_cleans call rcall (is_ ++ [nat_index i]) ->
  exists m' d', clean_up_entry call physical q taddr (entry_address_space_alignment l) range i (m, d) =
      Ret (m', d') /\
    Recursive_clean_up_entry rcall r l (rptr r is_) taddr (entry_address_space_alignment l) range i
      (with_rec r er m, d) = Ret (with_rec r er m', d') /\
    Flat m' /\ table_at physical m' p4 (ix <$> is_) = Some q.
Proof.
  intros Hcl Hsim. destruct nat_index_wf as [Hf' Hn].
  pose proof (flat_table r m HF is_ q ltac:(lia) Hq) as Ht.
  destruct (get_is_Some m q i Ht Hi) as (e & Hg & _).
  assert (l = level_at (length (ix <$> is_))) as El by by rewrite length_fmap.
  destruct (clean_up_entry_eval H64 flat call (ix <$> is_) m d q range i e) as [Hsr Ev];
    [apply HF|done|by rewrite length_fmap|done|done|done|].
  rewrite <- El in Ev, Hsr. rewrite (rec_clean_up_entry_eval e) by done.
  change (page_table_walker flat) with physical in Ev. rewrite Ev.
  destruct (child physical e) as [q'|] eqn:Ec; [|by exists m, d].
  assert (table_at physical m p4 (ix <$> (is_ ++ [nat_index i])) = Some q') as Hq'.
  { rewrite fmap_app. cbn [fmap list_fmap]. rewrite Hn. by rewrite (table_at_snoc _ _ _ _ _ q), Hg. }
  destruct (Hsim m d q' _ HF Hq' Hsr) as (b & b' & m1 & d1 & E1 & E2 & Hb' & HF1).
  { by apply sub_range_at. }
  destruct (Hcl m d q' _ (flat_valid _ _ HF) Hq' Hsr) as (b0 & m0 & fs & E0 & HC & Hb0).
  rewrite E1 in E0. injection E0 as <- <- Ed. rewrite E1, E2, Hb' by (by destruct is_).
  cbn [mbind outcome_bind fst snd].
  rewrite fmap_app in HC, Hq'. cbn [fmap list_fmap] in HC, Hq'. rewrite Hn in HC, Hq'.
  assert (table_at physical m1 p4 (ix <$> is_) = Some q) as Hq1.
  { rewrite (cl_keep _ _ _ _ _ HC); [done|rewrite length_fmap; lia|]. intros j [k E%(f_equal length)].
    rewrite !length_app in E. simpl in E. lia. }
  destruct b; [|by exists m1, d1].
  destruct (unlink_eval flat (ix <$> is_) i m m1 fs d1 q q') as (f & Eu & _ & _ & HC' & Hfp);
    [done|by rewrite length_fmap|done|done|done|by apply Hb0|].
  assert (f = entry_frame e) as ->.
  { apply frame_ext. apply child_pointer in Ec. unfold frame_to_pointer, physical_mapping in *.
    congruence. }
  exists (upd m1 q i PageTableEntry_new), (deallocate_frame (entry_frame e) d1).
  split; [exact Eu|]. split_and!.
  - destruct (get_is_Some m1 q i) as (e1 & Hg1 & _); [|done|].
    { by apply (flat_table r m1 HF1 is_); [lia|]. }
    rewrite <- Hn in Hg1.
    rewrite (vread_rec r er m1 HF1 is_ q ltac:(lia) Hq1 _ Hf' Ho e1 Hg1). cbn [mbind outcome_bind].
    rewrite (vwrite_rec r er m1 HF1 is_ q ltac:(lia) Hq1 _ Hf' Ho). cbn [mbind outcome_bind].
    by rewrite Hn.
  - split; [apply (cl_valid _ _ _ _ _ HC')|]. rewrite <- Hn.
    by apply (flat_create_state r er m1 is_ (nat_index i) q).
  - rewrite (cl_keep _ _ _ _ _ HC'); [done|rewrite length_fmap; lia|]. intros j. apply not_prefix_self.
Qed.
End entry.

(** The loop: the filter drops only an entry that the specification skips. *)
Lemma clean_up_entries_sim (body rbody : nat -> Mem * D -> outcome (Mem * D)) is_ q keep js m d :
  (forall m d i, In i js -> Flat m -> table_at physical m p4 (ix <$> is_) = Some q ->
     if keep i : bool then
       exists m' d', body i (m, d) = Ret (m', d') /\
         rbody i (with_rec r er m, d) = Ret (with_rec r er m', d') /\ Flat m' /\
         table_at physical m' p4 (ix <$> is_) = Some q
     else body i (m, d) = Ret (m, d)) ->
  Flat m -> table_at physical m p4 (ix <$> is_) = Some q ->
  exists m' d', clean_up_entries body js (m, d) = Ret (m', d') /\
    clean_up_entries rbody (List.filter keep js) (with_rec r er m, d) = Ret (with_rec r er m', d') /\
    Flat m' /\ table_at physical m' p4 (ix <$> is_) = Some q.
Proof.
  revert m d. induction js as [|i js IH]; intros m d Hbody HF Hq; [by exists m, d|].
  pose proof (fun m d j Hj => Hbody m d j (or_intror Hj)) as Hrest.
  pose proof (Hbody m d i (or_introl eq_refl) HF Hq) as Hi. cbn [List.filter clean_up_entries].
  destruct (keep i); cbn [clean_up_entries].
  - destruct Hi as (m1 & d1 & -> & -> & HF1 & Hq1). cbn [mbind outcome_bind]. by apply IH.
  - rewrite Hi. cbn [mbind outcome_bind]. by apply IH.
Qed.

(** The table as seen by the last line of the inner [clean_up]. *)
Lemma vderef_with_rec m is_ q :
  Flat m -> (length is_ <= 3)%nat -> Forall PageTableIndex_wf is_ -> off r is_ ->
  table_at physical m p4 (ix <$> is_) = Some q ->
  exists t t', deref m q = Ret t /\ vderef (with_rec r er m) (rptr r is_) = Ret t' /\
    (is_ <> [] -> t' = t).
Proof.
  intros HF Hl Hf Ho Hq. destruct (flat_table r m HF is_ q Hl Hq) as (t & Et & _).
  destruct (vderef_rec r er m HF is_ q Hl Hq Hf Ho) as [t' Et'].
  exists t, t'. unfold deref at 1. rewrite Et. split_and!; [done|done|]. intros Hn.
  unfold vderef in Et'. rewrite (translate_rec r er m HF is_ q Hl Hq Hf Ho) in Et'.
  cbn [mbind outcome_bind] in Et'. unfold deref, with_rec, upd in Et'.
  assert (q <> p4) as Hne.
  { intros ->. apply Hn. apply (fmap_nil_inv ix).
    apply (valid_tree _ _ _ (flat_valid _ _ HF) _ _ p4); try done; [by rewrite length_fmap|simpl; lia]. }
  destruct (m !! p4); [rewrite lookup_insert_ne in Et' by done|]; rewrite Et in Et'; congruence.
Qed.

(** The recursive entry is the only one the filter drops. *)
Lemma kept_off is_ i :
  (i < 512)%nat -> off r is_ -> not_recursive r (level_at (length is_)) i = true ->
  off r (is_ ++ [nat_index i]).
Proof.
  intros Hi Ho Hk. destruct is_ as [|j is_]; [|done]. cbn. intros Ei.
  unfold not_recursive in Hk. cbn [length level_at] in Hk. rewrite bool_decide_true in Hk by done.
  rewrite <- Ei in Hk. cbn [pti nat_index] in Hk. by rewrite Z.eqb_refl in Hk.
Qed.

Lemma dropped_entry is_ i m d q range (call : Z -> PageRangeInclusive Size4KiB -> Mem * D -> outcome (bool * (Mem * D))) :
  Flat m -> table_at physical m p4 (ix <$> is_) = Some q -> (length is_ < 3)%nat -> (i < 512)%nat ->
  range_wf range -> not_recursive r (level_at (length is_)) i = false ->
  clean_up_entry call physical q
    (of_position (table_base (level_at (length is_)) (Page_start_address (pri_start range))))
    (entry_address_space_alignment (level_at (length is_))) range i (m, d) = Ret (m, d).
Proof.
  intros HF Hq Hl Hi Hr Hk. unfold not_recursive in Hk.
  apply negb_false_iff, andb_true_iff in Hk as [H4%bool_decide_eq_true Hir%Z.eqb_eq].
  destruct is_ as [|j is_]; [|destruct is_ as [|? [|]]; simpl in H4, Hl; done || lia].
  cbn in Hq. simplify_eq.
  assert (i = ix r) as -> by (unfold ix; lia).
  destruct (clean_up_entry_eval H64 flat call [] m d p4 range (ix r) PageTableEntry_new) as [_ E];
    [apply HF|done|simpl; lia|done|done|apply HF|].
  exact E.
Qed.

Lemma clean_up_table_sim fuel is_ :
  (length is_ <= 3)%nat -> (4 - length is_ <= fuel)%nat -> Forall PageTableIndex_wf is_ -> off r is_ ->
  sim_cleans (fun p rg s => clean_up_table fuel physical p (level_at (length is_)) rg s)
    (fun p rg s => Recursive_clean_up_table fuel r p (level_at (length is_)) rg s) is_.
Proof.
  revert is_. induction fuel as [|fuel IH]; intros is_ Hl Hfuel Hf Ho; [lia|].
  intros m d q range HF Hq Hr Hat. pose proof Hr as [Hs He].
  cbn [clean_up_table Recursive_clean_up_table].
  destruct (PageRangeInclusive_is_empty range); [by exists false, false, m, d|].
  rewrite table_addr_val by apply Hs. cbn [mbind outcome_bind].
  set (js := seq _ _). set (taddr := of_position _).
  assert (exists m' d',
    match next_lower_level (level_at (length is_)) with
    | Some next_level => clean_up_entries
        (clean_up_entry (fun p' r s => clean_up_table fuel physical p' next_level r s) physical q
          taddr (entry_address_space_alignment (level_at (length is_))) range) js (m, d)
    | None => Ret (m, d)
    end = Ret (m', d') /\
    match next_lower_level (level_at (length is_)) with
    | Some next_level => clean_up_entries
        (Recursive_clean_up_entry (fun p' rg s => Recursive_clean_up_table fuel r p' next_level rg s) r
          (level_at (length is_)) (rptr r is_) taddr
          (entry_address_space_alignment (level_at (length is_))) range)
        (List.filter (not_recursive r (level_at (length is_))) js) (with_rec r er m, d)
    | None => Ret (with_rec r er m, d)
    end = Ret (with_rec r er m', d') /\ Flat m' /\ table_at physical m' p4 (ix <$> is_) = Some q)
    as (m' & d' & -> & -> & HF' & Hq').
  { destruct (decide (length is_ < 3)%nat) as [Hl3|Hl3].
    2: { exists m, d. replace (length is_) with 3%nat by lia. done. }
    rewrite (proj1 (next_level_at (length is_) Hl3)).
    apply clean_up_entries_sim; [|done|done]. intros m0 d0 i Hi HF0 Hq0. apply in_seq in Hi.
    pose proof (PageTableIndex_new_truncate_wf
      (wrap 16 (Z.shiftr (Z.shiftr (va (page_start (pri_end range))) 12)
        ((level_u8 (level_at (length is_)) - 1) * 9)))) as Hw.
    change (PageTableIndex_wf (Page_page_table_index (pri_end range) (level_at (length is_)))) in Hw.
    unfold PageTableIndex_wf, ENTRY_COUNT in Hw.
    assert (i < 512)%nat as Hi512 by lia.
    destruct (not_recursive r (level_at (length is_)) i) eqn:Hk; [|by apply dropped_entry].
    pose proof (kept_off is_ i Hi512 Ho Hk) as Ho'.
    destruct (nat_index_wf is_ i Hi512 Hf) as [Hf' _].
    assert (length (is_ ++ [nat_index i]) = Datatypes.S (length is_)) as El
      by (rewrite length_app; simpl; lia).
    apply (clean_up_entry_sim _ _ m0 d0 is_ q i range); try done; [lia| |].
    - rewrite <- El, <- (length_fmap ix).
      apply (clean_up_table_run H64 flat fuel (ix <$> (is_ ++ [nat_index i]))); rewrite length_fmap; lia.
    - rewrite <- El. apply IH; done || lia. }
  cbn [mbind outcome_bind fst].
  destruct (vderef_with_rec m' is_ q HF' Hl Hf Ho Hq') as (t & t' & -> & -> & Ht).
  cbn [mbind outcome_bind]. exists (PageTable_is_empty t), (PageTable_is_empty t'), m', d'.
  split_and!; [done|done| |done]. intros Hn. by rewrite Ht.
Qed.

Lemma clean_up_sim m d (range : PageRangeInclusive Size4KiB) :
  Flat m -> range_wf range ->
  exists m' d', clean_up_addr_range flat range (m, d) = Ret (m', d') /\
    clean_up_addr_range (rec_mapper r) range (with_rec r er m, d) = Ret (with_rec r er m', d') /\
    Flat m'.
Proof.
  intros HF Hr.
  destruct (clean_up_table_sim 4 [] ltac:(simpl; lia) ltac:(simpl; lia)) with (m := m) (d := d) (q := p4)
    (range := range) as (b & b' & m' & d' & E & E' & _ & HF'); try done.
  { unfold range_at. cbn [length fmap list_fmap]. change (path_number []) with 0.
    destruct (page_position_val (pri_start range) (proj1 Hr)) as [_ Hpos].
    apply Z.div_small. exact Hpos. }
  exists m', d'. cbn [length level_at] in E, E'.
  unfold clean_up_addr_range, MappedPageTable_CleanUp, RecursivePageTable_CleanUp,
    MappedPageTable_clean_up_addr_range, Recursive_clean_up_addr_range.
  change (page_table_walker flat) with physical. change (level_4_table flat) with p4.
  rewrite E. unfold RecursivePageTable_level_4_table_mut. cbn [rec_mapper recursive_index rpt_p4].
  by rewrite E'.
Qed.
End recursive.
