(* ===== verification/RecursiveTheorems.v ===== *)
(** * What the recursive page table guarantees

    The operations as a labelled transition system, the simulation of every
    run of the recursive mapper by its specification, the constructor, and
    what happens where the code does not check for huge pages; then a concrete
    recursive hierarchy in which the theorems apply. *)
From Stdlib Require Import ZArith Lia Bool.
From stdpp Require Import base decidable option list gmap numbers.
From S2P Require Import Prelude Crates Index Addr Page Frame PageTable Mapper.
From S2P Require Import MappedPageTable PageWalk MapperSpec MapperCreate MapperProofs.
From S2P Require Import CleanUp CleanUpFull SetFlags MapperExamples.
From S2P Require Import RecursivePageTable RecursiveProofs RecursiveCleanUp.
#[local] Open Scope Z_scope.
#[local] Existing Instance physical_mapping.

(** ** The calls of a mapper, with the type of their results *)
Inductive op : Type -> Type :=
  | OpMapTo {S} (page : Page S) (frame : PhysFrame S) (flags parent_flags : Z)
      : op (result (MapperFlush S) (MapToError S))
  | OpUnmap {S} (page : Page S) : op (result (PhysFrame S * MapperFlush S) UnmapError)
  | OpUpdateFlags {S} (page : Page S) (flags : Z) : op (result (MapperFlush S) FlagUpdateError)
  | OpTranslatePage {S} (page : Page S) : op (result (PhysFrame S) TranslateError)
  | OpTranslate (addr : VirtAddr) : op TranslateResult
  | OpCleanUp (range : PageRangeInclusive Size4KiB) : op unit.

(** A call on a memory and the state of a frame allocator and deallocator. *)
Section run.
Context {T A : Type} `{forall S, Mapper Mem T S} `{Translate Mem T} `{CleanUp Mem T}.
Context `{FrameAllocator A Size4KiB} `{FrameDeallocator A Size4KiB}.

Definition run_op {X} (self : T) (o : op X) (s : Mem * A) : outcome (X * (Mem * A)) :=
  match o with
  | OpMapTo page frame flags pf => map_to_with_table_flags self page frame flags pf s
  | OpUnmap page => on_mem (unmap self page) s
  | OpUpdateFlags page flags => on_mem (update_flags self page flags) s
  | OpTranslatePage page => on_mem (translate_page self page) s
  | OpTranslate addr => (fun x => (x, s)) <$> translate self (fst s) addr
  | OpCleanUp range => (fun s' => (tt, s')) <$> clean_up_addr_range self range s
  end.

(** A call with the result it returned. *)
Inductive event : Type :=
  | Event {X} (o : op X) (x : X).

(** Runs of calls that meet a precondition in the state they start from. *)
Inductive runs (self : T) (pre : forall X, Mem * A -> op X -> Prop)
    : Mem * A -> list event -> Mem * A -> Prop :=
  | runs_nil s : runs self pre s [] s
  | runs_step s s' s'' X (o : op X) x es :
      pre X s o -> run_op self o s = Ret (x, s') -> runs self pre s' es s'' ->
      runs self pre s (Event o x :: es) s''.
End run.

Section recursive.
Context `{BFL : BitFieldLaws} `{Target} (H64 : usize_bits = 64).
Context `{C : MMU} {ML : MMULaws C} `{BL : BitflagsLaws}.
Context (r : PageTableIndex) (er : PageTableEntry) {RE : RecursiveEntry r er}.
Context {A : Type} `{FrameAllocator A Size4KiB} `{FrameDeallocator A Size4KiB}.
#[local] Abbreviation p4 := (pa (frame_start cr3_frame)).
#[local] Abbreviation Flat := (Flat r).
#[local] Abbreviation with_rec := (with_rec r er).
#[local] Abbreviation rec_mapper := (rec_mapper r).

(** What the callers promise: well-formed arguments outside of the recursive
    region, flags without address bits, present and writable flags for parent
    entries, an allocator that returns unused frames, and no [update_flags] or
    [translate_page] below a huge page. *)
Definition op_ok (X : Type) (s : Mem * A) (o : op X) : Prop :=
  match o with
  | OpMapTo page frame flags pf =>
      Page_wf page /\ Page_p4_index page <> r /\ PhysFrame_wf frame /\
      u64 flags /\ Z.land flags ADDR_MASK = 0 /\ flags <> 0 /\
      parent_flags_ok pf /\ Z.testbit pf 1 = true /\
      Supply physical (reachable physical (fst s) p4) (fst s) 3 (snd s)
  | OpUnmap page => Page_wf page /\ Page_p4_index page <> r
  | OpUpdateFlags page flags => Page_wf page /\ Page_p4_index page <> r /\
      u64 flags /\ Z.land flags ADDR_MASK = 0 /\ flags <> 0 /\ no_huge_parent page (fst s)
  | OpTranslatePage page => Page_wf page /\ Page_p4_index page <> r /\ no_huge_parent page (fst s)
  | OpTranslate addr => canonical addr /\ VirtAddr_p4_index addr <> r
  | OpCleanUp range => range_wf range
  end.

(** ** The specification stays a valid hierarchy without a recursive entry *)
Lemma flat_store {S} m (page : Page S) q e :
  Flat m -> Page_wf page -> Page_p4_index page <> r ->
  table_at physical m p4 (page_pre page) = Some q -> entry_wf e -> final_entry (page_pre page) e ->
  Flat (upd m q (ix (page_last page)) e).
Proof.
  intros HF Hp Ho Hq He Hfe. pose proof (parents_length page) as Hl.
  split.
  - apply (store_page flat m page q e (flat_valid _ _ HF) Hp Hq He Hfe).
  - pose proof (parents_wf page Hp) as Hf. destruct (wf_snoc _ _ Hf) as [_ Hi].
    rewrite get_upd, decide_False; [by apply flat_unused| | |by apply ix_lt].
    + assert (off r (page_parents page ++ [page_last page])) as Ho' by by apply parents_off.
      pose proof (slot_off r er m (page_parents page) (page_last page) q HF Hl Hf Ho' Hq). naive_solver.
    + by apply (flat_table r m HF (page_parents page)); [lia|].
Qed.

Lemma flat_unmap {S} m (page : Page S) x m' :
  Flat m -> Page_wf page -> Page_p4_index page <> r -> unmap flat page m = Ret (x, m') -> Flat m'.
Proof.
  intros HF Hp Ho. rewrite unmap_run by (done || apply HF).
  change (page_table_walker flat) with physical. change (level_4_table flat) with p4.
  destruct (resolve physical m p4 (page_pre page)) as [q|y] eqn:Eq; [|by intros [= _ <-]].
  apply resolve_Ok in Eq. destruct (unmap_entry S _); cbn [stores]; [|by intros [= _ <-]].
  intros [= _ <-]. apply flat_store; try done. by apply final_unused.
Qed.

Lemma flat_update {S} m (page : Page S) flags x m' :
  Flat m -> Page_wf page -> Page_p4_index page <> r ->
  u64 flags -> Z.land flags ADDR_MASK = 0 -> flags <> 0 ->
  update_flags flat page flags m = Ret (x, m') -> Flat m'.
Proof.
  intros HF Hp Ho Hu Hm Hn. rewrite update_flags_run by (done || apply HF).
  change (page_table_walker flat) with physical. change (level_4_table flat) with p4.
  destruct (resolve physical m p4 (page_pre page)) as [q|y] eqn:Eq; [|by intros [= _ <-]].
  pose proof (resolve_table physical m p4 page q (flat_valid _ _ HF) Hp Eq) as (Hq & Ht & _).
  destruct (page_entry_get page m q Hp Ht) as (_ & He & _).
  destruct (entry (page_entry m page q) =? 0); cbn [stores]; [by intros [= _ <-]|].
  destruct (updated_entry_spec S _ flags He Hu Hm Hn) as (He' & _ & _ & Hh' & _).
  intros [= _ <-]. apply flat_store; try done. by apply final_page.
Qed.

Lemma flat_map_to {S} m a (page : Page S) (frame : PhysFrame S) flags pf x m' a' :
  Flat m -> op_ok _ (m, a) (OpMapTo page frame flags pf) ->
  map_to_with_table_flags flat page frame flags pf (m, a) = Ret (x, (m', a')) -> Flat m'.
Proof.
  intros HF (Hp & Ho & Hfr & Hu & Hm & Hn & Hpf & Hwr & HS). rewrite map_to_chain.
  apply (create_chain_flat r er pf Hpf Hwr _ m a [] p4); try done.
  - by apply parents_length.
  - by apply page_parents_wf.
  - by apply parents_off.
  - eapply Supply_le; [|done]. by apply parents_length.
  - intros q m1 a1 HF1 Hq. cbn [app] in Hq.
    assert (has_table m1 q) as Ht.
    { apply (flat_table r m1 HF1 (page_parents page)); [by apply parents_length|done]. }
    rewrite map_to_tail_run by done.
    destruct (entry (page_entry m1 page q) =? 0); [|by intros [= _ <- _]].
    destruct (page_new_entry_spec frame flags Hfr Hu Hm Hn) as (He & _ & _ & Hh & _).
    intros [= _ <- _]. apply flat_store; try done. by apply final_page.
Qed.

(** ** One call *)
Definition rec_state (s : Mem * A) : Mem * A := (with_rec (fst s), snd s).

Lemma run_op_sim {X} (o : op X) s x s' :
  Flat (fst s) -> op_ok X s o -> run_op flat o s = Ret (x, s') ->
  run_op rec_mapper o (rec_state s) = Ret (x, rec_state s') /\ Flat (fst s').
Proof.
  destruct s as [m a]. cbn [fst]. intros HF Hok. unfold rec_state. cbn [fst snd].
  assert (forall Y E (c d : M Mem E Y) y,
    sim with_rec c d m -> (forall m', d m = Ret (y, m') -> Flat m') ->
    on_mem d (m, a) = Ret (y, s') ->
    on_mem c (with_rec m, a) = Ret (y, (with_rec (fst s'), snd s')) /\ Flat (fst s')) as Hmem.
  { intros Y E c d y Hs Hd. unfold on_mem. cbn [fst snd]. rewrite Hs.
    destruct (d m) as [[z m1]| |]; cbn; [|done..]. intros [= -> <-]. cbn [fst snd]. auto. }
  destruct o as [S page frame flags pf|S page|S page flags|S page|addr|range]; cbn [run_op].
  - intros E. pose proof Hok as (Hp & Ho & Hfr & Hu & Hm & Hn & Hpf & Hwr & HS).
    destruct s' as [m' a']. split; [|by eapply flat_map_to].
    pose proof (map_to_sim r er pf Hpf Hwr m a page frame flags HF Hp Ho HS) as Hs.
    unfold sim in Hs. rewrite E in Hs. exact Hs.
  - destruct Hok as [Hp Ho]. apply Hmem; [by apply unmap_sim|intros m'; by apply flat_unmap].
  - destruct Hok as (Hp & Ho & Hu & Hm & Hn & Hh).
    apply Hmem; [by apply update_flags_sim|intros m'; by apply flat_update].
  - destruct Hok as (Hp & Ho & Hh). apply Hmem; [by apply translate_page_sim|].
    intros m'. rewrite translate_page_run by (done || apply HF). by intros [= _ <-].
  - destruct Hok as [Ha Ho]. cbn [fst]. rewrite (translate_sim r er m addr HF Ha Ho).
    destruct (translate flat m addr); cbn; [|done..]. by intros [= <- <-].
  - destruct (clean_up_sim H64 r er m a range HF Hok) as (m' & d' & E1 & E2 & HF').
    rewrite E1, E2. cbn. by intros [= <- <-].
Qed.

(** C8. Forward simulation, for calls that satisfy [op_ok].
    From a valid hierarchy that does not use the recursive index, take a sequence
    of map_to, unmap, update_flags, translate_page, translate and
    clean_up_addr_range calls on the mapped page table over identity-mapped
    memory, with pages and addresses off the recursive region, new flags non-zero
    and without address bits, parent flags with PRESENT and WRITABLE and without
    HUGE_PAGE and address bits, an allocator of unused frames, no update_flags or
    translate_page below a huge page (there the two mappers differ), 64-bit
    usize.  The same calls on the recursive page table, from the same hierarchy
    with its recursive entry, return the same results, free and allocate the same
    frames and end in the same hierarchy with its recursive entry, still valid.
    Page tables are accessed only through the addresses computed from the
    recursive index, which the processor is assumed to translate by the current
    tables (no stale TLB entries, no write protection). *)
Theorem recursive_runs_refine s es s' :
  Flat (fst s) -> runs flat op_ok s es s' ->
  runs rec_mapper (fun _ _ _ => True) (rec_state s) es (rec_state s') /\ Flat (fst s').
Proof.
  intros HF Hrun. induction Hrun as [s|s s1 s' X o x es Hok E _ IH]; [split; [constructor|done]|].
  destruct (run_op_sim o s x s1 HF Hok E) as [E' HF1]. destruct (IH HF1) as [IH1 IH2].
  split; [|done]. by apply runs_step with (rec_state s1).
Qed.

(** ** Flags of parent entries *)

(** C13. On a valid hierarchy that does not use the recursive index, and for a page
    that is off the recursive region and has no huge parent entry,
    [set_flags_p4_entry], [set_flags_p3_entry] and [set_flags_p2_entry] of the
    recursive page table return the results of those of the mapped page table
    and store the same entries, whatever the flags.  On a target with 64-bit
    [usize], [clean_up] over the whole address space ends in the same hierarchy,
    still valid, and the same state of the frame deallocator for both.  (Below a huge page the
    recursive page table does not check the parent entries.)  As for the other
    operations, the processor is assumed to translate by the current tables. *)
Theorem recursive_flags_and_clean_up_refine {S} m a (page : Page S) k flags :
  Flat m -> Page_wf page -> Page_p4_index page <> r -> no_huge_parent page m -> (k < 3)%nat ->
  rec_set_flags_op r k page flags (with_rec m) = embed with_rec (set_flags_op flat k page flags m) /\
  exists m' a', clean_up flat (m, a) = Ret (m', a') /\
    clean_up rec_mapper (with_rec m, a) = Ret (with_rec m', a') /\ Flat m'.
Proof.
  intros HF Hp Ho Hn Hk. split; [by apply set_flags_sim|].
  destruct (clean_up_sim H64 r er m a (mkPageRangeInclusive (page_at 0) (page_at (page_count Size4KiB - 1))))
    as (m' & a' & E & E' & HF'); [done|split; apply page_at_wf; vm_compute; done|].
  exists m', a'. split; [|split; [|done]].
  - rewrite <- E. unfold clean_up, MappedPageTable_CleanUp, MappedPageTable_clean_up. reflexivity.
  - rewrite <- E'. unfold clean_up, RecursivePageTable_CleanUp, Recursive_clean_up. reflexivity.
Qed.

(** ** [new] *)
Lemma rptr_root j :
  PageTableIndex_wf j -> exists p : Page Size4KiB, Page_wf p /\ rptr j [] = va (page_start p) /\
    Page_p4_index p = j /\ Page_p3_index p = j /\ Page_p2_index p = j /\ Page_p1_index p = j.
Proof.
  intros Hj. destruct (indices_page j j j j Hj Hj Hj Hj) as (p & E & Hp & Hi).
  exists p. split; [done|]. split; [|done]. unfold rptr, rec_page.
  change (padded j []) with [j; j; j; j]. cbv beta iota. by rewrite E.
Qed.

Lemma containing_page_start (p : Page Size4KiB) :
  Page_wf p -> VirtAddr_new (va (page_start p)) = Ret (page_start p) /\
    Page_containing_address (page_start p) = Ret p.
Proof.
  intros [Hc Hm]. split; [by apply VirtAddr_new_canonical|].
  destruct (Page_containing_address_val (S := Size4KiB) _ Hc) as [-> _].
  rewrite Hm, Z.sub_0_r. by destruct p as [[]].
Qed.

Lemma new_recursive m j e :
  PageTableIndex_wf j -> vread_entry m (rptr j []) j = Ret e -> entry_wf e ->
  RecursivePageTable_new m (rptr j []) =
    Ret (if is_present e && bool_decide (entry_frame e = cr3_frame)
         then Ok (mkRecursivePageTable (rptr j []) j) else Err NotActive).
Proof.
  intros Hj Hv He. destruct (rptr_root j Hj) as (p & Hp & Er & E4 & E3 & E2 & E1).
  destruct (containing_page_start p Hp) as [N1 N2].
  unfold RecursivePageTable_new. rewrite Er, N1. cbn [mbind outcome_bind]. rewrite N2.
  cbn [mbind outcome_bind]. rewrite E4, E3, E2, E1, bool_decide_true by done. cbn [negb orb].
  rewrite <- Er, Hv. cbn [mbind outcome_bind]. rewrite PageTableEntry_frame_val by done.
  fold (is_present e). fold (entry_frame e). destruct (is_present e); cbn [mbind outcome_bind andb].
  - destruct (decide (entry_frame e = cr3_frame)) as [->|Hn]; [by rewrite !bool_decide_true|].
    rewrite !bool_decide_false; [done|done|]. intros [= E]. done.
  - by rewrite bool_decide_false.
Qed.

(** C33. [RecursivePageTable::new] accepts the level 4 table of every recursive
    hierarchy that is active.  A pointer that is not of the form
    [0o_xxx_xxx_xxx_xxx_0000] gives [NotRecursive]; otherwise the entry at the
    index [xxx] decides, and [NotActive] is returned unless it is present with
    the frame in CR3. *)
Theorem RecursivePageTable_new_correct m :
  (Flat m -> RecursivePageTable_new (with_rec m) (rptr r []) = Ret (Ok rec_mapper)) /\
  (forall p : Page Size4KiB, Page_wf p ->
     (forall j, PageTableIndex_wf j -> va (page_start p) <> rptr j []) ->
     RecursivePageTable_new m (va (page_start p)) = Ret (Err NotRecursive)) /\
  (forall j e, PageTableIndex_wf j -> vread_entry m (rptr j []) j = Ret e -> entry_wf e ->
     RecursivePageTable_new m (rptr j []) =
       Ret (if is_present e && bool_decide (entry_frame e = cr3_frame)
            then Ok (mkRecursivePageTable (rptr j []) j) else Err NotActive)).
Proof.
  split_and!.
  - intros HF. rewrite (new_recursive _ r er); [|apply rec_index_wf| |apply rec_entry_wf].
    + destruct (proj1 (child_physical _ _) (rec_entry_self (RecursiveEntry := RE))) as (_ & -> & E).
      rewrite bool_decide_true; [done|]. apply frame_ext. by rewrite E.
    + unfold vread_entry. rewrite (translate_rec r er m HF [] p4); [|simpl; lia|done|constructor|done].
      apply read_entry_get; [apply rec_index_wf|by apply get_rec].
  - intros p Hp Hn. destruct (containing_page_start p Hp) as [N1 N2].
    unfold RecursivePageTable_new. rewrite N1. cbn [mbind outcome_bind]. rewrite N2. cbn [mbind outcome_bind].
    destruct (VirtAddr_index_wf _ (proj1 Hp)) as (H4 & _).
    fold (Page_start_address p) in H4. fold (Page_p4_index p) in H4.
    destruct (decide (Page_p3_index p = Page_p4_index p)) as [E3|]; [|by rewrite bool_decide_false].
    destruct (decide (Page_p2_index p = Page_p4_index p)) as [E2|];
      [|rewrite (bool_decide_false (Page_p2_index p = _)) by done; by rewrite orb_true_r].
    destruct (decide (Page_p1_index p = Page_p4_index p)) as [E1|];
      [|rewrite (bool_decide_false (Page_p1_index p = _)) by done; by rewrite !orb_true_r].
    exfalso. apply (Hn (Page_p4_index p) H4). destruct (rptr_root _ H4) as (p' & Hp' & -> & F4 & F3 & F2 & F1).
    do 2 f_equal. pose proof (page_indices_rebuild p Hp) as R. pose proof (page_indices_rebuild p' Hp') as R'.
    rewrite E3, E2, E1 in R. rewrite F4, F3, F2, F1, R in R'. by injection R'.
  - intros j e. apply new_recursive.
Qed.

(** ** Huge pages above the page *)
Section huge_parent.
Context (m : Mem) (page : Page Size2MiB) (q : Z) (e x : PageTableEntry).
Context (HF : Flat m) (Hp : Page_wf page) (Ho : Page_p4_index page <> r).
#[local] Abbreviation i4 := (Page_p4_index page).
#[local] Abbreviation i3 := (Page_p3_index page).
#[local] Abbreviation i2 := (page_last page).
#[local] Abbreviation data := (pa (entry_addr e)).

(** A present 1GiB page around [page], and the memory it maps. *)
Context (Hq : table_at physical m p4 [ix i4] = Some q) (He : get m q (ix i3) = Some e).
Context (Hh : is_huge e = true) (Hpr : is_present e = true).
Context (Hd : data <> p4) (Hdata : has_table m data) (Hx : get m data (ix i2) = Some x).

Lemma huge_wf : PageTableIndex_wf i4 /\ PageTableIndex_wf i3 /\ PageTableIndex_wf i2 /\ entry_wf x.
Proof.
  destruct (page_parents_wf page Hp) as [Hf Hi]. cbn [page_parents] in Hf.
  apply Forall_cons_iff in Hf as [H4 Hf]. apply Forall_cons_iff in Hf as [H3 _].
  split_and!; [done|done|done|]. by destruct (get_Some _ _ _ _ Hdata Hx).
Qed.

Lemma huge_pointer : mmu_translate (with_rec m) (rptr r [i4; i3]) = Ret data.
Proof.
  destruct huge_wf as (H4 & H3 & _). assert (off r [i4]) as Ho' by done.
  apply (translate_entry_ptr r er (with_rec m) (get_rec r er m HF) [i4] i3 q e); try done.
  - by repeat (constructor; [done|]).
  - simpl. lia.
  - rewrite (table_at_with_rec r er m [i4]); try done; [simpl; lia|by repeat (constructor; [done|])].
  - rewrite (get_with_rec r er m q _ HF), decide_False; [done|].
    apply (slot_off r er m [i4] i3 q HF); try done; [simpl; lia|by repeat (constructor; [done|])].
Qed.

Lemma huge_data : get (with_rec m) data (ix i2) = Some x /\ has_table (with_rec m) data.
Proof.
  split; [|by apply with_rec_has_table]. rewrite (get_with_rec r er m _ _ HF), decide_False; [done|].
  naive_solver.
Qed.

(** The pointer of the level 2 table leads into the memory of the huge page. *)
Lemma huge_chain {E X} (err : E) (k : Z -> M Mem E X) :
  rec_chain r (used_or err) [] (rptr r []) [i4; i3] k (with_rec m) = k (rptr r [i4; i3]) (with_rec m).
Proof.
  destruct huge_wf as (H4 & H3 & _).
  assert (Forall PageTableIndex_wf [i4] /\ Forall PageTableIndex_wf [i4; i3]) as [Hf1 Hf2]
    by (split; by repeat (constructor; [done|])).
  assert (exists e4, get m p4 (ix i4) = Some e4 /\ entry e4 <> 0) as (e4 & G4 & N4).
  { cbn in Hq. destruct (get m p4 (ix i4)) as [e4|]; [|done]. exists e4. split; [done|]. intros E0.
    cbn in Hq. by rewrite (child_zero _ _ E0) in Hq. }
  cbn [rec_chain app]. unfold used_or, vget_entry, mbind, M_bind. mrun.
  rewrite (vread_rec r er m HF [] p4 ltac:(simpl; lia) eq_refl i4 Hf1 Ho e4 G4). mrun.
  unfold PageTableEntry_is_unused. rewrite (proj2 (Z.eqb_neq _ _)) by done. mrun.
  rewrite (vtable_rec r er m HF [i4] q ltac:(simpl; lia) Hq Hf1 Ho). mrun.
  rewrite (vread_rec r er m HF [i4] q ltac:(simpl; lia) Hq i3 Hf2 Ho e He). mrun.
  rewrite (proj2 (Z.eqb_neq _ _)) by by apply is_huge_nonzero. mrun.
  unfold vtable, mbind, M_bind. rewrite (page_ptr_rec r er) by (done || simpl; lia). mrun.
  unfold vderef. rewrite huge_pointer. cbn [mbind outcome_bind].
  destruct huge_data as [_ (t & Et & _)]. unfold deref. rewrite Et. by mrun.
Qed.

Lemma huge_resolve : resolve physical m p4 (page_pre page) = Err WalkMappedToHugePage.
Proof.
  cbn [page_pre page_parents fmap list_fmap resolve]. cbn in Hq.
  destruct (get m p4 (ix i4)) as [e4|]; [|done]. cbn in Hq. unfold step_result at 1.
  destruct (child physical e4); simplify_eq/=. rewrite He. unfold step_result, child. by rewrite Hh.
Qed.

(** C37. [update_flags] and [translate_page] of the recursive page table do not
    check whether a parent entry is a huge page.  For a 2MiB page inside a 1GiB
    page the mapped page table returns [ParentEntryHugePage]; the recursive page
    table takes the first 4KiB frame of the mapped memory (if it is accessible
    memory other than the level 4 table) for a page table.  When
    the eight bytes of it that are taken for the entry of the page are not zero,
    [translate_page] returns the frame (or address error) read from that data,
    and [update_flags] succeeds and overwrites these eight bytes. *)
Theorem recursive_ignores_huge_parents flags :
  x <> PageTableEntry_new ->
  update_flags flat page flags m = Ret (Err FlagParentEntryHugePage, m) /\
  translate_page flat page m = Ret (Err TranslateParentEntryHugePage, m) /\
  update_flags rec_mapper page flags (with_rec m) =
    Ret (Ok (MapperFlush_new page),
         with_rec (upd m data (ix i2)
           (mkPageTableEntry (Z.lor (pa (entry_addr x)) (Z.lor flags PageTableFlags_HUGE_PAGE))))) /\
  translate_page rec_mapper page (with_rec m) =
    Ret (if pa (entry_addr x) mod SIZE Size2MiB =? 0 then Ok (mkPhysFrame (entry_addr x))
         else Err (TranslateInvalidFrameAddress (entry_addr x)), with_rec m).
Proof.
  intros Hx0. destruct huge_wf as (_ & _ & H2 & Hwx). destruct huge_data as [Gx Ht].
  assert (entry x <> 0) as Hnx by (intros E; apply Hx0, entry_ext; exact E).
  rewrite update_flags_run, translate_page_run by (done || apply HF).
  change (page_table_walker flat) with physical. change (level_4_table flat) with p4.
  rewrite huge_resolve. split; [done|]. split; [done|].
  rewrite rec_update_flags_chain, rec_translate_page_chain. cbn [page_parents].
  rewrite !huge_chain. unfold rec_update_tail, translate_used, vget_entry, vput_entry, mbind, M_bind. mrun.
  unfold vread_entry, vwrite_entry. rewrite huge_pointer. cbn [mbind outcome_bind].
  rewrite (read_entry_get _ data i2 x) by done. mrun. unfold PageTableEntry_is_unused.
  rewrite (proj2 (Z.eqb_neq _ _)) by done. mrun. split.
  - rewrite set_flags_val by done. mrun. rewrite huge_pointer. cbn [mbind outcome_bind].
    rewrite write_entry_upd by done. mrun. rewrite upd_with_rec by naive_solver.
    by autorewrite with flags.
  - destruct (PageTableEntry_addr_val _ Hwx) as [-> Hv]. mrun.
    rewrite PhysFrame_from_start_address_val by done. mrun. fold (entry_addr x).
    by destruct (_ mod _ =? 0).
Qed.
End huge_parent.
End recursive.

(** ** A concrete recursive hierarchy: the tables of MapperExamples.v with
    recursive index 256 on a processor that walks them *)
Definition rec_index : PageTableIndex := mkPageTableIndex 256.
Definition rec_entry : PageTableEntry := mkPageTableEntry 0x1003.

(** The 1GiB page at address 0 maps a frame whose contents look like a page
    table with one entry; the 2MiB page at address 0 lies inside of it. *)
Definition data_entry : PageTableEntry := mkPageTableEntry 0x600003.
Definition data_table : PageTable := mkPageTable (<[0%nat := data_entry]> (entries PageTable_new)).
Definition mem_data : Mem := <[0x40000000 := data_table]> mem_huge.

Section example.
#[local] Instance example_mmu : MMU := walk_mmu (table_frame 1).
#[local] Existing Instance list_allocator.
#[local] Existing Instance list_deallocator.
#[local] Instance target64 : Target := {| overflow_checks := true; usize_bits := 64 |}.

#[local] Instance example_recursive : RecursiveEntry rec_index rec_entry.
Proof.
  split; [split; reflexivity || (vm_compute; discriminate)|split; vm_compute; done|reflexivity].
Qed.

Lemma mem0_flat : Flat rec_index mem0.
Proof. split; [exact mem0_valid|reflexivity]. Qed.

Lemma mem_huge_flat : Flat rec_index mem_huge.
Proof. split; [exact mem_huge_valid|reflexivity]. Qed.

Lemma mem_data_flat : Flat rec_index mem_data.
Proof.
  split; [|reflexivity]. apply Valid_insert_unreachable; [exact mem_huge_valid|].
  intros (path & Hl & Hq). destruct mem1_valid as (HV & Ht & Hr).
  destruct (store_final physical mem1 0x1000 [0%nat] 0x2000 0 huge_entry) as (_ & Hsame & _);
    try done; [simpl; lia|lia|by right; right|].
  specialize (Hsame path _ Hl Hq). destruct (Hr 0x40000000) as [?|?]; [by exists path|done|done].
Qed.

Lemma recursive_runs_refine_witness :
  let o := OpMapTo (page0 Size4KiB) (frame1 Size4KiB) 3 3 in
  exists s', runs (rec_mapper rec_index) (fun _ _ _ => True)
    (rec_state rec_index rec_entry (mem0, free_frames))
    [Event o (Ok (MapperFlush_new (page0 Size4KiB)))] (rec_state rec_index rec_entry s') /\
    Flat rec_index (fst s').
Proof.
  intros o. destruct (run_op flat o (mem0, free_frames)) as [[x s']| |] eqn:E;
    try (exfalso; vm_compute in E; discriminate E).
  assert (x = Ok (MapperFlush_new (page0 Size4KiB))) as ->.
  { vm_compute in E. injection E as <- _. reflexivity. }
  exists s'. apply (recursive_runs_refine (H := target64) eq_refl rec_index rec_entry (mem0, free_frames) _ s' mem0_flat).
  apply runs_step with s'; [|exact E|apply runs_nil].
  split_and!; [apply page0_wf|discriminate|apply frame1_wf|split; vm_compute; done|done|lia|
    exact writable_parent|done|exact mem0_supply].
Defined.

Lemma recursive_flags_and_clean_up_refine_witness :
  exists m' a', clean_up flat (mem_huge, []) = Ret (m', a') /\
    clean_up (rec_mapper rec_index) (with_rec rec_index rec_entry mem_huge, []) =
      Ret (with_rec rec_index rec_entry m', a').
Proof.
  destruct (recursive_flags_and_clean_up_refine (H := target64) eq_refl rec_index rec_entry mem_huge []
    (page0 Size1GiB) 0 3 mem_huge_flat (page0_wf _) ltac:(discriminate) ltac:(vm_compute; discriminate)
    ltac:(lia)) as (_ & m' & a' & E & E' & _).
  exists m', a'. split; [exact E|exact E'].
Defined.

Lemma RecursivePageTable_new_correct_witness :
  RecursivePageTable_new (with_rec rec_index rec_entry mem0) (rptr rec_index []) =
    Ret (Ok (rec_mapper rec_index)).
Proof. exact (proj1 (RecursivePageTable_new_correct rec_index rec_entry mem0) mem0_flat). Defined.

Lemma recursive_ignores_huge_parents_witness :
  update_flags flat (page0 Size2MiB) 3 mem_data = Ret (Err FlagParentEntryHugePage, mem_data) /\
  translate_page (rec_mapper rec_index) (page0 Size2MiB) (with_rec rec_index rec_entry mem_data) =
    Ret (Ok (mkPhysFrame (mkPhysAddr 0x600000)), with_rec rec_index rec_entry mem_data).
Proof.
  destruct (recursive_ignores_huge_parents rec_index rec_entry mem_data (page0 Size2MiB) 0x2000
    huge_entry data_entry mem_data_flat (page0_wf _) ltac:(discriminate) eq_refl eq_refl eq_refl eq_refl
    ltac:(vm_compute; discriminate)
    ltac:(exists data_table; split; [reflexivity|split; [reflexivity|]];
      apply Forall_insert; [apply PageTable_new_wf|split; vm_compute; done])
    eq_refl 3 ltac:(discriminate)) as (E1 & _ & _ & E4).
  split; [exact E1|exact E4].
Defined.
End example.
