(* ===== verification/Idt.v ===== *)
(** * The interrupt descriptor table (structures/idt.rs)

    Gate entries and their options, the table with its typed fields, indexing
    by vector and by ranges of vectors, the error codes and the vector numbers
    of exceptions, and the stack frame of an interrupt.  The table that the
    processor reads is the memory image of the structure: a list of 256 words
    of 128 bits, [IDT_image].  [set_general_handler!] is in IdtHandlers.v. *)
From Stdlib Require Import ZArith Lia Bool.
From stdpp Require Import base decidable option list numbers.
From S2P Require Import Prelude Crates Addr Gdt.
#[local] Open Scope Z_scope.

(** ** [EntryOptions] *)
Record EntryOptions : Type := mkEntryOptions {
  options_cs : SegmentSelector;
  options_bits : Z;
}.

(** [0b1110_0000_0000]: a 64-bit interrupt gate. *)
Definition EntryOptions_minimal : EntryOptions :=
  mkEntryOptions (mkSegmentSelector 0) 0xE00.

Definition EntryOptions_set_code_selector (self : EntryOptions) (cs : SegmentSelector)
    : EntryOptions :=
  mkEntryOptions cs (options_bits self).

Section options.
Context `{BitField} `{Target}.

Definition EntryOptions_set_present (self : EntryOptions) (present : bool)
    : outcome EntryOptions :=
  bits ← set_bit 16 (options_bits self) 15 present;
  Ret (mkEntryOptions (options_cs self) bits).

Definition EntryOptions_present (self : EntryOptions) : outcome bool :=
  get_bit 16 (options_bits self) 15.

Definition EntryOptions_disable_interrupts (self : EntryOptions) (disable : bool)
    : outcome EntryOptions :=
  bits ← set_bit 16 (options_bits self) 8 (negb disable);
  Ret (mkEntryOptions (options_cs self) bits).

Definition EntryOptions_set_privilege_level (self : EntryOptions) (dpl : PrivilegeLevel)
    : outcome EntryOptions :=
  bits ← set_bits 16 (options_bits self) 13 15 (privilege_u16 dpl);
  Ret (mkEntryOptions (options_cs self) bits).

Definition EntryOptions_privilege_level (self : EntryOptions) : outcome PrivilegeLevel :=
  b ← get_bits 16 (options_bits self) 13 15;
  PrivilegeLevel_from_u16 b.

(** [index + 1] is an addition of [u16]. *)
Definition EntryOptions_set_stack_index (self : EntryOptions) (index : Z)
    : outcome EntryOptions :=
  v ← arith 16 (index + 1);
  bits ← set_bits 16 (options_bits self) 0 3 v;
  Ret (mkEntryOptions (options_cs self) bits).

Definition EntryOptions_stack_index (self : EntryOptions) : outcome (option Z) :=
  b ← get_bits 16 (options_bits self) 0 3;
  Ret (checked_sub 16 b 1).
End options.

(** ** [Entry<F>]
    The phantom type [F] of an entry is one of the five types of handler
    functions. *)
Inductive HandlerType : Type :=
  HandlerFunc | HandlerFuncWithErrCode | PageFaultHandlerFunc | DivergingHandlerFunc |
  DivergingHandlerFuncWithErrCode.

Record IdtEntry (F : HandlerType) : Type := mkIdtEntry {
  pointer_low : Z;
  options : EntryOptions;
  pointer_middle : Z;
  pointer_high : Z;
  entry_reserved : Z;
}.
Arguments mkIdtEntry {F}.
Arguments pointer_low {F}.
Arguments options {F}.
Arguments pointer_middle {F}.
Arguments pointer_high {F}.
Arguments entry_reserved {F}.

Definition EntryOptions_eqb (a b : EntryOptions) : bool :=
  (selector (options_cs a) =? selector (options_cs b)) && (options_bits a =? options_bits b).

Definition IdtEntry_eq {F} (self other : IdtEntry F) : bool :=
  (pointer_low self =? pointer_low other) && EntryOptions_eqb (options self) (options other) &&
  (pointer_middle self =? pointer_middle other) && (pointer_high self =? pointer_high other) &&
  (entry_reserved self =? entry_reserved other).

Definition IdtEntry_missing {F} : IdtEntry F := {|
  pointer_low := 0;
  pointer_middle := 0;
  pointer_high := 0;
  options := EntryOptions_minimal;
  entry_reserved := 0;
|}.

(** The options of an entry are changed through the [&mut EntryOptions] that
    [set_handler_addr] and [set_handler_fn] return. *)
Definition with_options {F} (self : IdtEntry F) (o : EntryOptions) : IdtEntry F :=
  mkIdtEntry (pointer_low self) o (pointer_middle self) (pointer_high self) (entry_reserved self).

(** [cs] is the value of the register CS ([CS::get_reg()]). *)
Definition IdtEntry_set_handler_addr `{BitField} {F} (cs : SegmentSelector) (self : IdtEntry F)
    (addr : VirtAddr) : outcome (IdtEntry F) :=
  let addr := VirtAddr_as_u64 addr in
  let low := wrap 16 addr in
  let middle := wrap 16 (Z.shiftr addr 16) in
  let high := wrap 32 (Z.shiftr addr 32) in
  let options := EntryOptions_minimal in
  let options := EntryOptions_set_code_selector options cs in
  options ← EntryOptions_set_present options true;
  Ret (mkIdtEntry low options middle high (entry_reserved self)).

Definition IdtEntry_handler_addr {F} (self : IdtEntry F) : VirtAddr :=
  let addr := Z.lor (Z.lor (pointer_low self) (Z.shiftl (pointer_middle self) 16))
                (Z.shiftl (pointer_high self) 32) in
  VirtAddr_new_truncate addr.

(** [HandlerFuncType]: a function pointer is the number [self as u64]. *)
Definition to_virt_addr (handler : Z) : outcome VirtAddr := VirtAddr_new handler.

Definition IdtEntry_set_handler_fn `{BitField} {F} (cs : SegmentSelector) (self : IdtEntry F)
    (handler : Z) : outcome (IdtEntry F) :=
  a ← to_virt_addr handler;
  IdtEntry_set_handler_addr cs self a.

(** ** [InterruptDescriptorTable] *)
Record InterruptDescriptorTable : Type := mkIDT {
  divide_error : IdtEntry HandlerFunc;
  debug : IdtEntry HandlerFunc;
  non_maskable_interrupt : IdtEntry HandlerFunc;
  breakpoint : IdtEntry HandlerFunc;
  overflow : IdtEntry HandlerFunc;
  bound_range_exceeded : IdtEntry HandlerFunc;
  invalid_opcode : IdtEntry HandlerFunc;
  device_not_available : IdtEntry HandlerFunc;
  double_fault : IdtEntry DivergingHandlerFuncWithErrCode;
  coprocessor_segment_overrun : IdtEntry HandlerFunc;
  invalid_tss : IdtEntry HandlerFuncWithErrCode;
  segment_not_present : IdtEntry HandlerFuncWithErrCode;
  stack_segment_fault : IdtEntry HandlerFuncWithErrCode;
  general_protection_fault : IdtEntry HandlerFuncWithErrCode;
  page_fault : IdtEntry PageFaultHandlerFunc;
  idt_reserved_1 : IdtEntry HandlerFunc;
  x87_floating_point : IdtEntry HandlerFunc;
  alignment_check : IdtEntry HandlerFuncWithErrCode;
  machine_check : IdtEntry DivergingHandlerFunc;
  simd_floating_point : IdtEntry HandlerFunc;
  virtualization : IdtEntry HandlerFunc;
  cp_protection_exception : IdtEntry HandlerFuncWithErrCode;
  idt_reserved_2 : list (IdtEntry HandlerFunc);
  hv_injection_exception : IdtEntry HandlerFunc;
  vmm_communication_exception : IdtEntry HandlerFuncWithErrCode;
  security_exception : IdtEntry HandlerFuncWithErrCode;
  idt_reserved_3 : IdtEntry HandlerFunc;
  interrupts : list (IdtEntry HandlerFunc);
}.

(** [t <| f := v |>] is the table [t] with the field [f] set to [v]. *)
Ltac idt_with t f v :=
  let r := constr:(mkIDT (divide_error t) (debug t) (non_maskable_interrupt t) (breakpoint t)
    (overflow t) (bound_range_exceeded t) (invalid_opcode t) (device_not_available t)
    (double_fault t) (coprocessor_segment_overrun t) (invalid_tss t) (segment_not_present t)
    (stack_segment_fault t) (general_protection_fault t) (page_fault t) (idt_reserved_1 t)
    (x87_floating_point t) (alignment_check t) (machine_check t) (simd_floating_point t)
    (virtualization t) (cp_protection_exception t) (idt_reserved_2 t) (hv_injection_exception t)
    (vmm_communication_exception t) (security_exception t) (idt_reserved_3 t) (interrupts t)) in
  let p := constr:(f t) in
  lazymatch eval pattern p in r with ?g _ =>
    let r' := eval cbv beta in (g v) in exact r' end.
Notation "t <| f := v |>" := (ltac:(idt_with t f v))
  (at level 1, left associativity, f at level 200, v at level 200, only parsing).

Definition IDT_new : InterruptDescriptorTable := {|
  divide_error := IdtEntry_missing;
  debug := IdtEntry_missing;
  non_maskable_interrupt := IdtEntry_missing;
  breakpoint := IdtEntry_missing;
  overflow := IdtEntry_missing;
  bound_range_exceeded := IdtEntry_missing;
  invalid_opcode := IdtEntry_missing;
  device_not_available := IdtEntry_missing;
  double_fault := IdtEntry_missing;
  coprocessor_segment_overrun := IdtEntry_missing;
  invalid_tss := IdtEntry_missing;
  segment_not_present := IdtEntry_missing;
  stack_segment_fault := IdtEntry_missing;
  general_protection_fault := IdtEntry_missing;
  page_fault := IdtEntry_missing;
  idt_reserved_1 := IdtEntry_missing;
  x87_floating_point := IdtEntry_missing;
  alignment_check := IdtEntry_missing;
  machine_check := IdtEntry_missing;
  simd_floating_point := IdtEntry_missing;
  virtualization := IdtEntry_missing;
  cp_protection_exception := IdtEntry_missing;
  idt_reserved_2 := replicate 6 IdtEntry_missing;
  hv_injection_exception := IdtEntry_missing;
  vmm_communication_exception := IdtEntry_missing;
  security_exception := IdtEntry_missing;
  idt_reserved_3 := IdtEntry_missing;
  interrupts := replicate (256 - 32) IdtEntry_missing;
|}.

Definition IDT_reset (self : InterruptDescriptorTable) : InterruptDescriptorTable := IDT_new.
Definition IDT_default : InterruptDescriptorTable := IDT_new.

(** ** Ranges of vectors: [impl RangeBounds<u8>] *)
Inductive Bound : Type := Included (n : Z) | Excluded (n : Z) | Unbounded.
Definition RangeBounds : Type := Bound * Bound.

Definition RangeBounds_contains (r : RangeBounds) (x : Z) : bool :=
  match fst r with Included s => s <=? x | Excluded s => s <? x | Unbounded => true end &&
  match snd r with Included e => x <=? e | Excluded e => x <? e | Unbounded => true end.

(** [&l\[a..b\]]. *)
Definition slice_range {X} (l : list X) (a b : Z) : outcome (list X) :=
  if (a <=? b) && (b <=? Z.of_nat (length l))
  then Ret (take (Z.to_nat (b - a)) (drop (Z.to_nat a) l)) else Panic.

(** The list after a write of [s] through [&mut l\[a..\]]. *)
Definition slice_update {X} (l : list X) (a : Z) (s : list X) : list X :=
  take (Z.to_nat a) l ++ s ++ drop (Z.to_nat a + length s) l.

Section idt.
Context `{Target}.

Definition condition_slice_bounds (bounds : RangeBounds) : outcome (Z * Z) :=
  lower_idx ← match fst bounds with
    | Included start => Ret start
    | Excluded start => arith usize_bits (start + 1)
    | Unbounded => Ret 0
    end;
  upper_idx ← match snd bounds with
    | Included end_ => arith usize_bits (end_ + 1)
    | Excluded end_ => Ret end_
    | Unbounded => Ret 256
    end;
  if lower_idx <? 32 then Panic else Ret (lower_idx, upper_idx).

(** [slice]. *)
Definition IDT_slice (self : InterruptDescriptorTable) (bounds : RangeBounds)
    : outcome (list (IdtEntry HandlerFunc)) :=
  '(lower_idx, upper_idx) ← condition_slice_bounds bounds;
  a ← arith usize_bits (lower_idx - 32);
  b ← arith usize_bits (upper_idx - 32);
  slice_range (interrupts self) a b.

(** [slice_mut]: the
    elements the reference gives access to, and the table after a write. *)
Definition IDT_slice_mut (self : InterruptDescriptorTable) (bounds : RangeBounds)
    : outcome (list (IdtEntry HandlerFunc) *
               (list (IdtEntry HandlerFunc) -> InterruptDescriptorTable)) :=
  '(lower_idx, upper_idx) ← condition_slice_bounds bounds;
  a ← arith usize_bits (lower_idx - 32);
  b ← arith usize_bits (upper_idx - 32);
  s ← slice_range (interrupts self) a b;
  Ret (s, fun s' => self <| interrupts := slice_update (interrupts self) a s' |>).

(** The types of ranges of [u8] and [&u8] that index the table
    ([impl_index_for_idt!]), with the bounds they have. *)
Inductive IndexRange : Type :=
  | IndexBounds (bounds : RangeBounds)
  | IndexRange_ (start end_ : Z)
  | IndexRangeFrom (start : Z)
  | IndexRangeInclusive (start end_ : Z)
  | IndexRangeTo (end_ : Z)
  | IndexRangeToInclusive (end_ : Z)
  | IndexRangeFull.

Definition range_bounds (index : IndexRange) : RangeBounds :=
  match index with
  | IndexBounds bounds => bounds
  | IndexRange_ s e => (Included s, Excluded e)
  | IndexRangeFrom s => (Included s, Unbounded)
  | IndexRangeInclusive s e => (Included s, Included e)
  | IndexRangeTo e => (Unbounded, Excluded e)
  | IndexRangeToInclusive e => (Unbounded, Included e)
  | IndexRangeFull => (Unbounded, Unbounded)
  end.

Definition IDT_index_range (self : InterruptDescriptorTable) (index : IndexRange)
    : outcome (list (IdtEntry HandlerFunc)) := IDT_slice self (range_bounds index).
Definition IDT_index_range_mut (self : InterruptDescriptorTable) (index : IndexRange)
    : outcome (list (IdtEntry HandlerFunc) *
               (list (IdtEntry HandlerFunc) -> InterruptDescriptorTable)) :=
  IDT_slice_mut self (range_bounds index).
End idt.

(** ** [Index<u8>] and [IndexMut<u8>] *)
Definition IDT_index (self : InterruptDescriptorTable) (index : Z)
    : outcome (IdtEntry HandlerFunc) :=
  match index with
  | 0 => Ret (divide_error self)
  | 1 => Ret (debug self)
  | 2 => Ret (non_maskable_interrupt self)
  | 3 => Ret (breakpoint self)
  | 4 => Ret (overflow self)
  | 5 => Ret (bound_range_exceeded self)
  | 6 => Ret (invalid_opcode self)
  | 7 => Ret (device_not_available self)
  | 9 => Ret (coprocessor_segment_overrun self)
  | 16 => Ret (x87_floating_point self)
  | 19 => Ret (simd_floating_point self)
  | 20 => Ret (virtualization self)
  | 28 => Ret (hv_injection_exception self)
  | 15 | 31 | 22 | 23 | 24 | 25 | 26 | 27 => Panic (* reserved *)
  | 8 | 10 | 11 | 12 | 13 | 14 | 17 | 21 | 29 | 30 => Panic (* an error code *)
  | 18 => Panic (* diverging *)
  | i => unwrap (interrupts self !! Z.to_nat (i - 32)) (* 32..=255 *)
  end.

(** The entry the reference points to, and the table after a write to it. *)
Definition IDT_index_mut (self : InterruptDescriptorTable) (index : Z)
    : outcome (IdtEntry HandlerFunc * (IdtEntry HandlerFunc -> InterruptDescriptorTable)) :=
  match index with
  | 0 => Ret (divide_error self, fun e => self <| divide_error := e |>)
  | 1 => Ret (debug self, fun e => self <| debug := e |>)
  | 2 => Ret (non_maskable_interrupt self, fun e => self <| non_maskable_interrupt := e |>)
  | 3 => Ret (breakpoint self, fun e => self <| breakpoint := e |>)
  | 4 => Ret (overflow self, fun e => self <| overflow := e |>)
  | 5 => Ret (bound_range_exceeded self, fun e => self <| bound_range_exceeded := e |>)
  | 6 => Ret (invalid_opcode self, fun e => self <| invalid_opcode := e |>)
  | 7 => Ret (device_not_available self, fun e => self <| device_not_available := e |>)
  | 9 => Ret (coprocessor_segment_overrun self, fun e => self <| coprocessor_segment_overrun := e |>)
  | 16 => Ret (x87_floating_point self, fun e => self <| x87_floating_point := e |>)
  | 19 => Ret (simd_floating_point self, fun e => self <| simd_floating_point := e |>)
  | 20 => Ret (virtualization self, fun e => self <| virtualization := e |>)
  | 28 => Ret (hv_injection_exception self, fun e => self <| hv_injection_exception := e |>)
  | 15 | 31 | 22 | 23 | 24 | 25 | 26 | 27 => Panic (* reserved *)
  | 8 | 10 | 11 | 12 | 13 | 14 | 17 | 21 | 29 | 30 => Panic (* an error code *)
  | 18 => Panic (* diverging *)
  | i =>
      let k := Z.to_nat (i - 32) in
      e ← unwrap (interrupts self !! k);
      Ret (e, fun e' => self <| interrupts := <[k := e']> (interrupts self) |>)
  end.

(** ** Error codes *)
Definition PROTECTION_VIOLATION : Z := 1.
Definition CAUSED_BY_WRITE : Z := Z.shiftl 1 1.
Definition USER_MODE : Z := Z.shiftl 1 2.
Definition MALFORMED_TABLE : Z := Z.shiftl 1 3.
Definition INSTRUCTION_FETCH : Z := Z.shiftl 1 4.
Definition PROTECTION_KEY : Z := Z.shiftl 1 5.
Definition SHADOW_STACK : Z := Z.shiftl 1 6.
Definition SGX : Z := Z.shiftl 1 15.
Definition RMP : Z := Z.shiftl 1 31.

Definition PageFaultErrorCode_all : Z :=
  foldr Z.lor 0 [PROTECTION_VIOLATION; CAUSED_BY_WRITE; USER_MODE; MALFORMED_TABLE;
    INSTRUCTION_FETCH; PROTECTION_KEY; SHADOW_STACK; SGX; RMP].

Record SelectorErrorCode : Type := mkSelectorErrorCode { sec_flags : Z }.

Inductive DescriptorTable : Type := Gdt | Idt | Ldt.

Definition SelectorErrorCode_new (value : Z) : option SelectorErrorCode :=
  if U16_MAX <? value then None else Some (mkSelectorErrorCode value).

Definition SelectorErrorCode_new_truncate (value : Z) : SelectorErrorCode :=
  mkSelectorErrorCode (wrap 16 value).

Section selector_error_code.
Context `{BitField}.

Definition SelectorErrorCode_external (self : SelectorErrorCode) : outcome bool :=
  get_bit 64 (sec_flags self) 0.

Definition SelectorErrorCode_descriptor_table (self : SelectorErrorCode)
    : outcome DescriptorTable :=
  b ← get_bits 64 (sec_flags self) 1 3;
  match b with
  | 0 => Ret Gdt
  | 1 => Ret Idt
  | 2 => Ret Ldt
  | 3 => Ret Idt
  | _ => Panic (* unreachable!() *)
  end.

Definition SelectorErrorCode_index (self : SelectorErrorCode) : outcome Z :=
  get_bits 64 (sec_flags self) 3 16.
End selector_error_code.

Definition SelectorErrorCode_is_null (self : SelectorErrorCode) : bool := sec_flags self =? 0.

(** ** [ExceptionVector] *)
Inductive ExceptionVector : Type :=
  | Division | Debug | NonMaskableInterrupt | Breakpoint | Overflow | BoundRange
  | InvalidOpcode | DeviceNotAvailable | Double | InvalidTss | SegmentNotPresent | Stack
  | GeneralProtection | PageFault | X87FloatingPoint | AlignmentCheck | MachineCheck
  | SimdFloatingPoint | Virtualization | ControlProtection | HypervisorInjection
  | VmmCommunication | Security.

#[export] Instance ExceptionVector_eq_dec : EqDecision ExceptionVector.
Proof. solve_decision. Defined.

(** [vector as u8]: the discriminant. *)
Definition ExceptionVector_u8 (v : ExceptionVector) : Z :=
  match v with
  | Division => 0x00 | Debug => 0x01 | NonMaskableInterrupt => 0x02 | Breakpoint => 0x03
  | Overflow => 0x04 | BoundRange => 0x05 | InvalidOpcode => 0x06 | DeviceNotAvailable => 0x07
  | Double => 0x08 | InvalidTss => 0x0A | SegmentNotPresent => 0x0B | Stack => 0x0C
  | GeneralProtection => 0x0D | PageFault => 0x0E | X87FloatingPoint => 0x10
  | AlignmentCheck => 0x11 | MachineCheck => 0x12 | SimdFloatingPoint => 0x13
  | Virtualization => 0x14 | ControlProtection => 0x15 | HypervisorInjection => 0x1C
  | VmmCommunication => 0x1D | Security => 0x1E
  end.

Inductive InvalidExceptionVectorNumber : Type := mkInvalidExceptionVectorNumber (n : Z).

Definition ExceptionVector_try_from (exception_vector_number : Z)
    : result ExceptionVector InvalidExceptionVectorNumber :=
  match exception_vector_number with
  | 0x00 => Ok Division
  | 0x01 => Ok Debug
  | 0x02 => Ok NonMaskableInterrupt
  | 0x03 => Ok Breakpoint
  | 0x04 => Ok Overflow
  | 0x05 => Ok BoundRange
  | 0x06 => Ok InvalidOpcode
  | 0x07 => Ok DeviceNotAvailable
  | 0x08 => Ok Double
  | 0x0A => Ok InvalidTss
  | 0x0B => Ok SegmentNotPresent
  | 0x0C => Ok Stack
  | 0x0D => Ok GeneralProtection
  | 0x0E => Ok PageFault
  | 0x10 => Ok X87FloatingPoint
  | 0x11 => Ok AlignmentCheck
  | 0x12 => Ok MachineCheck
  | 0x13 => Ok SimdFloatingPoint
  | 0x14 => Ok Virtualization
  | 0x15 => Ok ControlProtection
  | 0x1C => Ok HypervisorInjection
  | 0x1D => Ok VmmCommunication
  | 0x1E => Ok Security
  | n => Err (mkInvalidExceptionVectorNumber n)
  end.

(** ** The stack frame of an interrupt *)
Record InterruptStackFrameValue : Type := mkInterruptStackFrameValue {
  instruction_pointer : VirtAddr;
  code_segment : SegmentSelector;
  frame_reserved1 : list Z;
  cpu_flags : Z;
  stack_pointer : VirtAddr;
  stack_segment : SegmentSelector;
  frame_reserved2 : list Z;
}.

Definition InterruptStackFrameValue_new (instruction_pointer : VirtAddr)
    (code_segment : SegmentSelector) (cpu_flags : Z) (stack_pointer : VirtAddr)
    (stack_segment : SegmentSelector) : InterruptStackFrameValue := {|
  instruction_pointer := instruction_pointer;
  code_segment := code_segment;
  frame_reserved1 := replicate 6 0;
  cpu_flags := cpu_flags;
  stack_pointer := stack_pointer;
  stack_segment := stack_segment;
  frame_reserved2 := replicate 6 0;
|}.

Record InterruptStackFrame : Type := mkInterruptStackFrame { frame_value : InterruptStackFrameValue }.

(** [Deref]. *)
Definition InterruptStackFrame_deref (self : InterruptStackFrame) : InterruptStackFrameValue :=
  frame_value self.

Definition InterruptStackFrame_new (instruction_pointer : VirtAddr)
    (code_segment : SegmentSelector) (cpu_flags : Z) (stack_pointer : VirtAddr)
    (stack_segment : SegmentSelector) : InterruptStackFrame :=
  mkInterruptStackFrame (InterruptStackFrameValue_new instruction_pointer code_segment cpu_flags
    stack_pointer stack_segment).

(** [iretq]: five [push] instructions (of registers of 64 bits), the last word
    pushed is the head of the stack, and then the instruction. *)
Definition InterruptStackFrameValue_iretq (self : InterruptStackFrameValue) (stack : list Z)
    : list Z :=
  let push w stack := w :: stack in
  let stack := push (selector (stack_segment self)) stack in
  let stack := push (VirtAddr_as_u64 (stack_pointer self)) stack in
  let stack := push (cpu_flags self) stack in
  let stack := push (selector (code_segment self)) stack in
  push (VirtAddr_as_u64 (instruction_pointer self)) stack.

(** ** The memory image of an entry, and the gate the processor reads from it *)
Definition entry_image {F} (e : IdtEntry F) : Z :=
  pack [(16, pointer_low e); (16, selector (options_cs (options e)));
        (16, options_bits (options e)); (16, pointer_middle e); (32, pointer_high e);
        (32, entry_reserved e)].

Record Gate : Type := mkGate {
  gate_offset : Z;
  gate_selector : Z;
  gate_ist : Z;
  gate_type : Z;
  gate_dpl : Z;
  gate_present : bool;
}.

(** The format of a long-mode interrupt or trap gate. *)
Definition decode_gate (w : Z) : Gate := {|
  gate_offset := field w 0 16 + field w 48 64 * 2 ^ 16 + field w 64 96 * 2 ^ 32;
  gate_selector := field w 16 32;
  gate_ist := field w 32 35;
  gate_type := field w 40 44;
  gate_dpl := field w 45 47;
  gate_present := Z.odd (field w 47 48);
|}.
Definition gate_of {F} (e : IdtEntry F) : Gate := decode_gate (entry_image e).

Definition EntryOptions_wf (o : EntryOptions) : Prop :=
  u16 (selector (options_cs o)) /\ u16 (options_bits o).
(** The processor ignores the reserved word. *)
Definition IdtEntry_wf {F} (e : IdtEntry F) : Prop :=
  u16 (pointer_low e) /\ EntryOptions_wf (options e) /\ u16 (pointer_middle e) /\
  uN 32 (pointer_high e).

(** The gate in terms of the fields of the structure. *)
Lemma gate_of_fields {F} (e : IdtEntry F) :
  IdtEntry_wf e ->
  gate_of e = {|
    gate_offset := pointer_low e + pointer_middle e * 2 ^ 16 + pointer_high e * 2 ^ 32;
    gate_selector := selector (options_cs (options e));
    gate_ist := field (options_bits (options e)) 0 3;
    gate_type := field (options_bits (options e)) 8 12;
    gate_dpl := field (options_bits (options e)) 13 15;
    gate_present := Z.odd (field (options_bits (options e)) 15 16);
  |}.
Proof.
  intros (H1 & (H2 & H3) & H4 & H5). unfold gate_of, decode_gate, entry_image. f_equal.
  all: repeat first [rewrite field_pack_low by (done || lia) | rewrite field_pack_high by (done || lia)].
  all: try reflexivity; try by apply field_all.
  change (field (pointer_middle e) _ _) with (field (pointer_middle e) 0 16).
  change (field (pointer_high e) _ _) with (field (pointer_high e) 0 32).
  by rewrite !field_all.
Qed.

(** The changes of a gate that the setters promise. *)
Definition gate_set_present (g : Gate) (b : bool) : Gate :=
  mkGate (gate_offset g) (gate_selector g) (gate_ist g) (gate_type g) (gate_dpl g) b.
Definition gate_set_dpl (g : Gate) (l : PrivilegeLevel) : Gate :=
  mkGate (gate_offset g) (gate_selector g) (gate_ist g) (gate_type g) (privilege_u16 l)
    (gate_present g).
Definition gate_set_ist (g : Gate) (ist : Z) : Gate :=
  mkGate (gate_offset g) (gate_selector g) ist (gate_type g) (gate_dpl g) (gate_present g).
Definition gate_set_selector (g : Gate) (s : SegmentSelector) : Gate :=
  mkGate (gate_offset g) (selector s) (gate_ist g) (gate_type g) (gate_dpl g) (gate_present g).
(** Bit 0 of the type distinguishes a trap gate from an interrupt gate. *)
Definition gate_set_trap (g : Gate) (trap : bool) : Gate :=
  mkGate (gate_offset g) (gate_selector g) (gate_ist g) (gate_type g / 2 * 2 + Z.b2z trap)
    (gate_dpl g) (gate_present g).

Lemma with_options_wf {F} (e : IdtEntry F) cs b :
  IdtEntry_wf e -> u16 (selector cs) -> u16 b -> IdtEntry_wf (with_options e (mkEntryOptions cs b)).
Proof. by intros (H1 & _ & H2). Qed.

Lemma privilege_uN l : uN 2 (privilege_u16 l).
Proof. destruct l; split; vm_compute; congruence. Qed.

Lemma field_bit0 x i hi b :
  0 <= i -> i + 1 <= hi -> field (set_field x i (i + 1) (Z.b2z b)) i hi =
    field x i hi / 2 * 2 + Z.b2z b.
Proof.
  intros Hi Hh. rewrite (Z.add_comm _ (Z.b2z b)). change 2 with (2 ^ 1) at 2.
  rewrite <- lor_low_high by (lia || by destruct b). apply Z.bits_inj'. intros j Hj.
  rewrite testbit_field by lia. rewrite Z.lor_spec.
  rewrite testbit_set_bit by lia. change 2 with (2 ^ 1). destruct (Z.eqb_spec (j + i) i).
  - replace j with 0 by lia. rewrite Z.mul_pow2_bits_low by lia.
    rewrite (proj2 (Z.ltb_lt 0 (hi - i))) by lia. by destruct b.
  - rewrite Z.mul_pow2_bits, Z.div_pow2_bits, testbit_field by lia.
    replace (j - 1 + 1) with j by lia. rewrite (uN_testbit_high 1 (Z.b2z b)); [done|lia| |lia].
    by destruct b.
Qed.

Section entries.
Context `{BFL : BitFieldLaws} `{Target} {F : HandlerType}.
Implicit Types e : IdtEntry F.

(** The setters of [EntryOptions] on the entry that contains the options. *)
Definition updates (e : IdtEntry F) (r : outcome EntryOptions) (g : Gate) : Prop :=
  exists o, r = Ret o /\ IdtEntry_wf (with_options e o) /\ gate_of (with_options e o) = g.

Ltac gate_fields := rewrite !gate_of_fields by done; unfold gate_set_present, gate_set_dpl,
    gate_set_ist, gate_set_selector, gate_set_trap;
  cbn [gate_offset gate_selector gate_ist gate_type gate_dpl gate_present pointer_low
    pointer_middle pointer_high options with_options options_cs options_bits].
Ltac gate_update He := destruct (He) as (_ & (? & ?) & _);
  unfold updates, EntryOptions_set_present, EntryOptions_disable_interrupts,
    EntryOptions_set_privilege_level, EntryOptions_set_stack_index; bits_write;
  eexists; split; [reflexivity|]; apply and_wlog_r;
  [apply with_options_wf; [done|done|bits_uN]|intros ?]; gate_fields;
  rewrite <- ?testbit_field_0 by lia; bits_read.

Lemma set_present_gate e b : IdtEntry_wf e ->
  updates e (EntryOptions_set_present (options e) b) (gate_set_present (gate_of e) b).
Proof.
  intros He. by gate_update He.
Qed.

Lemma set_privilege_level_gate e l : IdtEntry_wf e ->
  updates e (EntryOptions_set_privilege_level (options e) l) (gate_set_dpl (gate_of e) l).
Proof.
  intros He. pose proof (privilege_uN l) as Hl. change (uN (15 - 13) (privilege_u16 l)) in Hl.
  by gate_update He.
Qed.

Lemma disable_interrupts_gate e d : IdtEntry_wf e ->
  updates e (EntryOptions_disable_interrupts (options e) d) (gate_set_trap (gate_of e) (negb d)).
Proof.
  intros He. gate_update He. rewrite field_bit0 by lia. by bits_read.
Qed.

Lemma set_stack_index_gate e i : IdtEntry_wf e -> 0 <= i < 7 ->
  updates e (EntryOptions_set_stack_index (options e) i) (gate_set_ist (gate_of e) (i + 1)).
Proof.
  intros He Hi. assert (uN (3 - 0) (i + 1)) by (unfold uN; simpl; lia).
  unfold EntryOptions_set_stack_index. rewrite arith_in_range by (unfold uN; simpl; lia).
  by gate_update He.
Qed.

(** Any other index panics, but for 65535 in the release profile: [index + 1]
    wraps to 0 and the switch to an interrupt stack is turned off. *)
Lemma set_stack_index_out_of_range e i : IdtEntry_wf e -> u16 i -> 7 <= i ->
  if (i =? 65535) && negb overflow_checks
  then updates e (EntryOptions_set_stack_index (options e) i) (gate_set_ist (gate_of e) 0)
  else EntryOptions_set_stack_index (options e) i = Panic.
Proof.
  intros He Hu Hi. destruct (Z.eqb_spec i 65535) as [->|Hne]; simpl.
  - unfold EntryOptions_set_stack_index, arith. cbn -[set_bits].
    destruct overflow_checks; simpl; [done|].
    assert (uN (3 - 0) 0) by (by split).
    by gate_update He.
  - unfold EntryOptions_set_stack_index. rewrite arith_in_range by mlia.
    destruct He as (_ & (_ & Hb) & _). cbn [mbind outcome_bind].
    by rewrite set_bits_panic by (done || mlia).
Qed.

Lemma set_code_selector_gate e cs : IdtEntry_wf e -> u16 (selector cs) ->
  updates e (Ret (EntryOptions_set_code_selector (options e) cs)) (gate_set_selector (gate_of e) cs).
Proof.
  intros He Hc. unfold updates, EntryOptions_set_code_selector. destruct (He) as (_ & [_ ?] & _).
  eexists; split; [reflexivity|]. apply and_wlog_r; [by apply with_options_wf|intros ?].
  by gate_fields.
Qed.

(** What [fmt] reads back. *)
Lemma options_getters e : IdtEntry_wf e ->
  EntryOptions_present (options e) = Ret (gate_present (gate_of e)) /\
  (exists l, EntryOptions_privilege_level (options e) = Ret l /\ privilege_u16 l = gate_dpl (gate_of e)) /\
  EntryOptions_stack_index (options e) =
    Ret (if gate_ist (gate_of e) =? 0 then None else Some (gate_ist (gate_of e) - 1)).
Proof.
  intros He. gate_fields. destruct (He) as (_ & [_ ?] & _).
  unfold EntryOptions_present, EntryOptions_privilege_level, EntryOptions_stack_index.
  bits_write. split; [|split].
  - by rewrite <- testbit_field_0.
  - apply PrivilegeLevel_from_u16_total. pose proof (field_uN (options_bits (options e)) 13 15). mlia.
  - pose proof (field_uN (options_bits (options e)) 0 3 ltac:(lia)) as Hf.
    unfold checked_sub. destruct (Z.eqb_spec (field (options_bits (options e)) 0 3) 0) as [->|].
    + done.
    + rewrite checked_in_range by mlia. done.
Qed.

Lemma set_handler_addr_gate cs e a :
  u16 (selector cs) -> canonical a ->
  exists e', IdtEntry_set_handler_addr cs e a = Ret e' /\ IdtEntry_wf e' /\
    gate_of e' = mkGate (va a) (selector cs) 0 14 0 true /\ IdtEntry_handler_addr e' = a.
Proof.
  intros Hc Ha. pose proof (canonical_u64 a Ha) as Hv.
  unfold IdtEntry_set_handler_addr, EntryOptions_set_present, EntryOptions_set_code_selector,
    VirtAddr_as_u64.
  assert (u16 (options_bits EntryOptions_minimal)) by (split; vm_compute; congruence).
  cbn [options_cs options_bits]. bits_write. eexists; split; [reflexivity|].
  rewrite !Z.shiftr_div_pow2 by lia.
  apply and_wlog_r; [|intros Hwf].
  { split; [by apply wrap_uN|]. split; [split; [done|bits_uN]|]. by split_and!; try by apply wrap_uN. }
  rewrite gate_of_fields by done. unfold IdtEntry_handler_addr.
  cbn [pointer_low pointer_middle pointer_high options options_cs options_bits selector].
  assert (wrap 16 (va a) + wrap 16 (va a / 2 ^ 16) * 2 ^ 16 + wrap 32 (va a / 2 ^ 32) * 2 ^ 32 = va a)
    as E by mlia.
  split; [by rewrite E|].
  rewrite !Z.shiftl_mul_pow2 by lia. rewrite (lor_low_high (wrap 16 (va a))) by mlia.
  rewrite lor_low_high, E by mlia. by apply VirtAddr_new_truncate_id.
Qed.
End entries.

(** The memory image of a frame, in words of 64 bits.  [iretq] pushes it, so
    that the processor pops what the structure contains. *)
Definition frame_image (f : InterruptStackFrameValue) : list Z :=
  [va (instruction_pointer f);
   pack ((16, selector (code_segment f)) :: ((fun b => (8, b)) <$> frame_reserved1 f));
   cpu_flags f; va (stack_pointer f);
   pack ((16, selector (stack_segment f)) :: ((fun b => (8, b)) <$> frame_reserved2 f))].

Lemma iretq_image rip cs flags rsp ss stack :
  let f := InterruptStackFrameValue_new rip cs flags rsp ss in
  InterruptStackFrameValue_iretq f stack = frame_image f ++ stack.
Proof.
  unfold InterruptStackFrameValue_iretq, frame_image, VirtAddr_as_u64. cbn -[Z.pow].
  by rewrite !Z.mul_0_r, !Z.add_0_r.
Qed.

(** C18. Entry and EntryOptions refine the gate descriptor of the processor,
    read from the 128-bit memory image: set_handler_addr makes a present
    interrupt gate of ring 0 for the address and the code segment, from which
    handler_addr reads the address back; every option setter changes the one
    component of the gate it names, and the getters read it.  set_stack_index
    stores index + 1 and panics for an index of 7 or more, except for 65535
    without overflow checks, where it turns the stack switch off. *)
Theorem IdtEntry_refines_gate `{BFL : BitFieldLaws} `{Target} {F} (e : IdtEntry F) cs :
  IdtEntry_wf e -> u16 (selector cs) ->
  (forall a, canonical a ->
    exists e', IdtEntry_set_handler_addr cs e a = Ret e' /\ IdtEntry_wf e' /\
      gate_of e' = mkGate (va a) (selector cs) 0 14 0 true /\ IdtEntry_handler_addr e' = a) /\
  updates e (Ret (EntryOptions_set_code_selector (options e) cs)) (gate_set_selector (gate_of e) cs) /\
  (forall b, updates e (EntryOptions_set_present (options e) b) (gate_set_present (gate_of e) b)) /\
  (forall d, updates e (EntryOptions_disable_interrupts (options e) d)
    (gate_set_trap (gate_of e) (negb d))) /\
  (forall l, updates e (EntryOptions_set_privilege_level (options e) l)
    (gate_set_dpl (gate_of e) l)) /\
  (forall i, 0 <= i < 7 ->
    updates e (EntryOptions_set_stack_index (options e) i) (gate_set_ist (gate_of e) (i + 1))) /\
  (forall i, u16 i -> 7 <= i ->
    if (i =? 65535) && negb overflow_checks
    then updates e (EntryOptions_set_stack_index (options e) i) (gate_set_ist (gate_of e) 0)
    else EntryOptions_set_stack_index (options e) i = Panic) /\
  EntryOptions_present (options e) = Ret (gate_present (gate_of e)) /\
  (exists l, EntryOptions_privilege_level (options e) = Ret l /\
    privilege_u16 l = gate_dpl (gate_of e)) /\
  EntryOptions_stack_index (options e) =
    Ret (if gate_ist (gate_of e) =? 0 then None else Some (gate_ist (gate_of e) - 1)).
Proof.
  intros He Hc. split; [intros; by apply set_handler_addr_gate|].
  split; [by apply set_code_selector_gate|]. split; [intros; by apply set_present_gate|].
  split; [intros; by apply disable_interrupts_gate|].
  split; [intros; by apply set_privilege_level_gate|].
  split; [intros; by apply set_stack_index_gate|].
  split; [intros; by apply set_stack_index_out_of_range|by apply options_getters].
Qed.

Lemma IdtEntry_missing_wf {F} : IdtEntry_wf (@IdtEntry_missing F).
Proof. by split_and!; split. Qed.

Lemma IdtEntry_refines_gate_witness :
  let T := {| overflow_checks := false; usize_bits := 64 |} in
  let e := @IdtEntry_missing HandlerFunc in
  IdtEntry_wf e /\
  (exists e', IdtEntry_set_handler_addr (mkSegmentSelector 8) e (mkVirtAddr 0x123456789000) = Ret e' /\
    gate_of e' = mkGate 0x123456789000 8 0 14 0 true) /\
  updates e (EntryOptions_set_stack_index (H := ref_bit_field) (H0 := T) (options e) 65535)
    (gate_set_ist (gate_of e) 0).
Proof.
  intros T e. assert (He : IdtEntry_wf e) by apply IdtEntry_missing_wf.
  destruct (IdtEntry_refines_gate (H := T) e (mkSegmentSelector 8) He ltac:(by split))
    as (H1 & _ & _ & _ & _ & _ & H2 & _).
  split; [exact He|]. split.
  - destruct (H1 (mkVirtAddr 0x123456789000)) as (e' & E & _ & Hg & _); [by left; vm_compute|].
    exists e'. split; [exact E|exact Hg].
  - exact (H2 65535 ltac:(by split) ltac:(lia)).
Defined.

Lemma ExceptionVector_try_from_Ok n v :
  ExceptionVector_try_from n = Ok v <-> n = ExceptionVector_u8 v.
Proof.
  split; [|by intros ->; destruct v].
  unfold ExceptionVector_try_from. repeat case_match; intros [= <-]; reflexivity.
Qed.

(** ExceptionVector and SelectorErrorCode: try_from accepts exactly the
    numbers of the declared vectors and inverts the cast to u8 (so not the
    coprocessor segment overrun 9, the reserved numbers and those above 30);
    SelectorErrorCode::new accepts exactly 16-bit values, new_truncate keeps the
    low 16 bits, and the error code is recovered from the external bit, the
    table and the index; the code 3 of a table is the interrupt descriptor
    table again. *)
Theorem exception_codes_roundtrip `{BFL : BitFieldLaws} n :
  (forall v, ExceptionVector_try_from n = Ok v <-> n = ExceptionVector_u8 v) /\
  ((forall v, n <> ExceptionVector_u8 v) <->
    ExceptionVector_try_from n = Err (mkInvalidExceptionVectorNumber n)) /\
  (u64 n -> forall c, SelectorErrorCode_new n = Some c <-> u16 n /\ sec_flags c = n) /\
  (u64 n -> exists x t,
    let c := SelectorErrorCode_new_truncate n in
    SelectorErrorCode_new (n mod 2 ^ 16) = Some c /\
    SelectorErrorCode_external c = Ret x /\
    SelectorErrorCode_index c = Ret (n mod 2 ^ 16 / 8) /\
    n mod 2 ^ 16 = Z.b2z x + 2 * t + 8 * (n mod 2 ^ 16 / 8) /\ 0 <= t < 4 /\
    SelectorErrorCode_descriptor_table c =
      Ret (if t =? 0 then Gdt else if t =? 2 then Ldt else Idt)).
Proof.
  pose proof (ExceptionVector_try_from_Ok n) as Hv. split; [done|]. split; [|split].
  - split.
    + intros Hn. destruct (ExceptionVector_try_from n) as [v|] eqn:E;
        [by destruct (Hn v); apply Hv|]. revert E. unfold ExceptionVector_try_from.
      by repeat case_match; intros [= <-].
    + intros E v Hn. apply Hv in Hn. congruence.
  - intros Hn [f]. unfold SelectorErrorCode_new. cbn [sec_flags].
    destruct (Z.ltb_spec U16_MAX n); split; try intros [= ->]; try intros [? ->]; try done; mlia.
  - intros Hn. set (x := n mod 2 ^ 16).
    assert (Hx : u16 x) by (by apply Z.mod_pos_bound).
    assert (H64 : u64 x) by (by apply (uN_mono 16)).
    exists (Z.testbit x 0), (field x 1 3). unfold SelectorErrorCode_new_truncate,
      SelectorErrorCode_external, SelectorErrorCode_index, SelectorErrorCode_descriptor_table.
    cbn [sec_flags]. change (wrap 16 n) with x. bits_write.
    assert (field x 1 3 = x / 2 mod 4) as -> by reflexivity.
    assert (field x 3 16 = x / 8) as ->.
    { unfold field. rewrite Z.mod_small by mlia. reflexivity. }
    split; [|split; [done|]].
    { unfold SelectorErrorCode_new. by rewrite (proj2 (Z.ltb_ge _ _)) by mlia. }
    assert (Z.b2z (Z.testbit x 0) = x mod 2) as ->.
    { rewrite Z.bit0_odd, Zmod_odd. by destruct (Z.odd x). }
    split_and!; try done; try mlia.
    assert (x / 2 mod 4 = 0 \/ x / 2 mod 4 = 1 \/ x / 2 mod 4 = 2 \/ x / 2 mod 4 = 3)
      as [-> | [-> | [-> | ->]]] by mlia; reflexivity.
Qed.

Lemma exception_codes_roundtrip_witness :
  SelectorErrorCode_new 0x10000 = None /\
  SelectorErrorCode_index (SelectorErrorCode_new_truncate 0x7654a) = Ret (0x654a / 8).
Proof.
  destruct (exception_codes_roundtrip 0x7654a) as (_ & _ & _ & H1).
  destruct (exception_codes_roundtrip 0x10000) as (_ & _ & H2 & _).
  split.
  - destruct (SelectorErrorCode_new 0x10000) as [c|] eqn:E; [|reflexivity].
    destruct (proj1 (H2 ltac:(by split) c) eq_refl) as [[_ H] _]. discriminate H.
  - destruct (H1 ltac:(by split)) as (x & t & _ & _ & E & _). exact E.
Defined.
