(* ===== verification/IdtTable.v ===== *)
(** * The interrupt descriptor table refines the array of 256 gates

    The processor reads the table as an array of 256 words of 128 bits; the
    structure has a typed field per exception and three arrays.  Indexing by a
    vector reaches the gate of this vector, indexing by a range the gates of
    the range, and every access that would ignore the type of a handler is
    rejected. *)
From Stdlib Require Import ZArith Lia Bool.
From stdpp Require Import base decidable option list numbers.
From S2P Require Import Prelude Crates Addr Gdt Idt.
#[local] Open Scope Z_scope.

(** The memory image of the [repr(C)] structure: 32 exceptions and the
    interrupts. *)
Definition exceptions_image (t : InterruptDescriptorTable) : list Z :=
  [entry_image (divide_error t); entry_image (debug t); entry_image (non_maskable_interrupt t);
   entry_image (breakpoint t); entry_image (overflow t); entry_image (bound_range_exceeded t);
   entry_image (invalid_opcode t); entry_image (device_not_available t);
   entry_image (double_fault t); entry_image (coprocessor_segment_overrun t);
   entry_image (invalid_tss t); entry_image (segment_not_present t);
   entry_image (stack_segment_fault t); entry_image (general_protection_fault t);
   entry_image (page_fault t); entry_image (idt_reserved_1 t);
   entry_image (x87_floating_point t); entry_image (alignment_check t);
   entry_image (machine_check t); entry_image (simd_floating_point t);
   entry_image (virtualization t); entry_image (cp_protection_exception t)] ++
  (entry_image <$> idt_reserved_2 t) ++
  [entry_image (hv_injection_exception t); entry_image (vmm_communication_exception t);
   entry_image (security_exception t); entry_image (idt_reserved_3 t)].

Definition IDT_image (t : InterruptDescriptorTable) : list Z :=
  exceptions_image t ++ (entry_image <$> interrupts t).

(** The lengths that the types of the two arrays fix. *)
Definition IDT_sized (t : InterruptDescriptorTable) : Prop :=
  length (idt_reserved_2 t) = 6%nat /\ length (interrupts t) = 224%nat.

Lemma IDT_new_sized : IDT_sized IDT_new.
Proof. done. Qed.

Lemma exceptions_image_length t : IDT_sized t -> length (exceptions_image t) = 32%nat.
Proof. intros [H2 _]. unfold exceptions_image. by rewrite !length_app, length_fmap, H2. Qed.

Lemma IDT_image_length t : IDT_sized t -> length (IDT_image t) = 256%nat.
Proof.
  intros Ht. unfold IDT_image. rewrite length_app, length_fmap, exceptions_image_length by done.
  by destruct Ht as [_ ->].
Qed.

Lemma IDT_image_interrupts t s :
  IDT_image (t <| interrupts := s |>) = exceptions_image t ++ (entry_image <$> s).
Proof. reflexivity. Qed.

(** The entry [e] of the table is the gate number [i], and [put] replaces it. *)
Definition slot {F} (t : InterruptDescriptorTable) (i : nat) (e : IdtEntry F)
    (put : IdtEntry F -> InterruptDescriptorTable) : Prop :=
  IDT_image t !! i = Some (entry_image e) /\
  forall e', IDT_sized (put e') /\ IDT_image (put e') = <[i := entry_image e']> (IDT_image t).

(** [slot] for the field of an exception, by computation. *)
Ltac field_slot := lazymatch goal with H : IDT_sized ?t |- _ =>
  let H2 := fresh in let H3 := fresh in
  destruct H as [H2 H3]; destruct t; cbn in H2, H3;
  repeat match goal with l : list (IdtEntry _) |- _ => first
    [ destruct l; [discriminate H2|] | destruct l; [clear H2|discriminate H2] ]
  end; split; [reflexivity|intros ?; split; [by split|reflexivity]] end.

Lemma interrupt_slot t k e :
  IDT_sized t -> interrupts t !! k = Some e ->
  slot t (32 + k) e (fun e' => t <| interrupts := <[k := e']> (interrupts t) |>).
Proof.
  intros Ht Hk. pose proof (exceptions_image_length t Ht) as Hl.
  split; [|intros e'; split].
  - unfold IDT_image. rewrite lookup_app_r, Hl by lia. replace (32 + k - 32)%nat with k by lia.
    by rewrite list_lookup_fmap, Hk.
  - destruct Ht as [H2 H3]. split; [done|]. cbn. by rewrite length_insert.
  - rewrite IDT_image_interrupts. unfold IDT_image. rewrite insert_app_r_alt, Hl by lia.
    replace (32 + k - 32)%nat with k by lia. by rewrite list_fmap_insert.
Qed.

(** ** Indexing by a vector *)

(** The exceptions that push an error code, in the manuals of the processors. *)
Definition has_error_code (v : ExceptionVector) : bool :=
  match v with
  | Double | InvalidTss | SegmentNotPresent | Stack | GeneralProtection | PageFault
  | AlignmentCheck | ControlProtection | VmmCommunication | Security => true
  | _ => false
  end.

(** The vectors whose handlers return and get no error code: the interrupts,
    the coprocessor segment overrun, and the exceptions without an error code
    other than the machine check. *)
Definition plain_vector (i : Z) : bool :=
  (32 <=? i) || (i =? 9) ||
  match ExceptionVector_try_from i with
  | Ok v => negb (has_error_code v) && negb (bool_decide (v = MachineCheck))
  | Err _ => false
  end.

(** A statement about all vectors, by cases on the exceptions. *)
Lemma vector_cases (P : Z -> Prop) :
  Forall P (Z.of_nat <$> seq 0 32) -> (forall k, (k < 224)%nat -> P (32 + Z.of_nat k)) ->
  forall i, 0 <= i < 256 -> P i.
Proof.
  intros H1 H2 i Hi. destruct (decide (i < 32)).
  - apply (Forall_lookup_1 P _ (Z.to_nat i) i H1). rewrite list_lookup_fmap, lookup_seq_lt by lia.
    cbn. f_equal. lia.
  - replace i with (32 + Z.of_nat (Z.to_nat (i - 32))) by lia. apply H2. lia.
Qed.

Lemma IDT_index_interrupts t k :
  IDT_index t (32 + Z.of_nat k) = unwrap (interrupts t !! k) /\
  IDT_index_mut t (32 + Z.of_nat k) =
    (e ← unwrap (interrupts t !! k);
     Ret (e, fun e' => t <| interrupts := <[k := e']> (interrupts t) |>)).
Proof.
  remember (32 + Z.of_nat k) as i eqn:Ei.
  assert (k = Z.to_nat (i - 32)) as -> by lia. assert (32 <= i) as Hi by lia. clear Ei.
  destruct i as [|p|p]; [lia| |lia].
  do 5 (destruct p as [p|p|]; try lia); done.
Qed.

(** C17. Indexing the table by a vector refines indexing the array of 256 gates
    that the processor reads: for the vectors whose handlers take no error code
    and return (judged by ExceptionVector) Index and IndexMut give the gate of
    this vector and a write through the reference changes this gate only; for
    every other vector, exceptions with an error code, the diverging machine
    check and reserved vectors, both panic. *)
Theorem IDT_index_correct t i :
  IDT_sized t -> 0 <= i < 256 ->
  if plain_vector i
  then exists e put, IDT_index t i = Ret e /\ IDT_index_mut t i = Ret (e, put) /\
         slot t (Z.to_nat i) e put
  else IDT_index t i = Panic /\ IDT_index_mut t i = Panic.
Proof.
  intros Ht. revert i. apply vector_cases.
  - repeat apply Forall_cons_2; try apply Forall_nil; try by split.
    all: cbv [plain_vector]; cbn; eexists _, _; do 2 (split; [reflexivity|]); field_slot.
  - intros k Hk. destruct (IDT_index_interrupts t k) as [-> ->].
    destruct (lookup_lt_is_Some_2 (interrupts t) k) as [e He]; [by destruct Ht as [_ ->]|].
    unfold plain_vector. rewrite (proj2 (Z.leb_le _ _)), He by lia. cbn.
    eexists _, _. do 2 (split; [reflexivity|]).
    replace (Z.to_nat (32 + Z.of_nat k)) with (32 + k)%nat by lia. by apply interrupt_slot.
Qed.

Lemma IDT_index_correct_witness :
  (exists e put, IDT_index IDT_new 255 = Ret e /\ IDT_index_mut IDT_new 255 = Ret (e, put) /\
     slot IDT_new 255 e put) /\
  IDT_index IDT_new 14 = Panic.
Proof.
  split.
  - exact (IDT_index_correct IDT_new 255 IDT_new_sized ltac:(lia)).
  - exact (proj1 (IDT_index_correct IDT_new 14 IDT_new_sized ltac:(lia))).
Defined.

(** ** Indexing by a range *)
Definition Bound_u8 (b : Bound) : Prop :=
  match b with Included n | Excluded n => uN 8 n | Unbounded => True end.

(** The half-open interval of the vectors that a range contains. *)
Definition range_start (r : RangeBounds) : Z :=
  match fst r with Included n => n | Excluded n => n + 1 | Unbounded => 0 end.
Definition range_end (r : RangeBounds) : Z :=
  match snd r with Included n => n + 1 | Excluded n => n | Unbounded => 256 end.

Lemma RangeBounds_contains_spec r i :
  0 <= i < 256 -> RangeBounds_contains r i = true <-> range_start r <= i < range_end r.
Proof.
  intros Hi. unfold RangeBounds_contains, range_start, range_end.
  destruct r as [[] []]; cbn; rewrite ?andb_true_iff, ?Z.leb_le, ?Z.ltb_lt; lia.
Qed.

Section slices.
Context `{T : Target} {TO : TargetOk T}.

Lemma usize_arith x : 0 <= x <= 256 -> arith usize_bits x = Ret x.
Proof.
  intros Hx. apply arith_in_range. unfold uN. destruct target_usize as [-> | ->]; cbn; lia.
Qed.

Lemma condition_slice_bounds_val r :
  Bound_u8 (fst r) -> Bound_u8 (snd r) ->
  condition_slice_bounds r =
    if range_start r <? 32 then Panic else Ret (range_start r, range_end r).
Proof.
  intros H1 H2. unfold condition_slice_bounds, range_start, range_end.
  destruct r as [[n| n|] [m|m|]]; cbn in H1, H2; unfold uN in *; cbn -[arith];
    rewrite ?usize_arith by lia; done.
Qed.

Lemma slice_range_panic {X} (l : list X) a b :
  b < a \/ Z.of_nat (length l) < b -> slice_range l a b = Panic.
Proof.
  intros H. unfold slice_range. by destruct (Z.leb_spec a b), (Z.leb_spec b (Z.of_nat (length l))); cbn; try lia.
Qed.

Lemma slice_range_val {X} (l : list X) a b :
  a <= b <= Z.of_nat (length l) ->
  slice_range l a b = Ret (take (Z.to_nat (b - a)) (drop (Z.to_nat a) l)).
Proof.
  intros H. unfold slice_range. by rewrite !(proj2 (Z.leb_le _ _)) by lia.
Qed.

(** An upper bound below 32 underflows: the subtraction panics, or wraps to an
    index beyond the end of the array. *)
Lemma slice_bounds_reversed t lo hi :
  IDT_sized t -> 32 <= lo <= 256 -> 0 <= hi < lo ->
  (b ← arith usize_bits (hi - 32); slice_range (interrupts t) (lo - 32) b) = Panic.
Proof.
  intros [_ Hl] Hlo Hhi. destruct (decide (32 <= hi)).
  - rewrite usize_arith by lia. apply slice_range_panic. lia.
  - unfold arith. rewrite (proj2 (Z.leb_gt _ _)) by lia. cbn. destruct overflow_checks; [done|].
    cbn. apply slice_range_panic. right. rewrite Hl. unfold wrap.
    destruct target_usize as [-> | ->]; mlia.
Qed.

Lemma IDT_slice_val t r :
  IDT_sized t -> Bound_u8 (fst r) -> Bound_u8 (snd r) ->
  32 <= range_start r <= range_end r ->
  let s := take (Z.to_nat (range_end r - range_start r))
             (drop (Z.to_nat (range_start r - 32)) (interrupts t)) in
  IDT_slice t r = Ret s /\
  IDT_slice_mut t r = Ret (s, fun s' =>
    t <| interrupts := slice_update (interrupts t) (range_start r - 32) s' |>).
Proof.
  intros [_ Hl] H1 H2 Hr s. assert (range_end r <= 256) as Hu.
  { unfold range_end. destruct (snd r); cbn in H2; unfold uN in *; lia. }
  unfold IDT_slice, IDT_slice_mut. rewrite condition_slice_bounds_val by done.
  rewrite (proj2 (Z.ltb_ge _ _)) by lia. cbn [mbind outcome_bind].
  rewrite !usize_arith by lia. cbn [mbind outcome_bind].
  rewrite slice_range_val by lia. cbn [mbind outcome_bind].
  by replace (range_end r - 32 - (range_start r - 32)) with (range_end r - range_start r) by lia.
Qed.

Lemma IDT_slice_panic t r :
  IDT_sized t -> Bound_u8 (fst r) -> Bound_u8 (snd r) ->
  ~ 32 <= range_start r <= range_end r ->
  IDT_slice t r = Panic /\ IDT_slice_mut t r = Panic.
Proof.
  intros Ht H1 H2 Hr. unfold IDT_slice, IDT_slice_mut. rewrite condition_slice_bounds_val by done.
  destruct (Z.ltb_spec (range_start r) 32); [done|]. cbn [mbind outcome_bind].
  assert (range_start r <= 256 /\ 0 <= range_end r) as [Hs He].
  { unfold range_start, range_end. destruct r as [[] []]; cbn in H1, H2 |- *; unfold uN in *; lia. }
  rewrite (usize_arith (range_start r - 32)) by lia. cbn [mbind outcome_bind].
  pose proof (slice_bounds_reversed t (range_start r) (range_end r) Ht ltac:(lia) ltac:(lia)) as E.
  destruct (arith usize_bits (range_end r - 32)) as [b| |]; cbn in E |- *; [|done|done].
  by rewrite E.
Qed.

(** A write of the elements [a .. a + length s'] of the interrupts, on the image. *)
Lemma slice_update_image t a s' :
  IDT_sized t -> 0 <= a -> a + Z.of_nat (length s') <= 224 ->
  IDT_sized (t <| interrupts := slice_update (interrupts t) a s' |>) /\
  IDT_image (t <| interrupts := slice_update (interrupts t) a s' |>) =
    take (32 + Z.to_nat a) (IDT_image t) ++ (entry_image <$> s') ++
    drop (32 + Z.to_nat a + length s') (IDT_image t).
Proof.
  intros Ht Ha Hb. pose proof (exceptions_image_length t Ht) as Hl. destruct Ht as [H2 H3]. split.
  - split; [done|]. cbn. unfold slice_update.
    rewrite !length_app, length_take, length_drop, H3. lia.
  - rewrite IDT_image_interrupts. unfold IDT_image, slice_update.
    rewrite take_app_ge, drop_app_ge, Hl by lia. rewrite <- app_assoc. f_equal.
    rewrite !fmap_app, fmap_take, fmap_drop. f_equal; [f_equal; lia|]. f_equal. f_equal. lia.
Qed.
End slices.

(** C28. Indexing the table by a range of vectors, of any of the range types,
    refines taking the slice of the array of gates: it panics exactly when the
    range starts below 32 (the exceptions) or ends before it starts, in both
    compilation profiles; otherwise it gives the gates of the vectors that the
    range contains, and a write through the mutable slice changes these gates
    only. *)
Theorem IDT_slice_correct `{T : Target} {TO : TargetOk T} t r :
  IDT_sized t -> Bound_u8 (fst r) -> Bound_u8 (snd r) ->
  let a := range_start r in
  let b := range_end r in
  (forall i, 0 <= i < 256 -> RangeBounds_contains r i = true <-> a <= i < b) /\
  (~ 32 <= a <= b -> IDT_slice t r = Panic /\ IDT_slice_mut t r = Panic) /\
  (32 <= a <= b ->
    exists s put, IDT_slice t r = Ret s /\ IDT_slice_mut t r = Ret (s, put) /\
      entry_image <$> s = take (Z.to_nat (b - a)) (drop (Z.to_nat a) (IDT_image t)) /\
      Z.of_nat (length s) = b - a /\
      forall s', length s' = length s ->
        IDT_sized (put s') /\
        IDT_image (put s') = take (Z.to_nat a) (IDT_image t) ++ (entry_image <$> s') ++
          drop (Z.to_nat b) (IDT_image t)).
Proof.
  intros Ht H1 H2 a b. split; [intros; by apply RangeBounds_contains_spec|].
  split; [by apply IDT_slice_panic|]. intros Hab.
  assert (b <= 256) as Hb by (unfold b, range_end; destruct (snd r); cbn in H2; unfold uN in *; lia).
  destruct (IDT_slice_val t r Ht H1 H2 Hab) as [E1 E2].
  eexists _, _. split; [exact E1|]. split; [exact E2|]. fold a b.
  pose proof (exceptions_image_length t Ht) as Hl. destruct (Ht) as [_ H3].
  assert (length (take (Z.to_nat (b - a)) (drop (Z.to_nat (a - 32)) (interrupts t))) =
    Z.to_nat (b - a)) as Hs by (rewrite length_take, length_drop, H3; lia).
  split_and!.
  - unfold IDT_image. rewrite drop_app_ge, Hl, fmap_take, fmap_drop by lia. do 2 f_equal. lia.
  - rewrite Hs. lia.
  - intros s'. rewrite Hs. intros Hs'.
    destruct (slice_update_image t (a - 32) s' Ht ltac:(lia) ltac:(lia)) as [Hw E].
    split; [exact Hw|]. rewrite E. f_equal; [f_equal; lia|]. f_equal. f_equal. lia.
Qed.

Lemma IDT_slice_correct_witness :
  let T := {| overflow_checks := false; usize_bits := 64 |} in
  (exists s, IDT_slice (H := T) IDT_new (Excluded 33, Included 40) = Ret s /\ length s = 7%nat) /\
  IDT_slice (H := T) IDT_new (Included 40, Excluded 10) = Panic.
Proof.
  intros T. assert (TargetOk T) as TO by by right. split.
  - destruct (IDT_slice_correct IDT_new (Excluded 33, Included 40) IDT_new_sized ltac:(by split)
      ltac:(by split)) as (_ & _ & H).
    destruct (H ltac:(cbn; lia)) as (s & _ & E & _ & _ & Hs & _). exists s. split; [exact E|].
    cbn in Hs. lia.
  - destruct (IDT_slice_correct IDT_new (Included 40, Excluded 10) IDT_new_sized ltac:(by split)
      ltac:(by split)) as (_ & H & _).
    exact (proj1 (H ltac:(cbn; lia))).
Defined.
