(* ===== verification/IdtHandlers.v ===== *)
(** * [set_general_handler!] (structures/idt.rs)

    The macros install one handler function, a stub, per vector of a range;
    each stub calls the general handler with its vector.  A function is known
    by its address only, which the linker chooses. *)
From Stdlib Require Import ZArith Lia Bool.
From stdpp Require Import base decidable option list numbers.
From S2P Require Import Prelude Crates Addr Gdt Idt IdtTable.
#[local] Open Scope Z_scope.

(** A function [handler] that an arm of [set_general_handler_entry!] declares:
    its type and the constant [IDX] it passes on. *)
Record Stub : Type := mkStub { stub_type : HandlerType; stub_idx : Z }.

(** A call of the stub.  The processor passes [error_code] to the types that
    take one; the stubs of the type [!] panic when the general handler
    returns. *)
Definition run_stub {St} (handler : InterruptStackFrame -> Z -> option Z -> St -> outcome St)
    (s : Stub) (frame : InterruptStackFrame) (error_code : Z) (st : St) : outcome St :=
  match stub_type s with
  | HandlerFunc => handler frame (stub_idx s) None st
  | HandlerFuncWithErrCode | PageFaultHandlerFunc =>
      handler frame (stub_idx s) (Some error_code) st
  | DivergingHandlerFunc => _ ← handler frame (stub_idx s) None st; Panic
  | DivergingHandlerFuncWithErrCode =>
      _ ← handler frame (stub_idx s) (Some error_code) st; Panic
  end.

Section macros.
Context `{BitField} (cs : SegmentSelector) (fn_addr : Stub -> Z).

(** [$field.set_handler_fn(handler)]. *)
Definition set_stub {F} (idx : Z) (e : IdtEntry F)
    (put : IdtEntry F -> InterruptDescriptorTable) : outcome InterruptDescriptorTable :=
  e' ← IdtEntry_set_handler_fn cs e (fn_addr (mkStub F idx));
  Ret (put e').

(** [set_general_handler_entry!]: the arms, by the eight tokens of the bits. *)
Definition set_general_handler_entry (idt : InterruptDescriptorTable) (idx : Z) (bits : list Z)
    : outcome InterruptDescriptorTable :=
  match bits with
  | [0; 0; 0; 0; 1; 0; 0; 0] => set_stub idx (double_fault idt) (fun e => idt <| double_fault := e |>)
  | [0; 0; 0; 0; 1; 0; 1; 0] => set_stub idx (invalid_tss idt) (fun e => idt <| invalid_tss := e |>)
  | [0; 0; 0; 0; 1; 0; 1; 1] =>
      set_stub idx (segment_not_present idt) (fun e => idt <| segment_not_present := e |>)
  | [0; 0; 0; 0; 1; 1; 0; 0] =>
      set_stub idx (stack_segment_fault idt) (fun e => idt <| stack_segment_fault := e |>)
  | [0; 0; 0; 0; 1; 1; 0; 1] =>
      set_stub idx (general_protection_fault idt) (fun e => idt <| general_protection_fault := e |>)
  | [0; 0; 0; 0; 1; 1; 1; 0] => set_stub idx (page_fault idt) (fun e => idt <| page_fault := e |>)
  | [0; 0; 0; 1; 0; 0; 0; 1] =>
      set_stub idx (alignment_check idt) (fun e => idt <| alignment_check := e |>)
  | [0; 0; 0; 1; 0; 0; 1; 0] => set_stub idx (machine_check idt) (fun e => idt <| machine_check := e |>)
  | [0; 0; 0; 1; 0; 1; 0; 1] =>
      set_stub idx (cp_protection_exception idt) (fun e => idt <| cp_protection_exception := e |>)
  | [0; 0; 0; 1; 1; 1; 0; 1] =>
      set_stub idx (vmm_communication_exception idt)
        (fun e => idt <| vmm_communication_exception := e |>)
  | [0; 0; 0; 1; 1; 1; 1; 0] =>
      set_stub idx (security_exception idt) (fun e => idt <| security_exception := e |>)
  (* reserved_1 *)
  | [0; 0; 0; 0; 1; 1; 1; 1] => Ret idt
  (* reserved_2 *)
  | [0; 0; 0; 1; 0; 1; 1; 0] => Ret idt
  | [0; 0; 0; 1; 0; 1; 1; 1] => Ret idt
  | [0; 0; 0; 1; 1; 0; 0; 0] => Ret idt
  | [0; 0; 0; 1; 1; 0; 0; 1] => Ret idt
  | [0; 0; 0; 1; 1; 0; 1; 0] => Ret idt
  | [0; 0; 0; 1; 1; 0; 1; 1] => Ret idt
  (* reserved_3 *)
  | [0; 0; 0; 1; 1; 1; 1; 1] => Ret idt
  (* the entries with the type HandlerFunc *)
  | _ =>
      '(e, put) ← IDT_index_mut idt idx;
      set_stub idx e put
  end.

(** [$bit0 | ($bit1 << 1) | ...]; the bits are listed from bit 7. *)
Definition idx_of_bits (bits : list Z) : Z :=
  foldl Z.lor 0 (imap (fun k b => Z.shiftl b (Z.of_nat k)) (reverse bits)).

(** [set_general_handler_recursive_bits!]: [n] bits are missing. *)
Fixpoint set_general_handler_recursive_bits (n : nat) (range : RangeBounds) (bits : list Z)
    (idt : InterruptDescriptorTable) : outcome InterruptDescriptorTable :=
  match n with
  | O =>
      let idx := idx_of_bits bits in
      if RangeBounds_contains range idx then set_general_handler_entry idt idx bits else Ret idt
  | S n =>
      idt ← set_general_handler_recursive_bits n range (bits ++ [0]) idt;
      set_general_handler_recursive_bits n range (bits ++ [1]) idt
  end.

Definition set_general_handler (idt : InterruptDescriptorTable) (range : RangeBounds)
    : outcome InterruptDescriptorTable :=
  set_general_handler_recursive_bits 8 range [] idt.

(** The macro without a range, and with one vector. *)
Definition set_general_handler_all (idt : InterruptDescriptorTable)
    : outcome InterruptDescriptorTable := set_general_handler idt (Included 0, Included 255).
Definition set_general_handler_one (idt : InterruptDescriptorTable) (idx : Z)
    : outcome InterruptDescriptorTable := set_general_handler idt (Included idx, Included idx).
End macros.

(** ** The contract *)

(** The type of the handlers of a vector, [None] for a reserved one. *)
Definition handler_type (v : Z) : option HandlerType :=
  if (32 <=? v) || (v =? 9) then Some HandlerFunc
  else match ExceptionVector_try_from v with
       | Ok Double => Some DivergingHandlerFuncWithErrCode
       | Ok MachineCheck => Some DivergingHandlerFunc
       | Ok PageFault => Some PageFaultHandlerFunc
       | Ok x => Some (if has_error_code x then HandlerFuncWithErrCode else HandlerFunc)
       | Err _ => None
       end.

(** Whether the processor pushes an error code, and whether the exception is
    an abort, after which the interrupted program cannot be resumed. *)
Definition pushes_error_code (v : Z) : bool :=
  match ExceptionVector_try_from v with Ok x => has_error_code x | Err _ => false end.
Definition is_abort (v : Z) : bool :=
  match ExceptionVector_try_from v with
  | Ok Double | Ok MachineCheck => true
  | _ => false
  end.

(** ** The recursion visits every vector once, in order *)
Fixpoint leaves (n : nat) (bits : list Z) : list (list Z) :=
  match n with
  | O => [bits]
  | S n => leaves n (bits ++ [0]) ++ leaves n (bits ++ [1])
  end.

Definition bits_of (v : Z) : list Z := (fun k => Z.b2z (Z.testbit v k)) <$> [7; 6; 5; 4; 3; 2; 1; 0].

Lemma leaves_8 : leaves 8 [] = (fun k => bits_of (Z.of_nat k)) <$> seq 0 256.
Proof. vm_compute. reflexivity. Qed.

Lemma idx_of_bits_of v : 0 <= v < 256 -> idx_of_bits (bits_of v) = v.
Proof.
  intros Hv. assert (Forall (fun v => idx_of_bits (bits_of v) = v) (Z.of_nat <$> seq 0 256)) as H.
  { apply (bool_decide_unpack _). vm_compute. exact I. }
  apply (Forall_lookup_1 _ _ (Z.to_nat v) v H). rewrite list_lookup_fmap, lookup_seq_lt by lia.
  cbn. f_equal. lia.
Qed.

Section correct.
Context `{BFL : BitFieldLaws} (cs : SegmentSelector) (fn_addr : Stub -> Z).
Context (Hcs : u16 (selector cs)) (Hfn : forall s, canonical (mkVirtAddr (fn_addr s))).

Definition leaf (range : RangeBounds) (idt : InterruptDescriptorTable) (bits : list Z)
    : outcome InterruptDescriptorTable :=
  set_general_handler_recursive_bits cs fn_addr 0 range bits idt.

Fixpoint visit (range : RangeBounds) (l : list (list Z)) (idt : InterruptDescriptorTable)
    : outcome InterruptDescriptorTable :=
  match l with
  | [] => Ret idt
  | bits :: l => idt ← leaf range idt bits; visit range l idt
  end.

Lemma visit_app range l l' idt :
  visit range (l ++ l') idt = (idt ← visit range l idt; visit range l' idt).
Proof.
  revert idt. induction l as [|b l IH]; intros idt; [done|]. cbn [app visit].
  destruct (leaf range idt b); cbn [mbind outcome_bind]; [apply IH|done|done].
Qed.

Lemma recursive_bits_visit n range bits idt :
  set_general_handler_recursive_bits cs fn_addr n range bits idt = visit range (leaves n bits) idt.
Proof.
  revert bits idt. induction n as [|n IH]; intros bits idt.
  - cbn [leaves visit]. unfold leaf. by destruct (set_general_handler_recursive_bits _ _ 0 _ _ _).
  - cbn [leaves set_general_handler_recursive_bits]. rewrite visit_app, IH.
    destruct (visit range (leaves n (bits ++ [0])) idt); cbn [mbind outcome_bind]; [apply IH|done|done].
Qed.

(** ** One entry *)

(** The gate number [v] of the image of [t], and the gate of a stub. *)
Definition gate_at (t : InterruptDescriptorTable) (v : Z) : option Gate :=
  decode_gate <$> IDT_image t !! Z.to_nat v.
Definition stub_gate (F : HandlerType) (v : Z) : Gate :=
  mkGate (fn_addr (mkStub F v)) (selector cs) 0 14 0 true.

(** [t'] is [t] with the gate of the vector [v] set for [F]. *)
Definition installed (t t' : InterruptDescriptorTable) (v : Z) (F : HandlerType) : Prop :=
  IDT_sized t' /\ gate_at t' v = Some (stub_gate F v) /\
  forall w, 0 <= w -> w <> v -> IDT_image t' !! Z.to_nat w = IDT_image t !! Z.to_nat w.

Lemma set_stub_installed {F} t v (e : IdtEntry F) put :
  0 <= v -> slot t (Z.to_nat v) e put ->
  exists t', set_stub cs fn_addr v e put = Ret t' /\ installed t t' v F.
Proof.
  intros Hv [Hl Hput]. unfold set_stub, IdtEntry_set_handler_fn, to_virt_addr.
  pose proof (Hfn (mkStub F v)) as Ha.
  assert (VirtAddr_new (fn_addr (mkStub F v)) = Ret (mkVirtAddr (fn_addr (mkStub F v)))) as ->
    by exact (VirtAddr_new_canonical _ Ha).
  cbn [mbind outcome_bind].
  destruct (set_handler_addr_gate cs e _ Hcs Ha) as (e' & -> & _ & Hg & _).
  cbn [mbind outcome_bind]. eexists. split; [reflexivity|].
  destruct (Hput e') as [Hs Hi]. split; [done|]. unfold gate_at. rewrite Hi.
  apply lookup_lt_Some in Hl. split.
  - rewrite list_lookup_insert_eq by done. exact (f_equal Some Hg).
  - intros w Hw Hne. apply list_lookup_insert_ne. lia.
Qed.

Lemma set_entry_interrupt t v :
  32 <= v < 256 ->
  set_general_handler_entry cs fn_addr t v (bits_of v) =
    ('(e, put) ← IDT_index_mut t v; set_stub cs fn_addr v e put).
Proof.
  intros Hv. unfold bits_of. cbn [fmap list_fmap].
  destruct (Z.testbit v 7) eqn:E7; [reflexivity|].
  destruct (Z.testbit v 6) eqn:E6; [reflexivity|].
  destruct (Z.testbit v 5) eqn:E5; [reflexivity|].
  exfalso. enough (uN 5 v) as [_ H] by lia. apply uN_testbit; [lia|lia|]. intros i Hi.
  destruct (decide (i < 8)).
  - assert (i = 5 \/ i = 6 \/ i = 7) as [-> | [-> | ->]] by lia; done.
  - apply (uN_testbit_high 8); [lia| |lia]. unfold uN. lia.
Qed.

Lemma set_entry_correct t v :
  IDT_sized t -> 0 <= v < 256 ->
  match handler_type v with
  | Some F => exists t', set_general_handler_entry cs fn_addr t v (bits_of v) = Ret t' /\
      installed t t' v F
  | None => set_general_handler_entry cs fn_addr t v (bits_of v) = Ret t
  end.
Proof.
  intros Ht. revert v. apply vector_cases.
  - repeat apply Forall_cons_2; try apply Forall_nil; try reflexivity.
    all: cbn -[set_stub]; apply set_stub_installed; [lia|]; field_slot.
  - intros k Hk. unfold handler_type. rewrite (proj2 (Z.leb_le 32 _)) by lia. cbn [orb].
    destruct (lookup_lt_is_Some_2 (interrupts t) k) as [e He]; [by destruct Ht as [_ ->]|].
    rewrite set_entry_interrupt, (proj2 (IDT_index_interrupts t k)), He by lia. cbn [unwrap].
    apply set_stub_installed; [lia|].
    replace (Z.to_nat (32 + Z.of_nat k)) with (32 + k)%nat by lia. by apply interrupt_slot.
Qed.

(** The effect of the macro on the gate of one vector. *)
Definition gate_after (range : RangeBounds) (t t' : InterruptDescriptorTable) (v : Z) : Prop :=
  match handler_type v with
  | Some F =>
      if RangeBounds_contains range v then gate_at t' v = Some (stub_gate F v)
      else IDT_image t' !! Z.to_nat v = IDT_image t !! Z.to_nat v
  | None => IDT_image t' !! Z.to_nat v = IDT_image t !! Z.to_nat v
  end.

(** After the vectors below [n]. *)
Lemma visit_correct range t n :
  IDT_sized t -> (n <= 256)%nat ->
  exists t', visit range ((fun k => bits_of (Z.of_nat k)) <$> seq 0 n) t = Ret t' /\ IDT_sized t' /\
    (forall v, 0 <= v < Z.of_nat n -> gate_after range t t' v) /\
    (forall v, Z.of_nat n <= v -> IDT_image t' !! Z.to_nat v = IDT_image t !! Z.to_nat v).
Proof.
  intros Ht. induction n as [|n IH]; intros Hn.
  { exists t. split_and!; [done|done|lia|done]. }
  destruct IH as (t1 & E & Hs & Hlt & Hge); [lia|].
  rewrite seq_S, fmap_app, visit_app, E. cbn [fmap list_fmap visit mbind outcome_bind plus].
  unfold leaf. cbn [set_general_handler_recursive_bits]. rewrite idx_of_bits_of by lia.
  pose proof (set_entry_correct t1 (Z.of_nat n) Hs ltac:(lia)) as Hentry.
  assert (forall t2, IDT_sized t2 -> gate_after range t1 t2 (Z.of_nat n) ->
    (forall w, 0 <= w -> w <> Z.of_nat n ->
      IDT_image t2 !! Z.to_nat w = IDT_image t1 !! Z.to_nat w) ->
    IDT_sized t2 /\ (forall v, 0 <= v < Z.of_nat (S n) -> gate_after range t t2 v) /\
    (forall v, Z.of_nat (S n) <= v -> IDT_image t2 !! Z.to_nat v = IDT_image t !! Z.to_nat v))
    as Hstep.
  { intros t2 Hs2 Hg Ho. split; [done|]. split.
    - intros v Hv. unfold gate_after, gate_at in *. destruct (decide (v = Z.of_nat n)) as [->|Hne].
      + by rewrite <- (Hge (Z.of_nat n)) by lia.
      + rewrite (Ho v) by lia. apply Hlt. lia.
    - intros v Hv. rewrite Ho by lia. apply Hge. lia. }
  unfold gate_after in Hstep at 1.
  destruct (handler_type (Z.of_nat n)) as [F|], (RangeBounds_contains range (Z.of_nat n)).
  - destruct Hentry as (t2 & -> & Hs2 & Hg2 & Ho2). exists t2. split; [done|]. by apply Hstep.
  - exists t1. split; [done|]. by apply Hstep.
  - rewrite Hentry. exists t1. split; [done|]. by apply Hstep.
  - exists t1. split; [done|]. by apply Hstep.
Qed.

(** C16. set_general_handler! sets exactly the gates of the range that are not
    reserved: each becomes a present interrupt gate of ring 0 in the current
    code segment for a stub of the type of this vector, all other gates keep
    their contents, and the macro never panics.  A stub calls the general
    handler with its vector, with an error code exactly for the exceptions that
    push one, and panics when the general handler returns from a double fault
    or machine check. *)
Theorem set_general_handler_correct range t :
  IDT_sized t ->
  exists t', set_general_handler cs fn_addr t range = Ret t' /\ IDT_sized t' /\
    (forall v, 0 <= v < 256 -> gate_after range t t' v) /\
    forall v F, 0 <= v < 256 -> handler_type v = Some F ->
      forall St (handler : InterruptStackFrame -> Z -> option Z -> St -> outcome St) frame code st,
      run_stub handler (mkStub F v) frame code st =
        (st' ← handler frame v (if pushes_error_code v then Some code else None) st;
         if is_abort v then Panic else Ret st').
Proof.
  intros Ht. unfold set_general_handler. rewrite recursive_bits_visit, leaves_8.
  destruct (visit_correct range t 256 Ht ltac:(lia)) as (t' & E & Hs & Hg & _).
  exists t'. split; [exact E|]. split; [done|]. split; [exact Hg|].
  intros v F Hv HF St handler frame code st.
  assert (forall x, x = (st' ← x; Ret st') :> outcome St) as Hret by (by intros []).
  revert v Hv F HF. apply (vector_cases (fun v => forall F, handler_type v = Some F -> _)).
  - repeat apply Forall_cons_2; try apply Forall_nil; intros F [= <-]; done || apply Hret.
  - intros k Hk F. unfold handler_type, pushes_error_code, is_abort.
    rewrite (proj2 (Z.leb_le 32 _)) by lia. intros [= <-].
    destruct (ExceptionVector_try_from (32 + Z.of_nat k)) as [x|] eqn:Ex; [|apply Hret].
    exfalso. apply ExceptionVector_try_from_Ok in Ex. destruct x; cbn in Ex; lia.
Qed.
End correct.

(** Functions in the lower half of the address space. *)
Definition example_fn_addr (s : Stub) : Z := 0x400000 + 16 * (stub_idx s mod 256).

Lemma example_fn_canonical s : canonical (mkVirtAddr (example_fn_addr s)).
Proof. left. unfold example_fn_addr. cbn. pose proof (Z.mod_pos_bound (stub_idx s) 256). lia. Qed.

Lemma set_general_handler_correct_witness :
  exists t', set_general_handler (mkSegmentSelector 8) example_fn_addr IDT_new
      (Included 8, Excluded 64) = Ret t' /\
    gate_at t' 8 = Some (mkGate 0x400080 8 0 14 0 true) /\
    gate_at t' 63 = Some (mkGate 0x4003f0 8 0 14 0 true) /\
    gate_at t' 64 = gate_at IDT_new 64 /\ gate_at t' 15 = gate_at IDT_new 15.
Proof.
  destruct (set_general_handler_correct (mkSegmentSelector 8) example_fn_addr ltac:(by split)
    example_fn_canonical (Included 8, Excluded 64) IDT_new IDT_new_sized)
    as (t' & E & _ & Hg & _).
  exists t'. split; [exact E|].
  pose proof (Hg 8 ltac:(lia)) as H8. pose proof (Hg 63 ltac:(lia)) as H63.
  pose proof (Hg 64 ltac:(lia)) as H64. pose proof (Hg 15 ltac:(lia)) as H15.
  split; [exact H8|]. split; [exact H63|].
  split; [exact (f_equal (fmap decode_gate) H64)|exact (f_equal (fmap decode_gate) H15)].
Defined.
