(* ===== verification/Cpu.v ===== *)
(** * The processor state behind the register and instruction wrappers

    A register is a cell of a register file.  The inline assembly of the crate
    moves values between the cells and the program; what a register does with
    its contents (faults on reserved bits, side effects of mode changes) is not
    modelled, except that some bits of CR0, EFER and RFLAGS are not stored as
    given (Control.v, ModelSpecific.v).  This file has the register file, the segment registers
    (registers/segmentation.rs, instructions/segmentation.rs) and the descriptor
    table registers (instructions/tables.rs, structures/mod.rs, and the [load]
    functions of gdt.rs and idt.rs). *)
From Stdlib Require Import ZArith Lia Bool.
From stdpp Require Import base decidable option list numbers functions.
From S2P Require Import Prelude Crates Addr Gdt Idt.
#[local] Open Scope Z_scope.

(** ** The register file *)
Inductive SegmentRegister : Type := CS | SS | DS | ES | FS | GS.

#[export] Instance SegmentRegister_eq_dec : EqDecision SegmentRegister.
Proof. solve_decision. Defined.

(** GDTR and IDTR hold the image of a [DescriptorTablePointer] (80 bits). *)
Inductive Register : Type :=
  | CR0 | CR2 | CR3 | CR4 | XCR0 | RFLAGS | MXCSR
  | MSR (n : Z)
  | SEG (r : SegmentRegister)
  | GDTR | IDTR | TR.

#[export] Instance Register_eq_dec : EqDecision Register.
Proof. solve_decision. Defined.

(** [s r] is the value of [r] in the state [s], [<\[r := v\]> s] the state
    after a write. *)
Abbreviation Cpu := (Register -> Z).

(** Two states that agree on all registers but the given one. *)
Definition same_except (r : Register) (s s' : Cpu) : Prop := forall r', r' <> r -> s' r' = s r'.

Lemma same_except_insert r v (s : Cpu) : same_except r s (<[r := v]> s).
Proof. intros r' Hr. by rewrite fn_lookup_insert_ne. Qed.
#[export] Hint Resolve same_except_insert : x86.

(** The width of a register. *)
Definition reg_width (r : Register) : Z :=
  match r with
  | MXCSR => 32
  | SEG _ | TR => 16
  | GDTR | IDTR => 80
  | _ => 64
  end.
Definition Cpu_wf (s : Cpu) : Prop := forall r, uN (reg_width r) (s r).

Lemma Cpu_wf_insert r v (s : Cpu) : Cpu_wf s -> uN (reg_width r) v -> Cpu_wf (<[r := v]> s).
Proof.
  intros Hs Hv r'. destruct (decide (r = r')) as [<-|Hne].
  - by rewrite fn_lookup_insert.
  - by rewrite fn_lookup_insert_ne.
Qed.
#[export] Hint Resolve Cpu_wf_insert : x86.

(** ** Segment registers *)
Definition Segment_get_reg (r : SegmentRegister) (s : Cpu) : SegmentSelector :=
  mkSegmentSelector (s (SEG r)).

(** [set_reg]: a [mov], for CS a far return. *)
Definition Segment_set_reg (r : SegmentRegister) (sel : SegmentSelector) (s : Cpu) : Cpu :=
  <[SEG r := selector sel]> s.

(** CS cannot be the target of a [mov]: its [set_reg] pushes the selector and
    the address of the label behind the return, and executes a far return,
    which pops both. *)
Record Thread : Type := mkThread { th_cpu : Cpu; th_rip : Z; th_stack : list Z }.

Definition push (w : Z) (t : Thread) : Thread := mkThread (th_cpu t) (th_rip t) (w :: th_stack t).

(** [retfq]; an empty stack is a fault. *)
Definition retfq (t : Thread) : outcome Thread :=
  match th_stack t with
  | rip :: cs :: stack => Ret (mkThread (<[SEG CS := wrap 16 cs]> (th_cpu t)) rip stack)
  | _ => Fault
  end.

(** [label] is the address of [55:], [lea {tmp}, \[55f + rip\]]. *)
Definition CS_set_reg (sel : SegmentSelector) (label : Z) (t : Thread) : outcome Thread :=
  let t := push (selector sel) t in
  let tmp := label in
  let t := push tmp t in
  retfq t.

Definition FsBase_MSR : Z := 0xC0000100.
Definition GsBase_MSR : Z := 0xC0000101.
Definition KernelGsBase_MSR : Z := 0xC0000102.

(** [Segment64] is implemented by FS and GS; [BASE]. *)
Inductive Segment64 : SegmentRegister -> Type := Segment64_FS : Segment64 FS | Segment64_GS : Segment64 GS.
Existing Class Segment64.
#[export] Existing Instances Segment64_FS Segment64_GS.

Definition Segment64_BASE (r : SegmentRegister) {H : Segment64 r} : Z :=
  match H with Segment64_FS => FsBase_MSR | Segment64_GS => GsBase_MSR end.

(** [rdfsbase] and the other instructions raise #UD when CR4.FSGSBASE is not
    set. *)
Definition fsgsbase_enabled (s : Cpu) : bool := Z.testbit (s CR4) 16.

Definition Segment64_read_base (r : SegmentRegister) {H : Segment64 r} (s : Cpu)
    : outcome VirtAddr :=
  if fsgsbase_enabled s then Ret (VirtAddr_new_unsafe (s (MSR (Segment64_BASE r)))) else Fault.

Definition Segment64_write_base (r : SegmentRegister) {H : Segment64 r} (base : VirtAddr) (s : Cpu)
    : outcome Cpu :=
  if fsgsbase_enabled s then Ret (<[MSR (Segment64_BASE r) := VirtAddr_as_u64 base]> s) else Fault.

(** [swapgs]. *)
Definition GS_swap (s : Cpu) : Cpu :=
  <[MSR GsBase_MSR := s (MSR KernelGsBase_MSR)]> (<[MSR KernelGsBase_MSR := s (MSR GsBase_MSR)]> s).

(** ** Descriptor table registers *)
Record DescriptorTablePointer : Type := mkDescriptorTablePointer {
  dtp_limit : Z;
  dtp_base : VirtAddr;
}.

(** The ten bytes that [lgdt] and [lidt] read and [sgdt] and [sidt] write. *)
Definition dtp_image (p : DescriptorTablePointer) : Z := pack [(16, dtp_limit p); (64, va (dtp_base p))].
Definition dtp_of_image (w : Z) : DescriptorTablePointer :=
  mkDescriptorTablePointer (field w 0 16) (mkVirtAddr (field w 16 80)).

Definition lgdt (gdt : DescriptorTablePointer) (s : Cpu) : Cpu := <[GDTR := dtp_image gdt]> s.
Definition lidt (idt : DescriptorTablePointer) (s : Cpu) : Cpu := <[IDTR := dtp_image idt]> s.
Definition sgdt (s : Cpu) : DescriptorTablePointer := dtp_of_image (s GDTR).
Definition sidt (s : Cpu) : DescriptorTablePointer := dtp_of_image (s IDTR).
Definition load_tss (sel : SegmentSelector) (s : Cpu) : Cpu := <[TR := selector sel]> s.

(** [pointer], [load_unsafe] and [load]; [address] is the address of the
    table, and the size of the interrupt descriptor table is 256 entries of 16
    bytes. *)
Definition IDT_SIZE : Z := 256 * 16.

Definition IDT_pointer (address : Z) : outcome DescriptorTablePointer :=
  base ← VirtAddr_new address;
  Ret (mkDescriptorTablePointer (wrap 16 (IDT_SIZE - 1)) base).

Definition IDT_load_unsafe (address : Z) (s : Cpu) : outcome Cpu :=
  p ← IDT_pointer address;
  Ret (lidt p s).
Definition IDT_load (address : Z) (s : Cpu) : outcome Cpu := IDT_load_unsafe address s.

Definition GDT_pointer `{Target} (g : GlobalDescriptorTable) (address : Z)
    : outcome DescriptorTablePointer :=
  base ← VirtAddr_new address;
  limit ← GDT_limit g;
  Ret (mkDescriptorTablePointer limit base).

Definition GDT_load_unsafe `{Target} (g : GlobalDescriptorTable) (address : Z) (s : Cpu)
    : outcome Cpu :=
  p ← GDT_pointer g address;
  Ret (lgdt p s).
Definition GDT_load `{Target} (g : GlobalDescriptorTable) (address : Z) (s : Cpu) : outcome Cpu :=
  GDT_load_unsafe g address s.

(** ** Facts *)
Lemma dtp_roundtrip p :
  u16 (dtp_limit p) -> u64 (va (dtp_base p)) -> dtp_of_image (dtp_image p) = p.
Proof.
  intros Hl Hb. unfold dtp_of_image, dtp_image. destruct p as [limit [base]].
  cbn [dtp_limit dtp_base va] in *. f_equal.
  - rewrite field_pack_low by (done || lia). by apply field_all.
  - f_equal. rewrite field_pack_high, field_pack_low by (done || lia). by apply (field_all 64).
Qed.

Lemma dtp_image_uN p : u16 (dtp_limit p) -> u64 (va (dtp_base p)) -> uN 80 (dtp_image p).
Proof. intros Hl Hb. apply pack_uN; [|done]. by repeat apply Forall_cons_2; try apply Forall_nil. Qed.

(** Loading a table makes the processor use all of its entries: the limit is
    the offset of the last byte of the last entry. *)
Lemma IDT_load_val address s :
  canonical (mkVirtAddr address) ->
  exists s', IDT_load address s = Ret s' /\ sidt s' = mkDescriptorTablePointer 4095 (mkVirtAddr address) /\
    same_except IDTR s s'.
Proof.
  intros Ha. unfold IDT_load, IDT_load_unsafe, IDT_pointer.
  rewrite (VirtAddr_new_canonical _ Ha : VirtAddr_new address = _). cbn [mbind outcome_bind].
  eexists. split; [reflexivity|]. split; [|apply same_except_insert].
  unfold sidt, lidt. rewrite fn_lookup_insert. apply dtp_roundtrip; [by split|by apply canonical_u64].
Qed.

Lemma GDT_load_val `{TO : TargetOk} MAX g address s :
  gdt_wf MAX g -> canonical (mkVirtAddr address) ->
  exists s', GDT_load g address s = Ret s' /\
    sgdt s' = mkDescriptorTablePointer (8 * gdt_len g - 1) (mkVirtAddr address) /\
    same_except GDTR s s'.
Proof.
  intros Hg Ha. pose proof Hg as (HM & _ & Hl). unfold GDT_load, GDT_load_unsafe, GDT_pointer.
  rewrite (VirtAddr_new_canonical _ Ha : VirtAddr_new address = _). cbn [mbind outcome_bind].
  rewrite (GDT_limit_val MAX) by (done || lia). cbn [mbind outcome_bind].
  eexists. split; [reflexivity|]. split; [|apply same_except_insert].
  unfold sgdt, lgdt. rewrite fn_lookup_insert. apply dtp_roundtrip; [|by apply canonical_u64].
  cbn. unfold uN. simpl. lia.
Qed.

(** The far return of CS is a [set_reg] like the others: it continues at the
    label with the stack it found. *)
Lemma CS_set_reg_spec sel label t :
  u16 (selector sel) ->
  CS_set_reg sel label t =
    Ret (mkThread (Segment_set_reg CS sel (th_cpu t)) label (th_stack t)) /\
  Segment_get_reg CS (Segment_set_reg CS sel (th_cpu t)) = sel.
Proof.
  intros Hs. split.
  - unfold CS_set_reg, retfq, Segment_set_reg. cbn. by rewrite wrap_small.
  - unfold Segment_get_reg, Segment_set_reg. rewrite fn_lookup_insert. by destruct sel.
Qed.

Lemma Segment64_write_read r `{Segment64 r} base s :
  fsgsbase_enabled s = true ->
  exists s', Segment64_write_base r base s = Ret s' /\ Segment64_read_base r s' = Ret base /\
    same_except (MSR (Segment64_BASE r)) s s'.
Proof.
  intros Hs. unfold Segment64_write_base, Segment64_read_base. rewrite Hs.
  eexists. split; [reflexivity|]. split; [|apply same_except_insert].
  unfold fsgsbase_enabled in *. rewrite fn_lookup_insert_ne, Hs, fn_lookup_insert by done.
  by destruct base.
Qed.

Lemma GS_swap_val s :
  GS_swap s (MSR GsBase_MSR) = s (MSR KernelGsBase_MSR) /\
  GS_swap s (MSR KernelGsBase_MSR) = s (MSR GsBase_MSR) /\
  forall r, r <> MSR GsBase_MSR -> r <> MSR KernelGsBase_MSR -> GS_swap s r = s r.
Proof.
  unfold GS_swap. split; [by rewrite fn_lookup_insert|]. split.
  - by rewrite fn_lookup_insert_ne, fn_lookup_insert by done.
  - intros r H1 H2. by rewrite !fn_lookup_insert_ne by congruence.
Qed.
