(* ===== verification/Control.v ===== *)
(** * Control registers, XCR0, RFLAGS and MXCSR

    registers/control.rs, registers/xcontrol.rs, registers/rflags.rs,
    registers/mxcsr.rs, [flush_all] of instructions/tlb.rs and
    instructions/interrupts.rs.  Every register with a type of flags is read by
    truncation to the declared flags and written so that the other bits keep
    their values; this contract is the class [FlagRegister], proved for each of
    them.  The class also has the bits that the processor shows to a read, the
    bits that it stores in a write and the bits that a write clears: [mov] to CR0
    does not change EXTENSION_TYPE, [pushfq] shows RF and VM as 0, and [popfq]
    clears RF and stores the flags that the privilege level allows. *)
From Stdlib Require Import ZArith Lia Bool.
From stdpp Require Import base decidable option list numbers functions.
From S2P Require Import Prelude Crates Addr Page Frame PageTable Mapper Gdt Tlb Cpu.
#[local] Open Scope Z_scope.

(** A set of declared flags as the program holds it. *)
Definition flags_wf (all f : Z) : Prop := u64 f /\ Z.land f all = f.

(** [old] with the bits of [mask] taken from [value]. *)
Definition store_bits (mask old value : Z) : Z := Z.lor (Z.ldiff old mask) (Z.land value mask).

(** ** CR0 *)
Definition Cr0Flags_PROTECTED_MODE_ENABLE : Z := 1.
Definition Cr0Flags_MONITOR_COPROCESSOR : Z := Z.shiftl 1 1.
Definition Cr0Flags_EMULATE_COPROCESSOR : Z := Z.shiftl 1 2.
Definition Cr0Flags_TASK_SWITCHED : Z := Z.shiftl 1 3.
Definition Cr0Flags_EXTENSION_TYPE : Z := Z.shiftl 1 4.
Definition Cr0Flags_NUMERIC_ERROR : Z := Z.shiftl 1 5.
Definition Cr0Flags_WRITE_PROTECT : Z := Z.shiftl 1 16.
Definition Cr0Flags_ALIGNMENT_MASK : Z := Z.shiftl 1 18.
Definition Cr0Flags_NOT_WRITE_THROUGH : Z := Z.shiftl 1 29.
Definition Cr0Flags_CACHE_DISABLE : Z := Z.shiftl 1 30.
Definition Cr0Flags_PAGING : Z := Z.shiftl 1 31.
Definition Cr0Flags_all : Z :=
  foldr Z.lor 0
    [Cr0Flags_PROTECTED_MODE_ENABLE; Cr0Flags_MONITOR_COPROCESSOR;
     Cr0Flags_EMULATE_COPROCESSOR; Cr0Flags_TASK_SWITCHED; Cr0Flags_EXTENSION_TYPE;
     Cr0Flags_NUMERIC_ERROR; Cr0Flags_WRITE_PROTECT; Cr0Flags_ALIGNMENT_MASK;
     Cr0Flags_NOT_WRITE_THROUGH; Cr0Flags_CACHE_DISABLE; Cr0Flags_PAGING].

Definition Cr0_read_raw (s : Cpu) : Z := s CR0.
(** [mov cr0, value]: EXTENSION_TYPE cannot be changed. *)
Definition mov_cr0 (value : Z) (s : Cpu) : Cpu :=
  <[CR0 := store_bits (bitnot 64 Cr0Flags_EXTENSION_TYPE) (s CR0) value]> s.
Definition Cr0_write_raw (value : Z) (s : Cpu) : Cpu := mov_cr0 value s.
Definition Cr0_read `{Bitflags} (s : Cpu) : Z := from_bits_truncate Cr0Flags_all (Cr0_read_raw s).
Definition Cr0_write (flags : Z) (s : Cpu) : Cpu :=
  let old_value := Cr0_read_raw s in
  let reserved := Z.land old_value (bitnot 64 Cr0Flags_all) in
  let new_value := Z.lor reserved flags in
  Cr0_write_raw new_value s.
(** The closure of an [update] is a function that may panic. *)
Definition Cr0_update `{Bitflags} (f : Z -> outcome Z) (s : Cpu) : outcome Cpu :=
  flags ← f (Cr0_read s);
  Ret (Cr0_write flags s).

(** ** CR2 *)
Definition Cr2_read_raw (s : Cpu) : Z := s CR2.
Definition Cr2_read (s : Cpu) : result VirtAddr VirtAddrNotValid := VirtAddr_try_new (Cr2_read_raw s).

(** ** CR3 *)
Definition Cr3Flags_PAGE_LEVEL_WRITETHROUGH : Z := Z.shiftl 1 3.
Definition Cr3Flags_PAGE_LEVEL_CACHE_DISABLE : Z := Z.shiftl 1 4.
Definition Cr3Flags_all : Z :=
  foldr Z.lor 0
    [Cr3Flags_PAGE_LEVEL_WRITETHROUGH; Cr3Flags_PAGE_LEVEL_CACHE_DISABLE].

(** [mov cr3, value]: bit 63 tells the processor not to flush the TLB entries
    of the PCID and is not stored. *)
Definition mov_cr3 (value : Z) (s : Cpu) : Cpu := <[CR3 := Z.land value (Z.ones 63)]> s.

Definition Cr3_read_raw (s : Cpu) : outcome (PhysFrame Size4KiB * Z) :=
  let value := s CR3 in
  addr ← PhysAddr_new (Z.land value 0x000ffffffffff000);
  frame ← PhysFrame_containing_address addr;
  Ret (frame, wrap 16 (Z.land value 0xFFF)).

Definition Cr3_read `{Bitflags} (s : Cpu) : outcome (PhysFrame Size4KiB * Z) :=
  '(frame, value) ← Cr3_read_raw s;
  let flags := from_bits_truncate Cr3Flags_all value in
  Ret (frame, flags).

Definition Cr3_read_pcid (s : Cpu) : outcome (PhysFrame Size4KiB * Pcid) :=
  '(frame, value) ← Cr3_read_raw s;
  pcid ← unwrap_ok (Pcid_new value);
  Ret (frame, pcid).

Definition Cr3_write_raw_impl (top_bit : bool) (frame : PhysFrame Size4KiB) (val : Z) (s : Cpu)
    : Cpu :=
  let addr := PhysFrame_start_address frame in
  let value := Z.lor (Z.lor (wrap 64 (Z.shiftl (Z.b2z top_bit) 63)) (PhysAddr_as_u64 addr)) val in
  mov_cr3 value s.

Definition Cr3_write (frame : PhysFrame Size4KiB) (flags : Z) (s : Cpu) : Cpu :=
  Cr3_write_raw_impl false frame (wrap 16 flags) s.
Definition Cr3_write_pcid (frame : PhysFrame Size4KiB) (pcid : Pcid) (s : Cpu) : Cpu :=
  Cr3_write_raw_impl false frame (Pcid_value pcid) s.
Definition Cr3_write_pcid_no_flush (frame : PhysFrame Size4KiB) (pcid : Pcid) (s : Cpu) : Cpu :=
  Cr3_write_raw_impl true frame (Pcid_value pcid) s.
Definition Cr3_write_raw (frame : PhysFrame Size4KiB) (val : Z) (s : Cpu) : Cpu :=
  Cr3_write_raw_impl false frame val s.

Definition Cr3_update `{Bitflags}
    (f : PhysFrame Size4KiB * Z -> outcome (PhysFrame Size4KiB * Z)) (s : Cpu) : outcome Cpu :=
  r ← Cr3_read s;
  '(frame, flags) ← f r;
  Ret (Cr3_write frame flags s).
Definition Cr3_update_pcid
    (f : PhysFrame Size4KiB * Pcid -> outcome (PhysFrame Size4KiB * Pcid)) (s : Cpu) : outcome Cpu :=
  r ← Cr3_read_pcid s;
  '(frame, pcid) ← f r;
  Ret (Cr3_write_pcid frame pcid s).
Definition Cr3_update_pcid_no_flush
    (f : PhysFrame Size4KiB * Pcid -> outcome (PhysFrame Size4KiB * Pcid)) (s : Cpu) : outcome Cpu :=
  r ← Cr3_read_pcid s;
  '(frame, pcid) ← f r;
  Ret (Cr3_write_pcid_no_flush frame pcid s).

(** [tlb::flush_all]. *)
Definition flush_all `{Bitflags} (s : Cpu) : outcome Cpu :=
  '(frame, flags) ← Cr3_read s;
  Ret (Cr3_write frame flags s).

(** The flush tokens of the mapper: [MapperFlush::flush] executes [invlpg] with
    the address of the page, [MapperFlushAll::flush_all] reloads CR3. *)
Definition MapperFlush_flush {S} (self : MapperFlush S) : Z :=
  flush (Page_start_address (MapperFlush_page self)).
Definition MapperFlushAll_flush_all `{Bitflags} (self : MapperFlushAll) (s : Cpu) : outcome Cpu :=
  flush_all s.

(** ** CR4 *)
Definition Cr4Flags_VIRTUAL_8086_MODE_EXTENSIONS : Z := 1.
Definition Cr4Flags_PROTECTED_MODE_VIRTUAL_INTERRUPTS : Z := Z.shiftl 1 1.
Definition Cr4Flags_TIMESTAMP_DISABLE : Z := Z.shiftl 1 2.
Definition Cr4Flags_DEBUGGING_EXTENSIONS : Z := Z.shiftl 1 3.
Definition Cr4Flags_PAGE_SIZE_EXTENSION : Z := Z.shiftl 1 4.
Definition Cr4Flags_PHYSICAL_ADDRESS_EXTENSION : Z := Z.shiftl 1 5.
Definition Cr4Flags_MACHINE_CHECK_EXCEPTION : Z := Z.shiftl 1 6.
Definition Cr4Flags_PAGE_GLOBAL : Z := Z.shiftl 1 7.
Definition Cr4Flags_PERFORMANCE_MONITOR_COUNTER : Z := Z.shiftl 1 8.
Definition Cr4Flags_OSFXSR : Z := Z.shiftl 1 9.
Definition Cr4Flags_OSXMMEXCPT_ENABLE : Z := Z.shiftl 1 10.
Definition Cr4Flags_USER_MODE_INSTRUCTION_PREVENTION : Z := Z.shiftl 1 11.
Definition Cr4Flags_L5_PAGING : Z := Z.shiftl 1 12.
Definition Cr4Flags_VIRTUAL_MACHINE_EXTENSIONS : Z := Z.shiftl 1 13.
Definition Cr4Flags_SAFER_MODE_EXTENSIONS : Z := Z.shiftl 1 14.
Definition Cr4Flags_FSGSBASE : Z := Z.shiftl 1 16.
Definition Cr4Flags_PCID : Z := Z.shiftl 1 17.
Definition Cr4Flags_OSXSAVE : Z := Z.shiftl 1 18.
Definition Cr4Flags_KEY_LOCKER : Z := Z.shiftl 1 19.
Definition Cr4Flags_SUPERVISOR_MODE_EXECUTION_PROTECTION : Z := Z.shiftl 1 20.
Definition Cr4Flags_SUPERVISOR_MODE_ACCESS_PREVENTION : Z := Z.shiftl 1 21.
Definition Cr4Flags_PROTECTION_KEY_USER : Z := Z.shiftl 1 22.
Definition Cr4Flags_CONTROL_FLOW_ENFORCEMENT : Z := Z.shiftl 1 23.
Definition Cr4Flags_PROTECTION_KEY_SUPERVISOR : Z := Z.shiftl 1 24.
Definition Cr4Flags_all : Z :=
  foldr Z.lor 0
    [Cr4Flags_VIRTUAL_8086_MODE_EXTENSIONS; Cr4Flags_PROTECTED_MODE_VIRTUAL_INTERRUPTS;
     Cr4Flags_TIMESTAMP_DISABLE; Cr4Flags_DEBUGGING_EXTENSIONS;
     Cr4Flags_PAGE_SIZE_EXTENSION; Cr4Flags_PHYSICAL_ADDRESS_EXTENSION;
     Cr4Flags_MACHINE_CHECK_EXCEPTION; Cr4Flags_PAGE_GLOBAL;
     Cr4Flags_PERFORMANCE_MONITOR_COUNTER; Cr4Flags_OSFXSR; Cr4Flags_OSXMMEXCPT_ENABLE;
     Cr4Flags_USER_MODE_INSTRUCTION_PREVENTION; Cr4Flags_L5_PAGING;
     Cr4Flags_VIRTUAL_MACHINE_EXTENSIONS; Cr4Flags_SAFER_MODE_EXTENSIONS; Cr4Flags_FSGSBASE;
     Cr4Flags_PCID; Cr4Flags_OSXSAVE; Cr4Flags_KEY_LOCKER;
     Cr4Flags_SUPERVISOR_MODE_EXECUTION_PROTECTION;
     Cr4Flags_SUPERVISOR_MODE_ACCESS_PREVENTION; Cr4Flags_PROTECTION_KEY_USER;
     Cr4Flags_CONTROL_FLOW_ENFORCEMENT; Cr4Flags_PROTECTION_KEY_SUPERVISOR].

Definition Cr4_read_raw (s : Cpu) : Z := s CR4.
Definition Cr4_write_raw (value : Z) (s : Cpu) : Cpu := <[CR4 := value]> s.
Definition Cr4_read `{Bitflags} (s : Cpu) : Z := from_bits_truncate Cr4Flags_all (Cr4_read_raw s).
Definition Cr4_write (flags : Z) (s : Cpu) : Cpu :=
  let old_value := Cr4_read_raw s in
  let reserved := Z.land old_value (bitnot 64 Cr4Flags_all) in
  let new_value := Z.lor reserved flags in
  Cr4_write_raw new_value s.
Definition Cr4_update `{Bitflags} (f : Z -> outcome Z) (s : Cpu) : outcome Cpu :=
  flags ← f (Cr4_read s);
  Ret (Cr4_write flags s).

(** ** XCR0 *)
Definition XCr0Flags_X87 : Z := 1.
Definition XCr0Flags_SSE : Z := Z.shiftl 1 1.
Definition XCr0Flags_AVX : Z := Z.shiftl 1 2.
Definition XCr0Flags_BNDREG : Z := Z.shiftl 1 3.
Definition XCr0Flags_BNDCSR : Z := Z.shiftl 1 4.
Definition XCr0Flags_OPMASK : Z := Z.shiftl 1 5.
Definition XCr0Flags_ZMM_HI256 : Z := Z.shiftl 1 6.
Definition XCr0Flags_HI16_ZMM : Z := Z.shiftl 1 7.
Definition XCr0Flags_MPK : Z := Z.shiftl 1 9.
Definition XCr0Flags_LWP : Z := Z.shiftl 1 62.
Definition XCr0Flags_all : Z :=
  foldr Z.lor 0
    [XCr0Flags_X87; XCr0Flags_SSE; XCr0Flags_AVX; XCr0Flags_BNDREG; XCr0Flags_BNDCSR;
     XCr0Flags_OPMASK; XCr0Flags_ZMM_HI256; XCr0Flags_HI16_ZMM; XCr0Flags_MPK;
     XCr0Flags_LWP].

(** [xgetbv] and [xsetbv] move the register through EDX:EAX. *)
Definition XCr0_read_raw (s : Cpu) : Z :=
  let low := wrap 32 (s XCR0) in
  let high := wrap 32 (Z.shiftr (s XCR0) 32) in
  Z.lor (wrap 64 (Z.shiftl high 32)) low.
Definition XCr0_write_raw (value : Z) (s : Cpu) : Cpu :=
  let low := wrap 32 value in
  let high := wrap 32 (Z.shiftr value 32) in
  <[XCR0 := low + 2 ^ 32 * high]> s.
Definition XCr0_read `{Bitflags} (s : Cpu) : Z := from_bits_truncate XCr0Flags_all (XCr0_read_raw s).

Definition XCr0_write `{Bitflags} (flags : Z) (s : Cpu) : outcome Cpu :=
  let old_value := XCr0_read_raw s in
  let reserved := Z.land old_value (bitnot 64 XCr0Flags_all) in
  let new_value := Z.lor reserved flags in
  _ ← rust_assert (contains flags XCr0Flags_X87);
  _ ← (if contains flags XCr0Flags_AVX then rust_assert (contains flags XCr0Flags_SSE) else Ret tt);
  let mpx := flags_or XCr0Flags_BNDREG XCr0Flags_BNDCSR in
  _ ← (if intersects flags mpx then rust_assert (contains flags mpx) else Ret tt);
  let avx512 := flags_or (flags_or XCr0Flags_OPMASK XCr0Flags_ZMM_HI256) XCr0Flags_HI16_ZMM in
  _ ← (if intersects flags avx512 then
         _ ← rust_assert (contains flags XCr0Flags_AVX);
         rust_assert (contains flags avx512)
       else Ret tt);
  Ret (XCr0_write_raw new_value s).

Definition XCr0_update `{Bitflags} (f : Z -> outcome Z) (s : Cpu) : outcome Cpu :=
  flags ← f (XCr0_read s);
  XCr0_write flags s.

(** ** RFLAGS: [pushfq] and [popfq] *)
Definition RFlags_ID : Z := Z.shiftl 1 21.
Definition RFlags_VIRTUAL_INTERRUPT_PENDING : Z := Z.shiftl 1 20.
Definition RFlags_VIRTUAL_INTERRUPT : Z := Z.shiftl 1 19.
Definition RFlags_ALIGNMENT_CHECK : Z := Z.shiftl 1 18.
Definition RFlags_VIRTUAL_8086_MODE : Z := Z.shiftl 1 17.
Definition RFlags_RESUME_FLAG : Z := Z.shiftl 1 16.
Definition RFlags_NESTED_TASK : Z := Z.shiftl 1 14.
Definition RFlags_IOPL_HIGH : Z := Z.shiftl 1 13.
Definition RFlags_IOPL_LOW : Z := Z.shiftl 1 12.
Definition RFlags_OVERFLOW_FLAG : Z := Z.shiftl 1 11.
Definition RFlags_DIRECTION_FLAG : Z := Z.shiftl 1 10.
Definition RFlags_INTERRUPT_FLAG : Z := Z.shiftl 1 9.
Definition RFlags_TRAP_FLAG : Z := Z.shiftl 1 8.
Definition RFlags_SIGN_FLAG : Z := Z.shiftl 1 7.
Definition RFlags_ZERO_FLAG : Z := Z.shiftl 1 6.
Definition RFlags_AUXILIARY_CARRY_FLAG : Z := Z.shiftl 1 4.
Definition RFlags_PARITY_FLAG : Z := Z.shiftl 1 2.
Definition RFlags_CARRY_FLAG : Z := 1.
Definition RFlags_all : Z :=
  foldr Z.lor 0
    [RFlags_ID; RFlags_VIRTUAL_INTERRUPT_PENDING; RFlags_VIRTUAL_INTERRUPT;
     RFlags_ALIGNMENT_CHECK; RFlags_VIRTUAL_8086_MODE; RFlags_RESUME_FLAG;
     RFlags_NESTED_TASK; RFlags_IOPL_HIGH; RFlags_IOPL_LOW; RFlags_OVERFLOW_FLAG;
     RFlags_DIRECTION_FLAG; RFlags_INTERRUPT_FLAG; RFlags_TRAP_FLAG; RFlags_SIGN_FLAG;
     RFlags_ZERO_FLAG; RFlags_AUXILIARY_CARRY_FLAG; RFlags_PARITY_FLAG; RFlags_CARRY_FLAG].

(** [pushfq] stores RFLAGS with RF, VM and the bits from 24 on as 0. *)
Definition pushfq_image : Z := 0xFCFFFF.
Definition pushfq (s : Cpu) : Z := Z.land (s RFLAGS) pushfq_image.

(** [popfq] clears RF.  It does not change the reserved bits, VM, VIF and VIP,
    the I/O privilege level outside of ring 0, IF without the I/O privilege, and
    ID on a processor on which it is not modifiable. *)
Class IdFlag := id_modifiable : bool.

Definition cpl (s : Cpu) : Z := s (SEG CS) mod 4.
Definition iopl (s : Cpu) : Z := field (s RFLAGS) 12 14.

Definition popfq_fixed `{IdFlag} (s : Cpu) : Z :=
  foldr Z.lor 0
    [RFlags_VIRTUAL_8086_MODE; RFlags_VIRTUAL_INTERRUPT; RFlags_VIRTUAL_INTERRUPT_PENDING;
     RFlags_RESUME_FLAG;
     (if cpl s =? 0 then 0 else Z.lor RFlags_IOPL_HIGH RFlags_IOPL_LOW);
     (if cpl s <=? iopl s then 0 else RFlags_INTERRUPT_FLAG);
     (if id_modifiable then 0 else RFlags_ID)].
Definition popfq_stores `{IdFlag} (s : Cpu) : Z := Z.ldiff RFlags_all (popfq_fixed s).

Definition popfq `{IdFlag} (value : Z) (s : Cpu) : Cpu :=
  <[RFLAGS := store_bits (popfq_stores s) (Z.ldiff (s RFLAGS) RFlags_RESUME_FLAG) value]> s.

Definition RFlags_read_raw (s : Cpu) : Z := pushfq s.
Definition RFlags_write_raw `{IdFlag} (value : Z) (s : Cpu) : Cpu := popfq value s.
Definition RFlags_read `{Bitflags} (s : Cpu) : Z := from_bits_truncate RFlags_all (RFlags_read_raw s).
Definition RFlags_write `{IdFlag} (flags : Z) (s : Cpu) : Cpu :=
  let old_value := RFlags_read_raw s in
  let reserved := Z.land old_value (bitnot 64 RFlags_all) in
  let new_value := Z.lor reserved flags in
  RFlags_write_raw new_value s.
Definition RFlags_update `{IdFlag} `{Bitflags} (f : Z -> outcome Z) (s : Cpu) : outcome Cpu :=
  flags ← f (RFlags_read s);
  Ret (RFlags_write flags s).

(** ** MXCSR: [stmxcsr] and [ldmxcsr] *)
Definition MxCsr_INVALID_OPERATION : Z := Z.shiftl 1 0.
Definition MxCsr_DENORMAL : Z := Z.shiftl 1 1.
Definition MxCsr_DIVIDE_BY_ZERO : Z := Z.shiftl 1 2.
Definition MxCsr_OVERFLOW : Z := Z.shiftl 1 3.
Definition MxCsr_UNDERFLOW : Z := Z.shiftl 1 4.
Definition MxCsr_PRECISION : Z := Z.shiftl 1 5.
Definition MxCsr_DENORMALS_ARE_ZEROS : Z := Z.shiftl 1 6.
Definition MxCsr_INVALID_OPERATION_MASK : Z := Z.shiftl 1 7.
Definition MxCsr_DENORMAL_MASK : Z := Z.shiftl 1 8.
Definition MxCsr_DIVIDE_BY_ZERO_MASK : Z := Z.shiftl 1 9.
Definition MxCsr_OVERFLOW_MASK : Z := Z.shiftl 1 10.
Definition MxCsr_UNDERFLOW_MASK : Z := Z.shiftl 1 11.
Definition MxCsr_PRECISION_MASK : Z := Z.shiftl 1 12.
Definition MxCsr_ROUNDING_CONTROL_NEGATIVE : Z := Z.shiftl 1 13.
Definition MxCsr_ROUNDING_CONTROL_POSITIVE : Z := Z.shiftl 1 14.
Definition MxCsr_ROUNDING_CONTROL_ZERO : Z := Z.shiftl 3 13.
Definition MxCsr_FLUSH_TO_ZERO : Z := Z.shiftl 1 15.
Definition MxCsr_all : Z :=
  foldr Z.lor 0
    [MxCsr_INVALID_OPERATION; MxCsr_DENORMAL; MxCsr_DIVIDE_BY_ZERO; MxCsr_OVERFLOW;
     MxCsr_UNDERFLOW; MxCsr_PRECISION; MxCsr_DENORMALS_ARE_ZEROS;
     MxCsr_INVALID_OPERATION_MASK; MxCsr_DENORMAL_MASK; MxCsr_DIVIDE_BY_ZERO_MASK;
     MxCsr_OVERFLOW_MASK; MxCsr_UNDERFLOW_MASK; MxCsr_PRECISION_MASK;
     MxCsr_ROUNDING_CONTROL_NEGATIVE; MxCsr_ROUNDING_CONTROL_POSITIVE;
     MxCsr_ROUNDING_CONTROL_ZERO; MxCsr_FLUSH_TO_ZERO].

Definition MxCsr_default `{Bitflags} : Z :=
  flags_or (flags_or (flags_or (flags_or (flags_or MxCsr_INVALID_OPERATION_MASK
    MxCsr_DENORMAL_MASK) MxCsr_DIVIDE_BY_ZERO_MASK) MxCsr_OVERFLOW_MASK) MxCsr_UNDERFLOW_MASK)
    MxCsr_PRECISION_MASK.
Definition MxCsr_read `{Bitflags} (s : Cpu) : Z := from_bits_truncate MxCsr_all (s MXCSR).
Definition MxCsr_write (mxcsr : Z) (s : Cpu) : Cpu := <[MXCSR := mxcsr]> s.
Definition MxCsr_update `{Bitflags} (f : Z -> outcome Z) (s : Cpu) : outcome Cpu :=
  mxcsr ← f (MxCsr_read s);
  Ret (MxCsr_write mxcsr s).

(** ** Interrupts: the flag IF of RFLAGS *)
Definition are_enabled `{Bitflags} (s : Cpu) : bool := contains (RFlags_read s) RFlags_INTERRUPT_FLAG.

(** [sti] and [cli]. *)
Definition interrupts_enable (s : Cpu) : Cpu :=
  <[RFLAGS := Z.lor (s RFLAGS) RFlags_INTERRUPT_FLAG]> s.
Definition interrupts_disable (s : Cpu) : Cpu :=
  <[RFLAGS := Z.ldiff (s RFLAGS) RFlags_INTERRUPT_FLAG]> s.

(** The closure is a computation on the processor and the rest of the state. *)
Definition without_interrupts `{Bitflags} {St R} (f : Cpu * St -> outcome (R * (Cpu * St)))
    (s : Cpu * St) : outcome (R * (Cpu * St)) :=
  let saved_intpt_flag := are_enabled (fst s) in
  let s := if saved_intpt_flag then (interrupts_disable (fst s), snd s) else s in
  '(ret, s) ← f s;
  let s := if saved_intpt_flag then (interrupts_enable (fst s), snd s) else s in
  Ret (ret, s).

(** ** The contract of a register of flags *)
Class FlagRegister (r : Register) := {
  fr_all : Z;
  fr_accepts : Z -> bool;
  fr_read : Cpu -> Z;
  fr_write : Z -> Cpu -> outcome Cpu;
  fr_update : (Z -> outcome Z) -> Cpu -> outcome Cpu;
  (** the bits that a read of the processor shows, the bits that a write of the
      processor stores, and the bits that a write clears *)
  fr_visible : Z;
  fr_stores : Cpu -> Z;
  fr_clears : Z;
}.
Arguments fr_all r {_}.
Arguments fr_accepts r {_}.
Arguments fr_read r {_}.
Arguments fr_write r {_}.
Arguments fr_update r {_}.
Arguments fr_visible r {_}.
Arguments fr_stores r {_}.
Arguments fr_clears r {_}.

(** The value that [write] computes: [flags] for the declared bits, the old value
    for the others. *)
Definition merge_flags (all old flags : Z) : Z := Z.lor (Z.land old (bitnot 64 all)) flags.

Class FlagRegisterLaws (r : Register) `{FlagRegister r} : Prop := {
  fr_width : reg_width r = 64;
  fr_all_u64 : u64 (fr_all r);
  fr_stores_u64 s : u64 (fr_stores r s);
  (** a write does not change what a read does not show *)
  fr_hidden s i : 0 <= i -> Z.testbit (fr_stores r s) i = true -> Z.testbit (fr_visible r) i = true;
  fr_cleared s i : 0 <= i -> Z.testbit (fr_clears r) i = true -> Z.testbit (fr_stores r s) i = false;
  fr_read_law s : Cpu_wf s -> fr_read r s = Z.land (Z.land (s r) (fr_visible r)) (fr_all r);
  fr_write_law flags s : Cpu_wf s -> u64 flags ->
    fr_write r flags s =
      if fr_accepts r flags
      then Ret (<[r := store_bits (fr_stores r s) (Z.ldiff (s r) (fr_clears r))
                         (merge_flags (fr_all r) (Z.land (s r) (fr_visible r)) flags)]> s)
      else Panic;
  fr_update_law f s : fr_update r f s = (flags ← f (fr_read r s); fr_write r flags s);
}.

Lemma land_uN_l w x y : 0 <= w -> uN w x -> uN w (Z.land x y).
Proof.
  intros Hw Hx. apply uN_testbit; [done|apply Z.land_nonneg; left; apply Hx|].
  intros i Hi. by rewrite Z.land_spec, (uN_testbit_high w x).
Qed.

Lemma ldiff_u64 x y : u64 x -> u64 (Z.ldiff x y).
Proof.
  intros Hx. apply (uN_testbit 64); [lia|apply Z.ldiff_nonneg; left; apply Hx|].
  intros i Hi. by rewrite Z.ldiff_spec, (uN_testbit_high 64 x) by (done || lia).
Qed.

Lemma land_U64_MAX x : u64 x -> Z.land x U64_MAX = x.
Proof. intros Hx. change U64_MAX with (2 ^ 64 - 1). rewrite land_ones_mod by lia. by apply Z.mod_small. Qed.

Lemma flags_wf_testbit all f i : flags_wf all f -> Z.testbit all i = false -> Z.testbit f i = false.
Proof. intros [_ <-] Hi. by rewrite Z.land_spec, Hi, andb_false_r. Qed.

Lemma flags_wf_land all x : u64 x -> u64 all -> flags_wf all (Z.land x all).
Proof.
  intros Hx Ha. split; [apply land_uN; [lia|done|by destruct Ha]|].
  by rewrite <- Z.land_assoc, Z.land_diag.
Qed.

Section merge.
Context (all old flags : Z) (Ha : u64 all) (Ho : u64 old) (Hf : flags_wf all flags).

Lemma testbit_merge i : 0 <= i ->
  Z.testbit (merge_flags all old flags) i = if Z.testbit all i then Z.testbit flags i else Z.testbit old i.
Proof using Ha Ho Hf.
  intros Hi. unfold merge_flags. rewrite Z.lor_spec, testbit_land_bitnot by done.
  destruct (Z.testbit all i) eqn:E; [by rewrite andb_false_r|].
  rewrite (flags_wf_testbit all flags) by done. by rewrite andb_true_r, orb_false_r.
Qed.

Lemma merge_u64 : u64 (merge_flags all old flags).
Proof using Ha Ho Hf.
  apply lor_uN; [lia| |by destruct Hf]. apply land_uN; [lia|done|].
  rewrite bitnot_sub by (done || lia). destruct Ha. lia.
Qed.

Lemma merge_read : Z.land (merge_flags all old flags) all = flags.
Proof using Ha Ho Hf.
  apply Z.bits_inj'. intros i Hi. rewrite Z.land_spec, testbit_merge by done.
  destruct (Z.testbit all i) eqn:E; [apply andb_true_r|].
  by rewrite (flags_wf_testbit all flags), andb_false_r.
Qed.

End merge.

Lemma testbit_store_bits mask old value i : 0 <= i ->
  Z.testbit (store_bits mask old value) i =
    if Z.testbit mask i then Z.testbit value i else Z.testbit old i.
Proof.
  intros Hi. unfold store_bits. rewrite Z.lor_spec, Z.ldiff_spec, Z.land_spec by done.
  destruct (Z.testbit mask i), (Z.testbit old i), (Z.testbit value i); done.
Qed.

Lemma store_bits_u64 mask old value : u64 mask -> u64 old -> u64 (store_bits mask old value).
Proof.
  intros Hm Ho. apply lor_uN; [lia|by apply ldiff_u64|].
  rewrite Z.land_comm. by apply land_uN_l.
Qed.

Lemma store_bits_all old value : u64 old -> u64 value -> store_bits U64_MAX old value = value.
Proof.
  intros Ho Hv. apply Z.bits_inj'. intros i Hi. rewrite testbit_store_bits by done.
  change U64_MAX with (Z.ones 64). rewrite Z.testbit_ones_nonneg by lia.
  destruct (Z.ltb_spec i 64); [done|]. by rewrite !(uN_testbit_high 64) by (done || lia).
Qed.

(** [r] is read, written and updated as the documentation promises, as far as
    the processor stores what it is given: a declared bit that it stores gets
    the given value, a bit that it clears is cleared, every other bit and every
    other register keeps its value, and the next read returns these bits. *)
Definition flag_register_contract (r : Register) `{FlagRegister r} : Prop :=
  forall s, Cpu_wf s ->
  flags_wf (fr_all r) (fr_read r s) /\
  (forall i, 0 <= i -> Z.testbit (fr_read r s) i =
     Z.testbit (fr_all r) i && Z.testbit (fr_visible r) i && Z.testbit (s r) i) /\
  (forall flags, flags_wf (fr_all r) flags ->
    if fr_accepts r flags then
      exists s', fr_write r flags s = Ret s' /\ Cpu_wf s' /\ same_except r s s' /\
        (forall i, 0 <= i -> Z.testbit (s' r) i =
          if Z.testbit (fr_all r) i && Z.testbit (fr_stores r s) i then Z.testbit flags i
          else Z.testbit (s r) i && negb (Z.testbit (fr_clears r) i)) /\
        (forall i, 0 <= i -> Z.testbit (fr_stores r s) i = true ->
           Z.testbit (fr_read r s') i = Z.testbit flags i)
    else fr_write r flags s = Panic) /\
  (forall f, fr_update r f s = (flags ← f (fr_read r s); fr_write r flags s)) /\
  (fr_accepts r (fr_read r s) = true ->
    exists s', fr_update r Ret s = Ret s' /\ same_except r s s' /\
      s' r = Z.ldiff (s r) (fr_clears r)).

Section contract.
Context (r : Register) `{FRL : FlagRegisterLaws r}.

Lemma fr_read_testbit s i : Cpu_wf s -> 0 <= i ->
  Z.testbit (fr_read r s) i =
    Z.testbit (fr_all r) i && Z.testbit (fr_visible r) i && Z.testbit (s r) i.
Proof using FRL.
  intros Hs Hi. rewrite fr_read_law, !Z.land_spec by done.
  by destruct (Z.testbit (s r) i), (Z.testbit (fr_visible r) i), (Z.testbit (fr_all r) i).
Qed.

Lemma fr_value_u64 s : Cpu_wf s -> u64 (s r).
Proof using FRL. intros Hs. rewrite <- (fr_width (r := r)). apply Hs. Qed.

Lemma fr_visible_value_u64 s : Cpu_wf s -> u64 (Z.land (s r) (fr_visible r)).
Proof using FRL. intros Hs. apply land_uN_l; [lia|by apply fr_value_u64]. Qed.

(** The register after a write. *)
Lemma fr_written_testbit s flags i : Cpu_wf s -> flags_wf (fr_all r) flags -> 0 <= i ->
  Z.testbit (store_bits (fr_stores r s) (Z.ldiff (s r) (fr_clears r))
               (merge_flags (fr_all r) (Z.land (s r) (fr_visible r)) flags)) i =
    if Z.testbit (fr_all r) i && Z.testbit (fr_stores r s) i then Z.testbit flags i
    else Z.testbit (s r) i && negb (Z.testbit (fr_clears r) i).
Proof using FRL.
  intros Hs Hf Hi. rewrite testbit_store_bits by done.
  destruct (Z.testbit (fr_stores r s) i) eqn:E; [|by rewrite andb_false_r, Z.ldiff_spec].
  rewrite testbit_merge by (done || apply fr_all_u64 || by apply fr_visible_value_u64).
  destruct (Z.testbit (fr_all r) i); [done|]. cbn [andb].
  rewrite Z.land_spec, (fr_hidden s i Hi E), andb_true_r.
  destruct (Z.testbit (fr_clears r) i) eqn:Ec; [|by rewrite andb_true_r].
  by rewrite (fr_cleared s i Hi Ec) in E.
Qed.

Lemma flag_register_laws_contract : flag_register_contract r.
Proof using FRL.
  intros s Hs. pose proof (fr_all_u64 (r := r)) as Ha.
  assert (flags_wf (fr_all r) (fr_read r s)) as Hwf.
  { rewrite fr_read_law by done. by apply flags_wf_land; [apply fr_visible_value_u64|]. }
  split; [done|]. split; [intros i Hi; by apply fr_read_testbit|]. split; [|split].
  - intros flags Hf. rewrite fr_write_law by (done || by destruct Hf).
    destruct (fr_accepts r flags); [|done]. set (v := store_bits _ _ _).
    assert (Cpu_wf (<[r := v]> s)) as Hs'.
    { apply Cpu_wf_insert; [done|]. rewrite fr_width.
      by apply store_bits_u64; [apply fr_stores_u64|apply ldiff_u64, fr_value_u64]. }
    eexists. split; [reflexivity|]. split; [done|]. split; [apply same_except_insert|].
    split; intros i Hi; rewrite ?fr_read_testbit by done; rewrite fn_lookup_insert; unfold v;
      rewrite fr_written_testbit by done; [done|].
    intros E. rewrite E, andb_true_r, (fr_hidden s i Hi E), andb_true_r.
    destruct (Z.testbit (fr_all r) i) eqn:Ea; [done|]. symmetry. by apply (flags_wf_testbit (fr_all r)).
  - intros f. apply fr_update_law.
  - intros Hacc. rewrite fr_update_law. cbn [mbind outcome_bind].
    rewrite fr_write_law, Hacc by (done || by destruct Hwf).
    eexists. split; [reflexivity|]. split; [apply same_except_insert|]. rewrite fn_lookup_insert.
    apply Z.bits_inj'. intros i Hi. rewrite fr_written_testbit by done.
    rewrite fr_read_testbit, Z.ldiff_spec by done.
    destruct (Z.testbit (fr_all r) i); [|done]. destruct (Z.testbit (fr_stores r s) i) eqn:E; [|done].
    rewrite (fr_hidden s i Hi E). cbn [andb].
    destruct (Z.testbit (fr_clears r) i) eqn:Ec; [|by rewrite andb_true_r].
    by rewrite (fr_cleared s i Hi Ec) in E.
Qed.
End contract.

(** A register whose bits are all shown and stored. *)
Definition plain_register (r : Register) `{FlagRegister r} : Prop :=
  fr_visible r = U64_MAX /\ fr_clears r = 0 /\ forall s, fr_stores r s = U64_MAX.

(** ** The registers *)
Section instances.
Context `{BL : BitflagsLaws}.

#[export] Instance Cr0_FlagRegister : FlagRegister CR0 :=
  { fr_all := Cr0Flags_all; fr_accepts _ := true; fr_read := Cr0_read;
    fr_write flags s := Ret (Cr0_write flags s); fr_update := Cr0_update;
    fr_visible := U64_MAX; fr_stores _ := bitnot 64 Cr0Flags_EXTENSION_TYPE; fr_clears := 0 }.
#[export] Instance Cr4_FlagRegister : FlagRegister CR4 :=
  { fr_all := Cr4Flags_all; fr_accepts _ := true; fr_read := Cr4_read;
    fr_write flags s := Ret (Cr4_write flags s); fr_update := Cr4_update;
    fr_visible := U64_MAX; fr_stores _ := U64_MAX; fr_clears := 0 }.
#[export] Instance RFlags_FlagRegister `{IdFlag} : FlagRegister RFLAGS :=
  { fr_all := RFlags_all; fr_accepts _ := true; fr_read := RFlags_read;
    fr_write flags s := Ret (RFlags_write flags s); fr_update := RFlags_update;
    fr_visible := pushfq_image; fr_stores := popfq_stores; fr_clears := RFlags_RESUME_FLAG }.

Lemma U64_MAX_visible x i : u64 x -> 0 <= i -> Z.testbit x i = true -> Z.testbit U64_MAX i = true.
Proof.
  intros Hx Hi Hb. change U64_MAX with (Z.ones 64). rewrite Z.testbit_ones_nonneg by lia.
  destruct (Z.ltb_spec i 64); [done|]. by rewrite (uN_testbit_high 64 x) in Hb by (done || lia).
Qed.

(** The bits that [write] computes for a register that shows all of its bits. *)
Lemma merge_visible all old flags : u64 old ->
  merge_flags all (Z.land old U64_MAX) flags = Z.lor (Z.land old (bitnot 64 all)) flags.
Proof. intros Ho. unfold merge_flags. by rewrite land_U64_MAX. Qed.

Lemma merge_or_u64 all old flags : u64 all -> u64 old -> u64 flags ->
  u64 (Z.lor (Z.land old (bitnot 64 all)) flags).
Proof. intros Ha Ho Hf. apply lor_uN; [lia| |done]. by apply land_uN_l. Qed.

(** A register that shows all bits, clears none, and is written as a cell. *)
Lemma plain_register_laws r `{FlagRegister r} :
  reg_width r = 64 -> u64 (fr_all r) -> plain_register r ->
  (forall s, Cpu_wf s -> fr_read r s = Z.land (s r) (fr_all r)) ->
  (forall flags s, Cpu_wf s -> u64 flags ->
    fr_write r flags s = if fr_accepts r flags
      then Ret (<[r := Z.lor (Z.land (s r) (bitnot 64 (fr_all r))) flags]> s) else Panic) ->
  (forall f s, fr_update r f s = (flags ← f (fr_read r s); fr_write r flags s)) ->
  FlagRegisterLaws r.
Proof.
  intros Hw Ha (Hv & Hc & Hst) Hr Hwr Hu.
  assert (forall s, Cpu_wf s -> u64 (s r)) as Hs by (intros s Hs; rewrite <- Hw; apply Hs).
  split; [done|done|intros s; rewrite Hst; by vm_compute| | | | |done].
  - intros s i Hi. by rewrite Hst, Hv.
  - intros s i Hi. by rewrite Hc, Z.bits_0.
  - intros s Hs'. rewrite Hr, Hv, land_U64_MAX by auto. done.
  - intros flags s Hs' Hf. rewrite Hwr, Hst, Hv, Hc, Z.ldiff_0_r, merge_visible by auto.
    by rewrite store_bits_all by (auto using merge_or_u64).
Qed.

#[export] Instance Cr0_FlagRegisterLaws : FlagRegisterLaws CR0.
Proof.
  assert (forall s, Cpu_wf s -> u64 (s CR0)) as Hv by (intros s Hs; apply (Hs CR0)).
  split; [done|by split; vm_compute|intros s; by split; vm_compute| | | | |done].
  - intros s i Hi. apply U64_MAX_visible; [by split; vm_compute|done].
  - intros s i Hi. by rewrite Z.bits_0.
  - intros s Hs. cbn [fr_visible fr_all Cr0_FlagRegister]. rewrite land_U64_MAX by auto.
    apply from_bits_truncate_law.
  - intros flags s Hs Hf. cbn [fr_visible fr_all fr_stores fr_clears fr_accepts fr_write Cr0_FlagRegister].
    by rewrite Z.ldiff_0_r, merge_visible by auto.
Qed.

#[export] Instance Cr4_FlagRegisterLaws : FlagRegisterLaws CR4.
Proof.
  apply plain_register_laws; [done|by split; vm_compute|done| |done|done].
  intros s Hs. apply from_bits_truncate_law.
Qed.

(** ** RFLAGS *)
Section rflags.
Context `{IdFlag}.

Lemma RFlags_all_u64 : u64 RFlags_all.
Proof. by split; vm_compute. Qed.

(** The bits that [popfq] stores. *)
Definition popfq_bit (s : Cpu) (i : Z) : bool :=
  Z.testbit RFlags_all i &&
  negb ((i =? 16) || (i =? 17) || (i =? 19) || (i =? 20)) &&
  (negb ((i =? 12) || (i =? 13)) || (cpl s =? 0)) &&
  (negb (i =? 9) || (cpl s <=? iopl s)) &&
  (negb (i =? 21) || id_modifiable).

Lemma popfq_stores_testbit s i : 0 <= i -> Z.testbit (popfq_stores s) i = popfq_bit s i.
Proof.
  intros Hi. unfold popfq_bit, popfq_stores. rewrite Z.ldiff_spec.
  destruct (decide (i < 22)) as [Hlt|Hge].
  - assert (i = 0 \/ i = 1 \/ i = 2 \/ i = 3 \/ i = 4 \/ i = 5 \/ i = 6 \/ i = 7 \/ i = 8 \/ i = 9 \/
      i = 10 \/ i = 11 \/ i = 12 \/ i = 13 \/ i = 14 \/ i = 15 \/ i = 16 \/ i = 17 \/ i = 18 \/
      i = 19 \/ i = 20 \/ i = 21) as Hc by lia.
    unfold popfq_fixed.
    destruct (cpl s =? 0), (cpl s <=? iopl s), id_modifiable;
      destruct_or! Hc; subst i; reflexivity.
  - rewrite (uN_testbit_high 22 RFlags_all) by (lia || by split; vm_compute). done.
Qed.

Lemma RFlags_visible_testbit i : 0 <= i ->
  Z.testbit RFlags_all i && Z.testbit pushfq_image i =
    Z.testbit RFlags_all i && negb (i =? 16) && negb (i =? 17).
Proof.
  intros Hi. change pushfq_image with (Z.ldiff (Z.ones 24) (Z.lor (2 ^ 16) (2 ^ 17))).
  rewrite Z.ldiff_spec, Z.lor_spec, !Z.pow2_bits_eqb, Z.testbit_ones_nonneg by lia.
  rewrite (Z.eqb_sym 16), (Z.eqb_sym 17). destruct (Z.ltb_spec i 24).
  - by destruct (Z.testbit RFlags_all i), (i =? 16), (i =? 17).
  - by rewrite (uN_testbit_high 22 RFlags_all) by (lia || by split; vm_compute).
Qed.

Lemma popfq_stores_u64 s : u64 (popfq_stores s).
Proof. apply ldiff_u64, RFlags_all_u64. Qed.

#[export] Instance RFlags_FlagRegisterLaws : FlagRegisterLaws RFLAGS.
Proof.
  split; [done|apply RFlags_all_u64|apply popfq_stores_u64| | | | |done].
  - intros s i Hi. cbn [fr_stores fr_visible RFlags_FlagRegister].
    rewrite popfq_stores_testbit by done. intros Hb.
    pose proof (RFlags_visible_testbit i Hi) as Hv. unfold popfq_bit in Hb.
    destruct (Z.testbit RFlags_all i), (i =? 16), (i =? 17); cbn [andb negb orb] in Hb, Hv; done.
  - intros s i Hi. cbn [fr_stores fr_clears RFlags_FlagRegister].
    rewrite popfq_stores_testbit by done. change RFlags_RESUME_FLAG with (2 ^ 16).
    rewrite Z.pow2_bits_eqb, Z.eqb_eq by lia. intros <-. unfold popfq_bit.
    by rewrite andb_false_r.
  - intros s Hs. apply from_bits_truncate_law.
  - done.
Qed.
End rflags.

(** The combinations of features that the processor supports. *)
Definition xcr0_ok (flags : Z) : bool :=
  let x87 := Z.testbit flags 0 in
  let sse := Z.testbit flags 1 in
  let avx := Z.testbit flags 2 in
  let bndreg := Z.testbit flags 3 in
  let bndcsr := Z.testbit flags 4 in
  let opmask := Z.testbit flags 5 in
  let zmm_hi256 := Z.testbit flags 6 in
  let hi16_zmm := Z.testbit flags 7 in
  x87 && implb avx sse && eqb bndreg bndcsr && eqb opmask zmm_hi256 && eqb opmask hi16_zmm &&
  implb opmask avx.

#[export] Instance XCr0_FlagRegister : FlagRegister XCR0 :=
  { fr_all := XCr0Flags_all; fr_accepts := xcr0_ok; fr_read := XCr0_read;
    fr_write := XCr0_write; fr_update := XCr0_update;
    fr_visible := U64_MAX; fr_stores _ := U64_MAX; fr_clears := 0 }.

Lemma split_u64 x : u64 x -> wrap 32 x + 2 ^ 32 * wrap 32 (Z.shiftr x 32) = x.
Proof. intros Hx. rewrite Z.shiftr_div_pow2 by lia. mlia. Qed.

Lemma join_u64 x : u64 x ->
  Z.lor (wrap 64 (Z.shiftl (wrap 32 (Z.shiftr x 32)) 32)) (wrap 32 x) = x.
Proof.
  intros Hx. rewrite Z.shiftr_div_pow2, Z.shiftl_mul_pow2 by lia.
  assert (uN 32 (x / 2 ^ 32)) as Hh by mlia. rewrite (wrap_small 32 (x / 2 ^ 32)) by done.
  rewrite (wrap_small 64) by (revert Hh; generalize (x / 2 ^ 32); mlia).
  rewrite Z.lor_comm, lor_low_high by (by try apply wrap_uN).
  unfold wrap. pose proof (Z.div_mod x (2 ^ 32)). lia.
Qed.

Lemma XCr0_read_raw_val s : Cpu_wf s -> XCr0_read_raw s = s XCR0.
Proof. intros Hs. exact (join_u64 (s XCR0) (Hs XCR0)). Qed.

(** The assertions test the bits one by one. *)
Lemma contains_or x y z : 0 <= y -> 0 <= z ->
  contains x (Z.lor y z) = contains x y && contains x z.
Proof.
  intros Hy Hz. rewrite !contains_law. apply eq_iff_eq_true. rewrite andb_true_iff, !Z.eqb_eq.
  assert (forall w, 0 <= w -> Z.land x w = w <->
    forall i, 0 <= i -> Z.testbit w i = true -> Z.testbit x i = true) as Hc.
  { intros w Hw. split.
    - intros E i Hi Hb. rewrite <- E, Z.land_spec in Hb. by apply andb_true_iff in Hb as [].
    - intros H. apply Z.bits_inj'. intros i Hi. rewrite Z.land_spec.
      destruct (Z.testbit w i) eqn:Eb; [by rewrite H|apply andb_false_r]. }
  rewrite !Hc by (done || by apply Z.lor_nonneg). split.
  - intros H. split; intros i Hi Hb; apply H; [done|by rewrite Z.lor_spec, Hb|done|].
    by rewrite Z.lor_spec, Hb, orb_true_r.
  - intros [H1 H2] i Hi Hb. rewrite Z.lor_spec in Hb. apply orb_true_iff in Hb as []; auto.
Qed.

Lemma intersects_or x y z : intersects x (Z.lor y z) = intersects x y || intersects x z.
Proof.
  rewrite !intersects_law, Z.land_lor_distr_r. rewrite <- negb_andb. f_equal.
  apply eq_iff_eq_true. rewrite andb_true_iff, !Z.eqb_eq. apply Z.lor_eq_0_iff.
Qed.

Lemma land_pow2_eqb_0 x i : 0 <= i -> (Z.land x (2 ^ i) =? 0) = negb (Z.testbit x i).
Proof.
  intros Hi. rewrite <- (land_pow2_testbit x i) by done.
  destruct (Z.eqb_spec (Z.land x (2 ^ i)) 0) as [->|Hne].
  - symmetry. apply negb_true_iff, Z.eqb_neq. pose proof (Z.pow_pos_nonneg 2 i). lia.
  - symmetry. apply negb_false_iff, Z.eqb_eq. apply Z.bits_inj'. intros j Hj.
    rewrite Z.land_spec, Z.pow2_bits_eqb by done. destruct (Z.eqb_spec i j) as [->|];
      [|apply andb_false_r].
    rewrite andb_true_r. destruct (Z.testbit x j) eqn:E; [done|]. destruct Hne.
    apply Z.bits_inj'. intros k Hk. rewrite Z.land_spec, Z.pow2_bits_eqb, Z.bits_0 by done.
    destruct (Z.eqb_spec j k) as [->|]; [by rewrite E|apply andb_false_r].
Qed.

Lemma contains_bit x f i : 0 <= i -> f = 2 ^ i -> contains x f = Z.testbit x i.
Proof. intros Hi ->. rewrite contains_law. by apply land_pow2_testbit. Qed.

Lemma intersects_bit x f i : 0 <= i -> f = 2 ^ i -> intersects x f = Z.testbit x i.
Proof. intros Hi ->. by rewrite intersects_law, land_pow2_eqb_0, negb_involutive. Qed.

Lemma XCr0_write_val flags s : Cpu_wf s -> u64 flags ->
  XCr0_write flags s =
    if xcr0_ok flags then Ret (<[XCR0 := merge_flags XCr0Flags_all (s XCR0) flags]> s) else Panic.
Proof.
  intros Hs Hf. unfold XCr0_write. rewrite XCr0_read_raw_val by done.
  fold (merge_flags XCr0Flags_all (s XCR0) flags). set (v := merge_flags _ _ _).
  assert (XCr0_write_raw v s = <[XCR0 := v]> s) as ->.
  { unfold XCr0_write_raw. rewrite split_u64; [done|]. apply lor_uN; [lia| |done].
    apply land_uN; [lia|apply (Hs XCR0)|]. by vm_compute. }
  rewrite (contains_bit flags XCr0Flags_X87 0), (contains_bit flags XCr0Flags_AVX 2),
    (contains_bit flags XCr0Flags_SSE 1) by done.
  rewrite !flags_or_law, !contains_or, !intersects_or by (by vm_compute).
  rewrite (contains_bit flags XCr0Flags_BNDREG 3), (contains_bit flags XCr0Flags_BNDCSR 4),
    (contains_bit flags XCr0Flags_OPMASK 5), (contains_bit flags XCr0Flags_ZMM_HI256 6),
    (contains_bit flags XCr0Flags_HI16_ZMM 7), (intersects_bit flags XCr0Flags_BNDREG 3),
    (intersects_bit flags XCr0Flags_BNDCSR 4), (intersects_bit flags XCr0Flags_OPMASK 5),
    (intersects_bit flags XCr0Flags_ZMM_HI256 6), (intersects_bit flags XCr0Flags_HI16_ZMM 7) by done.
  unfold xcr0_ok.
  by destruct (Z.testbit flags 0), (Z.testbit flags 1), (Z.testbit flags 2), (Z.testbit flags 3),
    (Z.testbit flags 4), (Z.testbit flags 5), (Z.testbit flags 6), (Z.testbit flags 7).
Qed.

#[export] Instance XCr0_FlagRegisterLaws : FlagRegisterLaws XCR0.
Proof.
  apply plain_register_laws; [done|by split; vm_compute|done| | |done].
  - intros s Hs. cbn. unfold XCr0_read. rewrite XCr0_read_raw_val by done.
    apply from_bits_truncate_law.
  - intros flags s Hs Hf. by apply XCr0_write_val.
Qed.

(** MXCSR has 32 bits, all of which are declared or reserved as zero. *)
Lemma MxCsr_write_read flags s :
  flags_wf MxCsr_all flags -> uN 32 flags ->
  MxCsr_read (MxCsr_write flags s) = flags /\ same_except MXCSR s (MxCsr_write flags s) /\
  MxCsr_default = 0x1f80.
Proof.
  intros [_ Hf] _. unfold MxCsr_read, MxCsr_write, MxCsr_default.
  rewrite fn_lookup_insert, from_bits_truncate_law. split; [done|].
  split; [apply same_except_insert|]. by autorewrite with flags.
Qed.
End instances.

(** ** CR3 *)
Section cr3.
Context `{BL : BitflagsLaws}.

(** The register as an address, the low 12 bits, and reserved bits above 52. *)
Definition cr3_value (frame : PhysFrame Size4KiB) (low high : Z) : Z :=
  low + pa (frame_start frame) + high * 2 ^ 52.

Lemma frame_address (frame : PhysFrame Size4KiB) :
  PhysFrame_wf frame -> exists k, pa (frame_start frame) = k * 2 ^ 12 /\ 0 <= k < 2 ^ 40.
Proof.
  intros [Hv Ha]. change (SIZE Size4KiB) with 4096 in Ha. unfold phys_valid in Hv.
  exists (pa (frame_start frame) / 4096). mlia.
Qed.

Lemma Cr3_write_raw_impl_val top frame val s :
  PhysFrame_wf frame -> uN 12 val ->
  Cr3_write_raw_impl top frame val s CR3 = cr3_value frame val 0 /\
  same_except CR3 s (Cr3_write_raw_impl top frame val s).
Proof.
  intros Hf Hv. split; [|apply same_except_insert].
  unfold Cr3_write_raw_impl, mov_cr3, PhysAddr_as_u64, PhysFrame_start_address, cr3_value.
  rewrite fn_lookup_insert. destruct (frame_address frame Hf) as (k & -> & Hk).
  rewrite Z.land_ones, Z.shiftl_mul_pow2 by lia.
  rewrite (wrap_small 64) by (destruct top; split; vm_compute; congruence).
  rewrite <- Z.lor_assoc, (Z.lor_comm _ val), lor_low_high, Z.lor_comm by (done || lia).
  rewrite lor_low_high by (unfold uN in *; lia).
  rewrite Z.mod_add by lia. rewrite Z.mod_small by (unfold uN in *; lia). lia.
Qed.

Lemma Cr3_read_raw_val frame low high s :
  PhysFrame_wf frame -> uN 12 low -> uN 12 high -> s CR3 = cr3_value frame low high ->
  Cr3_read_raw s = Ret (frame, low).
Proof.
  intros Hf Hl Hh E. unfold Cr3_read_raw. rewrite E. unfold cr3_value.
  destruct (frame_address frame Hf) as (k & Ek & Hk).
  assert (Z.land (low + pa (frame_start frame) + high * 2 ^ 52) 0x000ffffffffff000 =
    pa (frame_start frame)) as ->.
  { change 0x000ffffffffff000 with ADDR_MASK. rewrite Ek, land_mask by mlia. mlia. }
  rewrite PhysAddr_new_valid by by destruct Hf. cbn [mbind outcome_bind].
  rewrite PhysFrame_containing_start by done. cbn [mbind outcome_bind].
  change 0xFFF with (2 ^ 12 - 1). rewrite land_ones_mod, Ek by lia.
  replace ((low + k * 2 ^ 12 + high * 2 ^ 52) mod 2 ^ 12) with low by mlia.
  by rewrite wrap_small by mlia.
Qed.

(** Every value of the register has this form. *)
Lemma cr3_decompose s : Cpu_wf s -> exists frame low high,
  PhysFrame_wf frame /\ uN 12 low /\ uN 12 high /\ s CR3 = cr3_value frame low high.
Proof.
  intros Hs. pose proof (Hs CR3) as Hv. cbn in Hv. set (v := s CR3) in *.
  exists (mkPhysFrame (mkPhysAddr (v / 2 ^ 12 mod 2 ^ 40 * 2 ^ 12))), (v mod 2 ^ 12), (v / 2 ^ 52).
  unfold PhysFrame_wf, phys_valid, cr3_value. change (SIZE Size4KiB) with (2 ^ 12).
  cbn [frame_start pa]. rewrite Z.mod_mul by lia.
  pose proof (Z.mod_pos_bound (v / 2 ^ 12) (2 ^ 40)). pose proof (Z.mod_pos_bound v (2 ^ 12)).
  split; [split; [lia|done]|]. split; [unfold uN; lia|].
  assert (v = v mod 2 ^ 12 + 2 ^ 12 * (v / 2 ^ 12)) by (pose proof (Z.div_mod v (2 ^ 12)); lia).
  assert (v / 2 ^ 52 = v / 2 ^ 12 / 2 ^ 40) as -> by by rewrite Z.div_div.
  pose proof (Z.div_mod (v / 2 ^ 12) (2 ^ 40)). unfold uN in *. lia.
Qed.

Lemma Cr3_read_val frame low high s :
  PhysFrame_wf frame -> uN 12 low -> uN 12 high -> s CR3 = cr3_value frame low high ->
  Cr3_read s = Ret (frame, Z.land low Cr3Flags_all) /\ Cr3_read_pcid s = Ret (frame, mkPcid low).
Proof.
  intros Hf Hl Hh E. unfold Cr3_read, Cr3_read_pcid.
  rewrite (Cr3_read_raw_val frame low high) by done. cbn [mbind outcome_bind].
  rewrite from_bits_truncate_law. split; [done|].
  unfold Pcid_new. rewrite (proj2 (Z.leb_gt _ _)) by (unfold uN in Hl; lia). done.
Qed.

Lemma flags_uN12 flags : flags_wf Cr3Flags_all flags -> uN 12 flags.
Proof.
  intros [[H _] <-]. rewrite Z.land_comm. by apply land_uN; [lia|by vm_compute|].
Qed.

(** [write_raw] with any [u16]: the bits from 12 on are ORed into the address. *)
Definition cr3_spill (frame : PhysFrame Size4KiB) (val : Z) : PhysFrame Size4KiB :=
  mkPhysFrame (mkPhysAddr (Z.lor (pa (frame_start frame)) (Z.land val 0xF000))).

Lemma cr3_spill_wf frame val : PhysFrame_wf frame -> PhysFrame_wf (cr3_spill frame val).
Proof.
  intros Hf. destruct (frame_address frame Hf) as (k & Ek & Hk). unfold cr3_spill.
  change 0xF000 with (Z.shiftl 0xF 12). split; cbn [frame_start pa].
  - change (phys_valid _) with (uN 52 (Z.lor (pa (frame_start frame)) (Z.land val (Z.shiftl 15 12)))).
    apply lor_uN; [lia|destruct Hf as [Hv _]; exact Hv|]. rewrite Z.land_comm. by apply land_uN_l.
  - change (SIZE Size4KiB) with (2 ^ 12). apply Z.bits_inj'. intros i Hi. rewrite Z.bits_0.
    destruct (decide (i < 12)); [|by rewrite Z.mod_pow2_bits_high by lia].
    rewrite Z.mod_pow2_bits_low, Z.lor_spec, Z.land_spec, Ek, Z.mul_pow2_bits_low,
      Z.shiftl_spec_low by lia. by rewrite andb_false_r.
Qed.

Lemma land_spill_low val : 0 <= val < 2 ^ 12 -> Z.land val 0xF000 = 0.
Proof.
  intros Hv. change 0xF000 with (Z.shiftl 0xF 12). apply Z.bits_inj'. intros i Hi.
  rewrite Z.land_spec, Z.bits_0. destruct (decide (i < 12)).
  - by rewrite Z.shiftl_spec_low, andb_false_r by lia.
  - by rewrite (uN_testbit_high 12 val) by (done || lia).
Qed.

Lemma Cr3_write_raw_spill frame val s :
  PhysFrame_wf frame -> u16 val ->
  Cr3_write_raw frame val s = Cr3_write_raw (cr3_spill frame val) (val mod 2 ^ 12) s.
Proof.
  intros Hf Hv. unfold Cr3_write_raw, Cr3_write_raw_impl, PhysAddr_as_u64, PhysFrame_start_address.
  cbn [cr3_spill frame_start pa]. rewrite <- !Z.lor_assoc. f_equal. do 2 f_equal.
  apply Z.bits_inj'. intros i Hi. rewrite !Z.lor_spec, Z.land_spec.
  change 0xF000 with (Z.shiftl (Z.ones 4) 12).
  destruct (decide (i < 12)) as [Hlt|Hge].
  - by rewrite Z.mod_pow2_bits_low, Z.shiftl_spec_low, andb_false_r by lia.
  - rewrite Z.mod_pow2_bits_high, Z.shiftl_spec, Z.testbit_ones_nonneg, orb_false_r by lia.
    destruct (Z.ltb_spec (i - 12) 4); [by rewrite andb_true_r|].
    by rewrite (uN_testbit_high 16 val) by (done || lia).
Qed.

(** C30. CR3 packs a frame with flags or with a PCID, without loss: what write,
    write_pcid and write_pcid_no_flush store is what read and read_pcid return.
    write_raw takes any u16: the bits 12 to 15 of the value are ORed into the
    address of the frame, and read_raw returns that frame and the low 12 bits,
    so that it returns the frame and value given exactly for values below 2^12.
    No other register changes.  Reading never panics, whatever the register
    holds, and splits its 64 bits into the frame, the low 12 bits and the
    reserved bits from 52 on; update_pcid with a closure that changes nothing
    clears the reserved bits only. *)
Theorem Cr3_roundtrip s :
  Cpu_wf s ->
  (forall frame, PhysFrame_wf frame ->
    (forall flags, flags_wf Cr3Flags_all flags ->
      Cr3_read (Cr3_write frame flags s) = Ret (frame, flags) /\
      same_except CR3 s (Cr3_write frame flags s)) /\
    (forall pcid, Pcid_wf pcid ->
      Cr3_read_pcid (Cr3_write_pcid frame pcid s) = Ret (frame, pcid) /\
      same_except CR3 s (Cr3_write_pcid frame pcid s) /\
      (forall r, Cr3_write_pcid_no_flush frame pcid s r = Cr3_write_pcid frame pcid s r)) /\
    (forall val, u16 val ->
      Cr3_read_raw (Cr3_write_raw frame val s) = Ret (cr3_spill frame val, val mod 2 ^ 12) /\
      PhysFrame_wf (cr3_spill frame val) /\
      (Cr3_read_raw (Cr3_write_raw frame val s) = Ret (frame, val) <-> val < 2 ^ 12) /\
      same_except CR3 s (Cr3_write_raw frame val s))) /\
  exists frame low high,
    PhysFrame_wf frame /\ uN 12 low /\ uN 12 high /\ s CR3 = cr3_value frame low high /\
    Cr3_read_raw s = Ret (frame, low) /\
    Cr3_read s = Ret (frame, Z.land low Cr3Flags_all) /\
    Cr3_read_pcid s = Ret (frame, mkPcid low) /\
    exists s', Cr3_update_pcid Ret s = Ret s' /\ s' CR3 = cr3_value frame low 0.
Proof.
  intros Hs. assert (uN 12 0) as H0 by by split. split.
  - intros frame Hf. split; [|split].
    + intros flags Hfl. pose proof (flags_uN12 flags Hfl) as H12. unfold Cr3_write.
      rewrite wrap_small by mlia.
      destruct (Cr3_write_raw_impl_val false frame flags s Hf H12) as [E ?].
      destruct (Cr3_read_val _ _ _ _ Hf H12 H0 E) as [-> _]. destruct Hfl as [_ ->]. done.
    + intros [p] Hp. unfold Cr3_write_pcid, Cr3_write_pcid_no_flush, Pcid_wf, Pcid_value in *.
      cbn [pcid_value] in *.
      destruct (Cr3_write_raw_impl_val false frame p s Hf Hp) as [E Hsame].
      destruct (Cr3_write_raw_impl_val true frame p s Hf Hp) as [E' Hsame'].
      destruct (Cr3_read_val _ _ _ _ Hf Hp H0 E) as [_ ->]. split; [done|]. split; [done|].
      intros r. destruct (decide (r = CR3)) as [->|Hr]; [congruence|].
      by rewrite (Hsame r Hr), (Hsame' r Hr).
    + intros val Hv. pose proof (cr3_spill_wf frame val Hf) as Hf'.
      pose proof (Z.mod_pos_bound val (2 ^ 12) ltac:(lia)) as Hlow. rewrite Cr3_write_raw_spill by done.
      destruct (Cr3_write_raw_impl_val false (cr3_spill frame val) (val mod 2 ^ 12) s Hf' Hlow) as [E ?].
      assert (Cr3_read_raw (Cr3_write_raw (cr3_spill frame val) (val mod 2 ^ 12) s) =
        Ret (cr3_spill frame val, val mod 2 ^ 12)) as Er by by apply (Cr3_read_raw_val _ _ 0).
      split; [done|]. split; [done|]. split; [|done]. rewrite Er. split.
      * intros [= _ Em]. lia.
      * intros Hlt. rewrite Z.mod_small by (unfold uN in Hv; lia). do 2 f_equal. apply frame_ext.
        cbn [cr3_spill frame_start pa]. rewrite land_spill_low by (unfold uN in *; lia). apply Z.lor_0_r.
  - destruct (cr3_decompose s Hs) as (frame & low & high & Hf & Hl & Hh & E).
    destruct (Cr3_read_val _ _ _ _ Hf Hl Hh E) as [E1 E2].
    exists frame, low, high. split_and!; try done; [by apply (Cr3_read_raw_val _ _ high)|].
    unfold Cr3_update_pcid. rewrite E2. cbn [mbind outcome_bind]. eexists. split; [reflexivity|].
    by apply Cr3_write_raw_impl_val.
Qed.

(** C39. flush_all reloads CR3 with its own value only as long as the low 12
    bits hold nothing but the two declared flags: it panics never and changes
    no other register, but when they hold a PCID it keeps the bits 3 and 4
    only, and so it switches to another PCID instead of flushing the current
    one. *)
Theorem flush_all_reloads frame low high s :
  PhysFrame_wf frame -> uN 12 low -> uN 12 high -> s CR3 = cr3_value frame low high ->
  exists s', flush_all s = Ret s' /\ same_except CR3 s s' /\
    s' CR3 = cr3_value frame (Z.land low Cr3Flags_all) 0 /\
    (s' CR3 = s CR3 <-> Z.land low Cr3Flags_all = low /\ high = 0) /\
    Cr3_read_pcid s' = Ret (frame, mkPcid (Z.land low 0x18)).
Proof.
  intros Hf Hl Hh E. destruct (Cr3_read_val _ _ _ _ Hf Hl Hh E) as [E1 _].
  assert (uN 12 (Z.land low Cr3Flags_all)) as Hl' by (apply land_uN; [lia|done|by vm_compute]).
  unfold flush_all. rewrite E1. cbn [mbind outcome_bind]. eexists. split; [reflexivity|].
  unfold Cr3_write. rewrite wrap_small by (unfold uN in *; lia).
  destruct (Cr3_write_raw_impl_val false frame _ s Hf Hl') as [E' Hsame].
  split; [done|]. split; [done|]. split.
  - rewrite E', E. unfold cr3_value, uN in *. lia.
  - assert (uN 12 0) as H0 by by split. exact (proj2 (Cr3_read_val _ _ _ _ Hf Hl' H0 E')).
Qed.
End cr3.

(** ** Interrupts *)
Section interrupts.
Context `{BL : BitflagsLaws}.

Definition if_set (s : Cpu) : bool := Z.testbit (s RFLAGS) 9.

Lemma are_enabled_val s : are_enabled s = if_set s.
Proof.
  unfold are_enabled, RFlags_read, RFlags_read_raw, pushfq. autorewrite with flags.
  change RFlags_INTERRUPT_FLAG with (2 ^ 9). rewrite land_pow2_testbit, !Z.land_spec by lia.
  unfold if_set. by destruct (Z.testbit (s RFLAGS) 9).
Qed.

(** [s'] is [s] with the interrupt flag [b]. *)
Definition with_if (b : bool) (s s' : Cpu) : Prop :=
  same_except RFLAGS s s' /\
  forall i, 0 <= i -> Z.testbit (s' RFLAGS) i = if i =? 9 then b else Z.testbit (s RFLAGS) i.

Lemma testbit_IF i : 0 <= i -> Z.testbit RFlags_INTERRUPT_FLAG i = (i =? 9).
Proof.
  intros Hi. change RFlags_INTERRUPT_FLAG with (2 ^ 9).
  by rewrite Z.pow2_bits_eqb, Z.eqb_sym by lia.
Qed.

Lemma disable_with_if s : with_if false s (interrupts_disable s).
Proof.
  split; [apply same_except_insert|]. intros i Hi. unfold interrupts_disable.
  rewrite fn_lookup_insert, Z.ldiff_spec, testbit_IF by done.
  destruct (i =? 9); [apply andb_false_r|apply andb_true_r].
Qed.

Lemma enable_with_if s : with_if true s (interrupts_enable s).
Proof.
  split; [apply same_except_insert|]. intros i Hi. unfold interrupts_enable.
  rewrite fn_lookup_insert, Z.lor_spec, testbit_IF by done.
  destruct (i =? 9); [apply orb_true_r|apply orb_false_r].
Qed.

(** C31. without_interrupts runs the closure exactly once with interrupts
    disabled, in a state that is otherwise the caller's; afterwards interrupts
    are enabled if they were before, else they are as the closure left them,
    and nothing else of the closure's effects is changed; a panic or fault of
    the closure is passed on.  Sections nest: under disabled interrupts a
    closure that keeps the interrupt flag is run without any change of it. *)
Theorem without_interrupts_correct {St R} (f : Cpu * St -> outcome (R * (Cpu * St))) c st :
  exists c0, are_enabled c0 = false /\ with_if false c c0 /\
    (f (c0, st) = Panic -> without_interrupts f (c, st) = Panic) /\
    (f (c0, st) = Fault -> without_interrupts f (c, st) = Fault) /\
    (forall r c1 st1, f (c0, st) = Ret (r, (c1, st1)) ->
      exists c2, without_interrupts f (c, st) = Ret (r, (c2, st1)) /\
        with_if (are_enabled c || are_enabled c1) c1 c2 /\
        (are_enabled c = false -> without_interrupts f (c, st) = f (c, st) /\ c2 = c1)).
Proof.
  rewrite are_enabled_val. unfold without_interrupts. cbn [fst snd]. rewrite are_enabled_val.
  assert (forall s, with_if (if_set s) s s) as Hsame.
  { intros s. split; [done|]. intros i Hi. destruct (Z.eqb_spec i 9) as [->|]; done. }
  destruct (if_set c) eqn:E.
  - exists (interrupts_disable c). rewrite are_enabled_val.
    pose proof (disable_with_if c) as [H1 H2]. split; [by unfold if_set; rewrite H2|].
    split; [done|]. split; [by intros ->|]. split; [by intros ->|].
    intros r c1 st1 ->. cbn. eexists. split; [reflexivity|].
    split; [apply enable_with_if|done].
  - exists c. rewrite are_enabled_val, E. split; [done|].
    split; [by rewrite <- E at 1|]. split; [by intros ->|]. split; [by intros ->|].
    intros r c1 st1 Ef. rewrite Ef. cbn. exists c1. split; [done|]. split; [|done].
    rewrite are_enabled_val. apply Hsame.
Qed.
End interrupts.

(** ** Examples *)
Definition cpu0 : Cpu := fun r => match r with CR3 => 0x7005 | RFLAGS => 0x202 | _ => 0 end.

Lemma cpu0_wf : Cpu_wf cpu0.
Proof. intros []; split; vm_compute; congruence. Qed.

Definition frame7 : PhysFrame Size4KiB := mkPhysFrame (mkPhysAddr 0x7000).
Lemma frame7_wf : PhysFrame_wf frame7.
Proof. split; [split; vm_compute; congruence|reflexivity]. Qed.

Lemma Cr3_roundtrip_witness :
  Cr3_read (Cr3_write frame7 8 cpu0) = Ret (frame7, 8) /\
  Cr3_read_pcid (Cr3_write_pcid frame7 (mkPcid 4095) cpu0) = Ret (frame7, mkPcid 4095).
Proof.
  destruct (Cr3_roundtrip cpu0 cpu0_wf) as [H _]. destruct (H frame7 frame7_wf) as (H1 & H2 & _).
  split.
  - apply (H1 8). split; [by split|reflexivity].
  - apply (H2 (mkPcid 4095)). by split.
Defined.

Lemma flush_all_reloads_witness :
  exists s', flush_all cpu0 = Ret s' /\ Cr3_read_pcid cpu0 = Ret (frame7, mkPcid 5) /\
    Cr3_read_pcid s' = Ret (frame7, mkPcid 0).
Proof.
  destruct (flush_all_reloads frame7 5 0 cpu0 frame7_wf ltac:(by split) ltac:(by split) eq_refl)
    as (s' & E & _ & _ & _ & E').
  exists s'. split; [exact E|]. split; [reflexivity|exact E'].
Defined.

Lemma without_interrupts_correct_witness :
  exists c2, without_interrupts (fun s => Ret (are_enabled (fst s), s)) (cpu0, tt) =
      Ret (false, (c2, tt)) /\ with_if true (interrupts_disable cpu0) c2.
Proof.
  destruct (without_interrupts_correct (fun s => Ret (are_enabled (fst s), s)) cpu0 tt)
    as (c0 & H0 & H1 & _ & _ & H).
  exists (interrupts_enable (interrupts_disable cpu0)).
  destruct (H (are_enabled c0) c0 tt eq_refl) as (c2 & E & _ & _).
  split; [reflexivity|apply enable_with_if].
Defined.
