(* ===== verification/ModelSpecific.v ===== *)
(** * Model specific registers (registers/model_specific.rs)

    [Msr] and the registers with a type of their own: EFER, the segment bases,
    STAR, LSTAR, SFMASK, the CET registers, PAT and the APIC base. *)
From Stdlib Require Import ZArith Lia Bool.
From stdpp Require Import base decidable option list numbers functions.
From S2P Require Import Prelude Crates Addr Page Frame PageTable Gdt Cpu Control.
#[local] Open Scope Z_scope.

(** ** [Msr] *)
Record Msr : Type := mkMsr { msr_number : Z }.
Definition Msr_new (reg : Z) : Msr := mkMsr reg.

(** [wrmsr].  Bit 10 of EFER (LONG_MODE_ACTIVE) reports the state of the
    processor; a write does not change it. *)
Definition wrmsr (n value : Z) (s : Cpu) : Cpu :=
  <[MSR n := if n =? 0xC0000080 then store_bits (bitnot 64 (Z.shiftl 1 10)) (s (MSR n)) value
             else value]> s.

(** [rdmsr] and [wrmsr] move the register through EDX:EAX. *)
Definition Msr_read (self : Msr) (s : Cpu) : Z :=
  let low := wrap 32 (s (MSR (msr_number self))) in
  let high := wrap 32 (Z.shiftr (s (MSR (msr_number self))) 32) in
  Z.lor (wrap 64 (Z.shiftl high 32)) low.
Definition Msr_write (self : Msr) (value : Z) (s : Cpu) : Cpu :=
  let low := wrap 32 value in
  let high := wrap 32 (Z.shiftr value 32) in
  wrmsr (msr_number self) (low + 2 ^ 32 * high) s.

Definition FsBase : Msr := mkMsr FsBase_MSR.
Definition GsBase : Msr := mkMsr GsBase_MSR.
Definition KernelGsBase : Msr := mkMsr KernelGsBase_MSR.
Definition Efer_MSR : Msr := mkMsr 0xC0000080.
Definition Star_MSR : Msr := mkMsr 0xC0000081.
Definition LStar_MSR : Msr := mkMsr 0xC0000082.
Definition SFMask_MSR : Msr := mkMsr 0xC0000084.
Definition UCet_MSR : Msr := mkMsr 0x6A0.
Definition SCet_MSR : Msr := mkMsr 0x6A2.
Definition Pat_MSR : Msr := mkMsr 0x277.
Definition ApicBase_MSR : Msr := mkMsr 0x1B.

(** ** EFER *)
Definition EferFlags_SYSTEM_CALL_EXTENSIONS : Z := 1.
Definition EferFlags_LONG_MODE_ENABLE : Z := Z.shiftl 1 8.
Definition EferFlags_LONG_MODE_ACTIVE : Z := Z.shiftl 1 10.
Definition EferFlags_NO_EXECUTE_ENABLE : Z := Z.shiftl 1 11.
Definition EferFlags_SECURE_VIRTUAL_MACHINE_ENABLE : Z := Z.shiftl 1 12.
Definition EferFlags_LONG_MODE_SEGMENT_LIMIT_ENABLE : Z := Z.shiftl 1 13.
Definition EferFlags_FAST_FXSAVE_FXRSTOR : Z := Z.shiftl 1 14.
Definition EferFlags_TRANSLATION_CACHE_EXTENSION : Z := Z.shiftl 1 15.
Definition EferFlags_all : Z :=
  foldr Z.lor 0
    [EferFlags_SYSTEM_CALL_EXTENSIONS; EferFlags_LONG_MODE_ENABLE;
     EferFlags_LONG_MODE_ACTIVE; EferFlags_NO_EXECUTE_ENABLE;
     EferFlags_SECURE_VIRTUAL_MACHINE_ENABLE; EferFlags_LONG_MODE_SEGMENT_LIMIT_ENABLE;
     EferFlags_FAST_FXSAVE_FXRSTOR; EferFlags_TRANSLATION_CACHE_EXTENSION].

Definition Efer_read_raw (s : Cpu) : Z := Msr_read Efer_MSR s.
Definition Efer_write_raw (flags : Z) (s : Cpu) : Cpu := Msr_write Efer_MSR flags s.
Definition Efer_read `{Bitflags} (s : Cpu) : Z := from_bits_truncate EferFlags_all (Efer_read_raw s).
Definition Efer_write (flags : Z) (s : Cpu) : Cpu :=
  let old_value := Efer_read_raw s in
  let reserved := Z.land old_value (bitnot 64 EferFlags_all) in
  let new_value := Z.lor reserved flags in
  Efer_write_raw new_value s.
Definition Efer_update `{Bitflags} (f : Z -> outcome Z) (s : Cpu) : outcome Cpu :=
  flags ← f (Efer_read s);
  Ret (Efer_write flags s).

(** ** Registers that hold an address *)
Definition FsBase_read (s : Cpu) : outcome VirtAddr := VirtAddr_new (Msr_read FsBase s).
Definition FsBase_write (address : VirtAddr) (s : Cpu) : Cpu := Msr_write FsBase (VirtAddr_as_u64 address) s.
Definition GsBase_read (s : Cpu) : outcome VirtAddr := VirtAddr_new (Msr_read GsBase s).
Definition GsBase_write (address : VirtAddr) (s : Cpu) : Cpu := Msr_write GsBase (VirtAddr_as_u64 address) s.
Definition KernelGsBase_read (s : Cpu) : outcome VirtAddr := VirtAddr_new (Msr_read KernelGsBase s).
Definition KernelGsBase_write (address : VirtAddr) (s : Cpu) : Cpu := Msr_write KernelGsBase (VirtAddr_as_u64 address) s.
Definition LStar_read (s : Cpu) : outcome VirtAddr := VirtAddr_new (Msr_read LStar_MSR s).
Definition LStar_write (address : VirtAddr) (s : Cpu) : Cpu := Msr_write LStar_MSR (VirtAddr_as_u64 address) s.

(** ** STAR *)
Inductive InvalidStarSegmentSelectors : Type :=
  | SysretOffset
  | SyscallOffset
  | SysretPrivilegeLevel
  | SyscallPrivilegeLevel.

Section star.
Context `{BitField} `{Target}.

(** [u64::try_into::<u16>().unwrap()]. *)
Definition unwrap_u16 (x : Z) : outcome Z := if x <=? U16_MAX then Ret x else Panic.

Definition Star_read_raw (s : Cpu) : outcome (Z * Z) :=
  let msr_value := Msr_read Star_MSR s in
  sysret ← get_bits 64 msr_value 48 64;
  syscall ← get_bits 64 msr_value 32 48;
  sysret ← unwrap_u16 sysret;
  syscall ← unwrap_u16 syscall;
  Ret (sysret, syscall).

Definition Star_read (s : Cpu)
    : outcome (SegmentSelector * SegmentSelector * SegmentSelector * SegmentSelector) :=
  '(raw0, raw1) ← Star_read_raw s;
  a ← arith 16 (raw0 + 16);
  b ← arith 16 (raw0 + 8);
  d ← arith 16 (raw1 + 8);
  Ret (mkSegmentSelector a, mkSegmentSelector b, mkSegmentSelector raw1, mkSegmentSelector d).

Definition Star_write_raw (sysret syscall : Z) (s : Cpu) : outcome Cpu :=
  let msr_value := 0 in
  msr_value ← set_bits 64 msr_value 48 64 sysret;
  msr_value ← set_bits 64 msr_value 32 48 syscall;
  Ret (Msr_write Star_MSR msr_value s).

(** The comparisons are on [i32]; the subtraction at the end is on [u16]. *)
Definition Star_write (cs_sysret ss_sysret cs_syscall ss_syscall : SegmentSelector) (s : Cpu)
    : outcome (result unit InvalidStarSegmentSelectors * Cpu) :=
  let cs_sysret_cmp := selector cs_sysret - 16 in
  let ss_sysret_cmp := selector ss_sysret - 8 in
  let cs_syscall_cmp := selector cs_syscall in
  let ss_syscall_cmp := selector ss_syscall - 8 in
  if negb (cs_sysret_cmp =? ss_sysret_cmp) then Ret (Err SysretOffset, s)
  else if negb (cs_syscall_cmp =? ss_syscall_cmp) then Ret (Err SyscallOffset, s)
  else
    l ← SegmentSelector_rpl ss_sysret;
    if negb (bool_decide (l = Ring3)) then Ret (Err SysretPrivilegeLevel, s)
    else
      l ← SegmentSelector_rpl ss_syscall;
      if negb (bool_decide (l = Ring0)) then Ret (Err SyscallPrivilegeLevel, s)
      else
        sysret ← arith 16 (selector ss_sysret - 8);
        s ← Star_write_raw sysret (selector cs_syscall) s;
        Ret (Ok tt, s).
End star.

(** ** SFMASK *)
Section sfmask.
Context `{Bitflags}.
Definition SFMask_read (s : Cpu) : outcome Z := unwrap (from_bits RFlags_all (Msr_read SFMask_MSR s)).
Definition SFMask_write (value : Z) (s : Cpu) : Cpu := Msr_write SFMask_MSR value s.
Definition SFMask_update (f : Z -> outcome Z) (s : Cpu) : outcome Cpu :=
  flags ← SFMask_read s;
  flags ← f flags;
  Ret (SFMask_write flags s).
End sfmask.

(** ** U_CET and S_CET: flags, and the page of the legacy code bitmap *)
Definition CetFlags_SS_ENABLE : Z := Z.shiftl 1 0.
Definition CetFlags_SS_WRITE_ENABLE : Z := Z.shiftl 1 1.
Definition CetFlags_IBT_ENABLE : Z := Z.shiftl 1 2.
Definition CetFlags_IBT_LEGACY_ENABLE : Z := Z.shiftl 1 3.
Definition CetFlags_IBT_NO_TRACK_ENABLE : Z := Z.shiftl 1 4.
Definition CetFlags_IBT_LEGACY_SUPPRESS_ENABLE : Z := Z.shiftl 1 5.
Definition CetFlags_IBT_SUPPRESS_ENABLE : Z := Z.shiftl 1 10.
Definition CetFlags_IBT_TRACKED : Z := Z.shiftl 1 11.
Definition CetFlags_all : Z :=
  foldr Z.lor 0
    [CetFlags_SS_ENABLE; CetFlags_SS_WRITE_ENABLE; CetFlags_IBT_ENABLE;
     CetFlags_IBT_LEGACY_ENABLE; CetFlags_IBT_NO_TRACK_ENABLE;
     CetFlags_IBT_LEGACY_SUPPRESS_ENABLE; CetFlags_IBT_SUPPRESS_ENABLE;
     CetFlags_IBT_TRACKED].

Section cet.
Context `{Bitflags}.

Definition UCet_read_raw (s : Cpu) : Z := Msr_read UCet_MSR s.
Definition UCet_write_raw (value : Z) (s : Cpu) : Cpu := Msr_write UCet_MSR value s.
Definition UCet_read (s : Cpu) : outcome (Z * Page Size4KiB) :=
  let value := UCet_read_raw s in
  let cet_flags := from_bits_truncate CetFlags_all value in
  a ← VirtAddr_new (Z.land value (bitnot 64 (SIZE Size4KiB - 1)));
  p ← Page_from_start_address a;
  legacy_bitmap ← unwrap_ok p;
  Ret (cet_flags, legacy_bitmap).
Definition UCet_write (flags : Z) (legacy_bitmap : Page Size4KiB) (s : Cpu) : Cpu :=
  UCet_write_raw (Z.lor flags (VirtAddr_as_u64 (Page_start_address legacy_bitmap))) s.
Definition UCet_update (f : Z * Page Size4KiB -> outcome (Z * Page Size4KiB)) (s : Cpu) : outcome Cpu :=
  r ← UCet_read s;
  '(flags, legacy_bitmap) ← f r;
  Ret (UCet_write flags legacy_bitmap s).

Definition SCet_read_raw (s : Cpu) : Z := Msr_read SCet_MSR s.
Definition SCet_write_raw (value : Z) (s : Cpu) : Cpu := Msr_write SCet_MSR value s.
Definition SCet_read (s : Cpu) : outcome (Z * Page Size4KiB) :=
  let value := SCet_read_raw s in
  let cet_flags := from_bits_truncate CetFlags_all value in
  a ← VirtAddr_new (Z.land value (bitnot 64 (SIZE Size4KiB - 1)));
  p ← Page_from_start_address a;
  legacy_bitmap ← unwrap_ok p;
  Ret (cet_flags, legacy_bitmap).
Definition SCet_write (flags : Z) (legacy_bitmap : Page Size4KiB) (s : Cpu) : Cpu :=
  SCet_write_raw (Z.lor flags (VirtAddr_as_u64 (Page_start_address legacy_bitmap))) s.
Definition SCet_update (f : Z * Page Size4KiB -> outcome (Z * Page Size4KiB)) (s : Cpu) : outcome Cpu :=
  r ← SCet_read s;
  '(flags, legacy_bitmap) ← f r;
  Ret (SCet_write flags legacy_bitmap s).
End cet.

(** ** PAT *)
Inductive PatMemoryType : Type :=
  | StrongUncacheable | WriteCombining | WriteThrough | WriteProtected | WriteBack | Uncacheable.

#[export] Instance PatMemoryType_eq_dec : EqDecision PatMemoryType.
Proof. solve_decision. Defined.

Definition PatMemoryType_from_bits (bits : Z) : option PatMemoryType :=
  match bits with
  | 0x00 => Some StrongUncacheable
  | 0x01 => Some WriteCombining
  | 0x04 => Some WriteThrough
  | 0x05 => Some WriteProtected
  | 0x06 => Some WriteBack
  | 0x07 => Some Uncacheable
  | _ => None
  end.
Definition PatMemoryType_bits (t : PatMemoryType) : Z :=
  match t with
  | StrongUncacheable => 0x00 | WriteCombining => 0x01 | WriteThrough => 0x04
  | WriteProtected => 0x05 | WriteBack => 0x06 | Uncacheable => 0x07
  end.

Definition Pat_DEFAULT : list PatMemoryType :=
  [WriteBack; WriteThrough; Uncacheable; StrongUncacheable;
   WriteBack; WriteThrough; Uncacheable; StrongUncacheable].

(** [to_ne_bytes] and [from_ne_bytes] on a little-endian processor; [map] with
    a closure that panics. *)
Definition to_ne_bytes (x : Z) : list Z := (fun i => field x (8 * i) (8 * i + 8)) <$> [0; 1; 2; 3; 4; 5; 6; 7].
Definition from_ne_bytes (l : list Z) : Z := pack ((fun b => (8, b)) <$> l).
Fixpoint map_panic {X Y} (f : X -> outcome Y) (l : list X) : outcome (list Y) :=
  match l with
  | [] => Ret []
  | x :: l => y ← f x; l ← map_panic f l; Ret (y :: l)
  end.

(** The table has eight elements. *)
Definition Pat_read (s : Cpu) : outcome (list PatMemoryType) :=
  map_panic (fun bits => unwrap (PatMemoryType_from_bits bits)) (to_ne_bytes (Msr_read Pat_MSR s)).
Definition Pat_write (table : list PatMemoryType) (s : Cpu) : Cpu :=
  let bits := from_ne_bytes (PatMemoryType_bits <$> table) in
  Msr_write Pat_MSR bits s.

(** ** The APIC base *)
Definition ApicBaseFlags_BSP : Z := Z.shiftl 1 8.
Definition ApicBaseFlags_X2APIC_ENABLE : Z := Z.shiftl 1 10.
Definition ApicBaseFlags_LAPIC_ENABLE : Z := Z.shiftl 1 11.
Definition ApicBaseFlags_all : Z :=
  foldr Z.lor 0
    [ApicBaseFlags_BSP; ApicBaseFlags_X2APIC_ENABLE; ApicBaseFlags_LAPIC_ENABLE].

Definition ApicBase_read_raw (s : Cpu) : outcome (PhysFrame Size4KiB * Z) :=
  let raw := Msr_read ApicBase_MSR s in
  let addr := PhysAddr_new_truncate raw in
  frame ← PhysFrame_containing_address addr;
  Ret (frame, raw).
Definition ApicBase_read `{Bitflags} (s : Cpu) : outcome (PhysFrame Size4KiB * Z) :=
  '(frame, flags) ← ApicBase_read_raw s;
  Ret (frame, from_bits_truncate ApicBaseFlags_all flags).
Definition ApicBase_write_raw (frame : PhysFrame Size4KiB) (flags : Z) (s : Cpu) : Cpu :=
  let addr := PhysFrame_start_address frame in
  Msr_write ApicBase_MSR (Z.lor flags (PhysAddr_as_u64 addr)) s.
Definition ApicBase_write (frame : PhysFrame Size4KiB) (flags : Z) (s : Cpu) : outcome Cpu :=
  '(_, old_flags) ← ApicBase_read_raw s;
  let reserved := Z.land old_flags (bitnot 64 ApicBaseFlags_all) in
  let new_flags := Z.lor reserved flags in
  Ret (ApicBase_write_raw frame new_flags s).

(** ** Facts *)
Lemma Msr_read_val m s : Cpu_wf s -> Msr_read m s = s (MSR (msr_number m)).
Proof. intros Hs. exact (join_u64 _ (Hs (MSR (msr_number m)))). Qed.

Lemma Msr_write_wrmsr m v s : u64 v -> Msr_write m v s = wrmsr (msr_number m) v s.
Proof. intros Hv. unfold Msr_write. by rewrite split_u64. Qed.

Lemma Msr_write_val m v s :
  u64 v -> msr_number m <> 0xC0000080 -> Msr_write m v s = <[MSR (msr_number m) := v]> s.
Proof. intros Hv Hm. rewrite Msr_write_wrmsr by done. unfold wrmsr. by apply Z.eqb_neq in Hm as ->. Qed.

Lemma Msr_write_read m v s :
  u64 v -> msr_number m <> 0xC0000080 -> Msr_read m (Msr_write m v s) = v.
Proof.
  intros Hv Hm. rewrite Msr_write_val by done. unfold Msr_read. rewrite fn_lookup_insert.
  by apply join_u64.
Qed.

Lemma Msr_write_same_except m v s : same_except (MSR (msr_number m)) s (Msr_write m v s).
Proof. apply same_except_insert. Qed.
#[export] Hint Resolve Msr_write_same_except : x86.

Section efer.
Context `{BL : BitflagsLaws}.

#[export] Instance Efer_FlagRegister : FlagRegister (MSR 0xC0000080) :=
  { fr_all := EferFlags_all; fr_accepts _ := true; fr_read := Efer_read;
    fr_write flags s := Ret (Efer_write flags s); fr_update := Efer_update;
    fr_visible := U64_MAX; fr_stores _ := bitnot 64 EferFlags_LONG_MODE_ACTIVE; fr_clears := 0 }.

#[export] Instance Efer_FlagRegisterLaws : FlagRegisterLaws (MSR 0xC0000080).
Proof.
  assert (forall s, Cpu_wf s -> u64 (s (MSR 0xC0000080))) as Hv.
  { intros s Hs. apply (Hs (MSR 0xC0000080)). }
  assert (u64 EferFlags_all) as Ha by (by split; vm_compute).
  split; [done|done|intros s; by split; vm_compute| | | | |done].
  - intros s i Hi. apply U64_MAX_visible; [by split; vm_compute|done].
  - intros s i Hi. by rewrite Z.bits_0.
  - intros s Hs. cbn [fr_read fr_visible fr_all Efer_FlagRegister]. rewrite land_U64_MAX by auto.
    unfold Efer_read, Efer_read_raw. rewrite Msr_read_val by done. apply from_bits_truncate_law.
  - intros flags s Hs Hf.
    cbn [fr_visible fr_all fr_stores fr_clears fr_accepts fr_write Efer_FlagRegister].
    rewrite Z.ldiff_0_r, merge_visible by auto.
    unfold Efer_write, Efer_read_raw, Efer_write_raw. rewrite Msr_read_val by done.
    by rewrite Msr_write_wrmsr by (apply merge_or_u64; auto).
Qed.
End efer.

(** C27. The registers of flags CR0, CR4, XCR0, RFLAGS and EFER. read returns the
    declared flags that the register holds, RF and VM of RFLAGS as 0 (pushfq
    does not show them). write gives every declared bit the given value, keeps
    the other bits of the register and every other register, and read returns
    the new bits, except where the processor does not follow: it never changes
    CR0.EXTENSION_TYPE, EFER.LONG_MODE_ACTIVE and VM, VIF and VIP of RFLAGS, nor
    IOPL outside of ring 0, IF when the ring is above IOPL and ID when ID is not
    modifiable; these bits keep their values. Writing RFLAGS clears RF. update is
    read, the closure and write; if the closure returns the flags it was given
    and write accepts them, only RF changes. XCR0 accepts
    exactly the combinations of features that the processor supports (x87
    always, AVX only with SSE, the MPX flags together, the AVX-512 flags together
    and only with AVX) and panics on others before the write. Values on which
    the processor faults are not modelled. *)
Theorem flag_registers_correct `{BL : BitflagsLaws} `{IdFlag} :
  flag_register_contract CR0 /\ flag_register_contract CR4 /\ flag_register_contract XCR0 /\
  flag_register_contract RFLAGS /\ flag_register_contract (MSR 0xC0000080) /\
  plain_register CR4 /\ plain_register XCR0 /\ fr_accepts XCR0 = xcr0_ok /\
  (fr_visible CR0 = U64_MAX /\ fr_clears CR0 = 0 /\
   forall s, fr_stores CR0 s = bitnot 64 Cr0Flags_EXTENSION_TYPE) /\
  (fr_visible (MSR 0xC0000080) = U64_MAX /\ fr_clears (MSR 0xC0000080) = 0 /\
   forall s, fr_stores (MSR 0xC0000080) s = bitnot 64 EferFlags_LONG_MODE_ACTIVE) /\
  (forall i, 0 <= i -> Z.testbit RFlags_all i && Z.testbit (fr_visible RFLAGS) i =
     Z.testbit RFlags_all i && negb (i =? 16) && negb (i =? 17)) /\
  fr_clears RFLAGS = RFlags_RESUME_FLAG /\
  (forall s i, 0 <= i -> Z.testbit (fr_stores RFLAGS s) i = popfq_bit s i).
Proof.
  split_and!; try (by apply flag_register_laws_contract; apply _); try done.
  - apply RFlags_visible_testbit.
  - intros s i. apply popfq_stores_testbit.
Qed.

Lemma flag_registers_correct_witness :
  let I : IdFlag := true in
  (exists s', XCr0_write 7 cpu0 = Ret s' /\ Z.testbit (XCr0_read s') 2 = true /\
     XCr0_write 6 cpu0 = Panic) /\
  (exists s', fr_write RFLAGS 0x10200 cpu0 = Ret s' /\ Z.testbit (RFlags_read s') 9 = true /\
     Z.testbit (s' RFLAGS) 16 = false).
Proof.
  intros I. destruct (flag_registers_correct (H := I)) as (_ & _ & Hx & Hr & _). split.
  - destruct (Hx cpu0 cpu0_wf) as (_ & _ & H & _).
    destruct (H 7 ltac:(by split)) as (s' & E & _ & _ & _ & E').
    exists s'. split; [exact E|]. split; [exact (E' 2 ltac:(lia) eq_refl)|].
    exact (H 6 ltac:(by split)).
  - destruct (Hr cpu0 cpu0_wf) as (_ & _ & H & _).
    destruct (H 0x10200 ltac:(by split)) as (s' & E & _ & _ & E1 & E2).
    exists s'. split; [exact E|]. split; [exact (E2 9 ltac:(lia) eq_refl)|].
    rewrite (E1 16 ltac:(lia)). reflexivity.
Defined.

(** ** Star *)
Section star_correct.
Context `{BFL : BitFieldLaws} `{Target}.

Lemma field_selectors (a b lo hi : Z) : u16 a -> u16 b ->
  let v := set_field (set_field 0 48 64 a) 32 48 b in
  u64 v /\ field v 48 64 = a /\ field v 32 48 = b.
Proof.
  intros Ha Hb v. change (uN (64 - 48) a) in Ha. change (uN (48 - 32) b) in Hb. unfold v.
  split; [bits_uN|]. by bits_read.
Qed.

Lemma Star_write_raw_val sysret syscall s :
  u16 sysret -> u16 syscall ->
  exists s', Star_write_raw sysret syscall s = Ret s' /\ same_except (MSR 0xC0000081) s s' /\
    Star_read_raw s' = Ret (sysret, syscall).
Proof.
  intros Ha Hb. destruct (field_selectors sysret syscall 0 0 Ha Hb) as (Hv & E1 & E2).
  assert (uN 64 0) by (by split). pose proof Ha as Ha'. pose proof Hb as Hb'.
  change (uN (64 - 48) sysret) in Ha'. change (uN (48 - 32) syscall) in Hb'.
  unfold Star_write_raw. bits_write. eexists. split; [reflexivity|].
  split; [apply (Msr_write_same_except Star_MSR)|]. unfold Star_read_raw.
  rewrite Msr_write_read by done. bits_write. rewrite E1, E2.
  unfold unwrap_u16. by rewrite !(proj2 (Z.leb_le _ _)) by mlia.
Qed.

Lemma rpl_val (x : SegmentSelector) :
  u16 (selector x) ->
  exists l, SegmentSelector_rpl x = Ret l /\ privilege_u16 l = selector x mod 4.
Proof.
  intros Hx. unfold SegmentSelector_rpl. bits_write. unfold field. rewrite Z.div_1_r.
  apply PrivilegeLevel_from_u16_total. by apply Z.mod_pos_bound.
Qed.

(** What [write] stores when its checks have passed is read back. *)
Lemma Star_write_raw_selectors v cs_sysret ss_sysret cs_syscall ss_syscall s :
  u16 v -> u16 (selector cs_syscall) -> u16 (selector ss_syscall) ->
  arith 16 (v + 16) = Ret (selector cs_sysret) -> arith 16 (v + 8) = Ret (selector ss_sysret) ->
  selector ss_syscall = selector cs_syscall + 8 ->
  exists s', (s0 ← Star_write_raw v (selector cs_syscall) s; Ret (Ok tt, s0)) =
      Ret (Ok tt : result unit InvalidStarSegmentSelectors, s') /\
    same_except (MSR 0xC0000081) s s' /\
    Star_read s' = Ret (cs_sysret, ss_sysret, cs_syscall, ss_syscall).
Proof.
  intros Hv H3 H4 Ea Eb E2.
  destruct (Star_write_raw_val v (selector cs_syscall) s Hv H3) as (s' & -> & Hs & Er).
  exists s'. split; [done|]. split; [done|]. unfold Star_read. rewrite Er. cbn [mbind outcome_bind].
  rewrite Ea, Eb. cbn [mbind outcome_bind]. rewrite arith_in_range by mlia. cbn [mbind outcome_bind].
  rewrite <- E2. by destruct cs_sysret, ss_sysret, cs_syscall, ss_syscall.
Qed.

(** The first check that fails. *)
Definition star_error (cs_sysret ss_sysret cs_syscall ss_syscall : SegmentSelector)
    : option InvalidStarSegmentSelectors :=
  if negb (selector cs_sysret =? selector ss_sysret + 8) then Some SysretOffset
  else if negb (selector ss_syscall =? selector cs_syscall + 8) then Some SyscallOffset
  else if negb (selector ss_sysret mod 4 =? 3) then Some SysretPrivilegeLevel
  else if negb (selector ss_syscall mod 4 =? 0) then Some SyscallPrivilegeLevel
  else None.

(** C29. Star::write returns the error of the first check that fails (sysret and
    syscall segments 8 apart, ring 3 and ring 0) and then changes nothing;
    otherwise it stores the selectors so that Star::read returns the four of
    them, and changes STAR only.  The exception are sysret stack selectors below
    8 (3 and 7), which pass the checks, although these are computed in i32 to
    prevent underflows: the subtraction of 8 in u16 panics with overflow checks,
    and wraps without them, where read wraps back. *)
Theorem Star_roundtrip cs_sysret ss_sysret cs_syscall ss_syscall s :
  u16 (selector cs_sysret) -> u16 (selector ss_sysret) -> u16 (selector cs_syscall) ->
  u16 (selector ss_syscall) ->
  match star_error cs_sysret ss_sysret cs_syscall ss_syscall with
  | Some e => Star_write cs_sysret ss_sysret cs_syscall ss_syscall s = Ret (Err e, s)
  | None =>
      if (selector ss_sysret <? 8) && overflow_checks
      then Star_write cs_sysret ss_sysret cs_syscall ss_syscall s = Panic
      else exists s', Star_write cs_sysret ss_sysret cs_syscall ss_syscall s = Ret (Ok tt, s') /\
        same_except (MSR 0xC0000081) s s' /\
        Star_read s' = Ret (cs_sysret, ss_sysret, cs_syscall, ss_syscall)
  end.
Proof.
  intros H1 H2 H3 H4. unfold star_error, Star_write.
  destruct (rpl_val ss_sysret H2) as (l & -> & El), (rpl_val ss_syscall H4) as (l' & -> & El').
  rewrite <- El, <- El'. cbn [mbind outcome_bind].
  replace (selector cs_sysret - 16 =? selector ss_sysret - 8)
    with (selector cs_sysret =? selector ss_sysret + 8)
    by (apply eq_iff_eq_true; rewrite !Z.eqb_eq; lia).
  replace (selector cs_syscall =? selector ss_syscall - 8)
    with (selector ss_syscall =? selector cs_syscall + 8)
    by (apply eq_iff_eq_true; rewrite !Z.eqb_eq; lia).
  destruct (Z.eqb_spec (selector cs_sysret) (selector ss_sysret + 8)) as [E1|]; [|done].
  destruct (Z.eqb_spec (selector ss_syscall) (selector cs_syscall + 8)) as [E2|]; [|done].
  cbn [negb]. destruct l; try done. destruct l'; try done.
  rewrite !bool_decide_true by done. cbn [negb privilege_u16 Z.eqb Pos.eqb].
  destruct (Z.ltb_spec (selector ss_sysret) 8).
  - assert (arith 16 (selector ss_sysret - 8) =
      if overflow_checks then Panic else Ret (wrap 16 (selector ss_sysret - 8))) as ->
      by (unfold arith; by rewrite (proj2 (Z.leb_gt _ _)) by lia).
    destruct overflow_checks eqn:Eo; [done|]. cbn [mbind outcome_bind andb].
    assert (wrap 16 (selector ss_sysret - 8) = selector ss_sysret + 65528) as Ew by mlia.
    apply Star_write_raw_selectors; [by apply wrap_uN|done..| | |done]; rewrite Ew; unfold arith;
      rewrite !(proj2 (Z.ltb_ge _ _)), !andb_false_r, Eo by mlia; f_equal; mlia.
  - rewrite arith_in_range by mlia. cbn [mbind outcome_bind andb].
    apply Star_write_raw_selectors; [mlia|done..| | |done]; rewrite arith_in_range by mlia;
      f_equal; lia.
Qed.
End star_correct.

(** ** The APIC base *)
Section apic.
Context `{BL : BitflagsLaws}.

(** Bits 12 to 51 of the register. *)
Definition apic_frame (raw : Z) : PhysFrame Size4KiB :=
  mkPhysFrame (mkPhysAddr (raw mod 2 ^ 52 / 2 ^ 12 * 2 ^ 12)).

Lemma apic_frame_testbit raw i : 0 <= i ->
  Z.testbit (pa (frame_start (apic_frame raw))) i = (12 <=? i) && (i <? 52) && Z.testbit raw i.
Proof.
  intros Hi. cbn [apic_frame frame_start pa]. destruct (Z.leb_spec 12 i).
  - rewrite Z.mul_pow2_bits, Z.div_pow2_bits by lia. replace (i - 12 + 12) with i by lia.
    destruct (Z.ltb_spec i 52); [by rewrite Z.mod_pow2_bits_low by lia|].
    by rewrite Z.mod_pow2_bits_high by lia.
  - by rewrite Z.mul_pow2_bits_low by lia.
Qed.

Lemma frame_testbit (f : PhysFrame Size4KiB) i :
  PhysFrame_wf f -> 0 <= i ->
  Z.testbit (pa (frame_start f)) i = (12 <=? i) && (i <? 52) && Z.testbit (pa (frame_start f)) i.
Proof.
  intros Hf Hi. destruct (frame_address f Hf) as (k & -> & Hk). destruct (Z.leb_spec 12 i).
  - destruct (Z.ltb_spec i 52); [done|]. rewrite Z.mul_pow2_bits by lia.
    apply (uN_testbit_high 40); [lia|done|lia].
  - by rewrite Z.mul_pow2_bits_low by lia.
Qed.

Lemma ApicBase_read_raw_val s : Cpu_wf s ->
  ApicBase_read_raw s = Ret (apic_frame (s (MSR 0x1B)), s (MSR 0x1B)).
Proof.
  intros Hs. unfold ApicBase_read_raw. rewrite Msr_read_val by done.
  change (msr_number ApicBase_MSR) with 0x1B. pose proof (Hs (MSR 0x1B)) as [H0 _].
  destruct (PhysFrame_containing_address_val (S := Size4KiB)
    (PhysAddr_new_truncate (s (MSR 0x1B)))) as [-> _]; [by apply PhysAddr_new_truncate_valid|].
  done.
Qed.

Lemma ApicBaseFlags_low i : 12 <= i -> Z.testbit ApicBaseFlags_all i = false.
Proof. intros Hi. by apply (uN_testbit_high 12); [lia|split; vm_compute|]. Qed.

(** A value made of flags below bit 12 and of the address of a frame. *)
Lemma apic_value_read n (f : PhysFrame Size4KiB) :
  PhysFrame_wf f ->
  Z.land (Z.lor n (pa (frame_start f))) ApicBaseFlags_all = Z.land n ApicBaseFlags_all /\
  pa (frame_start (apic_frame (Z.lor n (pa (frame_start f))))) =
    Z.lor (pa (frame_start (apic_frame n))) (pa (frame_start f)).
Proof.
  intros Hf. split; apply Z.bits_inj'; intros i Hi.
  - rewrite !Z.land_spec, Z.lor_spec, (frame_testbit f) by done. destruct (Z.leb_spec 12 i).
    + by rewrite ApicBaseFlags_low, !andb_false_r by done.
    + by rewrite orb_false_r.
  - rewrite Z.lor_spec, !apic_frame_testbit, Z.lor_spec, (frame_testbit f) by done.
    by destruct (12 <=? i), (i <? 52).
Qed.

Lemma lor_subset x y : u64 x -> u64 y -> Z.lor x y = y <-> Z.land x (bitnot 64 y) = 0.
Proof.
  intros Hx Hy. rewrite land_bitnot_0 by done. split.
  - intros E i Hi Hb. rewrite <- E, Z.lor_spec in Hb. by apply orb_false_iff in Hb as [].
  - intros H. apply Z.bits_inj'. intros i Hi. rewrite Z.lor_spec.
    destruct (Z.testbit y i) eqn:E; [apply orb_true_r|]. by rewrite H.
Qed.

(** Flags and reserved bits do not reach the address. *)
Lemma apic_frame_merge raw flags :
  u64 raw -> flags_wf ApicBaseFlags_all flags ->
  apic_frame (merge_flags ApicBaseFlags_all raw flags) = apic_frame raw /\
  pa (frame_start (apic_frame flags)) = 0.
Proof.
  intros Hr Hf. assert (u64 ApicBaseFlags_all) by (by split; vm_compute).
  split; [apply frame_ext|]; apply Z.bits_inj'; intros i Hi; rewrite !apic_frame_testbit by done.
  - rewrite testbit_merge by done. destruct (Z.leb_spec 12 i); [|done].
    by rewrite ApicBaseFlags_low.
  - rewrite Z.bits_0. destruct (Z.leb_spec 12 i); [|done]. cbn [andb].
    rewrite (flags_wf_testbit ApicBaseFlags_all) by (done || by apply ApicBaseFlags_low).
    apply andb_false_r.
Qed.

(** The value that [write] stores. *)
Lemma apic_merge_testbit raw flags (f : PhysFrame Size4KiB) i :
  u64 raw -> flags_wf ApicBaseFlags_all flags -> PhysFrame_wf f -> 0 <= i ->
  Z.testbit (Z.lor (merge_flags ApicBaseFlags_all raw flags) (pa (frame_start f))) i =
    if Z.testbit ApicBaseFlags_all i then Z.testbit flags i
    else if (12 <=? i) && (i <? 52) then Z.testbit raw i || Z.testbit (pa (frame_start f)) i
         else Z.testbit raw i.
Proof.
  intros Hr Hfl Hf Hi. assert (u64 ApicBaseFlags_all) by (by split; vm_compute).
  rewrite Z.lor_spec, testbit_merge, (frame_testbit f) by done.
  destruct (Z.testbit ApicBaseFlags_all i) eqn:E.
  - destruct (Z.leb_spec 12 i); [by rewrite ApicBaseFlags_low in E|]. apply orb_false_r.
  - destruct (12 <=? i), (i <? 52); cbn [andb]; by rewrite ?orb_false_r.
Qed.

(** C38. ApicBase::write changes no register but the APIC base, and in it the
    three declared flags get the given values, the reserved bits (0-7, 9 and
    52-63) keep theirs, and each address bit (12-51) becomes the bitwise or of
    the address of the given frame and the address that the register held before,
    since the old address counts as reserved bits.  ApicBase::read then returns
    the flags and this combined address, which is the given frame only if all
    address bits that were set before are set in it.  write_raw does store the
    frame: read returns it and the flags after it. *)
Theorem ApicBase_write_keeps_old_address frame flags s :
  Cpu_wf s -> PhysFrame_wf frame -> flags_wf ApicBaseFlags_all flags ->
  exists old old_flags s' new,
    ApicBase_read s = Ret (old, old_flags) /\
    ApicBase_write frame flags s = Ret s' /\ Cpu_wf s' /\ same_except (MSR 0x1B) s s' /\
    (forall i, 0 <= i -> Z.testbit (s' (MSR 0x1B)) i =
       if Z.testbit ApicBaseFlags_all i then Z.testbit flags i
       else if (12 <=? i) && (i <? 52)
            then Z.testbit (s (MSR 0x1B)) i || Z.testbit (pa (frame_start frame)) i
            else Z.testbit (s (MSR 0x1B)) i) /\
    ApicBase_read s' = Ret (new, flags) /\
    pa (frame_start new) = Z.lor (pa (frame_start old)) (pa (frame_start frame)) /\
    (new = frame <-> Z.land (pa (frame_start old)) (bitnot 64 (pa (frame_start frame))) = 0) /\
    ApicBase_read (ApicBase_write_raw frame flags s) = Ret (frame, flags).
Proof.
  intros Hs Hf Hfl. set (raw := s (MSR 0x1B)). pose proof (Hs (MSR 0x1B)) as Hraw. cbn in Hraw.
  fold raw in Hraw. set (a := pa (frame_start frame)).
  assert (Ha : u64 a) by (destruct (proj1 Hf); split; [done|mlia]).
  assert (Hall : u64 ApicBaseFlags_all) by (by split; vm_compute).
  set (new_flags := merge_flags ApicBaseFlags_all raw flags).
  assert (Hn : u64 new_flags) by (by apply merge_u64).
  set (v := Z.lor new_flags a). assert (Hv : u64 v) by (by apply lor_uN).
  set (s' := <[MSR 0x1B := v]> s).
  assert (Hs' : Cpu_wf s') by (by apply Cpu_wf_insert).
  exists (apic_frame raw), (Z.land raw ApicBaseFlags_all), s', (apic_frame v).
  unfold ApicBase_read, ApicBase_write. rewrite !ApicBase_read_raw_val by done.
  cbn [mbind outcome_bind]. fold raw. rewrite !from_bits_truncate_law. split; [done|].
  split; [unfold ApicBase_write_raw; by rewrite Msr_write_val|].
  split; [done|]. split; [apply same_except_insert|]. unfold s'. rewrite fn_lookup_insert.
  split; [intros i Hi; by apply apic_merge_testbit|].
  destruct (apic_value_read new_flags frame Hf) as [E1 E2].
  destruct (apic_frame_merge raw flags Hraw Hfl) as [Em E0]. fold new_flags in Em.
  fold a v in E1, E2. rewrite Em in E2.
  assert (Z.land new_flags ApicBaseFlags_all = flags) as Ef by (by apply merge_read).
  split; [by rewrite E1, Ef|]. split; [done|]. split.
  - assert (u64 (pa (frame_start (apic_frame raw)))) as Hold.
    { apply uN_testbit; [lia| |intros i Hi].
      - cbn. pose proof (Z.mod_pos_bound raw (2 ^ 52)).
        pose proof (Z.div_pos (raw mod 2 ^ 52) (2 ^ 12)). lia.
      - rewrite apic_frame_testbit by lia. by rewrite (proj2 (Z.ltb_ge i 52)), andb_false_r by lia. }
    rewrite <- lor_subset by done. fold a in E2. split.
    + intros E. rewrite <- E2, E. done.
    + intros E. apply frame_ext. rewrite E2. exact E.
  - unfold ApicBase_write_raw, PhysFrame_start_address, PhysAddr_as_u64. fold a.
    assert (u64 (Z.lor flags a)) as Hw by (apply lor_uN; [lia|by destruct Hfl|done]).
    assert (Cpu_wf (<[MSR 0x1B := Z.lor flags a]> s)) as Hws by (by apply Cpu_wf_insert).
    rewrite Msr_write_val by done. change (msr_number ApicBase_MSR) with 0x1B.
    rewrite ApicBase_read_raw_val by done.
    cbn [mbind outcome_bind]. rewrite fn_lookup_insert.
    destruct (apic_value_read flags frame Hf) as [E3 E4]. fold a in E3, E4.
    rewrite from_bits_truncate_law, E3. destruct Hfl as [_ ->]. do 2 f_equal.
    apply frame_ext. by rewrite E4, E0.
Qed.

End apic.

Definition cpu_apic : Cpu := <[MSR 0x1B := 0xFEE00900]> cpu0.
Definition frame_apic : PhysFrame Size4KiB := mkPhysFrame (mkPhysAddr 0x1000000).

Lemma ApicBase_write_keeps_old_address_witness :
  exists s', ApicBase_write frame_apic 0x900 cpu_apic = Ret s' /\
    exists new, ApicBase_read s' = Ret (new, 0x900) /\ new <> frame_apic.
Proof.
  destruct (ApicBase_write_keeps_old_address frame_apic 0x900 cpu_apic)
    as (old & fl & s' & new & E1 & E2 & _ & _ & _ & E3 & _ & E4 & _).
  - apply Cpu_wf_insert; [exact cpu0_wf|by split; vm_compute].
  - by split; [split; vm_compute|].
  - by split; [split; vm_compute|reflexivity].
  - exists s'. split; [exact E2|]. exists new. split; [exact E3|]. intros H. apply E4 in H.
    vm_compute in E1. injection E1 as <- <-. vm_compute in H. discriminate H.
Defined.

(** ** The other registers *)
Section values.
Context `{BL : BitflagsLaws}.

Lemma address_roundtrip m a s :
  msr_number m <> 0xC0000080 -> canonical a -> VirtAddr_new (Msr_read m (Msr_write m (VirtAddr_as_u64 a) s)) = Ret a.
Proof.
  intros Hm Ha. rewrite Msr_write_read by (done || by apply canonical_u64). by apply VirtAddr_new_canonical.
Qed.

Lemma cet_value flags (p : Page Size4KiB) :
  flags_wf CetFlags_all flags -> Page_wf p ->
  let v := Z.lor flags (VirtAddr_as_u64 (Page_start_address p)) in
  u64 v /\ Z.land v CetFlags_all = flags /\
  Z.land v (bitnot 64 (SIZE Size4KiB - 1)) = va (page_start p).
Proof.
  intros [Hu Hfl] [Hc Hal] v. pose proof (canonical_u64 _ Hc) as Hv.
  change (SIZE Size4KiB) with (2 ^ 12) in *. unfold v, VirtAddr_as_u64, Page_start_address.
  set (a := va (page_start p)) in *.
  assert (Ea : a = a / 2 ^ 12 * 2 ^ 12) by (pose proof (Z.div_mod a (2 ^ 12)); lia).
  assert (H12 : uN 12 flags).
  { rewrite <- Hfl, Z.land_comm. by apply land_uN; [lia|by vm_compute|destruct Hu]. }
  assert (Z.lor flags a = flags + a) as El by (rewrite Ea; by apply lor_low_high).
  split; [by apply lor_uN|]. split.
  - rewrite Z.land_lor_distr_l, Hfl. assert (Z.land a CetFlags_all = 0) as ->; [|apply Z.lor_0_r].
    apply Z.bits_inj'. intros i Hi. rewrite Z.land_spec, Z.bits_0, Ea.
    destruct (decide (i < 12)); [by rewrite Z.mul_pow2_bits_low|].
    rewrite (uN_testbit_high 12 CetFlags_all); [apply andb_false_r|lia|by split; vm_compute|lia].
  - rewrite land_clear_low by (lia || by apply lor_uN). rewrite El.
    rewrite Z.add_mod, Hal, Z.add_0_r, Z.mod_mod, (Z.mod_small flags) by (done || lia). lia.
Qed.

Lemma UCet_roundtrip flags p s :
  flags_wf CetFlags_all flags -> Page_wf p ->
  UCet_read (UCet_write flags p s) = Ret (flags, p) /\ SCet_read (SCet_write flags p s) = Ret (flags, p).
Proof.
  intros Hf Hp. destruct (cet_value flags p Hf Hp) as (Hv & E1 & E2).
  unfold UCet_read, UCet_write, UCet_read_raw, UCet_write_raw, SCet_read, SCet_write, SCet_read_raw,
    SCet_write_raw.
  rewrite !Msr_write_read, !from_bits_truncate_law, E1, E2 by done.
  destruct Hp as [Hc Hal]. rewrite (VirtAddr_new_canonical _ Hc). cbn [mbind outcome_bind].
  rewrite Page_from_start_address_val by done. rewrite Hal, Z.eqb_refl. cbn. by destruct p.
Qed.

Lemma PatMemoryType_from_bits_iff b t : PatMemoryType_from_bits b = Some t <-> b = PatMemoryType_bits t.
Proof.
  split; [|by intros ->; destruct t].
  unfold PatMemoryType_from_bits. repeat case_match; intros [= <-]; reflexivity.
Qed.

Lemma PatMemoryType_bits_uN t : uN 8 (PatMemoryType_bits t).
Proof. by destruct t. Qed.

Lemma bytes_roundtrip l :
  length l = 8%nat -> Forall (uN 8) l -> u64 (from_ne_bytes l) /\ to_ne_bytes (from_ne_bytes l) = l.
Proof.
  intros Hl Hu. do 8 (destruct l as [|? l]; [done|]). destruct l; [|done].
  do 8 (apply Forall_cons_1 in Hu as [? Hu]). split.
  - apply pack_uN; [|done]. by repeat apply Forall_cons_2; try apply Forall_nil.
  - unfold to_ne_bytes, from_ne_bytes. cbn [fmap list_fmap].
    repeat f_equal.
    all: repeat first [rewrite field_pack_low by (done || lia) | rewrite field_pack_high by (done || lia)].
    all: by apply (field_all 8).
Qed.

Lemma Pat_roundtrip table s : length table = 8%nat -> Pat_read (Pat_write table s) = Ret table.
Proof.
  intros Hl. unfold Pat_read, Pat_write.
  assert (Forall (uN 8) (PatMemoryType_bits <$> table)) as Hu.
  { apply Forall_fmap, Forall_true. intros t. apply PatMemoryType_bits_uN. }
  destruct (bytes_roundtrip (PatMemoryType_bits <$> table)) as [Hv E]; [by rewrite length_fmap|done|].
  rewrite Msr_write_read, E by done. clear. induction table as [|t l IH]; [done|].
  cbn [fmap list_fmap map_panic]. rewrite (proj2 (PatMemoryType_from_bits_iff _ t) eq_refl).
  cbn [unwrap mbind outcome_bind]. by rewrite IH.
Qed.

(** The other registers return what was written to them and leave the rest
    of the processor alone: the bases of FS, GS and kernel GS and the LSTAR
    target as canonical addresses, SFMASK as flags, the two CET registers as
    flags and a page, and PAT as a table of eight memory types.  Reading a
    register that holds something else panics: a non-canonical address, an
    undeclared flag in SFMASK, a byte in PAT that is no memory type. *)
Theorem msr_roundtrip s :
  (forall a, canonical a ->
    FsBase_read (FsBase_write a s) = Ret a /\ GsBase_read (GsBase_write a s) = Ret a /\
    KernelGsBase_read (KernelGsBase_write a s) = Ret a /\ LStar_read (LStar_write a s) = Ret a) /\
  (forall flags, flags_wf RFlags_all flags -> SFMask_read (SFMask_write flags s) = Ret flags) /\
  (forall flags p, flags_wf CetFlags_all flags -> Page_wf p ->
    UCet_read (UCet_write flags p s) = Ret (flags, p) /\
    SCet_read (SCet_write flags p s) = Ret (flags, p)) /\
  (forall table, length table = 8%nat -> Pat_read (Pat_write table s) = Ret table) /\
  (Cpu_wf s ->
    (~ canonical (mkVirtAddr (s (MSR 0xC0000082))) -> LStar_read s = Panic) /\
    (Z.land (s (MSR 0xC0000084)) RFlags_all <> s (MSR 0xC0000084) -> SFMask_read s = Panic) /\
    ((exists i, 0 <= i < 8 /\ forall t, field (s (MSR 0x277)) (8 * i) (8 * i + 8) <> PatMemoryType_bits t) ->
      Pat_read s = Panic)).
Proof.
  split; [intros; split_and!; by apply address_roundtrip|]. split.
  { intros flags [Hu Hf]. unfold SFMask_read, SFMask_write. rewrite Msr_write_read by done.
    by rewrite from_bits_law, Hf, Z.eqb_refl. }
  split; [intros; by apply UCet_roundtrip|]. split; [intros; by apply Pat_roundtrip|].
  intros Hs. split_and!.
  - intros Hn. unfold LStar_read. rewrite Msr_read_val by done.
    apply VirtAddr_new_Panic; [apply (Hs (MSR 0xC0000082))|done].
  - intros Hn. unfold SFMask_read. rewrite Msr_read_val, from_bits_law by done.
    change (msr_number SFMask_MSR) with 0xC0000084. by apply Z.eqb_neq in Hn as ->.
  - intros (i & Hi & Hn). unfold Pat_read. rewrite Msr_read_val by done.
    change (msr_number Pat_MSR) with 0x277. unfold to_ne_bytes.
    assert (PatMemoryType_from_bits (field (s (MSR 0x277)) (8 * i) (8 * i + 8)) = None) as E.
    { destruct (PatMemoryType_from_bits _) as [t|] eqn:E; [|done].
      by apply PatMemoryType_from_bits_iff, Hn in E. }
    assert (i ∈ [0; 1; 2; 3; 4; 5; 6; 7]) as Hin.
    { rewrite !elem_of_cons. lia. }
    clear Hi Hn. induction Hin as [j l|j k l _ IH]; cbn [fmap list_fmap map_panic].
    + by rewrite E.
    + destruct (PatMemoryType_from_bits (field _ (8 * k) _)); [|done].
      cbn [unwrap mbind outcome_bind]. by rewrite (IH E).
Qed.
End values.

Lemma msr_roundtrip_witness :
  LStar_read (LStar_write (mkVirtAddr 0xffff800000000000) cpu0) = Ret (mkVirtAddr 0xffff800000000000) /\
  Pat_read (Pat_write Pat_DEFAULT cpu0) = Ret Pat_DEFAULT.
Proof.
  destruct (msr_roundtrip cpu0) as (H1 & _ & _ & H2 & _). split.
  - apply H1. right. split; vm_compute; congruence.
  - by apply H2.
Defined.

Lemma Star_roundtrip_witness :
  let T := {| overflow_checks := true; usize_bits := 64 |} in
  (exists s', Star_write (H0 := T) (mkSegmentSelector 0x33) (mkSegmentSelector 0x2b)
     (mkSegmentSelector 8) (mkSegmentSelector 16) cpu0 = Ret (Ok tt, s') /\
     Star_read (H0 := T) s' = Ret (mkSegmentSelector 0x33, mkSegmentSelector 0x2b,
       mkSegmentSelector 8, mkSegmentSelector 16)) /\
  Star_write (H0 := T) (mkSegmentSelector 11) (mkSegmentSelector 3) (mkSegmentSelector 8)
    (mkSegmentSelector 16) cpu0 = Panic.
Proof.
  intros T. split.
  - destruct (Star_roundtrip (H := T) (mkSegmentSelector 0x33) (mkSegmentSelector 0x2b)
      (mkSegmentSelector 8) (mkSegmentSelector 16) cpu0 ltac:(by split) ltac:(by split) ltac:(by split)
      ltac:(by split)) as (s' & E & _ & E').
    exists s'. split; [exact E|exact E'].
  - exact (Star_roundtrip (H := T) (mkSegmentSelector 11) (mkSegmentSelector 3)
      (mkSegmentSelector 8) (mkSegmentSelector 16) cpu0 ltac:(by split) ltac:(by split) ltac:(by split)
      ltac:(by split)).
Defined.
