(* ===== verification/Instructions.v ===== *)
(** * I/O ports and the random number instruction

    instructions/port.rs, structures/port.rs and instructions/random.rs.  The
    devices behind the ports, [cpuid] and [rdrand] are outside of the crate:
    classes of what they answer. *)
From Stdlib Require Import ZArith Lia Bool.
From stdpp Require Import base decidable option list numbers.
From S2P Require Import Prelude.
#[local] Open Scope Z_scope.

(** ** Ports *)

(** The types that implement [PortRead] and [PortWrite]. *)
Inductive PortType : Type := Port_u8 | Port_u16 | Port_u32.
Definition port_width (T : PortType) : Z :=
  match T with Port_u8 => 8 | Port_u16 => 16 | Port_u32 => 32 end.

(** What happened on the bus, the latest event first. *)
Inductive IoEvent : Type :=
  | PortIn (T : PortType) (port value : Z)
  | PortOut (T : PortType) (port value : Z).

(** The devices answer an [in] instruction depending on what happened before;
    the answer has the width of the operand. *)
Class Devices := device_value : list IoEvent -> PortType -> Z -> Z.
Class DevicesLaws (D : Devices) : Prop :=
  device_value_uN io T port : uN (port_width T) (device_value io T port).

(** [PortRead::read_from_port] and [PortWrite::write_to_port]: the
    instructions [in] and [out] with AL, AX or EAX. *)
Definition read_from_port `{Devices} (T : PortType) (port : Z) (io : list IoEvent)
    : Z * list IoEvent :=
  let value := device_value io T port in
  (value, PortIn T port value :: io).
Definition write_to_port (T : PortType) (port value : Z) (io : list IoEvent) : list IoEvent :=
  PortOut T port value :: io.

Inductive Access : Type := ReadOnlyAccess | WriteOnlyAccess | ReadWriteAccess.

#[export] Instance Access_eq_dec : EqDecision Access.
Proof. solve_decision. Defined.

(** The sealed marker traits. *)
Inductive PortReadAccess : Access -> Prop :=
  | ReadOnly_PortReadAccess : PortReadAccess ReadOnlyAccess
  | ReadWrite_PortReadAccess : PortReadAccess ReadWriteAccess.
Inductive PortWriteAccess : Access -> Prop :=
  | WriteOnly_PortWriteAccess : PortWriteAccess WriteOnlyAccess
  | ReadWrite_PortWriteAccess : PortWriteAccess ReadWriteAccess.
Existing Class PortReadAccess.
Existing Class PortWriteAccess.
#[export] Existing Instances ReadOnly_PortReadAccess ReadWrite_PortReadAccess
  WriteOnly_PortWriteAccess ReadWrite_PortWriteAccess.

Record PortGeneric (T : PortType) (A : Access) : Type := mkPortGeneric { port : Z }.
Arguments mkPortGeneric {T A}.
Arguments port {T A}.

Abbreviation Port T := (PortGeneric T ReadWriteAccess).
Abbreviation PortReadOnly T := (PortGeneric T ReadOnlyAccess).
Abbreviation PortWriteOnly T := (PortGeneric T WriteOnlyAccess).

Definition PortGeneric_new {T A} (port : Z) : PortGeneric T A := mkPortGeneric port.

Definition PortGeneric_read `{Devices} {T A} `{PortReadAccess A} (self : PortGeneric T A)
    (io : list IoEvent) : Z * list IoEvent := read_from_port T (port self) io.

Definition PortGeneric_write {T A} `{PortWriteAccess A} (self : PortGeneric T A) (value : Z)
    (io : list IoEvent) : list IoEvent := write_to_port T (port self) value io.

Definition PortGeneric_clone {T A} (self : PortGeneric T A) : PortGeneric T A :=
  mkPortGeneric (port self).
Definition PortGeneric_eq {T A} (self other : PortGeneric T A) : bool := port self =? port other.

(** ** [RdRand] *)
(** [__cpuid(1).ecx], and the intrinsics [_rdrand{16,32,64}_step]: the value
    they return and the value they store. *)
Class RandIntrinsics := {
  cpuid_1_ecx : Z;
  rdrand_step : Z -> Z * Z;
}.

Record RdRand : Type := mkRdRand {}.

Section rdrand.
Context `{RandIntrinsics} (debug_assertions : bool).

Definition RdRand_new : option RdRand :=
  if negb (Z.land cpuid_1_ecx (Z.shiftl 1 30) =? 0) then Some mkRdRand else None.

(** The three functions [get_u16], [get_u32] and [get_u64] differ in the
    width [w]. *)
Definition RdRand_get (w : Z) (self : RdRand) : outcome (option Z) :=
  let '(x, res) := rdrand_step w in
  if x =? 1 then Ret (Some res)
  else
    _ ← (if debug_assertions then rust_assert (x =? 0) else Ret tt);
    Ret None.
Definition RdRand_get_u64 (self : RdRand) : outcome (option Z) := RdRand_get 64 self.
Definition RdRand_get_u32 (self : RdRand) : outcome (option Z) := RdRand_get 32 self.
Definition RdRand_get_u16 (self : RdRand) : outcome (option Z) := RdRand_get 16 self.
End rdrand.

(** ** Facts *)

(** The access types rule out the wrong direction. *)
Lemma port_access_types A :
  (PortReadAccess A <-> A <> WriteOnlyAccess) /\ (PortWriteAccess A <-> A <> ReadOnlyAccess).
Proof. split; split; destruct A; try (intros []; fail); try done; try constructor; intros H; inversion H. Qed.

(** An access is one bus cycle of the width of the type at the number of the
    port, and the value read has this width. *)
Lemma port_read_spec `{D : Devices} `{!DevicesLaws D} {T A} `{PortReadAccess A}
    (p : PortGeneric T A) io v io' :
  PortGeneric_read p io = (v, io') -> io' = PortIn T (port p) v :: io /\ uN (port_width T) v.
Proof. intros [= <- <-]. split; [done|]. apply device_value_uN. Qed.

Lemma RdRand_get_spec `{RandIntrinsics} d w r :
  let '(x, res) := rdrand_step w in
  (x = 1 -> RdRand_get d w r = Ret (Some res)) /\ (x = 0 -> RdRand_get d w r = Ret None) /\
  (x <> 1 -> x <> 0 -> RdRand_get d w r = if d then Panic else Ret None).
Proof.
  unfold RdRand_get. destruct (rdrand_step w) as [x res]. split_and!; [by intros ->|intros ->; by destruct d|].
  intros H1 H0. apply Z.eqb_neq in H1 as ->, H0 as ->. by destruct d.
Qed.
