(* ===== verification/Interrupts.v ===== *)
(** * Waiting for interrupts and causing them

    instructions/mod.rs and the wrappers of instructions/interrupts.rs that give
    control to interrupt handlers.  A wrapper is the sequence of instructions of
    its inline assembly.  The processor executes them one per tick; between two
    instructions interrupts arrive and are delivered as the comments of the
    crate describe: only when the interrupt flag is set, and not in the
    "interrupt shadow" of [sti], which lasts until after the next instruction.
    A handler is a function on the memory [W] that also sees the instructions
    after its return address, which it may change; it runs with interrupts
    disabled and returns. *)
From Stdlib Require Import ZArith Lia Bool.
From stdpp Require Import base decidable option list numbers functions.
From S2P Require Import Prelude Crates Addr Cpu Control.
#[local] Open Scope Z_scope.

(** ** The wrappers *)
Inductive Instruction : Type := Sti | Cli | Hlt | Nop | XchgBxBx | Int3 | Int (num : Z).

Definition hlt : list Instruction := [Hlt].
Definition nop : list Instruction := [Nop].
Definition bochs_breakpoint : list Instruction := [XchgBxBx].

(** [lea {}, [rip]] with the instruction pointer [rip]. *)
Definition read_rip (rip : Z) : outcome VirtAddr := VirtAddr_new rip.

(** [enable] and [disable] as instructions; their effect on the flags is
    [interrupts_enable] and [interrupts_disable] of Control.v. *)
Definition enable : list Instruction := [Sti].
Definition disable : list Instruction := [Cli].
Definition enable_and_hlt : list Instruction := [Sti; Hlt].
Definition int3 : list Instruction := [Int3].
Definition software_interrupt (num : Z) : list Instruction := [Int num].

(** ** The processor *)
Section processor.
Context `{BL : BitflagsLaws} {W : Type}.

(** What the handler of a vector does; whether the shadow of [sti] applies to
    non-maskable interrupts. *)
Context (handler : Z -> W -> list Instruction -> W * list Instruction) (nmi_shadow : bool).

Record Processor : Type := mkProcessor {
  code : list Instruction;
  cpu : Cpu;
  shadow : bool;
  halted : bool;
  pending : list Z;
  nmi : bool;
  world : W;
  taken : list Z;
}.

(** The handler runs and returns; a halted processor continues. *)
Definition deliver (v : Z) (p : Processor) : Processor :=
  let '(w, c) := handler v (world p) (code p) in
  mkProcessor c (cpu p) false false (pending p) (nmi p) w (taken p ++ [v]).

Definition execute (i : Instruction) (p : Processor) : Processor :=
  match i with
  | Sti => mkProcessor (code p) (interrupts_enable (cpu p)) (negb (are_enabled (cpu p))) false
             (pending p) (nmi p) (world p) (taken p)
  | Cli => mkProcessor (code p) (interrupts_disable (cpu p)) false false
             (pending p) (nmi p) (world p) (taken p)
  | Hlt => mkProcessor (code p) (cpu p) false true (pending p) (nmi p) (world p) (taken p)
  | Nop | XchgBxBx => mkProcessor (code p) (cpu p) false false (pending p) (nmi p) (world p) (taken p)
  | Int3 => deliver 3 p
  | Int n => deliver n p
  end.

(** The next instruction, unless the processor sleeps or has none. *)
Definition proceed (p : Processor) : Processor :=
  if halted p then p
  else match code p with
  | [] => p
  | i :: c => execute i (mkProcessor c (cpu p) (shadow p) (halted p) (pending p) (nmi p) (world p) (taken p))
  end.

(** One tick: an interrupt that can be delivered comes first. *)
Definition tick (p : Processor) : Processor :=
  if nmi p && negb (shadow p && nmi_shadow) then
    deliver 2 (mkProcessor (code p) (cpu p) (shadow p) (halted p) (pending p) false (world p) (taken p))
  else match pending p with
  | v :: rest =>
      if are_enabled (cpu p) && negb (shadow p) then
        deliver v (mkProcessor (code p) (cpu p) (shadow p) (halted p) rest (nmi p) (world p) (taken p))
      else proceed p
  | [] => proceed p
  end.

(** What the devices request before a tick: vectors and an NMI. *)
Definition Arrivals : Type := nat -> list Z * bool.

Definition arrive (a : list Z * bool) (p : Processor) : Processor :=
  mkProcessor (code p) (cpu p) (shadow p) (halted p) (pending p ++ fst a) (nmi p || snd a)
    (world p) (taken p).

Fixpoint run (env : Arrivals) (n : nat) (p : Processor) : Processor :=
  match n with
  | O => p
  | S n => tick (arrive (env n) (run env n p))
  end.

(** ** Facts *)
Definition no_nmi (env : Arrivals) : Prop := forall t, snd (env t) = false.

(** The vectors that arrive before tick [n]. *)
Fixpoint arrived (env : Arrivals) (n : nat) : list Z :=
  match n with O => [] | S n => arrived env n ++ fst (env n) end.

Lemma enabled_after_sti s : are_enabled (interrupts_enable s) = true.
Proof. rewrite are_enabled_val. unfold if_set. by rewrite (proj2 (enable_with_if s)). Qed.

Lemma disabled_after_cli s : are_enabled (interrupts_disable s) = false.
Proof. rewrite are_enabled_val. unfold if_set. by rewrite (proj2 (disable_with_if s)). Qed.

(** A sleeping processor with the interrupts [q] pending. *)
Lemma tick_asleep_enabled c rest q w l a :
  are_enabled c = true ->
  tick (arrive (a, false) (mkProcessor rest c false true q false w l)) =
    match q ++ a with
    | [] => mkProcessor rest c false true [] false w l
    | v :: vs => deliver v (mkProcessor rest c false true vs false w l)
    end.
Proof.
  intros Hc. unfold tick, arrive. cbn [nmi pending shadow cpu code halted world taken orb andb fst snd].
  destruct (q ++ a) as [|v vs]; [done|]. by rewrite Hc.
Qed.

Lemma tick_asleep_disabled c rest q w l a :
  are_enabled c = false ->
  tick (arrive (a, false) (mkProcessor rest c false true q false w l)) =
    mkProcessor rest c false true (q ++ a) false w l.
Proof.
  intros Hc. unfold tick, arrive. cbn [nmi pending shadow cpu code halted world taken orb andb fst snd].
  destruct (q ++ a); [done|]. by rewrite Hc.
Qed.

Lemma env_eq env n : no_nmi env -> env n = (fst (env n), false).
Proof. intros Hn. specialize (Hn n). destruct (env n); cbn in *. by subst. Qed.

(** The two instructions run back to back, whatever arrives. *)
Lemma run_sti_hlt env p rest :
  no_nmi env -> code p = enable_and_hlt ++ rest -> are_enabled (cpu p) = false ->
  halted p = false -> nmi p = false ->
  run env 1 p = mkProcessor (Hlt :: rest) (interrupts_enable (cpu p)) true false
    (pending p ++ fst (env 0%nat)) false (world p) (taken p) /\
  run env 2 p = mkProcessor rest (interrupts_enable (cpu p)) false true
    (pending p ++ arrived env 2) false (world p) (taken p).
Proof.
  intros Hn Hc Hi Hh Hm.
  assert (run env 1 p = mkProcessor (Hlt :: rest) (interrupts_enable (cpu p)) true false
    (pending p ++ fst (env 0%nat)) false (world p) (taken p)) as E1.
  { cbn [run]. rewrite (env_eq env 0) by done. unfold tick, arrive.
    cbn [nmi pending shadow cpu code halted world taken fst snd]. rewrite Hm, Hi. cbn [orb andb].
    unfold proceed. cbn [nmi pending shadow cpu code halted world taken]. rewrite Hh, Hc.
    cbn [enable_and_hlt app execute cpu code shadow halted pending nmi world taken]. rewrite Hi.
    by destruct (pending p ++ fst (env 0%nat)). }
  split; [done|]. change (run env 2 p) with (tick (arrive (env 1%nat) (run env 1 p))).
  rewrite E1, (env_eq env 1) by done. unfold tick, arrive.
  cbn [nmi pending shadow cpu code halted world taken fst snd orb andb arrived app].
  rewrite <- app_assoc.
  destruct (pending p ++ fst (env 0%nat) ++ fst (env 1%nat)); [done|]. by rewrite andb_false_r.
Qed.

Lemma arrived_nil_le env m n : (m <= n)%nat -> arrived env n = [] -> arrived env m = [].
Proof.
  induction n as [|n IH]; intros Hm Hn; [by replace m with O by lia|].
  destruct (decide (m = S n)) as [->|]; [done|]. apply IH; [lia|].
  cbn [arrived] in Hn. by apply app_eq_nil in Hn as [? _].
Qed.

(** Nothing has arrived: the processor sleeps. *)
Lemma run_asleep env p rest n :
  no_nmi env -> code p = enable_and_hlt ++ rest -> are_enabled (cpu p) = false ->
  halted p = false -> nmi p = false -> (2 <= n)%nat ->
  pending p = [] -> arrived env n = [] ->
  run env n p = mkProcessor rest (interrupts_enable (cpu p)) false true [] false (world p) (taken p).
Proof.
  intros Hn Hc Hi Hh Hm Hle Hp. revert Hle.
  induction n as [|n IH]; intros Hle Ha; [lia|].
  destruct (decide (n = 1%nat)) as [->|].
  { destruct (run_sti_hlt env p rest Hn Hc Hi Hh Hm) as [_ ->]. by rewrite Hp, Ha. }
  cbn [run]. rewrite IH by (lia || by apply (arrived_nil_le env n (S n)); [lia|]).
  rewrite (env_eq env n), tick_asleep_enabled by (done || apply enabled_after_sti).
  cbn [arrived] in Ha. by apply app_eq_nil in Ha as [_ ->].
Qed.

(** The tick before the first arrival. *)
Lemma first_arrival env m t :
  arrived env m = [] -> arrived env t <> [] ->
  exists n, (m <= n < t)%nat /\ arrived env n = [] /\ arrived env (S n) <> [].
Proof.
  intros Hm. induction t as [|t IH]; intros Ht; [done|].
  destruct (arrived env t) as [|v vs] eqn:E.
  - exists t. split; [|done]. split; [|lia]. destruct (decide (m <= t)%nat); [done|].
    exfalso. apply Ht. by apply (arrived_nil_le env _ m); [lia|].
  - destruct IH as (n & Hn & ? & ?); [done|]. exists n. split; [lia|done].
Qed.

Lemma deliver_val v rest c s h q n w l :
  snd (handler v w rest) = rest ->
  deliver v (mkProcessor rest c s h q n w l) =
    mkProcessor rest c false false q n (fst (handler v w rest)) (l ++ [v]).
Proof.
  intros E. unfold deliver. cbn [world code cpu pending nmi taken].
  destruct (handler v w rest) as [w' c']. cbn in E. by subst.
Qed.

(** Nothing arrives after tick [n]: a processor that sleeps goes on sleeping. *)
Lemma sleeps_on env n m c rest w l p :
  are_enabled c = true -> (forall t, (n <= t)%nat -> env t = ([], false)) -> (n <= m)%nat ->
  run env n p = mkProcessor rest c false true [] false w l ->
  run env m p = mkProcessor rest c false true [] false w l.
Proof.
  intros Hc He Hle E. induction Hle as [|m Hle IH]; [done|]. cbn [run].
  by rewrite IH, (He m), tick_asleep_enabled by done.
Qed.

(** An NMI between the two instructions of [enable_and_hlt]. *)
Definition nmi_between : Arrivals := fun t => ([], (t =? 1)%nat).

Lemma run_nmi_between p rest :
  code p = enable_and_hlt ++ rest -> are_enabled (cpu p) = false -> shadow p = false ->
  halted p = false -> nmi p = false -> pending p = [] ->
  run nmi_between 2 p =
    if nmi_shadow then mkProcessor rest (interrupts_enable (cpu p)) false true [] true (world p) (taken p)
    else deliver 2 (mkProcessor (Hlt :: rest) (interrupts_enable (cpu p)) true false [] false (world p) (taken p)).
Proof.
  intros Hc Hi Hs Hh Hm Hp. destruct p as [c0 cp sh ha pe nm w l].
  cbn [code cpu shadow halted pending nmi world taken] in *. subst.
  assert (run nmi_between 1 (mkProcessor (enable_and_hlt ++ rest) cp false false [] false w l) =
    mkProcessor (Hlt :: rest) (interrupts_enable cp) true false [] false w l) as E1.
  { cbn [run]. unfold tick, arrive, nmi_between, proceed.
    cbn [nmi pending shadow cpu code halted world taken fst snd app orb andb Nat.eqb enable_and_hlt execute].
    by rewrite Hi. }
  change (run ?e 2 ?p) with (tick (arrive (e 1%nat) (run e 1 p))). rewrite E1.
  unfold tick, arrive, nmi_between, proceed.
  cbn [nmi pending shadow cpu code halted world taken fst snd app orb andb negb Nat.eqb execute].
  by destruct nmi_shadow.
Qed.

(** The cases of [hlt_loses_wake_ups] for NMIs: asleep after the handler has
    run, awake because the handler skipped [hlt], or awake after [hlt]. *)
Lemma nmi_after_sti p rest :
  code p = enable_and_hlt ++ rest -> are_enabled (cpu p) = false -> shadow p = false ->
  halted p = false -> nmi p = false -> pending p = [] ->
  (nmi_shadow = false -> snd (handler 2 (world p) (Hlt :: rest)) = Hlt :: rest ->
     halted (run nmi_between 3 p) = true /\ taken (run nmi_between 3 p) = taken p ++ [2]) /\
  (nmi_shadow = false -> snd (handler 2 (world p) (Hlt :: rest)) = rest ->
     halted (run nmi_between 2 p) = false /\ code (run nmi_between 2 p) = rest) /\
  (nmi_shadow = true -> snd (handler 2 (world p) rest) = rest ->
     halted (run nmi_between 3 p) = false /\ code (run nmi_between 3 p) = rest /\
     taken (run nmi_between 3 p) = taken p ++ [2]).
Proof.
  intros Hc Hi Hs Hh Hm Hp. pose proof (run_nmi_between p rest Hc Hi Hs Hh Hm Hp) as E.
  change (run nmi_between 3 p) with (tick (arrive (nmi_between 2%nat) (run nmi_between 2 p))).
  rewrite E. split; [|split]; intros ->; unfold deliver; cbn [world code cpu pending nmi taken].
  - destruct (handler 2 (world p) (Hlt :: rest)) as [w' c']. intros Hr. cbn in Hr. subst c'.
    unfold tick, arrive, nmi_between, proceed.
    cbn [nmi pending shadow cpu code halted world taken fst snd app orb andb negb Nat.eqb execute]. done.
  - destruct (handler 2 (world p) (Hlt :: rest)) as [w' c']. intros Hr. cbn in Hr. by subst c'.
  - intros Hr. unfold tick, arrive, nmi_between.
    cbn [nmi pending shadow cpu code halted world taken fst snd app orb andb negb Nat.eqb].
    unfold deliver. cbn [world code cpu pending nmi taken].
    destruct (handler 2 (world p) rest) as [w' c']. cbn in Hr. by subst c'.
Qed.

(** C20. enable_and_hlt, called with interrupts disabled, under handlers that
    return to the interrupted code.  Without non-maskable interrupts: whenever a
    maskable interrupt is pending or arrives, at whatever time (also before or
    between the two instructions), the processor wakes up one tick later and
    continues behind the call with interrupts enabled, after exactly one handler,
    that of the first interrupt; until then it has executed both instructions, no
    handler has run, and the memory is the one in which the caller decided to
    sleep, so no wake-up is lost; without an interrupt it sleeps.  With an NMI
    between the two instructions the documented race exists: where the shadow of
    sti does not cover NMIs, the handler runs before hlt and the processor sleeps
    afterwards (the wake-up is lost); where the shadow covers them the NMI wakes
    the processor. *)
Theorem enable_and_hlt_wakes env p rest :
  (forall v w c, snd (handler v w c) = c) -> no_nmi env -> code p = enable_and_hlt ++ rest -> are_enabled (cpu p) = false ->
  halted p = false -> nmi p = false ->
  (forall t, pending p ++ arrived env t <> [] ->
    exists n v vs, (2 <= n <= Nat.max 2 t)%nat /\ pending p ++ arrived env (S n) = v :: vs /\
      (forall k, (k <= n)%nat -> taken (run env k p) = taken p /\ world (run env k p) = world p) /\
      halted (run env n p) = true /\
      run env (S n) p = mkProcessor rest (interrupts_enable (cpu p)) false false vs false
        (fst (handler v (world p) rest)) (taken p ++ [v])) /\
  (forall n, (2 <= n)%nat -> pending p ++ arrived env n = [] -> halted (run env n p) = true) /\
  (shadow p = false -> pending p = [] ->
    (nmi_shadow = false ->
       halted (run nmi_between 3 p) = true /\ taken (run nmi_between 3 p) = taken p ++ [2]) /\
    (nmi_shadow = true ->
       halted (run nmi_between 3 p) = false /\ code (run nmi_between 3 p) = rest /\
       taken (run nmi_between 3 p) = taken p ++ [2])).
Proof.
  intros Hret Hn Hc Hi Hh Hm. destruct (run_sti_hlt env p rest Hn Hc Hi Hh Hm) as [E1 E2].
  assert (forall k, (k <= 2)%nat -> taken (run env k p) = taken p /\ world (run env k p) = world p) as Hearly.
  { intros k Hk. destruct k as [|[|[|]]]; [done|by rewrite E1|by rewrite E2|lia]. }
  assert (forall n, (2 <= n)%nat -> pending p ++ arrived env n = [] ->
    run env n p = mkProcessor rest (interrupts_enable (cpu p)) false true [] false (world p) (taken p)) as Hsleep.
  { intros n Hle [Hp Ha]%app_eq_nil. by apply run_asleep. }
  split; [|split; [intros n Hle Ha; by rewrite Hsleep|]]; cycle 1.
  { intros Hs Hp. destruct (nmi_after_sti p rest Hc Hi Hs Hh Hm Hp) as (N1 & _ & N3). auto. }
  intros t Ht. destruct (decide (pending p ++ arrived env 2 = [])) as [Ha|Ha].
  - pose proof Ha as [Hp H2]%app_eq_nil. rewrite Hp in Ht. cbn [app] in Ht.
    destruct (first_arrival env 2 t H2 Ht) as (n & Hn2 & Hna & Hnb).
    assert (run env n p = mkProcessor rest (interrupts_enable (cpu p)) false true [] false (world p) (taken p)) as En
      by (apply Hsleep; [lia|by rewrite Hp]).
    rewrite Hp. cbn [app]. destruct (arrived env (S n)) as [|v vs] eqn:Ev; [done|].
    exists n, v, vs. split; [lia|]. split; [done|]. split; [|split; [by rewrite En|]].
    + intros k Hk. destruct (decide (k <= 2)%nat); [by apply Hearly|].
      rewrite Hsleep; [done|lia|]. rewrite Hp. by apply (arrived_nil_le env k n).
    + cbn [run arrived] in Ev |- *. rewrite Hna in Ev. cbn [app] in Ev.
      rewrite En, (env_eq env n), tick_asleep_enabled by (done || apply enabled_after_sti).
      cbn [app]. rewrite Ev. by apply deliver_val.
  - destruct (pending p ++ arrived env 2) as [|v vs] eqn:Ev; [done|].
    exists 2%nat, v, (vs ++ fst (env 2%nat)). split; [lia|].
    assert (pending p ++ arrived env 3 = v :: vs ++ fst (env 2%nat)) as E3.
    { change (arrived env 3) with (arrived env 2 ++ fst (env 2%nat)). by rewrite app_assoc, Ev. }
    split; [done|]. split; [done|]. split; [by rewrite E2|].
    change (run env 3 p) with (tick (arrive (env 2%nat) (run env 2 p))).
    rewrite E2, (env_eq env 2), tick_asleep_enabled by (done || apply enabled_after_sti).
    cbn [app]. by apply deliver_val.
Qed.

(** What enable_and_hlt is for.  With a plain hlt, (1) under enabled
    interrupts, an interrupt that arrives after the caller decided to sleep is
    handled before hlt is executed, and the processor then sleeps until the
    next one, however much work the handler left; (2) under disabled
    interrupts no maskable interrupt ever wakes the processor.  (3) As
    documented, enable_and_hlt itself has this race with a non-maskable
    interrupt between its instructions on processors whose shadow does not
    cover it, unless the handler makes the interrupted code skip hlt; where the
    shadow covers it the NMI wakes the processor. *)
Theorem hlt_loses_wake_ups p rest v :
  shadow p = false -> halted p = false -> nmi p = false ->
  (code p = hlt ++ rest -> are_enabled (cpu p) = true -> pending p = [v] ->
    snd (handler v (world p) (code p)) = code p ->
    forall n, (2 <= n)%nat -> run (fun _ => ([], false)) n p =
      mkProcessor rest (cpu p) false true [] false (fst (handler v (world p) (code p))) (taken p ++ [v])) /\
  (code p = hlt ++ rest -> are_enabled (cpu p) = false ->
    forall env n, no_nmi env -> (1 <= n)%nat ->
      halted (run env n p) = true /\ taken (run env n p) = taken p) /\
  (code p = enable_and_hlt ++ rest -> are_enabled (cpu p) = false -> pending p = [] ->
    (nmi_shadow = false -> snd (handler 2 (world p) (Hlt :: rest)) = Hlt :: rest ->
       halted (run nmi_between 3 p) = true /\ taken (run nmi_between 3 p) = taken p ++ [2]) /\
    (nmi_shadow = false -> snd (handler 2 (world p) (Hlt :: rest)) = rest ->
       halted (run nmi_between 2 p) = false /\ code (run nmi_between 2 p) = rest) /\
    (nmi_shadow = true -> snd (handler 2 (world p) rest) = rest ->
       halted (run nmi_between 3 p) = false /\ code (run nmi_between 3 p) = rest /\
       taken (run nmi_between 3 p) = taken p ++ [2])).
Proof.
  intros Hs Hh Hm. split; [|split; [|intros; by apply nmi_after_sti]].
  - intros Hc Hi Hp Hret n Hn. apply (sleeps_on _ 2 n); [done|done|done|].
    destruct p as [c0 cp sh ha pe nm w l]. cbn [code cpu shadow halted pending nmi world taken] in *. subst.
    assert (run (fun _ => ([], false)) 1 (mkProcessor (hlt ++ rest) cp false false [v] false w l) =
      mkProcessor (hlt ++ rest) cp false false [] false (fst (handler v w (hlt ++ rest))) (l ++ [v])) as E1.
    { cbn [run]. unfold tick, arrive. cbn [nmi pending shadow cpu code halted world taken fst snd app orb andb].
      rewrite Hi. cbn [negb andb]. by apply deliver_val. }
    change (run ?e 2 ?p) with (tick (arrive (e 1%nat) (run e 1 p))). rewrite E1. reflexivity.
  - intros Hc Hi env n Hn Hle.
    assert (forall m, run env (S m) p =
      mkProcessor rest (cpu p) false true (pending p ++ arrived env (S m)) false (world p) (taken p)) as E.
    { intros m. induction m as [|m IH].
      - cbn [run arrived]. rewrite (env_eq env 0) by done. unfold tick, arrive.
        cbn [nmi pending shadow cpu code halted world taken fst snd app]. rewrite Hm, Hi. cbn [orb andb].
        unfold proceed. cbn [nmi pending shadow cpu code halted world taken]. rewrite Hh, Hc.
        by destruct (pending p ++ fst (env 0%nat)).
      - change (run env (S (S m)) p) with (tick (arrive (env (S m)) (run env (S m) p))).
        rewrite IH, (env_eq env (S m)), tick_asleep_disabled by done.
        cbn [arrived]. by rewrite <- !app_assoc. }
    destruct n as [|n]; [lia|]. by rewrite E.
Qed.

(** Int3 and software_interrupt call the handler of their vector at once,
    whether or not interrupts are enabled and before an interrupt that cannot
    be delivered yet, and execution continues where the handler returns to;
    nop and bochs_breakpoint change nothing but end the shadow of sti; read_rip
    returns a canonical instruction pointer unchanged. *)
Theorem software_interrupts_deliver p num c rest rip :
  nmi p = false -> halted p = false -> are_enabled (cpu p) = false \/ pending p = [] ->
  (code p = int3 ++ rest \/ code p = software_interrupt 3 ++ rest ->
     taken (tick p) = taken p ++ [3] /\ (world (tick p), code (tick p)) = handler 3 (world p) rest) /\
  (code p = software_interrupt num ++ rest ->
     taken (tick p) = taken p ++ [num] /\ (world (tick p), code (tick p)) = handler num (world p) rest /\
     cpu (tick p) = cpu p) /\
  (c = nop \/ c = bochs_breakpoint -> code p = c ++ rest ->
     tick p = mkProcessor rest (cpu p) false false (pending p) false (world p) (taken p)) /\
  (canonical (mkVirtAddr rip) -> read_rip rip = Ret (mkVirtAddr rip)).
Proof.
  intros Hm Hh Hi.
  assert (tick p = proceed p) as ->.
  { unfold tick. rewrite Hm. cbn [andb]. destruct (pending p); [done|]. by destruct Hi as [->|]. }
  unfold proceed. rewrite Hh. split; [|split; [|split]].
  - intros [-> | ->]; cbn [int3 software_interrupt app execute]; unfold deliver;
      cbn [world code cpu pending nmi taken]; by destruct (handler 3 (world p) rest).
  - intros ->. cbn [software_interrupt app execute]. unfold deliver.
    cbn [world code cpu pending nmi taken]. by destruct (handler num (world p) rest).
  - intros [-> | ->] ->; cbn [nop bochs_breakpoint app execute cpu code shadow halted pending nmi world taken];
      by rewrite Hm.
  - intros Hr. by apply (VirtAddr_new_canonical (mkVirtAddr rip)).
Qed.
End processor.

(** ** Examples: handlers that count *)
Definition count_handler (v w : Z) (c : list Instruction) : Z * list Instruction := (w + 1, c).
Definition ready (c : list Instruction) (flags : Z) (q : list Z) : Processor (W := Z) :=
  mkProcessor c (fun r => if decide (r = RFLAGS) then flags else 0) false false q false 0 [].

(** Interrupt 33 arrives before tick 5. *)
Definition late : Arrivals := fun t => (if decide (t = 5%nat) then [33] else [], false).

Lemma enable_and_hlt_wakes_witness :
  exists n v vs, (2 <= n <= 6)%nat /\ arrived late (S n) = v :: vs /\
    run count_handler false late (S n) (ready (enable_and_hlt ++ [Nop]) 2 []) =
      mkProcessor [Nop] (interrupts_enable (cpu (ready [] 2 []))) false false vs false 1 [v].
Proof.
  destruct (enable_and_hlt_wakes (BL := ref_bitflags_laws) count_handler false late
    (ready (enable_and_hlt ++ [Nop]) 2 []) [Nop]) as [H _]; try reflexivity.
  { intros t. reflexivity. }
  destruct (H 6%nat) as (n & v & vs & Hn & Ha & _ & _ & E); [vm_compute; discriminate|].
  exists n, v, vs. split; [exact Hn|]. split; [exact Ha|exact E].
Defined.

Lemma hlt_loses_wake_ups_witness :
  let p := ready (hlt ++ [Nop]) 0x202 [33] in
  run count_handler false (fun _ => ([], false)) 9 p =
    mkProcessor [Nop] (cpu p) false true [] false 1 [33].
Proof.
  intros p.
  destruct (hlt_loses_wake_ups count_handler false p [Nop] 33) as [H _];
    [reflexivity|reflexivity|reflexivity|].
  exact (H eq_refl eq_refl eq_refl eq_refl 9%nat ltac:(lia)).
Defined.

Lemma software_interrupts_deliver_witness :
  taken (tick count_handler false (ready (software_interrupt 128 ++ [Nop]) 2 [33])) = [128].
Proof.
  destruct (software_interrupts_deliver count_handler false
    (ready (software_interrupt 128 ++ [Nop]) 2 [33]) 128 nop [Nop] 0) as (_ & H & _);
    [reflexivity|reflexivity|left; reflexivity|].
  exact (proj1 (H eq_refl)).
Defined.
