(* ===== verification/TlbCoherence.v ===== *)
(** * The flush promises of the mapper keep the TLB coherent

    Every operation that changes a mapping returns a [MapperFlush], because
    "the old mapping might be still cached in the translation lookaside buffer",
    and the operations that change the flags of parent entries return a
    [MapperFlushAll].  This file composes the mapper (MappedPageTable.v), the
    promises (Mapper.v, Control.v) and the processor, which may cache any
    mapping it can walk and may drop any cached mapping at any time, and proves
    which promises can leave a stale mapping when they are not kept.

    As on the processor, a cached mapping holds the frame and flags of the entry
    that maps the page, and the access rights of the whole walk: writing and
    user accesses need the flag in every entry on the way, and [NO_EXECUTE] in
    one of them forbids execution.  So flags of parent entries matter.

    The translation cache is not part of the crate: it is the class
    [TranslationCache] with the documented effect of [invlpg], of a reload of
    CR3 (which keeps global mappings), and of the walks of the processor.  A
    cached mapping is that of a whole page; caches of upper level entries, PCIDs
    and the accessed and dirty flags that the processor sets are not modelled. *)
From Stdlib Require Import ZArith Lia Bool.
From stdpp Require Import base decidable option list gmap numbers relations.
From S2P Require Import Prelude Crates Index Addr Page Frame PageTable Mapper.
From S2P Require Import MappedPageTable PageWalk MapperSpec MapperCreate MapperProofs.
From S2P Require Import CleanUp SetFlags MapperExamples Control.
#[local] Open Scope Z_scope.

(** ** Access rights of a walk *)
Record Rights : Type := mkRights { r_write : bool; r_user : bool; r_execute : bool }.

(** WRITABLE and USER_ACCESSIBLE in all entries, NO_EXECUTE in none. *)
Definition rights (t : list PageTableEntry) : Rights :=
  mkRights (forallb (fun e => Z.testbit (entry e) 1) t)
           (forallb (fun e => Z.testbit (entry e) 2) t)
           (forallb (fun e => negb (Z.testbit (entry e) 63)) t).

Definition rights_le (r r' : Rights) : Prop :=
  (r_write r = true -> r_write r' = true) /\
  (r_user r = true -> r_user r' = true) /\
  (r_execute r = true -> r_execute r' = true).

#[export] Instance rights_le_preorder : PreOrder rights_le.
Proof. split; [by intros r|]. intros r1 r2 r3 (? & ? & ?) (? & ? & ?). unfold rights_le. auto. Qed.

Lemma forallb_grown {X} (R : X -> X -> Prop) (f : X -> bool) t t' :
  (forall e e', R e e' -> f e = true -> f e' = true) ->
  Forall2 R t t' -> forallb f t = true -> forallb f t' = true.
Proof.
  intros Hf. induction 1 as [|e e' t t' He _ IH]; [done|]. simpl.
  rewrite !andb_true_iff. intros [H1 H2]. split; [by apply (Hf e)|by apply IH].
Qed.

(** Flags without NO_EXECUTE that are added to entries only add rights. *)
Lemma rights_grown pf t t' :
  Z.testbit pf 63 = false -> Forall2 (grown pf) t t' -> rights_le (rights t) (rights t').
Proof.
  intros Hx Ht. split_and!; cbn [rights r_write r_user r_execute];
    (eapply forallb_grown; [|exact Ht]); intros e e' [->| ->]; try done;
    cbn [with_flags entry]; rewrite Z.lor_spec, ?Hx, ?orb_false_r; try done; by intros ->.
Qed.

(** ** The translation cache *)
Record CachedMapping : Type := mkCachedMapping {
  cm_size : PageSize;
  cm_page : Page cm_size;
  cm_frame : PhysFrame cm_size;
  cm_flags : Z;
  cm_rights : Rights;
}.

Class TranslationCache := {
  Cache : Type;
  cached : Cache -> CachedMapping -> Prop;
  (** [invlpg] with an address, and a write to CR3 *)
  invlpg : Z -> Cache -> Cache;
  reload_cr3 : Cache -> Cache;
  (** what the processor does to the cache on its own; the predicate says which
      mappings it can walk *)
  refill : (CachedMapping -> Prop) -> Cache -> Cache -> Prop;
}.

Class TranslationCacheLaws (C : TranslationCache) : Prop := {
  cached_invlpg a c e :
    cached (invlpg a c) e -> cached c e /\ ~ in_page (cm_page e) (mkVirtAddr a);
  cached_reload c e :
    cached (reload_cr3 c) e -> cached c e /\ Z.testbit (cm_flags e) 8 = true;
  cached_refill walked c c' e :
    refill walked c c' -> cached c' e -> cached c e \/ walked e;
}.

(** A reference: the cache as a list of mappings. *)
#[export] Instance in_page_dec' e a : Decision (in_page (cm_page e) a) := _.

#[export] Instance ref_cache : TranslationCache := {
  Cache := list CachedMapping;
  cached c e := e ∈ c;
  invlpg a c := filter (fun e => ~ in_page (cm_page e) (mkVirtAddr a)) c;
  reload_cr3 c := filter (fun e => Z.testbit (cm_flags e) 8 = true) c;
  refill walked c c' := forall e, e ∈ c' -> e ∈ c \/ walked e;
}.

#[export] Instance ref_cache_laws : TranslationCacheLaws ref_cache.
Proof.
  split; cbn [cached invlpg reload_cr3 refill ref_cache].
  - intros a c e. rewrite list_elem_of_filter. tauto.
  - intros c e. rewrite list_elem_of_filter. tauto.
  - intros walked c c' e Hr He. by apply Hr.
Qed.

(** ** A kernel that uses the mapper *)
(** A promise for a page of any size. *)
Record Promise : Type := mkPromise { pr_size : PageSize; pr_flush : MapperFlush pr_size }.

Section kernel.
Context {P : Type} `{PageTableFrameMapping P} `{BL : BitflagsLaws} (self : MappedPageTable P).
Context `{BFL : BitFieldLaws} `{Target} (H64 : usize_bits = 64).
Context {A : Type} `{FrameAllocator A Size4KiB} `{FrameDeallocator A Size4KiB}.
Context `{CL : TranslationCacheLaws}.
#[local] Abbreviation w := (page_table_walker self).
#[local] Abbreviation p4 := (level_4_table self).

(** The promise of a complete flush after parent flags were changed: kept,
    kept by a reload of CR3, which leaves the global mappings, or open. *)
Inductive CompleteFlush : Type := Kept | KeptButGlobal | Open.

(** Tables, frame allocator, cache, the promises for pages that were not kept
    yet, and the promise of a complete flush. *)
Record Kernel : Type := mkKernel {
  k_mem : Mem;
  k_alloc : A;
  k_cache : Cache;
  k_promises : list Promise;
  k_complete : CompleteFlush;
}.

Definition is_global (e : CachedMapping) : bool := Z.testbit (cm_flags e) 8.

(** The tables hold the mapping: every address of the page translates to the
    frame with these flags, and the mapping is present. *)
Definition walks_to (m : Mem) (e : CachedMapping) : Prop :=
  Page_wf (cm_page e) /\ Z.testbit (cm_flags e) 0 = true /\
  forall x, canonical x -> in_page (cm_page e) x ->
    translate self m x = Ret (Mapped (mapped_frame (cm_frame e)) (va x mod SIZE (cm_size e)) (cm_flags e)).

(** The access rights that the tables grant to an address. *)
Definition walk_rights (m : Mem) (x : VirtAddr) : Rights := rights (trail w m p4 (addr_path x)).

(** The processor may cache what it finds when it walks the tables. *)
Definition walkable_as (m : Mem) (e : CachedMapping) : Prop :=
  walks_to m e /\ forall x, canonical x -> in_page (cm_page e) x -> cm_rights e = walk_rights m x.

(** The mapping grants no access that the tables do not grant. *)
Definition rights_within (m : Mem) (e : CachedMapping) : Prop :=
  forall x, canonical x -> in_page (cm_page e) x -> rights_le (cm_rights e) (walk_rights m x).

Inductive kstep : Kernel -> Kernel -> Prop :=
  (* The promise of [map_to] is ignored. *)
  | k_map_to {S} m a c ps cf (page : Page S) frame flags pf r m' a' :
      Page_wf page -> PhysFrame_wf frame ->
      u64 flags -> Z.land flags ADDR_MASK = 0 -> flags <> 0 ->
      parent_flags_ok pf -> Z.testbit pf 63 = false ->
      Supply w (reachable w m p4) m 3 a ->
      map_to_with_table_flags self page frame flags pf (m, a) = Ret (r, (m', a')) ->
      r <> Err MapParentEntryHugePage ->
      kstep (mkKernel m a c ps cf) (mkKernel m' a' c ps cf)
  | k_unmap {S} m a c ps cf (page : Page S) frame flush m' :
      Page_wf page -> unmap self page m = Ret (Ok (frame, flush), m') ->
      kstep (mkKernel m a c ps cf) (mkKernel m' a c (mkPromise S flush :: ps) cf)
  | k_unmap_error {S} m a c ps cf (page : Page S) x m' :
      Page_wf page -> unmap self page m = Ret (Err x, m') ->
      kstep (mkKernel m a c ps cf) (mkKernel m' a c ps cf)
  | k_update_flags {S} m a c ps cf (page : Page S) flags flush m' :
      Page_wf page -> u64 flags -> Z.land flags ADDR_MASK = 0 -> flags <> 0 ->
      ~ split_page self m page ->
      update_flags self page flags m = Ret (Ok flush, m') ->
      kstep (mkKernel m a c ps cf) (mkKernel m' a c (mkPromise S flush :: ps) cf)
  | k_update_flags_error {S} m a c ps cf (page : Page S) flags x m' :
      Page_wf page -> u64 flags -> Z.land flags ADDR_MASK = 0 -> flags <> 0 ->
      update_flags self page flags m = Ret (Err x, m') ->
      kstep (mkKernel m a c ps cf) (mkKernel m' a c ps cf)
  (* The flags of a parent entry: the promise is a complete flush. *)
  | k_set_flags {S} m a c ps cf (page : Page S) k flags flush m' :
      Page_wf page -> parent_flags_ok flags -> (k < 3)%nat -> ~ in_larger_page self m page ->
      set_flags_op self k page flags m = Ret (Ok flush, m') ->
      kstep (mkKernel m a c ps cf) (mkKernel m' a c ps Open)
  | k_set_flags_error {S} m a c ps cf (page : Page S) k flags x m' :
      Page_wf page -> parent_flags_ok flags -> (k < 3)%nat ->
      set_flags_op self k page flags m = Ret (Err x, m') ->
      kstep (mkKernel m a c ps cf) (mkKernel m' a c ps cf)
  | k_clean_up m a c ps cf m' a' :
      clean_up self (m, a) = Ret (m', a') ->
      kstep (mkKernel m a c ps cf) (mkKernel m' a' c ps cf)
  (* [MapperFlush::flush] and [MapperFlushAll::flush_all] *)
  | k_flush m a c before t after cf :
      kstep (mkKernel m a c (before ++ t :: after) cf)
        (mkKernel m a (invlpg (MapperFlush_flush (pr_flush t)) c) (before ++ after) cf)
  | k_flush_all m a c ps cf :
      kstep (mkKernel m a c ps cf)
        (mkKernel m a (reload_cr3 c) ps match cf with Kept => Kept | _ => KeptButGlobal end)
  | k_refill m a c ps cf c' :
      refill (walkable_as m) c c' -> kstep (mkKernel m a c ps cf) (mkKernel m a c' ps cf).

(** A promise for the page of the mapping is open. *)
Definition promised (ps : list Promise) (e : CachedMapping) : Prop :=
  exists t, t ∈ ps /\
    in_page (cm_page e) (mkVirtAddr (MapperFlush_flush (pr_flush t))).

(** The promise of a complete flush is open as far as the mapping goes. *)
Definition complete_open (cf : CompleteFlush) (e : CachedMapping) : Prop :=
  match cf with Kept => False | KeptButGlobal => is_global e = true | Open => True end.

Definition agrees (m : Mem) (cf : CompleteFlush) (e : CachedMapping) : Prop :=
  walks_to m e /\ (rights_within m e \/ complete_open cf e).

Definition coherent (k : Kernel) : Prop :=
  mapper_valid self (k_mem k) /\
  forall e, cached (k_cache k) e ->
    agrees (k_mem k) (k_complete k) e \/ promised (k_promises k) e.

Lemma walks_to_same m m' e : same_translation self m m' -> walks_to m e -> walks_to m' e.
Proof.
  intros Hs (Hp & Hb & Hw). split; [done|]. split; [done|]. intros x Hx Hi.
  rewrite (Hs x Hx). by apply Hw.
Qed.

(** A mapping that does not meet the changed page survives. *)
Lemma walks_to_outside {S} (page : Page S) m m' e :
  same_outside self page m m' ->
  (forall x, canonical x -> in_page page x -> ~ in_page (cm_page e) x) ->
  walks_to m e -> walks_to m' e.
Proof.
  intros Hs Hd (Hp & Hb & Hw). split; [done|]. split; [done|]. intros x Hx Hi.
  rewrite (Hs x Hx); [by apply Hw|]. intros Hix. by apply (Hd x).
Qed.

Lemma walks_to_view m e x :
  mapper_valid self m -> walks_to m e -> canonical x -> in_page (cm_page e) x ->
  is_Some (view w m p4 (addr_path x)).
Proof.
  intros HV (_ & _ & Hw) Hx Hi. specialize (Hw x Hx Hi). rewrite translate_run in Hw by done.
  destruct (view w m p4 (addr_path x)); [eauto|done].
Qed.

Lemma mapped_frame_size {S T} (f : PhysFrame S) (g : PhysFrame T) :
  mapped_frame f = mapped_frame g -> S = T.
Proof. by destruct S, T. Qed.

(** A mapping that meets a page which is mapped by a page of its own size is
    the mapping of this page. *)
Lemma walks_to_page {S} (page : Page S) m e x f fl :
  Page_wf page -> walks_to m e -> canonical x -> in_page page x -> in_page (cm_page e) x ->
  translate self m x = Ret (Mapped (mapped_frame (f : PhysFrame S)) (va x mod SIZE S) fl) ->
  in_page (cm_page e) (mkVirtAddr (MapperFlush_flush (MapperFlush_new page))).
Proof.
  intros Hp (He & _ & Hw) Hx Hi Hie E. rewrite (Hw x Hx Hie) in E. injection E as E _ _.
  destruct e as [T q g gl]. cbn [cm_size cm_page cm_frame] in *.
  apply mapped_frame_size in E as ->.
  apply (in_page_div page x Hp) in Hi. apply (in_page_div q x He) in Hie.
  apply (in_page_div q (mkVirtAddr _) He). cbn [va]. rewrite <- Hie, Hi. done.
Qed.

(** ** What the operations do to access rights *)
Lemma agrees_kept m m' cf e :
  walks_to m' e ->
  (forall x, canonical x -> in_page (cm_page e) x -> rights_le (walk_rights m x) (walk_rights m' x)) ->
  agrees m cf e -> agrees m' cf e.
Proof.
  intros Hw Hr [_ [Hin|Ho]]; (split; [done|]); [left|by right].
  intros x Hx Hi. etrans; [by apply Hin|by apply Hr].
Qed.

(** A store to the entry of a page does not show outside of the page. *)
Lemma walk_rights_outside {S} m (page : Page S) q e' x :
  mapper_valid self m -> Page_wf page -> table_at w m p4 (page_pre page) = Some q ->
  canonical x -> ~ in_page page x ->
  walk_rights (upd m q (ix (page_last page)) e') x = walk_rights m x.
Proof.
  intros HV Hp Hq Hx Hn. unfold walk_rights. f_equal. pose proof (page_pre_length page) as Hl.
  pose proof (valid_table _ _ _ HV (page_pre page) q ltac:(lia) Hq) as Ht.
  pose proof (ix_lt _ (proj2 (page_parents_wf page Hp))) as Hi.
  apply (trail_other w m _ p4 HV (page_pre page) q (ix (page_last page))); [lia|done| |done|].
  - intros r j _ Hd. by rewrite get_upd, decide_False.
  - by rewrite <- page_path_pre, <- in_page_path.
Qed.

(** Every mapping keeps its rights, or gets more of them. *)
Definition rights_kept (m m' : Mem) : Prop :=
  forall x, canonical x -> is_Some (view w m p4 (addr_path x)) ->
    rights_le (walk_rights m x) (walk_rights m' x).

Lemma widened_rights pf m m' : Z.testbit pf 63 = false -> widened w pf m m' p4 -> rights_kept m m'.
Proof. intros Hx [_ Ht] x _ Hv. apply (rights_grown pf); [done|by apply Ht]. Qed.

Lemma map_to_rights {S} m a (page : Page S) frame flags pf r m' a' :
  mapper_valid self m -> Page_wf page -> PhysFrame_wf frame ->
  parent_flags_ok pf -> Z.testbit pf 63 = false ->
  Supply w (reachable w m p4) m 3 a ->
  map_to_with_table_flags self page frame flags pf (m, a) = Ret (r, (m', a')) ->
  r <> Err MapParentEntryHugePage ->
  forall x, canonical x -> is_Some (view w m p4 (addr_path x)) ->
    (forall fl, r = Ok fl -> ~ in_page page x) -> rights_le (walk_rights m x) (walk_rights m' x).
Proof.
  intros HV Hp Hf Hpf Hx63 HS E Hr x Hx Hv Hin.
  destruct (map_to_run self m a page frame flags pf HV Hp Hf Hpf HS)
    as (m1 & a1 & HV1 & [(q & Hq & Ht & Hw & E1)|[(E1 & Hw & _)|(E1 & _)]]);
    cbn zeta in E1; rewrite E in E1; [|by simplify_eq; apply (widened_rights pf)|by simplify_eq].
  pose proof (widened_rights pf m m1 Hx63 Hw x Hx Hv) as Hle.
  destruct (entry (page_entry m1 page q) =? 0); simplify_eq; [|done].
  rewrite walk_rights_outside by (done || by eapply Hin). done.
Qed.

(** The two operations that change a mapping: what the cache may still hold
    afterwards is the old mapping of the page. *)
Lemma coherent_changed {S} (page : Page S) m m' a a' c ps cf :
  Page_wf page -> mapper_valid self m' -> same_outside self page m m' ->
  (forall x, canonical x -> ~ in_page page x -> walk_rights m' x = walk_rights m x) ->
  (forall e x, walks_to m e -> canonical x -> in_page page x -> in_page (cm_page e) x ->
     exists (f : PhysFrame S) fl, translate self m x = Ret (Mapped (mapped_frame f) (va x mod SIZE S) fl)) ->
  coherent (mkKernel m a c ps cf) ->
  coherent (mkKernel m' a' c (mkPromise S (MapperFlush_new page) :: ps) cf).
Proof.
  intros Hp HV' Hs Hrt Hsize [HV Hc]. split; [done|]. cbn [k_mem k_cache k_promises k_complete] in *.
  intros e He. destruct (Hc e He) as [Ha|(t & Ht & Hi)].
  2: { right. exists t. split; [|done]. apply elem_of_cons. by right. }
  destruct (decide (in_page (cm_page e) (mkVirtAddr (MapperFlush_flush (MapperFlush_new page)))))
    as [Hi|Hn].
  { right. exists (mkPromise S (MapperFlush_new page)). split; [apply elem_of_cons; by left|done]. }
  left. pose proof (proj1 Ha) as Hw.
  assert (forall x, canonical x -> in_page page x -> ~ in_page (cm_page e) x) as Hd.
  { intros x Hx Hip Hie. destruct (Hsize e x Hw Hx Hip Hie) as (f & fl & E).
    by apply Hn, (walks_to_page page m e x f fl). }
  apply (agrees_kept m); [by apply (walks_to_outside page m m' e Hs)| |done].
  intros x Hx Hi. rewrite Hrt; [done|done|]. intros Hip. by apply (Hd x).
Qed.

Lemma coherent_same m m' a a' c ps cf :
  mapper_valid self m' -> same_translation self m m' -> rights_kept m m' ->
  coherent (mkKernel m a c ps cf) -> coherent (mkKernel m' a' c ps cf).
Proof.
  intros HV' Hs Hrt [HV Hc]. split; [done|]. intros e He.
  destruct (Hc e He) as [Ha|Hpr]; [left|by right].
  apply (agrees_kept m); [by apply (walks_to_same m), Ha| |done].
  intros x Hx Hi. apply Hrt; [done|]. by apply (walks_to_view m e); [|apply Ha| |].
Qed.

Lemma same_translation_refl m : same_translation self m m.
Proof. by intros x Hx. Qed.

Lemma rights_kept_refl m : rights_kept m m.
Proof. by intros x Hx Hv. Qed.

Lemma coherent_unchanged m a a' c ps cf :
  coherent (mkKernel m a c ps cf) -> coherent (mkKernel m a' c ps cf).
Proof. intros Hc. exact Hc. Qed.

(** The cache or the promises changed, no table did. *)
Lemma coherent_cache m a c c' ps ps' cf cf' :
  (forall e, cached c' e ->
     (cached c e /\ (promised ps e -> promised ps' e) /\ (complete_open cf e -> complete_open cf' e)) \/
     walkable_as m e) ->
  coherent (mkKernel m a c ps cf) -> coherent (mkKernel m a c' ps' cf').
Proof.
  intros Hsub [HV Hc]. split; [done|]. intros e He.
  destruct (Hsub e He) as [(Hold & Hps & Hcf)|[Hw Hr]].
  - destruct (Hc e Hold) as [[Hw [Hin|Ho]]|Hpr]; [left|left|right; by apply Hps].
    + split; [done|by left].
    + split; [done|right; by apply Hcf].
  - left. split; [done|]. left. intros x Hx Hi. by rewrite (Hr x Hx Hi).
Qed.

Lemma kstep_map_to {S} m a c ps cf (page : Page S) frame flags pf r m' a' :
  Page_wf page -> PhysFrame_wf frame ->
  u64 flags -> Z.land flags ADDR_MASK = 0 -> flags <> 0 -> parent_flags_ok pf ->
  Z.testbit pf 63 = false ->
  Supply w (reachable w m p4) m 3 a ->
  map_to_with_table_flags self page frame flags pf (m, a) = Ret (r, (m', a')) ->
  r <> Err MapParentEntryHugePage ->
  coherent (mkKernel m a c ps cf) -> coherent (mkKernel m' a' c ps cf).
Proof.
  intros Hp Hf Hu Ha Hn Hpf Hx63 HS E Hr Hc. pose proof Hc as [HV _].
  pose proof (map_to_rights m a page frame flags pf r m' a' HV Hp Hf Hpf Hx63 HS E Hr) as Hrt.
  destruct (map_to_spec self m a page frame flags pf HV Hp Hf Hu Ha Hn Hpf HS)
    as (r1 & m1 & a1 & E1 & HV' & Hr1).
  rewrite E1 in E. injection E as -> -> ->.
  destruct r as [fl|[| |f]]; [|by apply (coherent_same m m' a), Hc; [done|apply Hr1|]; intros x Hx Hv;
    apply Hrt|done|by apply (coherent_same m m' a), Hc; [done|apply Hr1|]; intros x Hx Hv; apply Hrt].
  destruct Hr1 as (_ & Hout & Hin). destruct Hc as [_ Hc]. split; [done|]. intros e He.
  destruct (Hc e He) as [Hag|Hpr]; [left|by right]. pose proof (proj1 Hag) as Hw.
  assert (forall x, canonical x -> in_page page x -> ~ in_page (cm_page e) x) as Hd.
  { intros x Hx Hi Hie. destruct (Hin x Hx Hi) as [En _]. destruct Hw as (_ & _ & Hw).
    cbn [k_mem] in Hw. rewrite (Hw x Hx Hie) in En. done. }
  apply (agrees_kept m); [by apply (walks_to_outside page m m' e Hout)| |done].
  intros x Hx Hi. apply Hrt; [done|by apply (walks_to_view m e)|]. intros fl' _ Hip. by apply (Hd x).
Qed.

Lemma kstep_unmap {S} m a c ps cf (page : Page S) frame flush m' :
  Page_wf page -> unmap self page m = Ret (Ok (frame, flush), m') ->
  coherent (mkKernel m a c ps cf) -> coherent (mkKernel m' a c (mkPromise S flush :: ps) cf).
Proof.
  intros Hp E Hc. pose proof Hc as [HV _]. cbn [k_mem] in HV.
  destruct (unmap_spec self m page HV Hp) as (r & m1 & E1 & HV' & Hr).
  rewrite E in E1. injection E1 as <- <-. destruct Hr as (-> & _ & Hout & Hin).
  apply (coherent_changed page m m' a a); try done.
  - intros x Hx Hn. rewrite unmap_run in E by done.
    destruct (resolve w m p4 (page_pre page)) as [q|] eqn:Eq; [|done]. apply resolve_Ok in Eq.
    unfold stores in E. destruct (unmap_entry S _); [|done]. simplify_eq. by apply walk_rights_outside.
  - intros e x _ Hx Hi _. destruct (Hin x Hx Hi) as [[fl Ef] _]. eauto.
Qed.

Lemma kstep_update_flags {S} m a c ps cf (page : Page S) flags flush m' :
  Page_wf page -> u64 flags -> Z.land flags ADDR_MASK = 0 -> flags <> 0 ->
  ~ split_page self m page ->
  update_flags self page flags m = Ret (Ok flush, m') ->
  coherent (mkKernel m a c ps cf) -> coherent (mkKernel m' a c (mkPromise S flush :: ps) cf).
Proof.
  intros Hp Hu Ha Hn Hsp E Hc. pose proof Hc as [HV _]. cbn [k_mem] in HV.
  destruct (update_flags_spec self m page flags HV Hp Hu Ha Hn) as (r & m1 & E1 & HV' & Hr).
  rewrite E in E1. injection E1 as <- <-. destruct Hr as (-> & Hout & _).
  rewrite update_flags_run in E by done.
  destruct (resolve w m p4 (page_pre page)) as [q|y] eqn:Eq; [|done].
  destruct (resolve_table w m p4 page q HV Hp Eq) as (Hq & _ & _).
  apply (coherent_changed page m m' a a); try done.
  - intros x Hx Hnx. unfold stores in E. destruct (entry _ =? 0); [done|]. simplify_eq.
    by apply walk_rights_outside.
  - intros e x (_ & _ & Hw) Hx Hi Hie. specialize (Hw x Hx Hie).
    destruct (page_entry_cases self m page q HV Hp Hq) as [[_ Hun]|[(_ & _ & Hm)|(_ & _ & _ & ?)]].
    + rewrite (Hun x Hx Hi) in Hw. done.
    + eexists _, _. by apply Hm.
    + done.
Qed.

Lemma kstep_set_flags {S} m a c ps cf (page : Page S) k flags flush m' :
  Page_wf page -> parent_flags_ok flags -> (k < 3)%nat -> ~ in_larger_page self m page ->
  set_flags_op self k page flags m = Ret (Ok flush, m') ->
  coherent (mkKernel m a c ps cf) -> coherent (mkKernel m' a c ps Open).
Proof.
  intros Hp Hf Hk Hl E [HV Hc]. cbn [k_mem] in HV.
  destruct (set_parent_flags_spec self m page k flags HV Hp Hf Hk) as (r1 & m1 & E1 & Hr).
  rewrite E in E1. injection E1 as <- <-.
  destruct Hr as (q & i & e & _ & _ & _ & _ & [(_ & HV' & Hs)|(_ & _ & ?)]); [|done].
  split; [done|]. intros x Hx. destruct (Hc x Hx) as [[Hw _]|Hpr]; [left|by right].
  split; [by apply (walks_to_same m)|by right].
Qed.

Lemma kstep_clean_up m a c ps cf m' a' :
  clean_up self (m, a) = Ret (m', a') ->
  coherent (mkKernel m a c ps cf) -> coherent (mkKernel m' a' c ps cf).
Proof.
  intros E Hc. pose proof Hc as [HV _]. cbn [k_mem] in HV.
  destruct (clean_up_run H64 self m a HV) as (m1 & fs & E1 & HC).
  rewrite E in E1. injection E1 as <- _.
  destruct (Cleaned_translation self [] m m' fs HV HC) as (HV' & Hs & _).
  apply (coherent_same m m' a); try done. intros x Hx Hv. unfold walk_rights.
  by rewrite (cl_trail _ _ _ _ _ HC).
Qed.

(** A failed call that left the memory untouched. *)
Ltac same_call := match goal with
  | E : ?o = Ret _, E1 : ?o = Ret _ |- _ => rewrite E1 in E; simplify_eq
  end.

Lemma kstep_coherent k k' : kstep k k' -> coherent k -> coherent k'.
Proof.
  intros Hstep Hc. destruct Hstep.
  - by eapply kstep_map_to.
  - by eapply kstep_unmap.
  - destruct (unmap_spec self m page (proj1 Hc) ltac:(done)) as (r & m1 & E1 & HV' & Hr).
    cbn [k_mem] in E1. same_call. destruct x; by destruct Hr as [-> _].
  - by eapply kstep_update_flags.
  - destruct (update_flags_spec self m page flags (proj1 Hc)) as (r & m1 & E1 & HV' & Hr); try done.
    cbn [k_mem] in E1. same_call. destruct x; by destruct Hr as [-> _].
  - by eapply kstep_set_flags.
  - destruct (set_parent_flags_spec self m page k flags (proj1 Hc)) as (r1 & m1 & E1 & Hr); try done.
    cbn [k_mem] in E1, Hr. same_call. destruct x; by destruct Hr as [-> _].
  - by eapply kstep_clean_up.
  - apply (coherent_cache m a c _ (before ++ t :: after) _ cf); [|done]. intros e He.
    apply cached_invlpg in He as [He Hn]. left. split; [done|]. split; [|done]. intros (t' & Ht & Hi).
    exists t'. split; [|done]. apply elem_of_app in Ht as [Ht|[->|Ht]%elem_of_cons]; [| |].
    + apply elem_of_app. by left.
    + done.
    + apply elem_of_app. by right.
  - apply (coherent_cache m a c _ ps _ cf); [|done]. intros e He. apply cached_reload in He as [He Hg].
    left. split; [done|]. split; [done|]. by destruct cf.
  - apply (coherent_cache m a c _ ps _ cf); [|done]. intros e He.
    eapply cached_refill in He as [He|He]; [| |done]; [by left|by right].
Qed.

End kernel.

(** ** Runs with a stale mapping *)
Section example.
#[local] Existing Instance identity_mapping.
#[local] Existing Instance list_allocator.
#[local] Existing Instance list_deallocator.
#[local] Instance target64 : Target := {| overflow_checks := true; usize_bits := 64 |}.

(** A 1GiB page with the given flags in entry 0 of the level 3 table. *)
Definition mem_page (flags : Z) : Mem := upd mem1 0x2000 0 (mkPageTableEntry (0x40000000 + flags)).

Definition page_mapping (flags : Z) : CachedMapping :=
  mkCachedMapping Size1GiB (page0 Size1GiB) (frame1 Size1GiB) flags (mkRights true false true).

Lemma addr_path_page0 x :
  canonical x -> in_page (page0 Size1GiB) x -> take 2 (addr_path x) = [0; 0]%nat.
Proof.
  intros Hx Hi. apply (in_page_path (page0 Size1GiB) x (page0_wf _) Hx) in Hi as [k E]. by rewrite E.
Qed.

Lemma mem_page_walk flags :
  flags = 0x83 \/ flags = 0x183 ->
  mapper_valid mapper (mem_page flags) /\ walkable_as mapper (mem_page flags) (page_mapping flags).
Proof.
  intros Hf. destruct mem1_valid as (HV1 & Ht & _).
  assert (Valid (page_table_walker mapper) (mem_page flags) 0x1000) as HV.
  { destruct (store_final (page_table_walker mapper) mem1 0x1000 [0%nat] 0x2000 0
      (mkPageTableEntry (0x40000000 + flags))) as (HV & _); try done; [simpl; lia|lia| |].
    - by destruct Hf as [->| ->].
    - right; right. split; [by destruct Hf as [->| ->]|done]. }
  split; [done|]. split; [split; [apply page0_wf|]; split; [by destruct Hf as [->| ->]|]|].
  - destruct (page_entry_cases mapper (mem_page flags) (page0 Size1GiB) 0x2000 HV (page0_wf _))
      as [[Hz _]|[(_ & _ & Hm)|(_ & _ & Hh & _)]];
      [by destruct Hf as [->| ->]|by destruct Hf as [->| ->]| |by destruct Hf as [->| ->]].
    destruct Hf as [->| ->]; exact Hm.
  - intros x Hx Hi. unfold walk_rights. pose proof (addr_path_page0 x Hx Hi) as E.
    pose proof (addr_path_length x) as El. destruct (addr_path x) as [|i [|j [|k [|l path]]]]; try done.
    injection E as -> ->. destruct Hf as [->| ->]; reflexivity.
Qed.


(** The exception is real: the kernel makes a level 4 entry read-only and keeps
    the promise of [set_flags_p4_entry] by [flush_all]; a cached global mapping
    below the entry survives the reload of CR3 and stays writable. *)
Lemma flush_all_keeps_global_rights :
  let e := page_mapping 0x183 in
  let stale := [e] : Cache (TranslationCache := ref_cache) in
  exists m' k, set_flags_p4_entry mapper (page0 Size1GiB) 1 (mem_page 0x183) = Ret (Ok MapperFlushAll_new, m') /\
    rtc (kstep mapper) (mkKernel (C := ref_cache) (mem_page 0x183) (@nil (PhysFrame Size4KiB)) stale [] Kept) k /\
    k_mem k = m' /\ k_promises k = [] /\ k_complete k = KeptButGlobal /\ cached (k_cache k) e /\
    r_write (cm_rights e) = true /\ r_write (walk_rights mapper m' addr5) = false.
Proof.
  intros e stale.
  destruct (set_flags_p4_entry mapper (page0 Size1GiB) 1 (mem_page 0x183)) as [[r m']| |] eqn:E;
    try (exfalso; vm_compute in E; discriminate E).
  assert (r = Ok MapperFlushAll_new) as -> by (vm_compute in E; injection E as <- _; reflexivity).
  exists m', (mkKernel (C := ref_cache) m' [] (reload_cr3 stale) [] KeptButGlobal).
  split; [reflexivity|]. split; [|split_and!; try reflexivity].
  - apply (rtc_l _ _ (mkKernel (C := ref_cache) m' [] stale [] Open)).
    + refine (k_set_flags (C := ref_cache) mapper _ [] stale [] Kept (page0 Size1GiB) 0 1 _ m'
        (page0_wf _) _ _ _ E); [by split|lia|].
      intros Hl. destruct (Hl addr5 (proj1 (addr5_in Size1GiB)) (proj2 (addr5_in Size1GiB))) as (f & o & fl & Et & Hs).
      vm_compute in Et. simplify_eq. by vm_compute in Hs.
    + apply rtc_once. exact (k_flush_all (C := ref_cache) mapper m' [] stale [] Open).
  - by apply list_elem_of_filter; split; [|apply list_elem_of_singleton].
  - vm_compute in E. injection E as <-. reflexivity.
Qed.
End example.
