(* ===== verification/Format.v ===== *)
(** * The formatting of the repository's types

    The implementations of the [fmt] traits: addresses, pages, frames and
    their ranges, page tables, descriptor and interrupt tables, selectors,
    error codes and error types.  What is proved: printed addresses can be
    read back, so that a log tells them apart, and formatting never panics,
    whatever bits a hardware structure holds. *)
From Stdlib Require Import ZArith Lia Bool Ascii String.
From stdpp Require Import base decidable option list strings.
From S2P Require Import Prelude Crates Fmt Addr Page Frame PageTable Gdt Tlb.
From S2P Require Import RecursivePageTable ModelSpecific Instructions Idt.
#[local] Open Scope Z_scope.

(** The [Debug] implementation that the [bitflags] crate derives for a flags
    type, given its name and the bits. *)
Class FlagsDebug := flags_Debug : Formatter -> string -> Z -> string.

(** ** addr.rs *)
Definition VirtAddrNotValid_Debug (f : Formatter) (e : VirtAddrNotValid) : outcome string :=
  debug_tuple f "VirtAddrNotValid" [Ret (u64_LowerHex sharp (vanv e))].

Definition VirtAddr_Debug (f : Formatter) (a : VirtAddr) : outcome string :=
  debug_tuple f "VirtAddr" [Ret (u64_LowerHex sharp (va a))].
Definition VirtAddr_Binary (f : Formatter) (a : VirtAddr) : string := u64_Binary f (va a).
Definition VirtAddr_LowerHex (f : Formatter) (a : VirtAddr) : string := u64_LowerHex f (va a).
Definition VirtAddr_Octal (f : Formatter) (a : VirtAddr) : string := u64_Octal f (va a).
Definition VirtAddr_UpperHex (f : Formatter) (a : VirtAddr) : string := u64_UpperHex f (va a).
(** [self.0 as *const ()] keeps the bits of a pointer. *)
Definition VirtAddr_Pointer `{Target} (f : Formatter) (a : VirtAddr) : string :=
  ptr_Pointer f (wrap usize_bits (va a)).

Definition PhysAddrNotValid_Debug (f : Formatter) (e : PhysAddrNotValid) : outcome string :=
  debug_tuple f "PhysAddrNotValid" [Ret (u64_LowerHex sharp (panv e))].

Definition PhysAddr_Debug (f : Formatter) (a : PhysAddr) : outcome string :=
  debug_tuple f "PhysAddr" [Ret (u64_LowerHex sharp (pa a))].
Definition PhysAddr_Binary (f : Formatter) (a : PhysAddr) : string := u64_Binary f (pa a).
Definition PhysAddr_LowerHex (f : Formatter) (a : PhysAddr) : string := u64_LowerHex f (pa a).
Definition PhysAddr_Octal (f : Formatter) (a : PhysAddr) : string := u64_Octal f (pa a).
Definition PhysAddr_UpperHex (f : Formatter) (a : PhysAddr) : string := u64_UpperHex f (pa a).
Definition PhysAddr_Pointer `{Target} (f : Formatter) (a : PhysAddr) : string :=
  ptr_Pointer f (wrap usize_bits (pa a)).

(** ** page.rs and frame.rs *)
Definition DEBUG_STR (S : PageSize) : string :=
  match S with Size4KiB => "4KiB" | Size2MiB => "2MiB" | Size1GiB => "1GiB" end.

(** [write_fmt] with arguments of their own: the [Formatter] has no effect. *)
Definition Page_Debug {S} (f : Formatter) (p : Page S) : outcome string :=
  Ret ("Page[" +:+ pad plain (DEBUG_STR S) +:+ "](" +:+
       u64_LowerHex sharp (VirtAddr_as_u64 (Page_start_address p)) +:+ ")").

Definition PageRange_Debug {S} (f : Formatter) (r : PageRange S) : outcome string :=
  debug_struct f "PageRange" [("start", Page_Debug f (pr_start r)); ("end", Page_Debug f (pr_end r))].

Definition PageRangeInclusive_Debug {S} (f : Formatter) (r : PageRangeInclusive S)
    : outcome string :=
  debug_struct f "PageRangeInclusive"
    [("start", Page_Debug f (pri_start r)); ("end", Page_Debug f (pri_end r))].

Definition AddressNotAligned_Display (_ : AddressNotAligned) : string :=
  "the given address was not sufficiently aligned".

Definition PhysFrame_Debug {S} (f : Formatter) (x : PhysFrame S) : outcome string :=
  Ret ("PhysFrame[" +:+ pad plain (DEBUG_STR S) +:+ "](" +:+
       u64_LowerHex sharp (PhysAddr_as_u64 (PhysFrame_start_address x)) +:+ ")").

Definition PhysFrameRange_Debug {S} (f : Formatter) (r : PhysFrameRange S) : outcome string :=
  debug_struct f "PhysFrameRange"
    [("start", PhysFrame_Debug f (fr_start r)); ("end", PhysFrame_Debug f (fr_end r))].

Definition PhysFrameRangeInclusive_Debug {S} (f : Formatter) (r : PhysFrameRangeInclusive S)
    : outcome string :=
  debug_struct f "PhysFrameRangeInclusive"
    [("start", PhysFrame_Debug f (fri_start r)); ("end", PhysFrame_Debug f (fri_end r))].

(** ** gdt.rs, segmentation.rs, lib.rs *)

(** [{:#018x}]. *)
Definition GdtEntry_Debug (f : Formatter) (e : GdtEntry) : outcome string :=
  Ret ("Entry(" +:+ u64_LowerHex (zero_padded 18) (Entry_raw e) +:+ ")").

Definition PrivilegeLevel_Debug (f : Formatter) (l : PrivilegeLevel) : outcome string :=
  Ret (match l with Ring0 => "Ring0" | Ring1 => "Ring1" | Ring2 => "Ring2" | Ring3 => "Ring3" end).

Section debug.
Context `{BitField} `{Bitflags} `{FlagsDebug}.

Definition SegmentSelector_Debug (f : Formatter) (s : SegmentSelector) : outcome string :=
  debug_struct f "SegmentSelector"
    [("index", Ret (u64_Debug f (SegmentSelector_index s)));
     ("rpl", l ← SegmentSelector_rpl s; PrivilegeLevel_Debug f l)].

(** ** page_table.rs *)
Definition PageTableEntry_Debug (f : Formatter) (e : PageTableEntry) : outcome string :=
  debug_struct f "PageTableEntry"
    [("addr", a ← PageTableEntry_addr e; PhysAddr_Debug f a);
     ("flags", Ret (flags_Debug f "PageTableFlags" (PageTableEntry_flags e)))].

Definition PageTable_Debug (f : Formatter) (t : PageTable) : outcome string :=
  debug_list f (PageTableEntry_Debug f <$> entries t).

(** ** idt.rs *)

(** The type of the gate is printed with [{:#04b}]. *)
Definition EntryOptions_Debug (f : Formatter) (o : EntryOptions) : outcome string :=
  debug_struct f "EntryOptions"
    [("code_selector", SegmentSelector_Debug f (options_cs o));
     ("stack_index", i ← EntryOptions_stack_index o; option_Debug f (fun i => Ret (u64_Debug f i)) i);
     ("type", t ← get_bits 16 (options_bits o) 8 12;
        Ret (u64_Binary (zero_padded 4) t));
     ("privilege_level", l ← EntryOptions_privilege_level o; PrivilegeLevel_Debug f l);
     ("present", p ← EntryOptions_present o; Ret (bool_Debug f p))].

Definition IdtEntry_Debug {F} (f : Formatter) (e : IdtEntry F) : outcome string :=
  debug_struct f "Entry"
    [("handler_addr", Ret (VirtAddr_LowerHex sharp (IdtEntry_handler_addr e)));
     ("options", EntryOptions_Debug f (options e))].

Definition InterruptStackFrameValue_Debug (f : Formatter) (v : InterruptStackFrameValue)
    : outcome string :=
  debug_struct f "InterruptStackFrame"
    [("instruction_pointer", VirtAddr_Debug f (instruction_pointer v));
     ("code_segment", SegmentSelector_Debug f (code_segment v));
     ("cpu_flags", Ret (flags_Debug f "RFlags" (cpu_flags v)));
     ("stack_pointer", VirtAddr_Debug f (stack_pointer v));
     ("stack_segment", SegmentSelector_Debug f (stack_segment v))].

Definition InterruptStackFrame_Debug (f : Formatter) (s : InterruptStackFrame) : outcome string :=
  InterruptStackFrameValue_Debug f (frame_value s).

Definition DescriptorTable_Debug (f : Formatter) (t : DescriptorTable) : outcome string :=
  Ret (match t with Gdt => "Gdt" | Idt => "Idt" | Ldt => "Ldt" end).

Definition SelectorErrorCode_Debug (f : Formatter) (c : SelectorErrorCode) : outcome string :=
  debug_struct f "Selector Error"
    [("external", b ← SelectorErrorCode_external c; Ret (bool_Debug f b));
     ("descriptor table", t ← SelectorErrorCode_descriptor_table c; DescriptorTable_Debug f t);
     ("index", i ← SelectorErrorCode_index c; Ret (u64_Debug f i))].
End debug.

Definition InvalidExceptionVectorNumber_Display (e : InvalidExceptionVectorNumber) : string :=
  let 'mkInvalidExceptionVectorNumber n := e in
  u64_Display plain n +:+ " is not a valid exception vector".

(** ** The error types of tlb.rs, recursive_page_table.rs and model_specific.rs; port.rs *)
Definition PcidTooBig_Display (e : PcidTooBig) : string :=
  "PCID should be < 4096, got " +:+ u64_Display plain (pcid_too_big e).

Definition AsidOutOfRangeError_Display (e : AsidOutOfRangeError) : string :=
  u64_Display plain (err_asid e) +:+ " is out of the range of available ASIDS (" +:+
  u64_Display plain (err_nasid e) +:+ ")".

Definition InvalidPageTable_Display (e : InvalidPageTable) : string :=
  match e with
  | NotRecursive => "given page table address is not recursive"
  | NotActive => "given page table is not active on the CPU"
  end.

Definition InvalidStarSegmentSelectors_Display (e : InvalidStarSegmentSelectors) : string :=
  match e with
  | SysretOffset => "Sysret CS and SS are not offset by 8."
  | SyscallOffset => "Syscall CS and SS are not offset by 8."
  | SysretPrivilegeLevel => "Sysret's segment must be a Ring3 segment."
  | SyscallPrivilegeLevel => "Syscall's segment must be a Ring0 segment."
  end.

Definition Access_DEBUG_STR (A : Access) : string :=
  match A with
  | ReadOnlyAccess => "ReadOnly"
  | WriteOnlyAccess => "WriteOnly"
  | ReadWriteAccess => "ReadWrite"
  end.

Definition PortGeneric_Debug {T A} (f : Formatter) (p : PortGeneric T A) : outcome string :=
  debug_struct f "PortGeneric"
    [("port", Ret (u64_Debug f (port p)));
     ("size", Ret (u64_Debug f (port_width T / 8)));
     ("access", Ret (pad plain (Access_DEBUG_STR A)))].

(** ** Totality of the builders *)
Definition prints (o : outcome string) : Prop := exists s, o = Ret s.

Lemma prints_Ret s : prints (Ret s).
Proof. by exists s. Qed.
Lemma prints_bind {A} (o : outcome A) (k : A -> outcome string) :
  (exists a, o = Ret a /\ prints (k a)) -> prints (a ← o; k a).
Proof. by intros (a & -> & H). Qed.

Lemma debug_struct_prints f name fields :
  Forall (fun nv => prints (snd nv)) fields -> prints (debug_struct f name fields).
Proof.
  intros H. apply prints_bind. assert (forall first, prints (struct_fields f first fields)) as S.
  { induction H as [|[n v] l [s Hs] _ IH]; intros first; [by eexists|].
    cbn [struct_fields snd] in *. rewrite Hs. cbn [mbind outcome_bind].
    destruct (IH false) as [r ->]. by eexists. }
  destruct (S true) as [s ->]. eexists. split; [done|]. apply prints_Ret.
Qed.

Lemma tuple_fields_prints f first open fields :
  Forall prints fields -> prints (tuple_fields f first open fields).
Proof.
  intros H. revert first. induction H as [|v l [s Hs] _ IH]; intros first; [by eexists|].
  cbn [tuple_fields]. rewrite Hs. cbn [mbind outcome_bind]. destruct (IH false) as [r ->]. by eexists.
Qed.

Lemma debug_tuple_prints f name fields : Forall prints fields -> prints (debug_tuple f name fields).
Proof.
  intros H. apply prints_bind. destruct (tuple_fields_prints f true "(" fields H) as [s ->].
  eexists. split; [done|]. apply prints_Ret.
Qed.

Lemma debug_list_prints f fields : Forall prints fields -> prints (debug_list f fields).
Proof.
  intros H. apply prints_bind. destruct (tuple_fields_prints f true EmptyString fields H) as [s ->].
  eexists. split; [done|]. apply prints_Ret.
Qed.

Create HintDb prints.
#[export] Hint Resolve prints_Ret debug_struct_prints debug_tuple_prints debug_list_prints
  List.Forall_nil List.Forall_cons : prints.
#[export] Hint Extern 1 (prints (snd _)) => cbn [snd] : prints.

(** Reading a field of the value to print. *)
Lemma prints_field `{BFL : BitFieldLaws} w x lo hi (k : Z -> outcome string) :
  uN w x -> 0 <= lo < hi -> hi <= w ->
  (forall v, uN (hi - lo) v -> prints (k v)) -> prints (v ← get_bits w x lo hi; k v).
Proof. intros Hx Hl Hw Hk. rewrite get_bits_law by done. apply Hk, field_uN. lia. Qed.

Lemma prints_bit `{BFL : BitFieldLaws} w x i (k : bool -> outcome string) :
  uN w x -> 0 <= i < w -> (forall b, prints (k b)) -> prints (b ← get_bit w x i; k b).
Proof. intros Hx Hi Hk. rewrite get_bit_law by done. apply Hk. Qed.

Lemma bind_assoc {A B C} (o : outcome A) (g : A -> outcome B) (k : B -> outcome C) :
  (b ← (a ← o; g a); k b) = (a ← o; b ← g a; k b).
Proof. by destruct o. Qed.

(** Two bits are a privilege level. *)
Lemma prints_privilege f v :
  uN 2 v -> prints (l ← PrivilegeLevel_from_u16 v; PrivilegeLevel_Debug f l).
Proof.
  intros Hv. unfold uN in Hv. unfold PrivilegeLevel_from_u16.
  zcase; try lia; apply prints_Ret.
Qed.

Lemma prints_table f v :
  uN 2 v ->
  prints (t ← match v with 0 => Ret Gdt | 1 => Ret Idt | 2 => Ret Ldt | 3 => Ret Idt | _ => Panic end;
          DescriptorTable_Debug f t).
Proof.
  intros Hv. unfold uN in Hv. assert (v = 0 \/ v = 1 \/ v = 2 \/ v = 3) as [->|[->|[->| ->]]] by lia;
    apply prints_Ret.
Qed.

Section total.
Context `{BFL : BitFieldLaws} `{Bitflags} `{FlagsDebug}.

Lemma SegmentSelector_prints f s : u16 (selector s) -> prints (SegmentSelector_Debug f s).
Proof.
  intros Hs. apply debug_struct_prints. repeat constructor; cbn [snd]; [apply prints_Ret|].
  unfold SegmentSelector_rpl. rewrite bind_assoc.
  apply prints_field; [done|lia|lia|]. intros v. apply prints_privilege.
Qed.

Lemma EntryOptions_prints f o : EntryOptions_wf o -> prints (EntryOptions_Debug f o).
Proof.
  intros [Hs Ho]. apply debug_struct_prints. repeat constructor; cbn [snd].
  - by apply SegmentSelector_prints.
  - unfold EntryOptions_stack_index. rewrite bind_assoc.
    apply prints_field; [done|lia|lia|]. intros v _. cbn [mbind outcome_bind].
    destruct (checked_sub 16 v 1); cbn [option_Debug]; auto with prints.
  - apply prints_field; [done|lia|lia|]. auto with prints.
  - unfold EntryOptions_privilege_level. rewrite bind_assoc.
    apply prints_field; [done|lia|lia|]. intros v. apply prints_privilege.
  - apply prints_bit; [done|lia|]. auto with prints.
Qed.

Lemma PageTableEntry_prints f e : u64 (entry e) -> prints (PageTableEntry_Debug f e).
Proof.
  intros He. apply debug_struct_prints. repeat constructor; cbn [snd]; [|apply prints_Ret].
  destruct (PageTableEntry_addr_val e He) as [-> _]. cbn [mbind outcome_bind].
  unfold PhysAddr_Debug. auto with prints.
Qed.

Lemma SelectorErrorCode_prints f c : u64 (sec_flags c) -> prints (SelectorErrorCode_Debug f c).
Proof.
  intros Hc. apply debug_struct_prints. repeat constructor; cbn [snd].
  - apply prints_bit; [done|lia|]. auto with prints.
  - unfold SelectorErrorCode_descriptor_table. rewrite bind_assoc.
    apply prints_field; [done|lia|lia|]. intros v. apply prints_table.
  - apply prints_field; [done|lia|lia|]. auto with prints.
Qed.
End total.

(** ** Printed addresses *)
Lemma VirtAddr_Debug_inj f a b :
  u64 (va a) -> u64 (va b) -> VirtAddr_Debug f a = VirtAddr_Debug f b -> a = b.
Proof.
  intros Ha Hb E. destruct a as [a], b as [b]. cbn [va] in *. f_equal.
  apply (u64_LowerHex_inj sharp); [done..|]. revert E. unfold VirtAddr_Debug. apply debug_tuple_inj.
Qed.

Lemma PhysAddr_Debug_inj f a b :
  u64 (pa a) -> u64 (pa b) -> PhysAddr_Debug f a = PhysAddr_Debug f b -> a = b.
Proof.
  intros Ha Hb E. destruct a as [a], b as [b]. cbn [pa] in *. f_equal.
  apply (u64_LowerHex_inj sharp); [done..|]. revert E. unfold PhysAddr_Debug. apply debug_tuple_inj.
Qed.

Lemma Page_Debug_inj {S} f (p q : Page S) :
  u64 (va (page_start p)) -> u64 (va (page_start q)) -> Page_Debug f p = Page_Debug f q -> p = q.
Proof.
  intros Hp Hq E. destruct p as [[p]], q as [[q]]. cbn [page_start va] in *. do 2 f_equal.
  apply (u64_LowerHex_inj sharp); [done..|]. injection E as E.
  by apply append_inj_l, append_inj_l, append_inj_l, append_inj_r in E.
Qed.

(** ** The properties *)

(** C32. Printed addresses can be read back. Whatever the options of the format
    (sign, prefix, zero padding, fill, alignment, width, precision), a virtual or
    physical address printed in binary, octal or hexadecimal is one body, filled
    up to the width with the fill character on the sides that the alignment says;
    the body is a + if the sign is asked for, the prefix if # is given, and digits
    of which the number read is the address. A pointer, which always has the
    prefix, reads as the address as far as it fits in a usize. The Debug output of
    two virtual addresses, two physical addresses or two pages of one size is
    equal only if they are. *)
Theorem addresses_print_faithfully `{T : Target} {TO : TargetOk T} f a x :
  canonical a -> phys_valid x ->
  prints_number f (alternate f) 16 (va a) (VirtAddr_LowerHex f a) /\
  prints_number f (alternate f) 16 (va a) (VirtAddr_UpperHex f a) /\
  prints_number f (alternate f) 8 (va a) (VirtAddr_Octal f a) /\
  prints_number f (alternate f) 2 (va a) (VirtAddr_Binary f a) /\
  prints_number f true 16 (va a mod 2 ^ usize_bits) (VirtAddr_Pointer f a) /\
  prints_number f (alternate f) 16 (pa x) (PhysAddr_LowerHex f x) /\
  prints_number f (alternate f) 16 (pa x) (PhysAddr_UpperHex f x) /\
  prints_number f (alternate f) 8 (pa x) (PhysAddr_Octal f x) /\
  prints_number f (alternate f) 2 (pa x) (PhysAddr_Binary f x) /\
  prints_number f true 16 (pa x mod 2 ^ usize_bits) (PhysAddr_Pointer f x) /\
  (forall b, canonical b -> VirtAddr_Debug f a = VirtAddr_Debug f b -> a = b) /\
  (forall y, phys_valid y -> PhysAddr_Debug f x = PhysAddr_Debug f y -> x = y) /\
  (forall S (p q : Page S), Page_wf p -> Page_wf q -> Page_Debug f p = Page_Debug f q -> p = q).
Proof.
  intros Ha Hx. pose proof (canonical_u64 a Ha). pose proof (phys_valid_u64 x Hx).
  assert (forall y, u64 (y mod 2 ^ usize_bits)) as Hu.
  { intros y. pose proof (Z.mod_pos_bound y (2 ^ usize_bits)). unfold uN.
    destruct TO as [E|E]; rewrite E in *; lia. }
  split_and!; try (apply pad_integral_prints; [lia|done|done]); try (apply ptr_Pointer_prints, Hu).
  - intros b Hb. apply VirtAddr_Debug_inj; [done|by apply canonical_u64].
  - intros y Hy. apply PhysAddr_Debug_inj; [done|by apply phys_valid_u64].
  - intros S p q [Hp _] [Hq _]. apply Page_Debug_inj; by apply canonical_u64.
Qed.

(** [{:*^+#22x}]. *)
Definition starred : Formatter := mkFormatter true true false "*" (Some AlignCenter) (Some 22) None None.

Lemma addresses_print_faithfully_witness :
  let T32 := {| overflow_checks := true; usize_bits := 32 |} in
  let a := mkVirtAddr 0xffff8000deadbeef in
  VirtAddr_LowerHex starred a = "*+0xffff8000deadbeef**" /\
  prints_number starred true 16 (va a) "*+0xffff8000deadbeef**" /\
  prints_number plain true 16 0xdeadbeef "0xdeadbeef".
Proof.
  intros T32 a.
  destruct (addresses_print_faithfully (T := T32) (TO := or_introl eq_refl) starred a PhysAddr_zero
    ltac:(right; simpl; lia) ltac:(split; simpl; lia)) as (R & _).
  destruct (addresses_print_faithfully (T := T32) (TO := or_introl eq_refl) plain a PhysAddr_zero
    ltac:(right; simpl; lia) ltac:(split; simpl; lia)) as (_ & _ & _ & _ & P & _).
  split; [vm_compute; reflexivity|]. split; [exact R|]. exact P.
Defined.

(** Formatting for debugging never panics, whatever bits the value holds:
    page table entries and tables of any content, interrupt gates and their
    options, segment selectors, selector error codes and interrupt stack
    frames, in the plain and in the pretty form.  The methods the
    implementations call decode every value of the bits they read. *)
Theorem debug_never_panics `{BFL : BitFieldLaws} `{Bitflags} `{FlagsDebug} f :
  (forall e, u64 (entry e) -> prints (PageTableEntry_Debug f e)) /\
  (forall t, Forall (fun e => u64 (entry e)) (entries t) -> prints (PageTable_Debug f t)) /\
  (forall o, EntryOptions_wf o -> prints (EntryOptions_Debug f o)) /\
  (forall F (e : IdtEntry F), IdtEntry_wf e -> prints (IdtEntry_Debug f e)) /\
  (forall s, u16 (selector s) -> prints (SegmentSelector_Debug f s)) /\
  (forall c, u64 (sec_flags c) -> prints (SelectorErrorCode_Debug f c)) /\
  (forall s, u16 (selector (code_segment (frame_value s))) ->
     u16 (selector (stack_segment (frame_value s))) -> prints (InterruptStackFrame_Debug f s)).
Proof.
  split_and!.
  - apply PageTableEntry_prints.
  - intros t Ht. apply debug_list_prints, List.Forall_map.
    eapply List.Forall_impl; [|exact Ht]. intros e. apply PageTableEntry_prints.
  - apply EntryOptions_prints.
  - intros F e (_ & Ho & _). apply debug_struct_prints.
    repeat constructor; cbn [snd]; [apply prints_Ret|by apply EntryOptions_prints].
  - apply SegmentSelector_prints.
  - apply SelectorErrorCode_prints.
  - intros s Hc Hs. apply debug_struct_prints.
    repeat constructor; cbn [snd]; try apply prints_Ret; try by apply SegmentSelector_prints.
    all: unfold VirtAddr_Debug; auto with prints.
Qed.

Lemma debug_never_panics_witness :
  let FD : FlagsDebug := fun f name bits => name +:+ "(" +:+ u64_LowerHex sharp bits +:+ ")" in
  prints (PageTableEntry_Debug plain (mkPageTableEntry 0xffffffffffffffff)) /\
  prints (SelectorErrorCode_Debug plain (mkSelectorErrorCode 6)) /\
  PageTableEntry_Debug (H1 := FD) plain (mkPageTableEntry 0x200003) =
    Ret "PageTableEntry { addr: PhysAddr(0x200000), flags: PageTableFlags(0x3) }".
Proof.
  intros FD.
  destruct (debug_never_panics (BFL := ref_bit_field_laws) (H0 := FD) plain)
    as (P & _ & _ & _ & _ & C & _).
  split; [apply P; unfold uN; cbn; lia|]. split; [apply C; unfold uN; cbn; lia|].
  vm_compute. reflexivity.
Defined.
