(* ===== verification/UnitTests.v ===== *)
(** * The unit tests of the repository

    The [#[cfg(test)]] modules of addr.rs, page.rs, frame.rs, gdt.rs, tss.rs
    and idt.rs, translated like the rest of the code: a test is an
    [outcome unit], [assert!] and [assert_eq!] panic when they fail, and
    [cfg(target_pointer_width)] is the width of the [Target].  A passing test
    returns [Ret tt]; a [#[should_panic]] test passes when it is [Panic].
    The lemmas at the end run the tests in the kernel, those without long loops
    on both targets, with and without overflow checks.

    Tests that only check that a trait is derived, that print a value or that
    read the size of a type, and those that execute an instruction, have
    nothing to run here. *)
From Stdlib Require Import ZArith Lia Bool.
From stdpp Require Import base decidable option list numbers.
From S2P Require Import Prelude Crates Addr Page Frame Gdt Idt IdtHandlers Kani.
#[local] Open Scope Z_scope.

Definition assert_eq {A} `{EqDecision A} (a b : A) : outcome unit := rust_assert (bool_decide (a = b)).

(** A list of checks, in order. *)
Fixpoint checks (l : list (outcome unit)) : outcome unit :=
  match l with
  | [] => Ret tt
  | c :: l => c;; checks l
  end.

Definition when (b : bool) (l : list (outcome unit)) : list (outcome unit) := if b then l else [].

(** [for x in l { body }] over a state. *)
Fixpoint for_each {X R} (l : list X) (body : X -> R -> outcome R) (r : R) : outcome R :=
  match l with
  | [] => Ret r
  | x :: l => r ← body x r; for_each l body r
  end.

Section tests.
Context `{BitField} `{Bitflags} `{Target}.

Definition target_64 : bool := usize_bits =? 64.

(** ** addr.rs *)
Definition add_overflow_virtaddr : outcome unit :=
  a ← VirtAddr_new 0xffffffffffffffff; VirtAddr_add a 1;; Ret tt.
Definition add_overflow_physaddr : outcome unit :=
  a ← PhysAddr_new 0x000fffffffffffff; PhysAddr_add a 0xffff000000000000;; Ret tt.
Definition sub_underflow_virtaddr : outcome unit :=
  a ← VirtAddr_new 0; VirtAddr_sub a 1;; Ret tt.
Definition sub_overflow_physaddr : outcome unit :=
  a ← PhysAddr_new 0; PhysAddr_sub a 1;; Ret tt.

Definition virtaddr_new_truncate : outcome unit :=
  checks [
    assert_eq (VirtAddr_new_truncate 0) (mkVirtAddr 0);
    assert_eq (VirtAddr_new_truncate (Z.shiftl 1 47)) (mkVirtAddr (wrap 64 (Z.shiftl 0xfffff 47)));
    assert_eq (VirtAddr_new_truncate 123) (mkVirtAddr 123);
    assert_eq (VirtAddr_new_truncate (Z.shiftl 123 47)) (mkVirtAddr (wrap 64 (Z.shiftl 0xfffff 47)))
  ].

(** [assert_eq!(Step::forward(a, n), r)] and the like. *)
Definition forward_is (a n r : Z) : outcome unit :=
  x ← Step_forward (mkVirtAddr a) n; assert_eq x (mkVirtAddr r).
Definition forward_none (a n : Z) : outcome unit :=
  x ← VirtAddr_forward_checked (mkVirtAddr a) n; assert_eq x None.
Definition backward_is (a n r : Z) : outcome unit :=
  x ← Step_backward (mkVirtAddr a) n; assert_eq x (mkVirtAddr r).
Definition backward_none (a n : Z) : outcome unit :=
  x ← VirtAddr_backward_checked (mkVirtAddr a) n; assert_eq x None.
Definition steps_between_is (a b : Z) (r : Z * option Z) : outcome unit :=
  assert_eq (VirtAddr_steps_between_impl (mkVirtAddr a) (mkVirtAddr b)) r.

Definition virtaddr_step_forward : outcome unit :=
  checks ([
    forward_is 0 0 0;
    forward_is 0 1 1;
    forward_is 0x7fffffffffff 1 0xffff800000000000;
    forward_is 0xffff800000000000 1 0xffff800000000001;
    forward_none 0xffffffffffffffff 1
  ] ++ when target_64 [
    forward_is 0x7fffffffffff 0x123456789abd 0xffff923456789abc;
    forward_is 0x7fffffffffff 0x800000000000 0xffffffffffffffff;
    forward_is 0x7fffffffff00 0x8000000000ff 0xffffffffffffffff;
    forward_none 0x7fffffffff00 0x800000000100;
    forward_none 0x7fffffffffff 0x800000000001
  ]).

Definition virtaddr_step_backward : outcome unit :=
  checks ([
    backward_is 0 0 0;
    backward_none 0 1;
    backward_is 1 1 0;
    backward_is 0xffff800000000000 1 0x7fffffffffff;
    backward_is 0xffff800000000001 1 0xffff800000000000
  ] ++ when target_64 [
    backward_is 0xffff923456789abc 0x123456789abd 0x7fffffffffff;
    backward_is 0xffff800000000000 0x800000000000 0;
    backward_is 0xffff800000000000 0x7fffffffff01 0xff;
    backward_none 0xffff800000000000 0x800000000001
  ]).

Definition virtaddr_steps_between : outcome unit :=
  checks ([
    steps_between_is 0 0 (0, Some 0);
    steps_between_is 0 1 (1, Some 1);
    steps_between_is 1 0 (0, None);
    steps_between_is 0x7fffffffffff 0xffff800000000000 (1, Some 1);
    steps_between_is 0xffff800000000000 0x7fffffffffff (0, None);
    steps_between_is 0xffff800000000000 0xffff800000000000 (0, Some 0);
    steps_between_is 0xffff800000000000 0xffff800000000001 (1, Some 1);
    steps_between_is 0xffff800000000001 0xffff800000000000 (0, None)
  ] ++ when target_64 [
    steps_between_is 0 0x100000000 (0x100000000, Some 0x100000000)
  ] ++ when (negb target_64) [
    steps_between_is 0 0x100000000 (usize_max, None)
  ]).

Definition align_up_is (a n r : Z) : outcome unit := x ← align_up a n; assert_eq x r.

Definition test_align_up : outcome unit :=
  checks [
    (* align 1 *)
    align_up_is 0 1 0;
    align_up_is 1234 1 1234;
    align_up_is 0xffffffffffffffff 1 0xffffffffffffffff;
    (* align 2 *)
    align_up_is 0 2 0;
    align_up_is 1233 2 1234;
    align_up_is 0xfffffffffffffffe 2 0xfffffffffffffffe;
    (* address 0 *)
    align_up_is 0 128 0;
    align_up_is 0 1 0;
    align_up_is 0 2 0;
    align_up_is 0 0x8000000000000000 0
  ].

Definition test_virt_addr_align_up : outcome unit :=
  a ← VirtAddr_new 0x7fffffffffff;
  a ← VirtAddr_align_up a 2;
  b ← VirtAddr_new 0xffff800000000000;
  assert_eq a b.
Definition test_virt_addr_align_down : outcome unit :=
  a ← VirtAddr_new 0xffff800000000000;
  a ← VirtAddr_align_down a (Z.shiftl 1 48);
  b ← VirtAddr_new 0;
  assert_eq a b.
Definition test_virt_addr_align_up_overflow : outcome unit :=
  a ← VirtAddr_new 0xffffffffffffffff; VirtAddr_align_up a 2;; Ret tt.
Definition test_phys_addr_align_up_overflow : outcome unit :=
  a ← PhysAddr_new 0x000fffffffffffff; PhysAddr_align_up a 2;; Ret tt.

(** ** page.rs *)

(** [for i in ... { assert_eq!(range.next(), Some(Page::containing_address(
    start_addr + page_size * i))); }], and the range after the loop. *)
Definition expect_pages {R} (next : R -> outcome (option (Page Size4KiB) * R))
    (start_addr : VirtAddr) (n : nat) (r : R) : outcome R :=
  for_each (seqZ 0 (Z.of_nat n)) (fun i r =>
    '(p, r) ← next r;
    offset ← arith 64 (Size4KiB_SIZE * i);
    a ← VirtAddr_add start_addr offset;
    expected ← Page_containing_address a;
    assert_eq p (Some expected);;
    Ret r) r.

Definition test_page_ranges : outcome unit :=
  let number := 1000 in
  start_addr ← VirtAddr_new 0xdeadbeaf;
  start ← Page_containing_address (S := Size4KiB) start_addr;
  end_ ← Page_add start number;
  range ← expect_pages PageRange_next start_addr 1000 (Page_range start end_);
  '(p, _) ← PageRange_next range;
  assert_eq p None;;
  range_inclusive ←
    expect_pages PageRangeInclusive_next start_addr 1001 (Page_range_inclusive start end_);
  '(p, _) ← PageRangeInclusive_next range_inclusive;
  assert_eq p None.

Definition test_page_range_inclusive_overflow : outcome unit :=
  let page_size := Size4KiB_SIZE in
  let number := 1000 in
  top ← VirtAddr_new U64_MAX;
  top ← VirtAddr_align_down top page_size;
  size ← arith 64 (number * page_size);
  start_addr ← VirtAddr_sub top size;
  start ← Page_containing_address (S := Size4KiB) start_addr;
  end_ ← Page_add start number;
  range_inclusive ←
    expect_pages PageRangeInclusive_next start_addr 1001 (Page_range_inclusive start end_);
  '(p, _) ← PageRangeInclusive_next range_inclusive;
  assert_eq p None.

Definition test_page_range_len : outcome unit :=
  start_addr ← VirtAddr_new 0xdeadbeaf;
  start ← Page_containing_address (S := Size4KiB) start_addr;
  end_ ← Page_add start 50;
  n ← PageRange_len (mkPageRange start end_);
  assert_eq n 50;;
  n ← PageRangeInclusive_len (mkPageRangeInclusive start end_);
  assert_eq n 51.

(** [Page::from_start_address(VirtAddr::new(a)).unwrap()]. *)
Definition page_of (a : Z) : outcome (Page Size4KiB) :=
  a ← VirtAddr_new a;
  p ← Page_from_start_address a;
  unwrap_ok p.
Definition option_page_of (a : option Z) : outcome (option (Page Size4KiB)) :=
  match a with
  | Some a => Some <$> page_of a
  | None => Ret None
  end.

Definition page_step_forward : outcome unit :=
  let test_cases := [
    (0, 0, Some 0);
    (0, 1, Some 0x1000);
    (0x1000, 1, Some 0x2000);
    (0x7ffffffff000, 1, Some 0xffff800000000000);
    (0xffff800000000000, 1, Some 0xffff800000001000);
    (0xfffffffffffff000, 1, None)
  ] ++ (if target_64 then [
    (0x7ffffffff000, 0x123456789, Some 0xffff923456788000);
    (0x7ffffffff000, 0x800000000, Some 0xfffffffffffff000);
    (0x7ffffff00000, 0x8000000ff, Some 0xfffffffffffff000);
    (0x7ffffff00000, 0x800000100, None);
    (0x7ffffffff000, 0x800000001, None)
  ] else []) ++ [(0, 0x100000, Some 0x100000000)] in
  for_each test_cases (fun '(start, count, result) _ =>
    start ← page_of start;
    result ← option_page_of result;
    r ← Page_forward_checked_impl start count;
    assert_eq r result) tt.

Definition page_step_backwards : outcome unit :=
  let test_cases := [
    (0, 0, Some 0);
    (0, 1, None);
    (0x1000, 1, Some 0);
    (0xffff800000000000, 1, Some 0x7ffffffff000);
    (0xffff800000001000, 1, Some 0xffff800000000000)
  ] ++ (if target_64 then [
    (0xffff923456788000, 0x123456789, Some 0x7ffffffff000);
    (0xffff800000000000, 0x800000000, Some 0);
    (0xffff800000000000, 0x7ffffff01, Some 0xff000);
    (0xffff800000000000, 0x800000001, None)
  ] else []) ++ [(0x100000000, 0x100000, Some 0)] in
  for_each test_cases (fun '(start, count, result) _ =>
    start ← page_of start;
    result ← option_page_of result;
    r ← Page_backward_checked start count;
    assert_eq r result) tt.

Definition page_steps_between : outcome unit :=
  let test_cases := [
    (0, 0, 0, Some 0);
    (0, 0x1000, 1, Some 1);
    (0x1000, 0, 0, None);
    (0x1000, 0x1000, 0, Some 0);
    (0x7ffffffff000, 0xffff800000000000, 1, Some 1);
    (0xffff800000000000, 0x7ffffffff000, 0, None);
    (0xffff800000000000, 0xffff800000000000, 0, Some 0);
    (0xffff800000000000, 0xffff800000001000, 1, Some 1);
    (0xffff800000001000, 0xffff800000000000, 0, None);
    (0xffff800000001000, 0xffff800000001000, 0, Some 0);
    (0, 0x100000000, 0x100000, Some 0x100000)
  ] ++ (if target_64 then [(0, 0x100000000000, 0x100000000, Some 0x100000000)]
        else [(0, 0x100000000000, usize_max, None)]) in
  for_each test_cases (fun '(start, end_, lower, upper) _ =>
    start ← page_of start;
    end_ ← page_of end_;
    assert_eq (Page_steps_between_impl start end_) (lower, upper)) tt.

(** ** frame.rs and tss.rs *)
Definition test_frame_range_len : outcome unit :=
  start_addr ← PhysAddr_new 0xdeadbeaf;
  start ← PhysFrame_containing_address (S := Size4KiB) start_addr;
  end_ ← PhysFrame_add start 50;
  n ← PhysFrameRange_len (mkPhysFrameRange start end_);
  assert_eq n 50;;
  n ← PhysFrameRangeInclusive_len (mkPhysFrameRangeInclusive start end_);
  assert_eq n 51.

Definition check_tss_size : outcome unit := assert_eq TSS_SIZE 0x68.

(** ** gdt.rs; [tss] is the address of the static [TSS]. *)
Definition linux_kernel_defaults : outcome unit :=
  checks [
    assert_eq DescriptorFlags_KERNEL_CODE64 0x00af9b000000ffff;
    assert_eq DescriptorFlags_KERNEL_CODE32 0x00cf9b000000ffff;
    assert_eq DescriptorFlags_KERNEL_DATA 0x00cf93000000ffff;
    assert_eq DescriptorFlags_USER_CODE64 0x00affb000000ffff;
    assert_eq DescriptorFlags_USER_CODE32 0x00cffb000000ffff;
    assert_eq DescriptorFlags_USER_DATA 0x00cff3000000ffff
  ].

Definition make_six_entry_gdt : outcome GlobalDescriptorTable :=
  gdt ← GDT_new;
  '(_, gdt) ← GDT_append gdt Descriptor_kernel_code_segment;
  '(_, gdt) ← GDT_append gdt Descriptor_kernel_data_segment;
  '(_, gdt) ← GDT_append gdt (UserSegment DescriptorFlags_USER_CODE32);
  '(_, gdt) ← GDT_append gdt Descriptor_user_data_segment;
  '(_, gdt) ← GDT_append gdt Descriptor_user_code_segment;
  assert_eq (gdt_len gdt) 6;;
  Ret gdt.

Definition make_full_gdt (tss : Z) : outcome GlobalDescriptorTable :=
  gdt ← make_six_entry_gdt;
  d ← Descriptor_tss_segment tss;
  '(_, gdt) ← GDT_append gdt d;
  assert_eq (gdt_len gdt) 8;;
  Ret gdt.

Definition push_max_segments (tss : Z) : outcome unit :=
  gdt ← make_six_entry_gdt;
  '(_, gdt) ← GDT_append gdt Descriptor_user_data_segment;
  assert_eq (gdt_len gdt) 7;;
  '(_, gdt) ← GDT_append gdt Descriptor_user_data_segment;
  assert_eq (gdt_len gdt) 8;;
  make_full_gdt tss;;
  Ret tt.

Definition panic_user_segment (tss : Z) : outcome unit :=
  gdt ← make_full_gdt tss;
  GDT_append gdt Descriptor_user_data_segment;;
  Ret tt.

Definition panic_system_segment (tss : Z) : outcome unit :=
  gdt ← make_six_entry_gdt;
  '(_, gdt) ← GDT_append gdt Descriptor_user_data_segment;
  (* one free slot, but the GDT requires two *)
  d ← Descriptor_tss_segment tss;
  GDT_append gdt d;;
  Ret tt.

Definition from_entries : outcome unit :=
  let raw := [0; DescriptorFlags_KERNEL_CODE64; DescriptorFlags_KERNEL_DATA] in
  gdt ← GDT_from_raw_entries 3 raw;
  assert_eq (length (gdt_table gdt)) 3%nat;;
  assert_eq (length (GDT_entries gdt)) 3%nat.

Definition dpl_is (d : Descriptor) (l : PrivilegeLevel) : outcome unit :=
  x ← Descriptor_dpl d; assert_eq x l.
Definition descriptor_dpl : outcome unit :=
  checks [
    dpl_is Descriptor_kernel_code_segment Ring0;
    dpl_is Descriptor_kernel_data_segment Ring0;
    dpl_is Descriptor_user_code_segment Ring3;
    dpl_is Descriptor_user_code_segment Ring3
  ].

(** ** idt.rs; [cs] is the segment [set_handler_fn] reads, [fn_addr] the
    address of each generated function. *)
Definition entry_present (idt : InterruptDescriptorTable) (index : Z) : outcome bool :=
  options_of ←
    match index with
    | 8 => Ret (options (double_fault idt))
    | 10 => Ret (options (invalid_tss idt))
    | 11 => Ret (options (segment_not_present idt))
    | 12 => Ret (options (stack_segment_fault idt))
    | 13 => Ret (options (general_protection_fault idt))
    | 14 => Ret (options (page_fault idt))
    | 15 => Ret (options (idt_reserved_1 idt))
    | 17 => Ret (options (alignment_check idt))
    | 18 => Ret (options (machine_check idt))
    | 21 => Ret (options (cp_protection_exception idt))
    | 22 | 23 | 24 | 25 | 26 | 27 =>
        e ← unwrap (idt_reserved_2 idt !! Z.to_nat (index - 22));
        Ret (options e)
    | 28 => Ret (options (hv_injection_exception idt))
    | 29 => Ret (options (vmm_communication_exception idt))
    | 30 => Ret (options (security_exception idt))
    | 31 => Ret (options (idt_reserved_3 idt))
    | other => e ← IDT_index idt other; Ret (options e)
    end;
  get_bit 16 (options_bits options_of) 15.

Section default_handlers.
Context (cs : SegmentSelector) (fn_addr : Stub -> Z).

(** [for i in lo..=255 { if expected { assert!(entry_present(&idt, i)) } else
    { assert!(!entry_present(&idt, i)) } }]. *)
Definition presence_is (lo : Z) (expected : Z -> bool) (idt : InterruptDescriptorTable)
    : outcome unit :=
  for_each (seqZ lo (256 - lo)) (fun i _ =>
    p ← entry_present idt i;
    if expected i then rust_assert p else rust_assert (negb p)) tt.

Definition default_handlers : outcome unit :=
  let idt := IDT_new in
  idt ← set_general_handler_one cs fn_addr idt 0;
  presence_is 0 (fun i => i =? 0) idt;;
  idt ← set_general_handler_one cs fn_addr idt 14;
  presence_is 0 (fun i => (i =? 0) || (i =? 14)) idt;;
  idt ← set_general_handler cs fn_addr idt (Included 32, Excluded 64);
  presence_is 1 (fun i => (i =? 0) || (i =? 14) || ((32 <=? i) && (i <? 64))) idt;;
  idt ← set_general_handler_all cs fn_addr idt;
  presence_is 0
    (fun i => negb ((i =? 15) || (i =? 31) || ((22 <=? i) && (i <=? 27)))) idt.
End default_handlers.
End tests.

(** ** The test run *)
Section run.
Context `{BitField} `{Bitflags} `{Target} (tss : Z) (cs : SegmentSelector) (fn_addr : Stub -> Z).

Definition passing_tests : list (outcome unit) := [
  virtaddr_new_truncate; virtaddr_step_forward; virtaddr_step_backward; virtaddr_steps_between;
  test_align_up; test_virt_addr_align_up; test_virt_addr_align_down;
  test_page_range_len; page_step_forward; page_step_backwards; page_steps_between;
  test_frame_range_len; check_tss_size;
  linux_kernel_defaults; push_max_segments tss; from_entries; descriptor_dpl ].

(** The tests with long loops. *)
Definition long_tests : list (outcome unit) := [
  test_page_ranges; test_page_range_inclusive_overflow; default_handlers cs fn_addr ].

Definition should_panic_tests : list (outcome unit) := [
  add_overflow_virtaddr; add_overflow_physaddr; sub_underflow_virtaddr; sub_overflow_physaddr;
  test_virt_addr_align_up_overflow; test_phys_addr_align_up_overflow;
  panic_user_segment tss; panic_system_segment tss ].

(** [cargo test]: every test ends as its attribute says. *)
Definition passes (l : list (outcome unit)) : bool := forallb (fun t => bool_decide (t = Ret tt)) l.
Definition panics (l : list (outcome unit)) : bool := forallb (fun t => bool_decide (t = Panic)) l.
End run.

Lemma tests_pass checks w :
  w = 32 \/ w = 64 ->
  let T := {| overflow_checks := checks; usize_bits := w |} in
  passes (passing_tests (H := ref_bit_field) (H0 := ref_bitflags) (H1 := T) 0xffff800000123000) &&
  panics (should_panic_tests (H := ref_bit_field) (H0 := ref_bitflags) (H1 := T) 0xffff800000123000)
  = true.
Proof. intros [-> | ->]; destruct checks; vm_compute; reflexivity. Qed.

(** The default configuration of [cargo test]. *)
Lemma long_tests_pass :
  let T := {| overflow_checks := true; usize_bits := 64 |} in
  passes (long_tests (H := ref_bit_field) (H1 := T) (mkSegmentSelector 8) example_fn_addr) = true.
Proof. vm_compute. reflexivity. Qed.
