(* ===== verification/SyscallSegments.v ===== *)
(** * Segments for [syscall] and [sysret]

    The descriptors that gdt.rs predefines are documented as suitable for
    [syscall] and [sysret], which take their segments from the STAR register.
    This file composes the two parts: the selectors that
    [GlobalDescriptorTable::append] returns are accepted by [Star::write] when
    the descriptors are appended in the order that the register demands. *)
From Stdlib Require Import ZArith Lia Bool.
From stdpp Require Import base decidable option list numbers functions.
From S2P Require Import Prelude Crates Addr Gdt Cpu ModelSpecific.
#[local] Open Scope Z_scope.

(** A program that appends the four segments and sets STAR. *)
Definition syscall_setup `{Bitflags} `{BitField} `{Target} (g : GlobalDescriptorTable) (s : Cpu)
    : outcome (result unit InvalidStarSegmentSelectors * GlobalDescriptorTable * Cpu) :=
  '(kernel_code, g) ← GDT_append g Descriptor_kernel_code_segment;
  '(kernel_data, g) ← GDT_append g Descriptor_kernel_data_segment;
  '(user_data, g) ← GDT_append g Descriptor_user_data_segment;
  '(user_code, g) ← GDT_append g Descriptor_user_code_segment;
  '(r, s) ← Star_write user_code user_data kernel_code kernel_data s;
  Ret (r, g, s).

(** The segment a selector of ring [l] selects in the table. *)
Definition selects `{BitField} (g : GlobalDescriptorTable) (s : SegmentSelector) (l : PrivilegeLevel)
    (d : Descriptor) : Prop :=
  GDT_entries g !! Z.to_nat (SegmentSelector_index s) = Some (Entry_new (descriptor_low d)) /\
  SegmentSelector_rpl s = Ret l /\ Descriptor_dpl d = Ret l.

Section syscall.
Context `{BL : BitflagsLaws} `{BFL : BitFieldLaws} `{TargetOk}.

Lemma GDT_entries_length MAX g : gdt_wf MAX g -> length (GDT_entries g) = Z.to_nat (gdt_len g).
Proof. intros (_ & Ht & Hl). unfold GDT_entries. rewrite length_take. lia. Qed.

(** Appending a segment succeeds with the next selector, or the table is full. *)
Lemma append_segment MAX g d l :
  gdt_wf MAX g -> descriptor_entries d = [Entry_new (descriptor_low d)] -> Descriptor_dpl d = Ret l ->
  (MAX < gdt_len g + 1 /\ GDT_append g d = Panic) \/
  exists g', GDT_append g d = Ret (SegmentSelector_new (gdt_len g) l, g') /\
    gdt_wf MAX g' /\ gdt_len g' = gdt_len g + 1 /\
    GDT_entries g' = GDT_entries g ++ [Entry_new (descriptor_low d)].
Proof.
  intros Hg Hd Hl. pose proof Hg as (HM & Ht & Hg1).
  destruct (decide (gdt_len g + 1 <= MAX)) as [Hlen|Hfull]; [right|left].
  - destruct (GDT_append_push MAX g d Hg) as (g' & E & Hg' & Hn & He); rewrite Hd in *; [done|].
    exists g'. rewrite E, Hl. cbn [mbind outcome_bind]. by rewrite wrap_small by mlia.
  - destruct d as [v|low high]; [|done]. split; [lia|]. unfold GDT_append.
    by rewrite (proj2 (Z.ltb_lt _ _)) by (unfold saturating_sub; lia).
Qed.

Lemma selects_appended MAX g g' d l (before after : list GdtEntry) :
  gdt_wf MAX g -> gdt_len g + Z.of_nat (length before) < 2 ^ 13 ->
  GDT_entries g' = GDT_entries g ++ before ++ Entry_new (descriptor_low d) :: after ->
  Descriptor_dpl d = Ret l ->
  selects g' (SegmentSelector_new (gdt_len g + Z.of_nat (length before)) l) l d.
Proof.
  intros Hg Hlt He Hl. pose proof Hg as (_ & _ & H1).
  destruct (selector_new_fields (gdt_len g + Z.of_nat (length before)) l) as [Ei Er]; [lia|].
  split; [|by split]. rewrite Ei, He, app_assoc. apply list_lookup_middle.
  rewrite length_app, (GDT_entries_length MAX) by done. lia.
Qed.

(** Selectors 8 apart, of rings 3 and 0. *)
Lemma Star_write_segments index s :
  0 <= index -> index + 4 <= 2 ^ 13 ->
  exists s', Star_write (SegmentSelector_new (index + 3) Ring3) (SegmentSelector_new (index + 2) Ring3)
      (SegmentSelector_new index Ring0) (SegmentSelector_new (index + 1) Ring0) s = Ret (Ok tt, s') /\
    same_except (MSR 0xC0000081) s s' /\
    Star_read s' = Ret (SegmentSelector_new (index + 3) Ring3, SegmentSelector_new (index + 2) Ring3,
      SegmentSelector_new index Ring0, SegmentSelector_new (index + 1) Ring0).
Proof.
  intros H0 H1. unfold Star_write.
  destruct (selector_new_fields (index + 2) Ring3) as [_ ->]; [lia|].
  destruct (selector_new_fields (index + 1) Ring0) as [_ ->]; [lia|].
  cbn [mbind outcome_bind]. rewrite !bool_decide_true by done.
  rewrite !selector_val by lia. cbn [privilege_u16 negb].
  rewrite !(proj2 (Z.eqb_eq _ _)) by lia. cbn [negb].
  rewrite arith_in_range by mlia. cbn [mbind outcome_bind].
  assert (index * 8 + 0 = selector (SegmentSelector_new index Ring0)) as ->
    by (rewrite selector_val by lia; done).
  apply Star_write_raw_selectors; rewrite ?selector_val by lia; cbn [privilege_u16];
    try (rewrite arith_in_range by mlia; f_equal; lia); try mlia.
Qed.

(** The next segment is appended, or the setup panics. *)
Ltac append_next Hg D g' W L E :=
  lazymatch type of D with
  | Descriptor_dpl ?d = _ =>
      destruct (append_segment _ _ d _ Hg eq_refl D) as [[? ->]|(g' & -> & W & L & E)];
      [by rewrite (proj2 (Z.leb_gt _ _)) by lia|cbn [mbind outcome_bind]]
  end.

(** C23. The predefined segments and STAR fit together: appended in the order
    kernel code, kernel data, user data, user code to any table with four free
    entries, their selectors are accepted by Star::write and returned by
    Star::read, and each of them selects its segment in the table with the
    privilege level of the descriptor, so that syscall and sysret load the
    segments that were appended.  The rest of the table and of the registers
    stays; a table with fewer free entries panics. *)
Theorem syscall_setup_correct MAX g s :
  gdt_wf MAX g ->
  if gdt_len g + 4 <=? MAX then
    exists g' s' user_code user_data kernel_code kernel_data,
      syscall_setup g s = Ret (Ok tt, g', s') /\ gdt_wf MAX g' /\
      take (Z.to_nat (gdt_len g)) (GDT_entries g') = GDT_entries g /\
      same_except (MSR 0xC0000081) s s' /\
      Star_read s' = Ret (user_code, user_data, kernel_code, kernel_data) /\
      selects g' user_code Ring3 Descriptor_user_code_segment /\
      selects g' user_data Ring3 Descriptor_user_data_segment /\
      selects g' kernel_code Ring0 Descriptor_kernel_code_segment /\
      selects g' kernel_data Ring0 Descriptor_kernel_data_segment
  else syscall_setup g s = Panic.
Proof.
  intros Hg. pose proof Hg as (HM & _ & Hlen).
  destruct default_segment_dpl as (D1 & D2 & D3 & D4). unfold syscall_setup.
  append_next Hg D1 g1 W1 L1 E1. append_next W1 D2 g2 W2 L2 E2.
  append_next W2 D4 g3 W3 L3 E3. append_next W3 D3 g4 W4 L4 E4.
  assert (gdt_len g + 4 <= MAX) as Hfit by (destruct W4; lia).
  rewrite (proj2 (Z.leb_le _ _)) by done. rewrite E3, E2, E1, <- !app_assoc in E4. cbn [app] in E4.
  replace (gdt_len g3) with (gdt_len g + 3) by lia. replace (gdt_len g2) with (gdt_len g + 2) by lia.
  rewrite L1. destruct (Star_write_segments (gdt_len g) s) as (s' & -> & Hs & Hr); [lia..|].
  cbn [mbind outcome_bind]. eexists g4, s', _, _, _, _.
  split_and!; [done|done| |done|exact Hr|..].
  - rewrite E4, <- (GDT_entries_length MAX g Hg). apply take_app_length.
  - exact (selects_appended MAX g g4 _ _ [_; _; _] [] Hg ltac:(cbn; lia) E4 D3).
  - exact (selects_appended MAX g g4 _ _ [_; _] [_] Hg ltac:(cbn; lia) E4 D4).
  - replace (gdt_len g) with (gdt_len g + Z.of_nat (length ([] : list GdtEntry))) by (cbn; lia).
    exact (selects_appended MAX g g4 _ _ [] [_; _; _] Hg ltac:(cbn; lia) E4 D1).
  - exact (selects_appended MAX g g4 _ _ [_] [_; _] Hg ltac:(cbn; lia) E4 D2).
Qed.
End syscall.

Lemma syscall_setup_correct_witness :
  let T := {| overflow_checks := true; usize_bits := 64 |} in
  let g := mkGdt (replicate 8 (Entry_new 0)) 1 in
  let cpu0 : Cpu := fun _ => 0 in
  gdt_wf 8 g /\ gdt_len g + 4 <= 8 /\
  exists g' s' user_code user_data kernel_code kernel_data,
    syscall_setup (H1 := T) g cpu0 = Ret (Ok tt, g', s') /\
    Star_read (H0 := T) s' = Ret (user_code, user_data, kernel_code, kernel_data).
Proof.
  intros T g cpu0. assert (gdt_wf 8 g) as Hg by (split_and!; vm_compute; done).
  split; [exact Hg|]. split; [vm_compute; congruence|].
  destruct (syscall_setup_correct (BL := ref_bitflags_laws) (BFL := ref_bit_field_laws) (T := T)
    (H := or_intror eq_refl) 8 g cpu0 Hg) as (g' & s' & uc & ud & kc & kd & E & _ & _ & _ & Er & _).
  exists g', s', uc, ud, kc, kd. split; [exact E|exact Er].
Defined.
