(* ===== verification/TypeInvariant.v ===== *)
(** * The invariants of the address types

    [VirtAddr], [PhysAddr], [Page], [PhysFrame], the ranges, [PageTableIndex],
    [PageOffset] and [Pcid] promise more than their fields: an address is
    canonical, a page is aligned, an index is below 512.  [obtained] lists how a
    program gets values of these types without [unsafe], and every value
    obtained satisfies the invariant of its type.

    The functions that trust the processor with the invariant
    ([Segment64::read_base], and the base that [sgdt] and [sidt] store) are
    listed for registers that hold canonical addresses, and the results of a
    MappedPageTable for valid hierarchies.  Not listed are the results of the
    recursive page table, the frames of an allocator, and the stack frames of
    interrupts. *)
From Stdlib Require Import ZArith Lia Bool.
From stdpp Require Import base decidable option list numbers.
From S2P Require Import Prelude Crates Index Addr Page Frame PageTable Mapper MappedPageTable.
From S2P Require Import PageWalk MapperSpec MapperProofs Idt Tlb Cpu Control ModelSpecific Interrupts.
#[local] Open Scope Z_scope.

(** ** Invariants as a class *)
Class Invariant (A : Type) := valid : A -> Prop.

#[export] Instance VirtAddr_inv : Invariant VirtAddr := canonical.
#[export] Instance PhysAddr_inv : Invariant PhysAddr := phys_valid.
#[export] Instance Page_inv {S} : Invariant (Page S) := Page_wf.
#[export] Instance PhysFrame_inv {S} : Invariant (PhysFrame S) := PhysFrame_wf.
#[export] Instance PageTableIndex_inv : Invariant PageTableIndex := PageTableIndex_wf.
#[export] Instance PageOffset_inv : Invariant PageOffset := PageOffset_wf.
#[export] Instance Pcid_inv : Invariant Pcid := fun p => 0 <= pcid_value p < 4096.
#[export] Instance PageRange_inv {S} : Invariant (PageRange S) :=
  fun r => Page_wf (pr_start r) /\ Page_wf (pr_end r).
#[export] Instance PageRangeInclusive_inv {S} : Invariant (PageRangeInclusive S) :=
  fun r => Page_wf (pri_start r) /\ Page_wf (pri_end r).
#[export] Instance PhysFrameRange_inv {S} : Invariant (PhysFrameRange S) :=
  fun r => PhysFrame_wf (fr_start r) /\ PhysFrame_wf (fr_end r).
#[export] Instance PhysFrameRangeInclusive_inv {S} : Invariant (PhysFrameRangeInclusive S) :=
  fun r => PhysFrame_wf (fri_start r) /\ PhysFrame_wf (fri_end r).

#[export] Instance MapperFlush_inv {S} : Invariant (MapperFlush S) := fun p => Page_wf (flush_page p).
#[export] Instance MappedFrame_inv : Invariant MappedFrame :=
  fun f => match f with
           | MappedSize4KiB g => PhysFrame_wf g
           | MappedSize2MiB g => PhysFrame_wf g
           | MappedSize1GiB g => PhysFrame_wf g
           end.
#[export] Instance TranslateResult_inv : Invariant TranslateResult :=
  fun r => match r with
           | Mapped f o _ => valid f /\ 0 <= o < MappedFrame_size f
           | NotMapped => True
           | InvalidFrameAddress a => phys_valid a
           end.

(** Types without a promise. *)
#[export] Instance Z_inv : Invariant Z | 10 := fun _ => True.

(** What a computation returns. *)
#[export] Instance outcome_inv `{Invariant A} : Invariant (outcome A) :=
  fun o => forall x, o = Ret x -> valid x.
#[export] Instance result_inv {E} `{Invariant A} : Invariant (result A E) :=
  fun r => match r with Ok x => valid x | Err _ => True end.
#[export] Instance option_inv `{Invariant A} : Invariant (option A) :=
  fun o => match o with Some x => valid x | None => True end.
#[export] Instance prod_inv `{Invariant A, Invariant B} : Invariant (A * B) :=
  fun p => valid (fst p) /\ valid (snd p).

Lemma valid_Ret `{Invariant A} (x : A) : valid x -> valid (Ret x).
Proof. by intros Hx y [= <-]. Qed.

Lemma valid_Panic `{Invariant A} : valid (Panic : outcome A).
Proof. by intros x. Qed.

Lemma valid_bind {A} `{Invariant B} (m : outcome A) (f : A -> outcome B) :
  (forall x, m = Ret x -> valid (f x)) -> valid (x ← m; f x).
Proof. intros Hf y Hy. apply bind_Ret in Hy as (x & Hx & Hy). exact (Hf x Hx y Hy). Qed.

Lemma valid_fmap {A} `{Invariant B} (m : outcome A) (f : A -> B) :
  (forall x, m = Ret x -> valid (f x)) -> valid (f <$> m).
Proof. intros Hf y. destruct m as [x| |]; [|done..]. intros [= <-]. exact (Hf x eq_refl). Qed.

Create HintDb valid discriminated.
#[export] Hint Resolve valid_Ret valid_Panic : valid.

(** The result of a composed function is valid because its parts are. *)
Lemma valid_of `{Invariant A} (o : outcome A) x : valid o -> o = Ret x -> valid x.
Proof. intros Ho Hx. exact (Ho x Hx). Qed.

(** ** Machine integers *)
Lemma align_down_u64 x align y : u64 x -> u64 align -> align_down x align = Ret y -> u64 y.
Proof.
  intros Hx Ha E. destruct (is_power_of_two align) eqn:Ep.
  - apply is_power_of_two_spec in Ep as (k & Hk & ->).
    rewrite align_down_pow2 in E by (done || by apply (pow2_lt_64 (2 ^ k))). injection E as <-.
    pose proof (Z.pow_pos_nonneg 2 k ltac:(lia) Hk). pose proof (Z.mod_pos_bound x (2 ^ k)).
    destruct Hx. pose proof (Z.mod_le x (2 ^ k)). split; lia.
  - by rewrite align_down_not_pow2 in E.
Qed.

Lemma checked_u64 x y : unwrap (checked 64 x) = Ret y -> u64 y.
Proof. rewrite unwrap_Ret, checked_Some. by intros [-> ?]. Qed.

Lemma align_up_u64 x align y : u64 x -> align_up x align = Ret y -> u64 y.
Proof.
  intros Hx E. unfold align_up in E. apply bind_Ret in E as (u & _ & E). revert E. cbv zeta.
  destruct (Z.land x (align - 1) =? 0); [by intros [= <-]|apply checked_u64].
Qed.

(** ** Virtual addresses *)
Lemma VirtAddr_new_valid x : u64 x -> valid (VirtAddr_new x).
Proof. intros Hx a Ha. by apply VirtAddr_new_Ret in Ha as [_ ?]. Qed.

Lemma VirtAddr_try_new_valid x : u64 x -> valid (VirtAddr_try_new x).
Proof.
  intros Hx. destruct (VirtAddr_try_new x) eqn:E; [|done].
  apply (VirtAddr_new_valid x Hx). unfold VirtAddr_new. by rewrite E.
Qed.

Lemma VirtAddr_new_truncate_valid x : u64 x -> valid (VirtAddr_new_truncate x).
Proof. apply VirtAddr_new_truncate_canonical. Qed.

Lemma VirtAddr_align_down_valid a align : valid a -> u64 align -> valid (VirtAddr_align_down_u64 a align).
Proof.
  intros Ha Hu. apply valid_fmap. intros x Hx. apply VirtAddr_new_truncate_valid.
  by apply (align_down_u64 (va a) align); [apply canonical_u64| |].
Qed.

Lemma VirtAddr_align_up_valid a align : valid a -> valid (VirtAddr_align_up a align).
Proof.
  intros Ha. apply valid_fmap. intros x Hx. apply VirtAddr_new_truncate_valid.
  by apply (align_up_u64 (va a) align); [apply canonical_u64|].
Qed.

Lemma VirtAddr_add_valid a rhs : valid (VirtAddr_add a rhs).
Proof. apply valid_bind. intros x Hx. by apply VirtAddr_new_valid, (checked_u64 (va a + rhs)). Qed.

Lemma VirtAddr_sub_valid a rhs : valid (VirtAddr_sub a rhs).
Proof. apply valid_bind. intros x Hx. by apply VirtAddr_new_valid, (checked_u64 (va a - rhs)). Qed.

Lemma VirtAddr_forward_checked_valid `{BFL : BitFieldLaws} a n :
  valid a -> u64 n -> valid (VirtAddr_forward_checked a n).
Proof.
  intros Ha Hn. unfold VirtAddr_forward_checked, VirtAddr_forward_checked_impl.
  rewrite forward_checked_u64_position by done. apply valid_Ret. pose proof (position_range a Ha).
  destruct Hn. zcase; [|done]. apply of_position_canonical. lia.
Qed.

Lemma VirtAddr_backward_checked_valid `{BFL : BitFieldLaws} a n :
  valid a -> u64 n -> valid (VirtAddr_backward_checked a n).
Proof.
  intros Ha Hn. unfold VirtAddr_backward_checked.
  rewrite backward_checked_u64_position by done. apply valid_Ret. pose proof (position_range a Ha).
  destruct Hn. zcase; [|done]. apply of_position_canonical. lia.
Qed.

Lemma VirtAddr_zero_valid : valid VirtAddr_zero.
Proof. by left. Qed.

#[export] Hint Resolve VirtAddr_zero_valid VirtAddr_new_valid VirtAddr_try_new_valid VirtAddr_new_truncate_valid
  VirtAddr_align_down_valid VirtAddr_align_up_valid VirtAddr_add_valid VirtAddr_sub_valid
  VirtAddr_forward_checked_valid VirtAddr_backward_checked_valid : valid.

(** ** Physical addresses *)
Lemma PhysAddr_new_valid_inv x : u64 x -> valid (PhysAddr_new x).
Proof. intros Hx a Ha. by apply PhysAddr_new_Ret in Ha as [_ ?]; [|apply Hx]. Qed.

Lemma PhysAddr_try_new_valid_inv x : u64 x -> valid (PhysAddr_try_new x).
Proof.
  intros Hx. destruct (PhysAddr_try_new x) eqn:E; [|done].
  apply (PhysAddr_new_valid_inv x Hx). unfold PhysAddr_new. by rewrite E.
Qed.

Lemma PhysAddr_new_truncate_valid_inv x : u64 x -> valid (PhysAddr_new_truncate x).
Proof. intros Hx. apply PhysAddr_new_truncate_valid, Hx. Qed.

Lemma PhysAddr_align_down_valid a align : valid a -> u64 align -> valid (PhysAddr_align_down_u64 a align).
Proof.
  intros Ha Hu. unfold PhysAddr_align_down_u64. destruct (is_power_of_two align) eqn:Ep.
  - apply is_power_of_two_spec in Ep as (k & Hk & ->).
    destruct (PhysAddr_align_down_pow2 a k Ha) as [E Hv]; [by apply (pow2_lt_64 (2 ^ k))|].
    unfold PhysAddr_align_down_u64 in E. rewrite E. by apply valid_Ret.
  - rewrite align_down_not_pow2 by done. apply valid_Panic.
Qed.

Lemma PhysAddr_align_up_valid a align : valid a -> valid (PhysAddr_align_up a align).
Proof.
  intros Ha. apply valid_bind. intros x Hx. apply PhysAddr_new_valid_inv.
  by apply (align_up_u64 (pa a) align); [apply phys_valid_u64|].
Qed.

Lemma PhysAddr_add_valid a rhs : valid (PhysAddr_add a rhs).
Proof. apply valid_bind. intros x Hx. by apply PhysAddr_new_valid_inv, (checked_u64 (pa a + rhs)). Qed.

Lemma PhysAddr_sub_valid a rhs : valid (PhysAddr_sub a rhs).
Proof. apply valid_bind. intros x Hx. by apply PhysAddr_new_valid_inv, (checked_u64 (pa a - rhs)). Qed.

#[export] Hint Resolve PhysAddr_new_valid_inv PhysAddr_try_new_valid_inv
  PhysAddr_new_truncate_valid_inv PhysAddr_align_down_valid PhysAddr_align_up_valid
  PhysAddr_add_valid PhysAddr_sub_valid : valid.

(** ** Pages and frames *)
Lemma Page_containing_valid {S} a : valid a -> valid (Page_containing_address a : outcome (Page S)).
Proof. intros Ha. destruct (Page_containing_address_val (S := S) a Ha) as [-> Hp]. by apply valid_Ret. Qed.

Lemma Page_from_start_valid {S} a :
  valid a -> valid (Page_from_start_address a : outcome (result (Page S) AddressNotAligned)).
Proof.
  intros Ha. rewrite Page_from_start_address_val by done. apply valid_Ret.
  destruct (Z.eqb_spec (va a mod SIZE S) 0); [by split|done].
Qed.

Lemma Page_add_valid `{Target} {S} (p : Page S) n : valid (Page_add p n).
Proof.
  apply valid_bind. intros m _. apply valid_bind. intros a Ha.
  by apply Page_containing_valid, (VirtAddr_add_valid (Page_start_address p) m).
Qed.

Lemma Page_sub_valid `{Target} {S} (p : Page S) n : valid (Page_sub p n).
Proof.
  apply valid_bind. intros m _. apply valid_bind. intros a Ha.
  by apply Page_containing_valid, (VirtAddr_sub_valid (Page_start_address p) m).
Qed.

Lemma Page_forward_valid `{BFL : BitFieldLaws} {S} (p : Page S) n :
  valid p -> u64 n -> valid (Page_forward_checked_impl p n).
Proof.
  intros Hp Hn. rewrite Page_forward_checked_position by done. apply valid_Ret.
  destruct (page_position_val p Hp) as [_ Hr], Hn. zcase; [|done]. apply page_at_wf. lia.
Qed.

Lemma Page_backward_valid `{BFL : BitFieldLaws} {S} (p : Page S) n :
  valid p -> u64 n -> valid (Page_backward_checked p n).
Proof.
  intros Hp Hn. rewrite Page_backward_checked_position by done. apply valid_Ret.
  destruct (page_position_val p Hp) as [_ Hr], Hn. zcase; [|done]. apply page_at_wf. lia.
Qed.

Lemma Page_truncated_valid {S} n :
  0 <= n < page_count S ->
  valid (Page_containing_address (VirtAddr_new_truncate (n * SIZE S)) : outcome (Page S)).
Proof. intros Hn. rewrite Page_containing_truncated by done. by apply valid_Ret, page_at_wf. Qed.

Lemma Page_of_indices_1gib_valid a b :
  valid a -> valid b -> valid (Page_from_page_table_indices_1gib a b).
Proof.
  intros Ha Hb. unfold Page_from_page_table_indices_1gib. rewrite or_shifted_2 by done.
  by apply (Page_truncated_valid (S := Size1GiB)), digits_1gib.
Qed.

Lemma Page_of_indices_2mib_valid a b c :
  valid a -> valid b -> valid c -> valid (Page_from_page_table_indices_2mib a b c).
Proof.
  intros Ha Hb Hc. unfold Page_from_page_table_indices_2mib. rewrite or_shifted_3 by done.
  by apply (Page_truncated_valid (S := Size2MiB)), digits_2mib.
Qed.

Lemma Page_of_indices_valid a b c d :
  valid a -> valid b -> valid c -> valid d -> valid (Page_from_page_table_indices a b c d).
Proof.
  intros Ha Hb Hc Hd. unfold Page_from_page_table_indices. rewrite or_shifted_4 by done.
  by apply (Page_truncated_valid (S := Size4KiB)), digits_4kib.
Qed.

Lemma PhysFrame_containing_valid {S} a :
  valid a -> valid (PhysFrame_containing_address a : outcome (PhysFrame S)).
Proof.
  intros Ha. destruct (PhysFrame_containing_address_val (S := S) a Ha) as [-> Hp].
  by apply valid_Ret, frame_at_wf.
Qed.

Lemma PhysFrame_from_start_valid {S} a :
  valid a -> valid (PhysFrame_from_start_address a : outcome (result (PhysFrame S) AddressNotAligned)).
Proof.
  intros Ha. rewrite PhysFrame_from_start_address_val by done. apply valid_Ret.
  destruct (Z.eqb_spec (pa a mod SIZE S) 0); [by split|done].
Qed.

Lemma PhysFrame_add_valid `{Target} {S} (f : PhysFrame S) n : valid (PhysFrame_add f n).
Proof.
  apply valid_bind. intros m _. apply valid_bind. intros a Ha.
  by apply PhysFrame_containing_valid, (PhysAddr_add_valid (PhysFrame_start_address f) m).
Qed.

Lemma PhysFrame_sub_valid `{Target} {S} (f : PhysFrame S) n : valid (PhysFrame_sub f n).
Proof.
  apply valid_bind. intros m _. apply valid_bind. intros a Ha.
  by apply PhysFrame_containing_valid, (PhysAddr_sub_valid (PhysFrame_start_address f) m).
Qed.

#[export] Hint Resolve Page_containing_valid Page_from_start_valid Page_add_valid Page_sub_valid
  Page_forward_valid Page_backward_valid Page_of_indices_1gib_valid Page_of_indices_2mib_valid
  Page_of_indices_valid PhysFrame_containing_valid PhysFrame_from_start_valid
  PhysFrame_add_valid PhysFrame_sub_valid : valid.

(** ** Ranges: the item and the range that [next] leaves behind *)
Lemma PageRange_next_valid `{Target} {S} (r : PageRange S) : valid r -> valid (PageRange_next r).
Proof.
  intros [Hs He]. unfold PageRange_next. destruct (Page_ltb _ _); [|by apply valid_Ret].
  apply valid_bind. intros q Hq. apply valid_Ret. split; [done|]. split; [|done].
  exact (Page_add_valid (pr_start r) 1 q Hq).
Qed.

Lemma PageRangeInclusive_next_valid `{Target} {S} (r : PageRangeInclusive S) :
  valid r -> valid (PageRangeInclusive_next r).
Proof.
  intros [Hs He]. unfold PageRangeInclusive_next. destruct (Page_leb _ _); [|by apply valid_Ret].
  apply valid_bind. intros top _. apply valid_bind. intros m _.
  destruct (va (Page_start_address (pri_start r)) <? va m);
    apply valid_bind; intros q Hq; apply valid_Ret; (split; [done|]).
  - split; [exact (Page_add_valid (pri_start r) 1 q Hq)|done].
  - split; [done|exact (Page_sub_valid (pri_end r) 1 q Hq)].
Qed.

Lemma PhysFrameRange_next_valid `{Target} {S} (r : PhysFrameRange S) :
  valid r -> valid (PhysFrameRange_next r).
Proof.
  intros [Hs He]. unfold PhysFrameRange_next. destruct (PhysFrame_ltb _ _); [|by apply valid_Ret].
  apply valid_bind. intros q Hq. apply valid_Ret. split; [done|]. split; [|done].
  exact (PhysFrame_add_valid (fr_start r) 1 q Hq).
Qed.

Lemma PhysFrameRangeInclusive_next_valid `{Target} {S} (r : PhysFrameRangeInclusive S) :
  valid r -> valid (PhysFrameRangeInclusive_next r).
Proof.
  intros [Hs He]. unfold PhysFrameRangeInclusive_next.
  destruct (PhysFrame_leb _ _); [|by apply valid_Ret].
  apply valid_bind. intros q Hq. apply valid_Ret. split; [done|]. split; [|done].
  exact (PhysFrame_add_valid (fri_start r) 1 q Hq).
Qed.

Lemma as_4kib_valid (r : PageRange Size2MiB) : valid r -> valid (PageRange_as_4kib_page_range r).
Proof.
  intros [Hs He]. apply valid_bind. intros p Hp. apply valid_bind. intros q Hq.
  apply valid_Ret. split.
  - exact (Page_containing_valid _ (proj1 Hs) p Hp).
  - exact (Page_containing_valid _ (proj1 He) q Hq).
Qed.

#[export] Hint Resolve PageRange_next_valid PageRangeInclusive_next_valid PhysFrameRange_next_valid
  PhysFrameRangeInclusive_next_valid as_4kib_valid : valid.

(** ** Indices and offsets *)
Lemma PageTableIndex_new_valid x : 0 <= x -> valid (PageTableIndex_new x).
Proof.
  intros Hx. apply valid_bind. intros [] Hu. apply rust_assert_Ret, Z.ltb_lt in Hu.
  apply valid_Ret. split; done.
Qed.

Lemma valid_Some_fmap `{Invariant A} (m : outcome A) : valid m -> valid (Some <$> m).
Proof. intros Hm. apply valid_fmap. exact Hm. Qed.

Lemma PageTableIndex_forward_valid `{Target} i n :
  valid i -> 0 <= n -> valid (PageTableIndex_forward_checked i n).
Proof.
  intros [Hi _] Hn. unfold PageTableIndex_forward_checked.
  destruct (checked_add _ _ _) as [x|]; [|by apply valid_Ret].
  destruct (x <? ENTRY_COUNT); [|by apply valid_Ret].
  by apply valid_Some_fmap, PageTableIndex_new_valid, wrap_uN.
Qed.

Lemma PageTableIndex_backward_valid `{Target} i n : valid (PageTableIndex_backward_checked i n).
Proof.
  unfold PageTableIndex_backward_checked. destruct (checked_sub _ _ _); [|by apply valid_Ret].
  by apply valid_Some_fmap, PageTableIndex_new_valid, wrap_uN.
Qed.

Lemma PageOffset_new_valid x : 0 <= x -> valid (PageOffset_new x).
Proof.
  intros Hx. apply valid_bind. intros [] Hu. apply rust_assert_Ret, Z.ltb_lt in Hu.
  apply valid_Ret. split; done.
Qed.

Lemma PageTableIndex_truncate_valid x : valid (PageTableIndex_new_truncate x).
Proof. apply PageTableIndex_new_truncate_wf. Qed.

Lemma PageOffset_truncate_valid x : valid (PageOffset_new_truncate x).
Proof. apply PageOffset_new_truncate_wf. Qed.

#[export] Hint Resolve PageTableIndex_new_valid PageTableIndex_forward_valid
  PageTableIndex_backward_valid PageOffset_new_valid PageTableIndex_truncate_valid
  PageOffset_truncate_valid : valid.

(** ** Page table entries, gates and registers *)
Lemma PageTableEntry_addr_valid e : entry_wf e -> valid (PageTableEntry_addr e).
Proof. intros He. by apply PhysAddr_new_valid_inv, land_uN. Qed.

Lemma PageTableEntry_frame_valid `{Bitflags} e : entry_wf e -> valid (PageTableEntry_frame e).
Proof.
  intros He. unfold PageTableEntry_frame. destruct (contains _ _); [|by apply valid_Ret].
  apply valid_bind. intros a Ha. apply valid_fmap.
  intros f Hf.
  exact (PhysFrame_containing_valid a (PageTableEntry_addr_valid e He a Ha) f Hf).
Qed.

Lemma shifted_uN w x n : 0 <= w -> 0 <= n -> w + n <= 64 -> uN w x -> u64 (Z.shiftl x n).
Proof.
  intros Hw Hn Hwn [H0 H1]. rewrite Z.shiftl_mul_pow2 by done. unfold uN.
  pose proof (Z.pow_le_mono_r 2 (w + n) 64). rewrite Z.pow_add_r in * by done.
  pose proof (Z.pow_pos_nonneg 2 n). nia.
Qed.

Lemma handler_addr_valid {F} (e : IdtEntry F) : IdtEntry_wf e -> valid (IdtEntry_handler_addr e).
Proof.
  intros (Hl & _ & Hm & Hh). apply VirtAddr_new_truncate_valid.
  repeat apply lor_uN; try lia.
  - by apply (uN_mono 16).
  - by apply (shifted_uN 16).
  - by apply (shifted_uN 32).
Qed.

Lemma Msr_read_u64 m s : u64 (Msr_read m s).
Proof.
  apply lor_uN; [lia|by apply wrap_uN|]. by apply (uN_mono 32), wrap_uN.
Qed.

Lemma Cr2_read_valid s : Cpu_wf s -> valid (Cr2_read s).
Proof. intros Hs. apply VirtAddr_try_new_valid, (Hs CR2). Qed.

Lemma Cr3_read_raw_valid s : Cpu_wf s -> valid (Cr3_read_raw s).
Proof.
  intros Hs. apply valid_bind. intros a Ha. apply valid_bind. intros f Hf.
  apply valid_Ret. split; [|done].
  refine (PhysFrame_containing_valid a (PhysAddr_new_valid_inv _ _ a Ha) f Hf).
  by apply land_uN; [|apply (Hs CR3)|].
Qed.

Lemma Cr3_read_valid `{Bitflags} s : Cpu_wf s -> valid (Cr3_read s).
Proof.
  intros Hs. apply valid_bind. intros [f v] Hf. apply valid_Ret. split; [|done].
  exact (proj1 (Cr3_read_raw_valid s Hs _ Hf)).
Qed.

Lemma Pcid_new_valid x : 0 <= x -> valid (Pcid_new x).
Proof. intros Hx. unfold Pcid_new. destruct (Z.leb_spec 4096 x); [done|]. by split. Qed.

Lemma Cr3_read_pcid_valid s : Cpu_wf s -> valid (Cr3_read_pcid s).
Proof.
  intros Hs. apply valid_bind. intros [f v] Hf. apply valid_bind. intros p Hp.
  apply valid_Ret. split; [exact (proj1 (Cr3_read_raw_valid s Hs _ Hf))|].
  apply bind_Ret in Hf as (a & _ & Hf). apply bind_Ret in Hf as (g & _ & [= _ <-]).
  pose proof (Pcid_new_valid _ (proj1 (wrap_uN 16 (Z.land (s CR3) 0xFFF) ltac:(done)))) as Hv.
  destruct (Pcid_new _); [|done]. injection Hp as <-. exact Hv.
Qed.

Lemma ApicBase_read_raw_valid s : valid (ApicBase_read_raw s).
Proof.
  apply valid_bind. intros f Hf. apply valid_Ret. split; [|done].
  refine (PhysFrame_containing_valid _ (PhysAddr_new_truncate_valid_inv _ _) f Hf).
  apply Msr_read_u64.
Qed.

Lemma ApicBase_read_valid `{Bitflags} s : valid (ApicBase_read s).
Proof.
  apply valid_bind. intros [f v] Hf. apply valid_Ret. split; [|done].
  exact (proj1 (ApicBase_read_raw_valid s _ Hf)).
Qed.

#[export] Hint Resolve PageTableEntry_addr_valid PageTableEntry_frame_valid handler_addr_valid
  Msr_read_u64 Cr2_read_valid Cr3_read_raw_valid Cr3_read_valid Pcid_new_valid
  Cr3_read_pcid_valid ApicBase_read_raw_valid ApicBase_read_valid : valid.

Lemma Cet_read_valid `{Bitflags} s : valid (UCet_read s) /\ valid (SCet_read s).
Proof.
  assert (forall v, u64 v -> valid (a ← VirtAddr_new (Z.land v (bitnot 64 (SIZE Size4KiB - 1)));
    p ← Page_from_start_address a; legacy_bitmap ← unwrap_ok p;
    Ret (from_bits_truncate CetFlags_all v, legacy_bitmap : Page Size4KiB))) as Hread.
  { intros v Hv. apply valid_bind. intros a Ha. apply valid_bind. intros r Hr.
    apply valid_bind. intros p Hp. apply valid_Ret. split; [done|].
    assert (u64 (Z.land v (bitnot 64 (SIZE Size4KiB - 1)))) as Hu by by apply land_uN.
    pose proof (Page_from_start_valid a (VirtAddr_new_valid _ Hu a Ha) r Hr) as Hok.
    destruct r; [|done]. injection Hp as <-. exact Hok. }
  split; apply Hread, Msr_read_u64.
Qed.

Lemma Segment64_read_base_valid r {H : Segment64 r} s :
  canonical (mkVirtAddr (s (MSR (Segment64_BASE r)))) -> valid (Segment64_read_base r s).
Proof. intros Hc. unfold Segment64_read_base. destruct (fsgsbase_enabled s); [by apply valid_Ret|done]. Qed.

Lemma UCet_read_valid `{Bitflags} s : valid (UCet_read s).
Proof. exact (proj1 (Cet_read_valid s)). Qed.

Lemma SCet_read_valid `{Bitflags} s : valid (SCet_read s).
Proof. exact (proj2 (Cet_read_valid s)). Qed.

#[export] Hint Resolve Segment64_read_base_valid : valid.
#[export] Hint Extern 0 (valid (UCet_read _)) => exact (UCet_read_valid _) : valid.
#[export] Hint Extern 0 (valid (SCet_read _)) => exact (SCet_read_valid _) : valid.

(** ** Results of the mapped page table *)
Lemma entry_addr_phys e : phys_valid (entry_addr e) /\ pa (entry_addr e) mod SIZE Size4KiB = 0.
Proof.
  unfold phys_valid, entry_addr. cbn [pa]. split.
  - change ADDR_MASK with (Z.land ADDR_MASK (2 ^ 52 - 1)).
    rewrite Z.land_assoc, land_ones_mod by lia. by apply Z.mod_pos_bound.
  - change (SIZE Size4KiB) with (2 ^ 12). rewrite <- Z.land_ones, <- Z.land_assoc by lia.
    change (Z.land ADDR_MASK (Z.ones 12)) with 0. apply Z.land_0_r.
Qed.

Lemma frame_at_entry {S} e : PhysFrame_wf (frame_at (pa (entry_addr e) / SIZE S) : PhysFrame S).
Proof.
  apply frame_at_wf. destruct (entry_addr_phys e) as [Hv _]. unfold phys_valid in Hv.
  pose proof (frame_count_mul S). pose proof (SIZE_pos S).
  split; [apply Z.div_pos; lia|]. apply Z.div_lt_upper_bound; lia.
Qed.

Section mapper.
Context {P : Type} `{PageTableFrameMapping P} `{BL : BitflagsLaws} (self : MappedPageTable P).

Lemma unmap_valid {S} m (page : Page S) :
  mapper_valid self m -> valid page -> valid (fst <$> unmap self page m).
Proof.
  intros HV Hp. apply valid_fmap. intros [r m'] E. rewrite unmap_run in E by done.
  destruct (resolve _ m _ (page_pre page)) as [q|x] eqn:Eq; [|by simplify_eq].
  destruct (resolve_table _ m _ page q HV Hp Eq) as (_ & Ht & _).
  destruct (page_entry_get page m q Hp Ht) as (_ & He & _). unfold stores in E.
  destruct (unmap_entry S (page_entry m page q)) as [f|x] eqn:Eu; simplify_eq; [|done].
  split; [|done]. by apply (unmap_entry_Ok S _ f He) in Eu as (_ & _ & _ & _ & ?).
Qed.

Lemma translate_page_valid {S} m (page : Page S) :
  mapper_valid self m -> valid page -> valid (fst <$> translate_page self page m).
Proof.
  intros HV Hp. apply valid_fmap. intros [r m'] E. rewrite translate_page_run in E by done.
  injection E as <- _. destruct (resolve _ m _ (page_pre page)) as [q|x]; [|done].
  unfold translate_entry. destruct (entry _ =? 0); [done|].
  destruct (Z.eqb_spec (pa (entry_addr (page_entry m page q)) mod SIZE S) 0); [|done].
  split; [apply entry_addr_phys|done].
Qed.

Lemma translate_valid m a : mapper_valid self m -> valid a -> valid (translate self m a).
Proof.
  intros HV Ha. rewrite translate_run by done. apply valid_Ret.
  destruct (view _ m _ (addr_path a)) as [[[|[|[|d]]] e]|]; cbn [translate_view]; [done| | | |done].
  1, 2: destruct (is_huge e); [|done].
  all: split; [|by apply Z.mod_pos_bound]; try apply (frame_at_entry e).
  exact (entry_addr_phys e).
Qed.
End mapper.

Lemma MappedFrame_start_valid f : valid f -> valid (MappedFrame_start_address f).
Proof. by destruct f; intros []. Qed.

#[export] Hint Resolve unmap_valid translate_page_valid translate_valid MappedFrame_start_valid : valid.

(** ** The values of a program without [unsafe]

    A program gets values from the safe functions of the crate, applied to
    integers and to values it has.  What a call returns is taken apart by the
    first five rules.  [count] is the [usize] of the [Step] functions; entries
    and gates are any bit patterns, and registers any contents. *)
Inductive obtained `{BitField} `{Bitflags} `{Target} : forall {A : Type} `{Invariant A}, A -> Prop :=
  | got_Ret `{Invariant A} (o : outcome A) x : obtained o -> o = Ret x -> obtained x
  | got_Ok {E} `{Invariant A} (r : result A E) x : obtained r -> r = Ok x -> obtained x
  | got_Some `{Invariant A} (o : option A) x : obtained o -> o = Some x -> obtained x
  | got_fst `{Invariant A, Invariant B} (p : A * B) : obtained p -> obtained (fst p)
  | got_snd `{Invariant A, Invariant B} (p : A * B) : obtained p -> obtained (snd p)
  (* VirtAddr *)
  | got_virt_new x : u64 x -> obtained (VirtAddr_new x)
  | got_virt_try_new x : u64 x -> obtained (VirtAddr_try_new x)
  | got_virt_new_truncate x : u64 x -> obtained (VirtAddr_new_truncate x)
  | got_virt_zero : obtained VirtAddr_zero
  | got_virt_from_ptr p : u64 p -> obtained (VirtAddr_from_ptr p)
  | got_virt_align_up a align : obtained a -> u64 align -> obtained (VirtAddr_align_up a align)
  | got_virt_align_down a align : obtained a -> u64 align -> obtained (VirtAddr_align_down a align)
  | got_virt_add a n : obtained a -> u64 n -> obtained (VirtAddr_add a n)
  | got_virt_add_assign a n : obtained a -> u64 n -> obtained (VirtAddr_add_assign a n)
  | got_virt_sub a n : obtained a -> u64 n -> obtained (VirtAddr_sub a n)
  | got_virt_sub_assign a n : obtained a -> u64 n -> obtained (VirtAddr_sub_assign a n)
  | got_virt_forward a count : obtained a -> uN usize_bits count -> obtained (VirtAddr_forward_checked a count)
  | got_virt_backward a count : obtained a -> uN usize_bits count -> obtained (VirtAddr_backward_checked a count)
  | got_virt_page {S} (p : Page S) : obtained p -> obtained (Page_start_address p)
  | got_virt_handler {F} (e : IdtEntry F) : IdtEntry_wf e -> obtained (IdtEntry_handler_addr e)
  | got_virt_cr2 s : Cpu_wf s -> obtained (Cr2_read s)
  | got_virt_fs s : Cpu_wf s -> obtained (FsBase_read s)
  | got_virt_gs s : Cpu_wf s -> obtained (GsBase_read s)
  | got_virt_kernel_gs s : Cpu_wf s -> obtained (KernelGsBase_read s)
  | got_virt_lstar s : Cpu_wf s -> obtained (LStar_read s)
  (* PhysAddr *)
  | got_phys_new x : u64 x -> obtained (PhysAddr_new x)
  | got_phys_try_new x : u64 x -> obtained (PhysAddr_try_new x)
  | got_phys_new_truncate x : u64 x -> obtained (PhysAddr_new_truncate x)
  | got_phys_zero : obtained PhysAddr_zero
  | got_phys_align_up a align : obtained a -> u64 align -> obtained (PhysAddr_align_up a align)
  | got_phys_align_down a align : obtained a -> u64 align -> obtained (PhysAddr_align_down a align)
  | got_phys_add a n : obtained a -> u64 n -> obtained (PhysAddr_add a n)
  | got_phys_add_assign a n : obtained a -> u64 n -> obtained (PhysAddr_add_assign a n)
  | got_phys_sub a n : obtained a -> u64 n -> obtained (PhysAddr_sub a n)
  | got_phys_sub_assign a n : obtained a -> u64 n -> obtained (PhysAddr_sub_assign a n)
  | got_phys_frame {S} (f : PhysFrame S) : obtained f -> obtained (PhysFrame_start_address f)
  | got_phys_entry e : entry_wf e -> obtained (PageTableEntry_addr e)
  (* Page *)
  | got_page_containing {S} a : obtained a -> obtained (Page_containing_address a : outcome (Page S))
  | got_page_from_start {S} a :
      obtained a -> obtained (Page_from_start_address a : outcome (result (Page S) AddressNotAligned))
  | got_page_1gib i j : obtained i -> obtained j -> obtained (Page_from_page_table_indices_1gib i j)
  | got_page_2mib i j k :
      obtained i -> obtained j -> obtained k -> obtained (Page_from_page_table_indices_2mib i j k)
  | got_page_4kib i j k l : obtained i -> obtained j -> obtained k -> obtained l ->
      obtained (Page_from_page_table_indices i j k l)
  | got_page_add {S} (p : Page S) n : obtained p -> u64 n -> obtained (Page_add p n)
  | got_page_add_assign {S} (p : Page S) n : obtained p -> u64 n -> obtained (Page_add_assign p n)
  | got_page_sub {S} (p : Page S) n : obtained p -> u64 n -> obtained (Page_sub p n)
  | got_page_sub_assign {S} (p : Page S) n : obtained p -> u64 n -> obtained (Page_sub_assign p n)
  | got_page_forward {S} (p : Page S) count :
      obtained p -> uN usize_bits count -> obtained (Page_forward_checked_impl p count)
  | got_page_backward {S} (p : Page S) count :
      obtained p -> uN usize_bits count -> obtained (Page_backward_checked p count)
  | got_page_range {S} (p q : Page S) : obtained p -> obtained q -> obtained (Page_range p q)
  | got_page_range_next {S} (r : PageRange S) : obtained r -> obtained (PageRange_next r)
  | got_page_range_4kib (r : PageRange Size2MiB) : obtained r -> obtained (PageRange_as_4kib_page_range r)
  | got_page_range_inclusive {S} (p q : Page S) :
      obtained p -> obtained q -> obtained (Page_range_inclusive p q)
  | got_page_range_inclusive_next {S} (r : PageRangeInclusive S) :
      obtained r -> obtained (PageRangeInclusive_next r)
  (* PhysFrame *)
  | got_frame_containing {S} a :
      obtained a -> obtained (PhysFrame_containing_address a : outcome (PhysFrame S))
  | got_frame_from_start {S} a :
      obtained a -> obtained (PhysFrame_from_start_address a : outcome (result (PhysFrame S) AddressNotAligned))
  | got_frame_add {S} (f : PhysFrame S) n : obtained f -> u64 n -> obtained (PhysFrame_add f n)
  | got_frame_add_assign {S} (f : PhysFrame S) n : obtained f -> u64 n -> obtained (PhysFrame_add_assign f n)
  | got_frame_sub {S} (f : PhysFrame S) n : obtained f -> u64 n -> obtained (PhysFrame_sub f n)
  | got_frame_sub_assign {S} (f : PhysFrame S) n : obtained f -> u64 n -> obtained (PhysFrame_sub_assign f n)
  | got_frame_range {S} (f g : PhysFrame S) : obtained f -> obtained g -> obtained (PhysFrame_range f g)
  | got_frame_range_next {S} (r : PhysFrameRange S) : obtained r -> obtained (PhysFrameRange_next r)
  | got_frame_range_inclusive {S} (f g : PhysFrame S) :
      obtained f -> obtained g -> obtained (PhysFrame_range_inclusive f g)
  | got_frame_range_inclusive_next {S} (r : PhysFrameRangeInclusive S) :
      obtained r -> obtained (PhysFrameRangeInclusive_next r)
  | got_frame_entry e : entry_wf e -> obtained (PageTableEntry_frame e)
  | got_frame_cr3_raw s : Cpu_wf s -> obtained (Cr3_read_raw s)
  | got_frame_cr3 s : Cpu_wf s -> obtained (Cr3_read s)
  | got_frame_cr3_pcid s : Cpu_wf s -> obtained (Cr3_read_pcid s)
  | got_frame_apic_raw s : Cpu_wf s -> obtained (ApicBase_read_raw s)
  | got_frame_apic s : Cpu_wf s -> obtained (ApicBase_read s)
  (* PageTableIndex, PageOffset, Pcid *)
  | got_index_new x : u16 x -> obtained (PageTableIndex_new x)
  | got_index_new_truncate x : u16 x -> obtained (PageTableIndex_new_truncate x)
  | got_index_forward i count :
      obtained i -> uN usize_bits count -> obtained (PageTableIndex_forward_checked i count)
  | got_index_backward i count :
      obtained i -> uN usize_bits count -> obtained (PageTableIndex_backward_checked i count)
  | got_index_p1 a : obtained a -> obtained (VirtAddr_p1_index a)
  | got_index_p2 a : obtained a -> obtained (VirtAddr_p2_index a)
  | got_index_p3 a : obtained a -> obtained (VirtAddr_p3_index a)
  | got_index_p4 a : obtained a -> obtained (VirtAddr_p4_index a)
  | got_index_level a l : obtained a -> obtained (VirtAddr_page_table_index a l)
  | got_page_p1 p : obtained p -> obtained (Page_p1_index p)
  | got_page_p2 {S} `{NotGiantPageSize S} (p : Page S) : obtained p -> obtained (Page_p2_index p)
  | got_page_p3 {S} (p : Page S) : obtained p -> obtained (Page_p3_index p)
  | got_page_p4 {S} (p : Page S) : obtained p -> obtained (Page_p4_index p)
  | got_page_level {S} (p : Page S) l : obtained p -> obtained (Page_page_table_index p l)
  (* Registers of the processor that the crate trusts *)
  | got_ucet s : Cpu_wf s -> obtained (UCet_read s)
  | got_scet s : Cpu_wf s -> obtained (SCet_read s)
  | got_rip rip : u64 rip -> obtained (read_rip rip)
  | got_base r {HS : Segment64 r} s :
      canonical (mkVirtAddr (s (MSR (Segment64_BASE r)))) -> obtained (Segment64_read_base r s)
  | got_sgdt s : canonical (mkVirtAddr (field (s GDTR) 16 80)) -> obtained (dtp_base (sgdt s))
  | got_sidt s : canonical (mkVirtAddr (field (s IDTR) 16 80)) -> obtained (dtp_base (sidt s))
  (* The mapped page table on a valid hierarchy, and promises *)
  | got_unmap {P} `{PageTableFrameMapping P} {S} (self : MappedPageTable P) m (p : Page S) :
      mapper_valid self m -> obtained p -> obtained (fst <$> unmap self p m)
  | got_translate_page {P} `{PageTableFrameMapping P} {S} (self : MappedPageTable P) m (p : Page S) :
      mapper_valid self m -> obtained p -> obtained (fst <$> translate_page self p m)
  | got_translate {P} `{PageTableFrameMapping P} (self : MappedPageTable P) m a :
      mapper_valid self m -> obtained a -> obtained (translate self m a)
  | got_mapped r f o fl : obtained r -> r = Mapped f o fl -> obtained f
  | got_mapped_4kib (f : PhysFrame Size4KiB) : obtained (MappedSize4KiB f) -> obtained f
  | got_mapped_2mib (f : PhysFrame Size2MiB) : obtained (MappedSize2MiB f) -> obtained f
  | got_mapped_1gib (f : PhysFrame Size1GiB) : obtained (MappedSize1GiB f) -> obtained f
  | got_mapped_start f : obtained f -> obtained (MappedFrame_start_address f)
  | got_flush {S} (p : Page S) : obtained p -> obtained (MapperFlush_new p)
  | got_flush_page {S} (f : MapperFlush S) : obtained f -> obtained (MapperFlush_page f)
  | got_offset_new x : u16 x -> obtained (PageOffset_new x)
  | got_offset_new_truncate x : u16 x -> obtained (PageOffset_new_truncate x)
  | got_offset a : obtained a -> obtained (VirtAddr_page_offset a)
  | got_pcid x : u16 x -> obtained (Pcid_new x).

Lemma usize_u64 `{TargetOk} x : uN usize_bits x -> u64 x.
Proof. apply uN_mono. destruct target_usize; lia. Qed.

Lemma unsigned_nonneg w x : uN w x -> 0 <= x.
Proof. by intros []. Qed.
#[export] Hint Resolve usize_u64 unsigned_nonneg : valid.

(** C15. Type invariant.  Every value that a program gets from the functions
    listed in [obtained] satisfies the invariant of its type: addresses are
    canonical or below 2^52, pages and frames are such addresses aligned to their
    size, ranges have such ends also while they are iterated over, table indices
    are below 512, page offsets and PCIDs below 4096.  The list has the safe
    constructors, conversions, operators, Step functions and iterators of these
    types, for all arguments; the values read from page table entries, gates and
    from CR2, CR3 and the model specific registers, for all their contents; from
    read_base, sgdt and sidt, which trust the processor, for registers that hold
    canonical addresses; and from unmap, translate_page and translate of a
    MappedPageTable with a valid hierarchy.  Not covered: the recursive page
    table, frames of an allocator, stack frames of interrupts. *)
Theorem obtained_valid `{BFL : BitFieldLaws} `{BL : BitflagsLaws} `{TargetOk} `{Invariant A} (x : A) :
  obtained x -> valid x.
Proof.
  induction 1; subst; solve [eauto 4 with valid | by split | by destruct IHobtained].
Qed.

(** A page start computed by alignment crosses the gap. *)
Lemma obtained_valid_witness :
  let T := {| overflow_checks := true; usize_bits := 64 |} in
  let a := mkVirtAddr 0x7fffffffffff in
  VirtAddr_align_up a 4096 = Ret (mkVirtAddr 0xffff800000000000) /\
  valid (mkVirtAddr 0xffff800000000000).
Proof.
  intros T a. assert (VirtAddr_align_up a 4096 = Ret (mkVirtAddr 0xffff800000000000)) as E
    by (vm_compute; reflexivity).
  assert (forall x, 0 <= x <= 0x7fffffffffff -> u64 x) as Hu by (intros; unfold uN; lia).
  split; [exact E|].
  apply (obtained_valid (BFL := ref_bit_field_laws) (BL := ref_bitflags_laws) (T := T) (H := or_intror eq_refl)
    (mkVirtAddr 0xffff800000000000)).
  apply (got_Ret _ _ (got_virt_align_up a 4096
    (got_Ret _ _ (got_virt_new 0x7fffffffffff (Hu 0x7fffffffffff ltac:(lia))) eq_refl)
    (Hu 4096 ltac:(lia))) E).
Defined.
